(* ===== verification/_CoqProject ===== *)
-Q . S2P
Prelude.v
External.v
Text.v
Core.v
Chain.v
ChainFacts.v
ChainSpec.v
ChainView.v
ChainViewFacts.v
ChainViewSpec.v
Index.v
IndexSpec.v
Query.v
QuerySpec.v
Encoding.v
EncodingSpec.v
FragmentAccess.v
FilterBlock.v
FilterOrder.v
FilterBlockFacts.v
FilterBlockSpec.v
Cloud.v
StateClient.v
StateClientFacts.v
StateClientSpec.v
ObjectStore.v
ChainStore.v
BlockStore.v
StoreFacts.v
StoreSpec.v
Compaction.v
CompactionFacts.v
GroupFacts.v
CompactionSpec.v
CompactionService.v
CompactionServiceFacts.v
CompactionServiceSpec.v
Ingestion.v
IngestionFacts.v
IngestionSystem.v
IngestionSpec.v
DataStream.v
DataStreamFacts.v
SegmentStreamFacts.v
StreamTaskFacts.v
StreamFinalityFacts.v
StreamProgressFacts.v
DataStreamSpec.v
Lock.v
LockSpec.v
CompactionLoop.v
CompactionLoopSpec.v
ObjectClients.v
ObjectClientsSpec.v
ChainSync.v
ChainSyncSpec.v
Server.v
ServerSpec.v
StreamPool.v
StreamPoolSpec.v
Models.v
Starknet.v
StarknetProto.v
StarknetFilter.v
StarknetIngestion.v
StarknetFacts.v
StarknetTables.v
StarknetBlock.v
StarknetQuery.v
StarknetNode.v
StarknetSpec.v
Canon.v
CanonSpec.v
Wire.v
WireSpec.v
Start.v
StartSpec.v
StarknetStart.v
