(* ===== verification/Prelude.v ===== *)
(** * Verification of starkstream-dna

    The program streams the data of a blockchain to clients.  One ingester reads
    blocks from a node, writes each to an object store and keeps the canonical
    chain, with the blocks that reorganisations removed, in segments of the
    chain; the coordination state (how far the ingestion is, where the recent
    segment is) is in etcd.  A compactor joins the finalized blocks into segments
    and groups with indexes, and prunes the single blocks.  Servers follow the
    coordination state in a view of the chain and answer clients, each with a
    task that walks the chain, filters every block and sends what matches.  The
    data of a Starknet node, its filters and its tables are one instance of this.

    ** Files and sources (under src/)

    - Prelude: outcomes (a value, an error or a panic), programs with a state,
      their specifications, machine integers, ordered maps, tactics and hints.
      External and Text: interfaces to the serialisation, bitmap and hashing
      libraries; decimal and hexadecimal text.
    - Core, Chain, ChainFacts, ChainSpec: common/src/core.rs and chain.rs.  The
      state [building] has the fields of the builder; grow, shrink, take_segment,
      restore_from_segment, current_segment, canonical, siblings and reconnect
      are functions of the same names.
    - ChainView, ChainViewFacts, ChainViewSpec: chain_view/full.rs and view.rs.
    - Index, Query, Encoding, FragmentAccess, FilterBlock, FilterOrder (the order
      of hash sets does not matter) and their Spec and Facts files: index.rs, join.rs, fragment.rs, query.rs, segment.rs,
      data_stream/filter.rs, fragment_access.rs, segment_access.rs, and the
      filtering and encoding of a block in data_stream/stream.rs.
    - Cloud: what etcd, the object store and the file cache promise.  StateClient:
      etcd/src/kv.rs and utils.rs, ingestion/state_client.rs, options_store.rs.
      ObjectStore, ChainStore, BlockStore: object_store/mod.rs, chain_store.rs,
      block_store.rs.  ObjectClients: the clients for S3, Azure and Google Cloud
      Storage in object_store.
    - Compaction, CompactionService, CompactionLoop: compaction/segment_builder.rs
      and group_builder.rs; segment.rs, group.rs, prune.rs and the options; their
      loops and service.rs.
    - Ingestion, IngestionSystem: ingestion/service.rs, error.rs and mod.rs, and
      the transition system of ticks, tasks, failures, restarts and other
      writers.  Lock: etcd/src/lock.rs, and the loops around both services.
    - DataStream and its Facts files: data_stream/stream.rs, segment_stream.rs.
    - ChainSync, Server, StreamPool: chain_view/sync.rs and etcd/src/watch.rs;
      server/service.rs and stream_with_heartbeat.rs, and the tables of lib.rs;
      the requests that a server handles at the same time.
    - Start, StarknetStart: run_server in common/src/lib.rs, cli.rs and the cli.rs
      of the services, file_cache.rs, etcd/src/client.rs; starknet/src/cli/start.rs
      and rpc.rs.  Wire: protocol/src/dna.rs.
    - Models, Starknet, StarknetProto, StarknetFilter, StarknetIngestion, and the
      files that relate them (StarknetFacts, StarknetTables, StarknetBlock,
      StarknetQuery, StarknetNode, StarknetSpec): starknet/src/provider, proto.rs,
      filter, fragment.rs, ingestion.rs and the messages of the protocol.
    - Canon: starknet/src/cli/canon.rs, the recovery from a deep reorganisation.

    A file X has the definitions, XFacts the lemmas, XSpec the properties with a
    witness for each at concrete inputs.  A fallible function returns [outcome];
    a handler is a [prog S E A], which takes a state and returns an outcome and
    the state it leaves; u64 arithmetic wraps ([add64], [sub64], [wrap64]); maps
    iterated in key order are [gmap] with [btree_iter].

    ** What is proved

    - Chain: the builder succeeds with an operation exactly when a ledger of the
      history allows it, without a panic, and its segments answer as the ledger; a
      restart forgets the extra reorgs.  A chain split into segments answers as
      one, and validates the cursors of clients.  The recovery tool writes the
      chain up to the new head.
    - Filtering: a block is filtered to exactly the rows that a reference
      definition selects, with their joins; the answer from segments is the same
      but for the order of the filter ids of an item; the index of a group never
      hides a block; a built index returns what was put in.
    - State and stores: concurrent conditional puts never move a block backwards;
      what is stored is what is read, whenever the requests are answered; a client
      that follows cursors over the stored segments visits the chain, or a beginning
      of it when a request fails.  The clients of the three services keep
      the contract that the stores rely on.
    - Ingestion: in every reachable state of the system, under failures and
      restarts, the blocks of the published chain that may not be pruned are
      stored, blocks are ingested in order, recovery ends at the last block that
      the node agrees on, and a new block is published.  Compaction publishes only
      what is stored, pruning deletes only what is grouped (and blocks from 10^10
      on with the same first digits), and both are steps that the ingestion allows.
      The segment and the group service wait for the right change.  A lock granted
      in time is kept; one granted late is lost; services run with the stored sizes
      only.
    - Stream: under any interleaving with the other services a client receives
      data and invalidations that follow the chain, all the blocks of it and each
      once, only finalized data if it asked for that; the segment stream ends and
      advances.  The view of a server follows the changes that its watch
      delivers; a request becomes a stream exactly when it is valid; heartbeats
      do not disturb the data.  The permits of a server are those of its streams,
      and none is lost; cursors survive their JSON form when their text is lent.
    - Start: the token of etcd is renewed in time.
    - Starknet: any block of the node in range is stored and read back; for any
      accepted request the client receives what the request asks of that block (and
      more, when an event filter has more than four keys); events lead back to their transactions; requests are checked; what the
      ingestion answers to every failure of the node.

    ** Interfaces and hypotheses

    Code outside src/ is a class with its documented behaviour as laws: [Archive],
    [Roaring], [Prost], [SerdeJson], [Codec] and [Sha256] (libraries), [Cloud]
    (services: nothing is assumed about which requests fail, and a failed write
    may have happened), [S3Service], [AzureService], [GcsService], [FileSystem],
    [NodeClient] with [NodeClientLaws], [StarknetEncoding], [FilterDecoding] and
    [WsJson], and the timers, channels and choices of the runtime ([StreamOps],
    [ClientOps], [ServerOps], [SyncOps], [LockOps], [LoopOps]), with
    the semaphore of a server ([Semaphore] with [SemaphoreLaws]); [StartOps] and
    [HttpLibrary] are the parsers and constructors that the start calls.  Between components,
    [ChainViewOps]/[ChainViewLaws], [ChainStoreOps]/[ChainStoreLaws],
    [BlockIngestion]/[BlockIngestionLaws] and [StreamLaws] state what one promises
    to the other; the Starknet node discharges [BlockIngestionLaws].  Every class
    has an instance, with which the witnesses evaluate.

    ** Fuel

    Loops that wait or retry take fuel and say when it ran out.  It is enough:
    for a recovery, the number of blocks in the builder; for pruning, the number
    of blocks to prune; for the segment stream, more than 2^32; for keeping a
    lock, more than the refreshes and ticks to come.  The retry of a conditional
    put is a step relation over single requests instead.  The loops of services,
    streams and syncs run until cancelled: their theorems hold for every fuel.

    ** Not modelled

    What is left is glue around other systems, with no state or decision of its own
    to verify: the gRPC transport and the codecs of the libraries, the parser of the
    command line and the signal handler, logs, traces and metrics, which no
    operation reads, the tests, and the debugging and benchmark tools, which print
    what modelled operations return.  Of the compactor, the concurrent run of its
    three loops: each of their iterations is on its own a step that the system in
    IngestionSystem allows.  Of the recovery tool, the listing of a segment, which
    only prints.  The laws of
    [Cloud] for objects and those proved of ObjectClients are stated apart and not
    joined in one instance: [Cloud] speaks of every version, the clients only of
    versions that their service issued.  A change that a stream misses just before
    it waits at the head is an environment that does not wake it, so that the
    theorems on streams say what is sent and not when. *)

From Stdlib Require Export ZArith Lia Strings.Byte.
From stdpp Require Export base gmap list sorting strings.

#[export] Set Default Goal Selector "!".

Declare Scope dna_scope.
Delimit Scope dna_scope with dna.
Open Scope Z_scope.

Create HintDb dna.

(** ** Outcomes of a computation

    A Rust function that returns [Result<A, E>] ends in [Ok] or [Err]; it can
    also abort the task by an index out of range, an [assert!] or an
    [expect], which is [Panic]. *)

Inductive outcome (E A : Type) : Type :=
| Ok (a : A)
| Err (e : E)
| Panic.

Arguments Ok {E A} a.
Arguments Err {E A} e.
Arguments Panic {E A}.

#[export] Instance outcome_ret {E} : MRet (outcome E) := fun A a => Ok a.

#[export] Instance outcome_bind {E} : MBind (outcome E) := fun A B f m =>
  match m with
  | Ok a => f a
  | Err e => Err e
  | Panic => Panic
  end.

#[export] Instance outcome_fmap {E} : FMap (outcome E) := fun A B f m =>
  match m with
  | Ok a => Ok (f a)
  | Err e => Err e
  | Panic => Panic
  end.

(** [change_context] of error_stack: the error is replaced, its attachments
    are only text. *)
Definition change_context {E E' A} (e : E') (m : outcome E A) : outcome E' A :=
  match m with
  | Ok a => Ok a
  | Err _ => Err e
  | Panic => Panic
  end.

Definition is_ok {E A} (m : outcome E A) : bool :=
  match m with Ok _ => true | _ => false end.

(** [Option::ok_or]. *)
Definition ok_or {E A} (e : E) (o : option A) : outcome E A :=
  match o with Some a => Ok a | None => Err e end.

(** Indexing a slice or a [Vec]: out of range panics. *)
Definition index_vec {E A} (l : list A) (i : Z) : outcome E A :=
  if Z.ltb i 0 then Panic
  else match l !! Z.to_nat i with Some a => Ok a | None => Panic end.

(** A loop over a list that stops at the first error. *)
Fixpoint ofold {E A B} (f : B -> A -> outcome E B) (b : B) (l : list A) : outcome E B :=
  match l with
  | [] => Ok b
  | x :: l => b ← f b x; ofold f b l
  end.

(** A loop that collects its results. *)
Fixpoint omapM {E A B} (f : A -> outcome E B) (l : list A) : outcome E (list B) :=
  match l with
  | [] => Ok []
  | x :: l => y ← f x; ys ← omapM f l; Ok (y :: ys)
  end.

Section outcome_lemmas.
Context {E A B : Type}.

Lemma bind_Ok (m : outcome E A) (f : A -> outcome E B) b :
  mbind f m = Ok b <-> exists a, m = Ok a /\ f a = Ok b.
Proof. destruct m; simpl; naive_solver. Qed.

Lemma bind_Ok_l (a : A) (f : A -> outcome E B) : mbind f (Ok a) = f a.
Proof. done. Qed.

Lemma bind_no_panic (m : outcome E A) (f : A -> outcome E B) :
  m <> Panic -> (forall a, m = Ok a -> f a <> Panic) -> mbind f m <> Panic.
Proof. destruct m; simpl; naive_solver. Qed.

Lemma change_context_Ok {E'} (e : E') (m : outcome E A) a :
  change_context e m = Ok a <-> m = Ok a.
Proof. destruct m; simpl; naive_solver. Qed.

Lemma change_context_Err {E'} (e e' : E') (m : outcome E A) :
  change_context e m = Err e' <-> e' = e /\ exists e0, m = Err e0.
Proof. destruct m; simpl; naive_solver. Qed.

Lemma change_context_Panic {E'} (e : E') (m : outcome E A) :
  change_context e m = Panic <-> m = Panic.
Proof. destruct m; simpl; naive_solver. Qed.

Lemma ok_or_Ok (e : E) (o : option A) a : ok_or e o = Ok a <-> o = Some a.
Proof. destruct o; simpl; naive_solver. Qed.

Lemma index_vec_Ok (l : list A) i a :
  (index_vec l i : outcome E A) = Ok a <-> 0 <= i /\ l !! Z.to_nat i = Some a.
Proof.
  unfold index_vec. destruct (Z.ltb_spec i 0); [naive_solver lia|].
  destruct (l !! Z.to_nat i) eqn:Hl; naive_solver.
Qed.

Lemma index_vec_in_range (l : list A) i :
  0 <= i < Z.of_nat (length l) ->
  exists a, l !! Z.to_nat i = Some a /\ (index_vec l i : outcome E A) = Ok a.
Proof.
  intros Hi. destruct (lookup_lt_is_Some_2 l (Z.to_nat i)) as [a Ha]; [lia|].
  exists a. split; [done|]. apply index_vec_Ok. split; [lia|done].
Qed.

(** A loop whose body always returns, with an invariant on the elements that
    were visited. *)
Lemma ofold_inv (P : list A -> B -> Prop) (f : B -> A -> outcome E B) (l : list A) (b0 : B) :
  P [] b0 ->
  (forall pre x post b, l = pre ++ x :: post -> P pre b ->
     exists b', f b x = Ok b' /\ P (pre ++ [x]) b') ->
  exists b, ofold f b0 l = Ok b /\ P l b.
Proof.
  intros H0 Hstep.
  assert (forall post pre b, l = pre ++ post -> P pre b ->
            exists b', ofold f b post = Ok b' /\ P l b') as Hgen.
  { induction post as [|x post IH]; intros pre b -> Hb.
    - rewrite app_nil_r in *. by exists b.
    - destruct (Hstep pre x post b eq_refl Hb) as (b1 & Hf & Hb1).
      simpl. rewrite Hf. simpl. apply (IH (pre ++ [x])); [|done]. by rewrite <- (assoc_L (++)). }
  by apply (Hgen l []).
Qed.

Lemma omapM_ok (f : A -> outcome E B) (g : A -> B) l :
  (forall x, x ∈ l -> f x = Ok (g x)) -> omapM f l = Ok (g <$> l).
Proof.
  induction l as [|x l IH]; intros Hf; [done|]. simpl. rewrite Hf by set_solver. simpl.
  rewrite IH by set_solver. done.
Qed.

End outcome_lemmas.

Section loop_lemmas.
Context {E A B : Type}.

(** An invariant of a loop that returned. *)
Lemma ofold_Ok_inv (P : B -> Prop) (f : B -> A -> outcome E B) (l : list A) (b0 b : B) :
  P b0 -> (forall x b b', x ∈ l -> P b -> f b x = Ok b' -> P b') -> ofold f b0 l = Ok b -> P b.
Proof.
  revert b0. induction l as [|x l IH]; intros b0 H0 Hstep; simpl; [naive_solver|].
  intros (b1 & Hf & Hl)%bind_Ok. apply (IH b1); [|set_solver|done].
  apply (Hstep x b0); [set_solver|done|done].
Qed.

Lemma ofold_ext (f g : B -> A -> outcome E B) (l : list A) (b0 : B) :
  (forall x b, x ∈ l -> f b x = g b x) -> ofold f b0 l = ofold g b0 l.
Proof.
  revert b0. induction l as [|x l IH]; intros b0 Heq; simpl; [done|].
  rewrite Heq by set_solver. destruct (g b0 x); simpl; [|done|done]. apply IH. set_solver.
Qed.

Lemma omapM_ext (f g : A -> outcome E B) (l : list A) :
  (forall x, x ∈ l -> f x = g x) -> omapM f l = omapM g l.
Proof.
  induction l as [|x l IH]; intros Heq; simpl; [done|].
  rewrite Heq by set_solver. by rewrite IH by set_solver.
Qed.

Lemma omapM_Ok (f : A -> outcome E B) l l' :
  omapM f l = Ok l' <-> Forall2 (fun x y => f x = Ok y) l l'.
Proof.
  revert l'. induction l as [|x l IH]; intros l'; simpl.
  { split; [intros [= <-]; constructor | intros Hf; by apply Forall2_nil_inv_l in Hf as ->]. }
  rewrite bind_Ok. split.
  - intros (y & Hy & (ys & Hys & [= <-])%bind_Ok). constructor; [done|]. by apply IH.
  - intros (y & ys & Hy & Hys & ->)%Forall2_cons_inv_l. exists y. split; [done|].
    apply IH in Hys. by rewrite Hys.
Qed.

End loop_lemmas.

#[export] Hint Rewrite @bind_Ok @change_context_Ok @change_context_Err
  @change_context_Panic @ok_or_Ok @index_vec_Ok : dna.

(** Inverts the hypotheses that say that a computation returned. *)
Ltac invert_ok :=
  repeat match goal with
  | H : Ok _ = Ok _ |- _ => injection H as H; subst
  | H : Err _ = Err _ |- _ => injection H as H; subst
  | H : Ok _ = Err _ |- _ => discriminate H
  | H : Err _ = Ok _ |- _ => discriminate H
  | H : Panic = _ |- _ => discriminate H
  | H : _ = Panic |- _ => discriminate H
  | H : mbind _ _ = Ok _ |- _ => apply bind_Ok in H; destruct H as (? & ? & ?)
  | H : change_context _ _ = Ok _ |- _ => apply change_context_Ok in H
  | H : ok_or _ _ = Ok _ |- _ => apply ok_or_Ok in H
  end.

(** ** Programs with effects

    A handler takes a state and ends in an outcome and a state.  The effects
    made before an error stay, as they do in the code. *)

Definition prog (S E A : Type) : Type := S -> outcome E A * S.

#[export] Instance prog_ret {S E} : MRet (prog S E) := fun A a s => (Ok a, s).

#[export] Instance prog_bind {S E} : MBind (prog S E) := fun A B f m s =>
  match m s with
  | (Ok a, s') => f a s'
  | (Err e, s') => (Err e, s')
  | (Panic, s') => (Panic, s')
  end.

Definition get_state {S E} : prog S E S := fun s => (Ok s, s).
Definition modify {S E} (f : S -> S) : prog S E unit := fun s => (Ok tt, f s).
Definition fail {S E A} (e : E) : prog S E A := fun s => (Err e, s).
Definition lift {S E A} (m : outcome E A) : prog S E A := fun s => (m, s).

Section prog_lemmas.
Context {S E A B : Type}.

Lemma prog_bind_Ok (m : prog S E A) (f : A -> prog S E B) s b s' :
  mbind f m s = (Ok b, s') <->
  exists a s1, m s = (Ok a, s1) /\ f a s1 = (Ok b, s').
Proof.
  unfold mbind, prog_bind. destruct (m s) as [[a|e|] s1]; naive_solver.
Qed.

Lemma bind_eq (m : prog S E A) (f : A -> prog S E B) s :
  mbind f m s = match m s with (Ok a, s') => f a s' | (Err e, s') => (Err e, s') | (Panic, s') => (Panic, s') end.
Proof. reflexivity. Qed.

Lemma prog_bind_run (m : prog S E A) (f : A -> prog S E B) s a s1 :
  m s = (Ok a, s1) -> mbind f m s = f a s1.
Proof. unfold mbind, prog_bind. by intros ->. Qed.

End prog_lemmas.

(** [change_context] on the error of a program. *)
Definition pcontext {S E E' A} (e : E') (m : prog S E A) : prog S E' A := fun s =>
  let '(r, s') := m s in (change_context e r, s').

(** The outcome of a program as a value: [match m.await { Ok .. Err .. }]. *)
Definition try {S E E' A} (m : prog S E A) : prog S E' (outcome E A) := fun s =>
  match m s with
  | (Panic, s') => (Panic, s')
  | (r, s') => (Ok r, s')
  end.

(** A program on a part of the state. *)
Definition zoom {S T E A} (get : T -> S) (set : S -> T -> T) (m : prog S E A) : prog T E A :=
  fun t => let '(r, s') := m (get t) in (r, set s' t).

(** ** Specifications of programs

    [triple P m Q R]: started in a state with [P], if the program returns a
    value then the value and the state satisfy [Q], and if it fails or panics
    the state it leaves satisfies [R]. *)

Definition triple {S E A} (P : S -> Prop) (m : prog S E A) (Q : A -> S -> Prop)
    (R : S -> Prop) : Prop :=
  forall s, P s ->
    match m s with
    | (Ok a, s') => Q a s'
    | (_, s') => R s'
    end.

Section triple_lemmas.
Context {S E A B : Type}.
Implicit Types (P R : S -> Prop).

Lemma triple_ret P R (a : A) : triple (E := E) P (mret a) (fun x s => x = a /\ P s) R.
Proof. by intros s Hs. Qed.

Lemma triple_bind P (m : prog S E A) (f : A -> prog S E B) (Q : A -> S -> Prop) Q' R :
  triple P m Q R -> (forall a, triple (Q a) (f a) Q' R) -> triple P (mbind f m) Q' R.
Proof.
  intros Hm Hf s Hs. specialize (Hm s Hs). unfold mbind, prog_bind.
  destruct (m s) as [[a|e|] s1]; [|done|done]. by apply Hf.
Qed.

Lemma triple_weaken P P' (m : prog S E A) (Q Q' : A -> S -> Prop) R R' :
  triple P' m Q' R' -> (forall s, P s -> P' s) ->
  (forall a s, Q' a s -> Q a s) -> (forall s, R' s -> R s) -> triple P m Q R.
Proof.
  intros Hm HP HQ HR s Hs. specialize (Hm s (HP s Hs)). destruct (m s) as [[a|e|] s1]; auto.
Qed.

Lemma triple_pcontext {E'} (e : E') P (m : prog S E A) (Q : A -> S -> Prop) R :
  triple P m Q R -> triple P (pcontext e m) Q R.
Proof.
  intros Hm s Hs. specialize (Hm s Hs). unfold pcontext. by destruct (m s) as [[a|e'|] s1].
Qed.

Lemma triple_lift (P R : S -> Prop) (o : outcome E A) :
  (forall s, P s -> R s) -> triple P (lift o) (fun a s => o = Ok a /\ P s) R.
Proof. intros HR s Hs. unfold lift. destruct o; auto. Qed.

Lemma triple_fail (P R : S -> Prop) (e : E) (Q : A -> S -> Prop) :
  (forall s, P s -> R s) -> triple P (fail e) Q R.
Proof. intros HR s Hs. simpl. auto. Qed.

Lemma triple_get P R (Q : S -> S -> Prop) :
  (forall s, P s -> Q s s) -> triple (E := E) P get_state Q R.
Proof. intros HQ s Hs. by apply HQ. Qed.

Lemma triple_modify P R (f : S -> S) (Q : unit -> S -> Prop) :
  (forall s, P s -> Q tt (f s)) -> triple (E := E) P (modify f) Q R.
Proof. intros HQ s Hs. by apply HQ. Qed.

Lemma triple_value P R (a : A) (Q : A -> S -> Prop) :
  (forall s, P s -> Q a s) -> triple (E := E) P (mret a) Q R.
Proof. intros HQ s Hs. by apply HQ. Qed.

Lemma triple_exists {X} (P : X -> S -> Prop) (m : prog S E A) (Q : A -> S -> Prop) R :
  (forall x, triple (P x) m Q R) -> triple (fun s => exists x, P x s) m Q R.
Proof. intros Hm s [x Hx]. by apply (Hm x). Qed.

Lemma triple_pure (Prem : Prop) P (m : prog S E A) (Q : A -> S -> Prop) R :
  (Prem -> triple P m Q R) -> triple (fun s => Prem /\ P s) m Q R.
Proof. intros Hm s [HP Hs]. by apply Hm. Qed.

Lemma triple_pre P P' (m : prog S E A) (Q : A -> S -> Prop) R :
  triple P' m Q R -> (forall s, P s -> P' s) -> triple P m Q R.
Proof. intros Hm HP s Hs. apply Hm. auto. Qed.

Lemma pcontext_Ok {E'} (e : E') (m : prog S E A) s a s' :
  pcontext e m s = (Ok a, s') <-> m s = (Ok a, s').
Proof. unfold pcontext. destruct (m s) as [[?|?|] ?]; simpl; naive_solver. Qed.

End triple_lemmas.

(** ** Machine integers

    The release profile has no overflow checks: [+], [-] and [*] on [u64] and
    [u32] wrap around.  [usize] is [u64] on the deployed targets. *)

Definition U64 : Z := 2 ^ 64.
Definition U32 : Z := 2 ^ 32.

Definition wrap64 (z : Z) : Z := z mod U64.
Definition wrap32 (z : Z) : Z := z mod U32.

(** [Duration::from_secs], in nanoseconds. *)
Definition from_secs (seconds : Z) : Z := seconds * 1000000000.

Definition add64 (a b : Z) : Z := wrap64 (a + b).
Definition sub64 (a b : Z) : Z := wrap64 (a - b).
Definition mul64 (a b : Z) : Z := wrap64 (a * b).

(** The values of a [u64] and of a [u32]. *)
Definition is_u64 (z : Z) : Prop := 0 <= z < U64.
Definition is_u32 (z : Z) : Prop := 0 <= z < U32.

Lemma wrap64_id z : is_u64 z -> wrap64 z = z.
Proof. intros. by apply Z.mod_small. Qed.

Lemma wrap32_id z : is_u32 z -> wrap32 z = z.
Proof. intros. by apply Z.mod_small. Qed.

Lemma wrap64_range z : is_u64 (wrap64 z).
Proof. apply Z.mod_pos_bound. reflexivity. Qed.

Lemma wrap32_range z : is_u32 (wrap32 z).
Proof. apply Z.mod_pos_bound. reflexivity. Qed.

Lemma add64_id a b : 0 <= a + b < U64 -> add64 a b = a + b.
Proof. apply wrap64_id. Qed.

Lemma sub64_id a b : 0 <= a - b < U64 -> sub64 a b = a - b.
Proof. apply wrap64_id. Qed.

Lemma mul64_id a b : 0 <= a * b < U64 -> mul64 a b = a * b.
Proof. apply wrap64_id. Qed.

(** Replaces the wrapping operations by the exact ones where [lia] shows that
    they do not wrap. *)
Ltac unwrap64 :=
  unfold is_u64, is_u32 in *;
  repeat first
    [ rewrite add64_id in * by lia
    | rewrite sub64_id in * by lia
    | rewrite mul64_id in * by lia
    | rewrite wrap64_id in * by (unfold is_u64; lia)
    | rewrite wrap32_id in * by (unfold is_u32; lia) ].

#[export] Hint Resolve wrap64_range wrap32_range : dna.

(** ** Bytes *)

#[export] Instance byte_eq_dec : EqDecision byte := Byte.byte_eq_dec.

#[export] Instance byte_countable : Countable byte.
Proof.
  refine (inj_countable Byte.to_nat Byte.of_nat _).
  intros x. destruct x; reflexivity.
Defined.

Definition byte_val (b : byte) : Z := Z.of_N (Byte.to_N b).

Lemma byte_val_range b : 0 <= byte_val b < 256.
Proof. destruct b; vm_compute; split; congruence. Qed.

Lemma byte_val_inj a b : byte_val a = byte_val b -> a = b.
Proof.
  unfold byte_val. intros H%N2Z.inj.
  assert (Some a = Some b) as [= ->]; [|done].
  by rewrite <- (Byte.of_to_N a), <- (Byte.of_to_N b), H.
Qed.

(** ** Ordered keys and the iteration order of [BTreeMap]

    A [BTreeMap<K, V>] is a [gmap K V]; iterating over it visits the entries
    in the order of the keys. *)

Class KeyOrder (K : Type) := {
  key_leb : K -> K -> bool;
  key_leb_total : forall a b, key_leb a b = true \/ key_leb b a = true;
  key_leb_trans : forall a b c,
    key_leb a b = true -> key_leb b c = true -> key_leb a c = true;
  key_leb_antisym : forall a b, key_leb a b = true -> key_leb b a = true -> a = b;
}.

Definition key_le `{KeyOrder K} {V} (a b : K * V) : Prop := key_leb a.1 b.1 = true.

#[export] Instance key_le_dec `{KeyOrder K} {V} (a b : K * V) : Decision (key_le a b).
Proof. unfold key_le. apply _. Defined.

#[export] Instance key_le_total `{KeyOrder K} {V} : Total (@key_le K _ V).
Proof. intros a b. apply key_leb_total. Qed.

#[export] Instance key_le_transitive `{KeyOrder K} {V} : Transitive (@key_le K _ V).
Proof. intros a b c. apply key_leb_trans. Qed.

Definition btree_iter `{Countable K, KeyOrder K} {V} (m : gmap K V) : list (K * V) :=
  merge_sort key_le (map_to_list m).

Definition btree_keys `{Countable K, KeyOrder K} {V} (m : gmap K V) : list K :=
  (btree_iter m).*1.

Lemma StronglySorted_lookup_lt {A} (R : relation A) l i j x y :
  StronglySorted R l -> (i < j)%nat -> l !! i = Some x -> l !! j = Some y -> R x y.
Proof.
  intros Hs. revert i j. induction Hs as [|z l Hs IH Hz]; intros [|i] [|j] Hij Hx Hy;
    simplify_eq/=; try lia.
  - rewrite Forall_forall in Hz. apply Hz. by eapply list_elem_of_lookup_2.
  - apply (IH i j); auto with lia.
Qed.

Section btree.
Context `{Countable K, KeyOrder K} {V : Type}.
Implicit Types m : gmap K V.

Lemma btree_iter_perm m : btree_iter m ≡ₚ map_to_list m.
Proof. apply merge_sort_Permutation. Qed.

Lemma elem_of_btree_iter m k v : (k, v) ∈ btree_iter m <-> m !! k = Some v.
Proof. by rewrite btree_iter_perm, elem_of_map_to_list. Qed.

Lemma btree_iter_sorted m : StronglySorted key_le (btree_iter m).
Proof. apply StronglySorted_merge_sort; apply _. Qed.

Lemma NoDup_btree_keys m : NoDup (btree_keys m).
Proof. unfold btree_keys. rewrite btree_iter_perm. apply NoDup_fst_map_to_list. Qed.

Lemma elem_of_btree_keys m k : k ∈ btree_keys m <-> is_Some (m !! k).
Proof.
  unfold btree_keys. rewrite list_elem_of_fmap. split.
  - intros [[k' v] [-> Hv]]. exists v. by apply elem_of_btree_iter.
  - intros [v Hv]. exists (k, v). split; [done|]. by apply elem_of_btree_iter.
Qed.

Lemma btree_iter_empty : btree_iter (∅ : gmap K V) = [].
Proof. unfold btree_iter. by rewrite map_to_list_empty. Qed.

End btree.

#[export] Program Instance Z_key_order : KeyOrder Z := {| key_leb := Z.leb |}.
Next Obligation. intros a b. rewrite !Z.leb_le. lia. Qed.
Next Obligation. intros a b c. rewrite !Z.leb_le. lia. Qed.
Next Obligation. intros a b. rewrite !Z.leb_le. lia. Qed.

(** Pairs are ordered lexicographically. *)
#[export] Program Instance pair_key_order `{KeyOrder A, KeyOrder B} : KeyOrder (A * B) := {|
  key_leb x y := if key_leb x.1 y.1 then negb (key_leb y.1 x.1) || key_leb x.2 y.2 else false |}.
Next Obligation.
  intros A HA B HB [a1 b1] [a2 b2]; simpl.
  destruct (key_leb a1 a2) eqn:E1, (key_leb a2 a1) eqn:E2; simpl; auto.
  - apply key_leb_total.
  - destruct (key_leb_total a1 a2); congruence.
Qed.
Next Obligation.
  intros A HA B HB [a1 b1] [a2 b2] [a3 b3]; simpl.
  destruct (key_leb a1 a2) eqn:E12; [|done]. destruct (key_leb a2 a3) eqn:E23; [|done].
  rewrite (key_leb_trans _ _ _ E12 E23).
  destruct (key_leb a2 a1) eqn:E21, (key_leb a3 a2) eqn:E32, (key_leb a3 a1) eqn:E31; simpl; try done.
  - apply key_leb_trans.
  - intros _ _. exfalso. assert (key_leb a3 a2 = true) by (by eapply key_leb_trans). congruence.
  - intros _ _. exfalso. assert (key_leb a2 a1 = true) by (by eapply key_leb_trans). congruence.
  - intros _ _. exfalso. assert (key_leb a3 a2 = true) by (by eapply key_leb_trans). congruence.
Qed.
Next Obligation.
  intros A HA B HB [a1 b1] [a2 b2]; simpl.
  destruct (key_leb a1 a2) eqn:E12, (key_leb a2 a1) eqn:E21; simpl; try done.
  intros H1 H2. f_equal; by apply key_leb_antisym.
Qed.

(** ** Enumerated lists *)

(** [iter().enumerate()] with a starting offset. *)
Fixpoint enumerate_from {A} (i : Z) (l : list A) : list (Z * A) :=
  match l with
  | [] => []
  | x :: l => (i, x) :: enumerate_from (i + 1) l
  end.

Definition enumerate {A} (l : list A) : list (Z * A) := enumerate_from 0 l.

Lemma length_enumerate_from {A} i (l : list A) : length (enumerate_from i l) = length l.
Proof. revert i. induction l; intros; simpl; auto. Qed.

Lemma lookup_enumerate_from {A} i (l : list A) k :
  enumerate_from i l !! k = (fun x => (i + Z.of_nat k, x)) <$> l !! k.
Proof.
  revert i k. induction l as [|x l IH]; intros i [|k]; simpl; auto.
  - by rewrite Z.add_0_r.
  - rewrite IH. destruct (l !! k); simpl; [|done]. do 2 f_equal. lia.
Qed.

Lemma elem_of_enumerate_from {A} i (l : list A) j x :
  (j, x) ∈ enumerate_from i l <-> i <= j /\ l !! Z.to_nat (j - i) = Some x.
Proof.
  rewrite list_elem_of_lookup. split.
  - intros [k Hk]. rewrite lookup_enumerate_from in Hk.
    destruct (l !! k) eqn:Hl; simpl in Hk; [|done]. injection Hk as <- ->.
    split; [lia|]. by replace (Z.to_nat (i + Z.of_nat k - i)) with k by lia.
  - intros [Hj Hl]. exists (Z.to_nat (j - i)). rewrite lookup_enumerate_from, Hl. simpl.
    do 2 f_equal. lia.
Qed.

Lemma enumerate_from_app {A} i (l1 l2 : list A) :
  enumerate_from i (l1 ++ l2) =
  enumerate_from i l1 ++ enumerate_from (i + Z.of_nat (length l1)) l2.
Proof.
  revert i. induction l1 as [|x l1 IH]; intros i; simpl.
  - by rewrite Z.add_0_r.
  - rewrite IH. do 3 f_equal. lia.
Qed.
