(* ===== verification/External.v ===== *)
(** * Interfaces to third-party code

    The libraries the program calls are type classes whose laws state the
    behaviour their documentation gives: serialisation of archived values
    (rkyv) and of bitmaps (roaring), the protobuf wire format (prost), and the
    iteration order of hash tables, which is any enumeration of the elements.
    Each class has a concrete instance, declared in the module [Reference] and
    used only by the witnesses. *)

From S2P Require Import Prelude.

(** ** Serialisation *)

(** [rkyv::to_bytes] followed by [rkyv::from_bytes] or
    [rkyv::access_unchecked]: what was written is what is read. *)
Class Archive (A : Type) := {
  to_bytes : A -> list byte;
  from_bytes : list byte -> option A;
  from_to_bytes : forall a, from_bytes (to_bytes a) = Some a }.

(** A [RoaringBitmap] is a set of [u32]; it iterates in increasing order. *)
Abbreviation RoaringBitmap := (gset Z).

Definition bitmap_iter (s : RoaringBitmap) : list Z := merge_sort Z.le (elements s).

Inductive IoError := IoErr.

(** [RoaringBitmap::serialize_into] a [Vec] and
    [RoaringBitmap::deserialize_unchecked_from]. *)
Class Roaring := {
  roaring_serialize : RoaringBitmap -> outcome IoError (list byte);
  roaring_deserialize : list byte -> option RoaringBitmap;
  roaring_serialize_ok : forall s, exists bs, roaring_serialize s = Ok bs;
  roaring_roundtrip : forall s bs,
    roaring_serialize s = Ok bs -> roaring_deserialize bs = Some s }.

Lemma elem_of_bitmap_iter s x : x ∈ bitmap_iter s <-> x ∈ s.
Proof. unfold bitmap_iter. by rewrite merge_sort_Permutation, elem_of_elements. Qed.

Lemma NoDup_bitmap_iter s : NoDup (bitmap_iter s).
Proof. unfold bitmap_iter. rewrite merge_sort_Permutation. apply NoDup_elements. Qed.

(** [RoaringBitmap::from_sorted_iter(a..b)]: the integers from [a], [b]
    excluded; empty when [b <= a]. *)
Definition bitmap_range (a b : Z) : RoaringBitmap := list_to_set (seqZ a (b - a)).

Lemma elem_of_bitmap_range a b x : x ∈ bitmap_range a b <-> a <= x < b.
Proof. unfold bitmap_range. rewrite elem_of_list_to_set, elem_of_seqZ. lia. Qed.

(** ** The protobuf wire format *)

Inductive WireType := LengthDelimited.

(** [prost::encoding]: variable-length integers and keys, with their lengths. *)
Class Prost := {
  encode_varint : Z -> list byte;
  encoded_len_varint : Z -> Z;
  decode_varint : list byte -> option (Z * list byte);
  encode_key : Z -> WireType -> list byte;
  key_len : Z -> Z;
  decode_key : list byte -> option (Z * list byte);
  encode_varint_len : forall n, is_u64 n ->
    Z.of_nat (length (encode_varint n)) = encoded_len_varint n;
  (** a length is a [usize] *)
  encoded_len_varint_usize : forall n, 0 <= encoded_len_varint n;
  encoded_len_varint_pos : forall n, is_u64 n -> 1 <= encoded_len_varint n <= 10;
  decode_encode_varint : forall n rest, is_u64 n ->
    decode_varint (encode_varint n ++ rest) = Some (n, rest);
  encode_key_len : forall tag, 0 < tag < 2 ^ 29 ->
    Z.of_nat (length (encode_key tag LengthDelimited)) = key_len tag;
  key_len_pos : forall tag, 0 < tag < 2 ^ 29 -> 1 <= key_len tag <= 5;
  decode_encode_key : forall tag rest, 0 < tag < 2 ^ 29 ->
    decode_key (encode_key tag LengthDelimited ++ rest) = Some (tag, rest) }.

(** ** Hash tables *)

(** The order in which a [HashSet] or a [HashMap] is visited is not specified: it is
    some enumeration of its elements, and every table has keys of its own
    ([RandomState]), so that two tables with the same elements can be visited in
    different orders.  A [HashOrder] gives the orders of the tables of a run, each
    named by its place in the computation; what has to hold of two runs is stated with
    two of them. *)
Class HashOrder (A : Type) `{Countable A} := {
  hash_iter : list Z -> gset A -> list A;
  hash_iter_perm : forall place s, hash_iter place s ≡ₚ elements s }.

Lemma elem_of_hash_iter `{HashOrder A} place (s : gset A) x : x ∈ hash_iter place s <-> x ∈ s.
Proof. by rewrite hash_iter_perm, elem_of_elements. Qed.

Lemma NoDup_hash_iter `{HashOrder A} place (s : gset A) : NoDup (hash_iter place s).
Proof. rewrite hash_iter_perm. apply NoDup_elements. Qed.

(** ** Reference instances *)

Module Reference.

(** The bits of a positive number, one per byte. *)
Fixpoint pos_bytes (p : positive) : list byte :=
  match p with
  | xH => []
  | xO p => x00 :: pos_bytes p
  | xI p => x01 :: pos_bytes p
  end.

Fixpoint bytes_pos (l : list byte) : positive :=
  match l with
  | [] => xH
  | b :: l => if bool_decide (b = x00) then xO (bytes_pos l) else xI (bytes_pos l)
  end.

Lemma bytes_pos_bytes p : bytes_pos (pos_bytes p) = p.
Proof. induction p as [p IH|p IH|]; simpl; try done; by rewrite IH. Qed.

#[export] Instance archive `{Countable A} : Archive A := {|
  to_bytes a := pos_bytes (encode a);
  from_bytes l := decode (bytes_pos l);
  from_to_bytes a := eq_trans (f_equal decode (bytes_pos_bytes (encode a))) (decode_encode a) |}.

#[export] Program Instance roaring : Roaring := {|
  roaring_serialize s := Ok (to_bytes s);
  roaring_deserialize := from_bytes |}.
Next Obligation. intros s. by eexists. Qed.
Next Obligation. intros s bs [= <-]. exact (from_to_bytes s). Qed.

#[export] Program Instance hash_order `{Countable A} : HashOrder A := {| hash_iter _ := elements |}.
Next Obligation. done. Qed.

(** Base-128 integers, least significant group first, the high bit of each
    byte telling whether more follow. *)
Definition byte_of_Z (z : Z) : byte := default x00 (Byte.of_N (Z.to_N z)).

Lemma byte_val_of_Z z : 0 <= z < 256 -> byte_val (byte_of_Z z) = z.
Proof.
  intros Hz. unfold byte_val, byte_of_Z. destruct (Byte.of_N (Z.to_N z)) as [b|] eqn:Hb; simpl.
  - apply Byte.to_of_N in Hb. rewrite Hb. lia.
  - exfalso. apply Byte.of_N_None_iff in Hb. lia.
Qed.

Fixpoint varint (fuel : nat) (n : Z) : list byte :=
  match fuel with
  | O => []
  | S fuel =>
      if n <? 128 then [byte_of_Z n]
      else byte_of_Z (n mod 128 + 128) :: varint fuel (n / 128)
  end.

Fixpoint varint_len (fuel : nat) (n : Z) : Z :=
  match fuel with
  | O => 0
  | S fuel => if n <? 128 then 1 else 1 + varint_len fuel (n / 128)
  end.

Fixpoint unvarint (l : list byte) : option (Z * list byte) :=
  match l with
  | [] => None
  | b :: l =>
      if byte_val b <? 128 then Some (byte_val b, l)
      else '(n, rest) ← unvarint l; Some (byte_val b - 128 + 128 * n, rest)
  end.

Lemma varint_length fuel n : Z.of_nat (length (varint fuel n)) = varint_len fuel n.
Proof.
  revert n. induction fuel as [|fuel IH]; intros n; [done|]. simpl.
  destruct (n <? 128); [done|]. simpl length. rewrite <- IH. lia.
Qed.

Lemma varint_len_bound fuel n : 0 <= varint_len fuel n <= Z.of_nat fuel.
Proof.
  revert n. induction fuel as [|fuel IH]; intros n; [simpl; lia|]. cbn [varint_len].
  specialize (IH (n / 128)). destruct (n <? 128); lia.
Qed.

Lemma unvarint_varint fuel n rest :
  0 <= n < 128 ^ Z.of_nat fuel -> (0 < fuel)%nat ->
  unvarint (varint fuel n ++ rest) = Some (n, rest).
Proof.
  revert n. induction fuel as [|fuel IH]; intros n Hn Hf; [lia|]. cbn [varint].
  destruct (Z.ltb_spec n 128).
  - simpl. rewrite byte_val_of_Z by lia. by rewrite (proj2 (Z.ltb_lt _ _)).
  - pose proof (Z.mod_pos_bound n 128). pose proof (Z.div_mod n 128).
    assert (0 < fuel)%nat. { destruct fuel; [simpl in Hn; lia|lia]. }
    assert (0 <= n / 128 < 128 ^ Z.of_nat fuel).
    { split; [apply Z.div_pos; lia|]. apply Z.div_lt_upper_bound; [lia|].
      replace (Z.of_nat (S fuel)) with (Z.of_nat fuel + 1) in Hn by lia.
      rewrite Z.pow_add_r in Hn by lia. lia. }
    simpl. rewrite byte_val_of_Z by lia. rewrite (proj2 (Z.ltb_ge _ _)) by lia.
    rewrite IH by done. simpl. do 2 f_equal. lia.
Qed.

Definition unkey (l : list byte) : option (Z * list byte) :=
  '(k, rest) ← unvarint l; Some (k / 8, rest).

#[local] Obligation Tactic := idtac.

#[export] Program Instance prost : Prost := {|
  encode_varint := varint 10;
  encoded_len_varint := varint_len 10;
  decode_varint := unvarint;
  encode_key tag _ := varint 5 (tag * 8 + 2);
  key_len tag := varint_len 5 (tag * 8 + 2);
  decode_key := unkey |}.
Next Obligation. intros n _. apply varint_length. Qed.
Next Obligation. intros n. apply varint_len_bound. Qed.
Next Obligation.
  intros n Hn. pose proof (varint_len_bound 10 n). split; [|lia].
  cbn [varint_len]. destruct (n <? 128); [done|]. pose proof (varint_len_bound 9 (n / 128)).
  cbn [varint_len] in *. lia.
Qed.
Next Obligation.
  intros n rest Hn. apply unvarint_varint; [|lia]. unfold is_u64, U64 in Hn.
  change (128 ^ Z.of_nat 10) with (2 ^ 70). lia.
Qed.
Next Obligation. intros tag _. apply varint_length. Qed.
Next Obligation.
  intros tag Ht. pose proof (varint_len_bound 5 (tag * 8 + 2)). split; [|lia].
  cbn [varint_len]. destruct (tag * 8 + 2 <? 128); [done|].
  pose proof (varint_len_bound 4 ((tag * 8 + 2) / 128)). cbn [varint_len] in *. lia.
Qed.
Next Obligation.
  intros tag rest Ht. unfold unkey. cbn beta. rewrite unvarint_varint; [|change (128 ^ Z.of_nat 5) with (2 ^ 35); lia|lia].
  simpl. do 2 f_equal. rewrite Z.div_add_l by lia. change (2 / 8) with 0. lia.
Qed.

End Reference.
