(* ===== verification/Text.v ===== *)
(** * Text: decimal numbers and keys

    A Rust [String] is its UTF-8 bytes.  [dec] is the decimal form of an
    unsigned integer ([to_string], [{}]), [dec_pad] the zero-padded form
    ([{:0>w}]), [parse_u64] is [str::parse::<u64>] and [from_utf8] is
    [String::from_utf8].  The lemmas are the round trip of [dec] and the
    injectivity of the padded form, on which the keys of the stores rely. *)

From Stdlib Require Import String.
From S2P Require Import Prelude External.

Abbreviation RString := (list byte).

Definition str (s : string) : RString := list_byte_of_string s.
Arguments str _%_string.

Definition slash : byte := x2f.

(** ** Decimal numbers *)

Definition digit (d : Z) : byte := Reference.byte_of_Z (48 + d).

Definition is_digit (b : byte) : bool := (48 <=? byte_val b) && (byte_val b <=? 57).

(** The digits of [n], most significant first; the fuel is the number of
    digits. *)
Fixpoint dec_digits (fuel : nat) (n : Z) : RString :=
  match fuel with
  | O => []
  | S fuel => if n <? 10 then [digit n] else dec_digits fuel (n / 10) ++ [digit (n mod 10)]
  end.

(** A [u128] has at most 39 digits. *)
Definition dec (n : Z) : RString := dec_digits 39 n.

(** [format!("{:0>w}", n)]. *)
Definition dec_pad (w : nat) (n : Z) : RString :=
  replicate (w - length (dec n)) x30 ++ dec n.

(** The value of a string of digits, without overflow. *)
Definition dec_value (s : RString) : Z := foldl (fun v b => 10 * v + (byte_val b - 48)) 0 s.

(** [str::parse::<u64>]: an optional plus sign, at least one digit, no other
    character, and a value below 2^64. *)
Definition parse_u64 (s : RString) : option Z :=
  let digits := match s with b :: s' => if bool_decide (b = x2b) then s' else s | [] => s end in
  match digits with
  | [] => None
  | _ :: _ =>
      if forallb is_digit digits
      then if dec_value digits <? U64 then Some (dec_value digits) else None
      else None
  end.

(** [String::from_utf8]: well-formed UTF-8 sequences (Unicode, table 3-7). *)
Definition in_range (b : byte) (lo hi : Z) : bool := (lo <=? byte_val b) && (byte_val b <=? hi).

Fixpoint utf8_valid (s : RString) : bool :=
  match s with
  | [] => true
  | a :: s1 =>
      if in_range a 0 127 then utf8_valid s1
      else
        match s1 with
        | [] => false
        | b :: s2 =>
            if in_range a 194 223 then in_range b 128 191 && utf8_valid s2
            else
              match s2 with
              | [] => false
              | c :: s3 =>
                  if in_range a 224 239 then
                    in_range b (if in_range a 224 224 then 160 else 128)
                      (if in_range a 237 237 then 159 else 191)
                    && in_range c 128 191 && utf8_valid s3
                  else
                    match s3 with
                    | [] => false
                    | d :: s4 =>
                        in_range a 240 244
                        && in_range b (if in_range a 240 240 then 144 else 128)
                             (if in_range a 244 244 then 143 else 191)
                        && in_range c 128 191 && in_range d 128 191 && utf8_valid s4
                    end
              end
        end
  end.

Definition from_utf8 (s : list byte) : option RString := if utf8_valid s then Some s else None.

(** [hex::encode]. *)
Definition hex_digit (d : Z) : byte :=
  Reference.byte_of_Z (if d <? 10 then 48 + d else 87 + d).

Definition hex_encode (bs : list byte) : RString :=
  bs ≫= fun b => [hex_digit (byte_val b / 16); hex_digit (byte_val b mod 16)].

(** ** Lemmas *)

Lemma hex_digit_inj a b : 0 <= a < 16 -> 0 <= b < 16 -> hex_digit a = hex_digit b -> a = b.
Proof.
  intros Ha Hb Heq. apply (f_equal byte_val) in Heq. unfold hex_digit in Heq.
  destruct (Z.ltb_spec a 10), (Z.ltb_spec b 10); rewrite !Reference.byte_val_of_Z in Heq by lia; lia.
Qed.

Lemma hex_encode_inj a b : hex_encode a = hex_encode b -> a = b.
Proof.
  revert b. induction a as [|x a IH]; intros [|y b] Heq; try done.
  cbn [hex_encode mbind list_bind app] in Heq. injection Heq as H1 H2 H3.
  pose proof (byte_val_range x). pose proof (byte_val_range y).
  pose proof (Z.div_mod (byte_val x) 16). pose proof (Z.div_mod (byte_val y) 16).
  apply hex_digit_inj in H1; [|split; [apply Z.div_pos; lia|apply Z.div_lt_upper_bound; lia]..].
  apply hex_digit_inj in H2; [|apply Z.mod_pos_bound; lia..].
  f_equal; [apply byte_val_inj; lia|by apply IH].
Qed.

Lemma hex_encode_length a : length (hex_encode a) = (2 * length a)%nat.
Proof. induction a as [|x a IH]; [done|]. simpl in *. lia. Qed.

Lemma byte_val_digit d : 0 <= d <= 9 -> byte_val (digit d) = 48 + d.
Proof. intros Hd. unfold digit. apply Reference.byte_val_of_Z. lia. Qed.

Lemma digit_is_digit d : 0 <= d <= 9 -> is_digit (digit d) = true.
Proof.
  intros Hd. unfold is_digit. rewrite byte_val_digit by done.
  rewrite andb_true_iff, !Z.leb_le. lia.
Qed.

Lemma dec_value_app a b : dec_value (a ++ b) = dec_value a * 10 ^ Z.of_nat (length b) + dec_value b.
Proof.
  induction b as [|x b IH] using rev_ind.
  { rewrite app_nil_r. unfold dec_value. simpl. lia. }
  unfold dec_value in *. rewrite (assoc_L (++)), !foldl_snoc, IH, length_app. simpl length.
  rewrite Nat2Z.inj_add, Z.pow_add_r by lia. change (10 ^ Z.of_nat 1) with 10. lia.
Qed.

Lemma dec_digits_props fuel n :
  0 <= n < 10 ^ Z.of_nat fuel -> (0 < fuel)%nat ->
  dec_value (dec_digits fuel n) = n /\ forallb is_digit (dec_digits fuel n) = true /\
  dec_digits fuel n <> [] /\ (length (dec_digits fuel n) <= fuel)%nat /\
  (forall k, 0 <= n < 10 ^ Z.of_nat k -> (0 < k)%nat -> (length (dec_digits fuel n) <= k)%nat).
Proof.
  revert n. induction fuel as [|fuel IH]; intros n Hn Hf; [lia|]. cbn [dec_digits].
  destruct (Z.ltb_spec n 10).
  - unfold dec_value. simpl. rewrite byte_val_digit by lia. rewrite digit_is_digit by lia.
    split_and!; [lia|done|done|lia|]. intros k _ Hk. lia.
  - assert (0 < fuel)%nat. { destruct fuel; [simpl in Hn; lia|lia]. }
    pose proof (Z.mod_pos_bound n 10). pose proof (Z.div_mod n 10).
    assert (forall j, n < 10 ^ Z.of_nat (S j) -> n / 10 < 10 ^ Z.of_nat j) as Hdiv.
    { intros j Hj. apply Z.div_lt_upper_bound; [lia|].
      replace (Z.of_nat (S j)) with (Z.of_nat j + 1) in Hj by lia. rewrite Z.pow_add_r in Hj by lia. lia. }
    assert (0 <= n / 10) by (apply Z.div_pos; lia).
    destruct (IH (n / 10)) as (Hv & Hd & Hne & Hlen & Hk); [split; [lia|apply Hdiv, Hn]|lia|].
    rewrite dec_value_app, Hv, forallb_app, Hd, length_app. simpl.
    unfold dec_value. simpl. rewrite byte_val_digit, digit_is_digit by lia.
    split_and!; [lia|done| |lia|].
    + intros ?%app_eq_nil. naive_solver.
    + intros [|k] Hnk Hk0; [lia|]. destruct (decide (k = 0%nat)) as [->|].
      * simpl in Hnk. lia.
      * assert (length (dec_digits fuel (n / 10)) <= k)%nat by (apply Hk; [split; [lia|apply Hdiv, Hnk]|lia]). lia.
Qed.

Lemma u64_digits n : is_u64 n -> 0 <= n < 10 ^ Z.of_nat 39.
Proof. unfold is_u64, U64. change (10 ^ Z.of_nat 39) with (10 ^ 39). lia. Qed.

Lemma dec_value_dec n : is_u64 n -> dec_value (dec n) = n.
Proof. intros Hn. apply dec_digits_props; [by apply u64_digits|lia]. Qed.

Lemma dec_is_digits n : is_u64 n -> forallb is_digit (dec n) = true.
Proof. intros Hn. apply dec_digits_props; [by apply u64_digits|lia]. Qed.

Lemma dec_nonempty n : is_u64 n -> dec n <> [].
Proof. intros Hn. apply dec_digits_props; [by apply u64_digits|lia]. Qed.

Lemma dec_length n k : is_u64 n -> n < 10 ^ Z.of_nat k -> (0 < k)%nat -> (length (dec n) <= k)%nat.
Proof.
  intros Hn Hk Hk0. apply dec_digits_props; [by apply u64_digits|lia| |done].
  unfold is_u64 in Hn. lia.
Qed.

Lemma parse_dec n : is_u64 n -> parse_u64 (dec n) = Some n.
Proof.
  intros Hn. pose proof (dec_is_digits n Hn) as Hd. pose proof (dec_nonempty n Hn) as Hne.
  pose proof (dec_value_dec n Hn) as Hv. unfold parse_u64.
  destruct (dec n) as [|b s] eqn:Hs; [done|].
  assert (b <> x2b) as Hb.
  { intros ->. simpl in Hd. discriminate Hd. }
  rewrite bool_decide_eq_false_2 by done. rewrite Hd, Hv.
  unfold is_u64 in Hn. by rewrite (proj2 (Z.ltb_lt _ _)) by lia.
Qed.

Lemma utf8_ascii s : forallb (fun b => in_range b 0 127) s = true -> utf8_valid s = true.
Proof.
  induction s as [|b s IH]; simpl; [done|]. intros [Hb Hs]%andb_true_iff. rewrite Hb. auto.
Qed.

Lemma digits_ascii s : forallb is_digit s = true -> forallb (fun b => in_range b 0 127) s = true.
Proof.
  induction s as [|b s IH]; simpl; [done|]. intros [Hb Hs]%andb_true_iff.
  rewrite IH, andb_true_r by done. unfold is_digit, in_range in *.
  rewrite andb_true_iff, !Z.leb_le in *. lia.
Qed.

Lemma from_utf8_dec n : is_u64 n -> from_utf8 (dec n) = Some (dec n).
Proof. intros Hn. unfold from_utf8. by rewrite utf8_ascii by (by apply digits_ascii, dec_is_digits). Qed.

Lemma dec_value_zeros k s : dec_value (replicate k x30 ++ s) = dec_value s.
Proof.
  rewrite dec_value_app. assert (dec_value (replicate k x30) = 0) as ->; [|lia].
  unfold dec_value. induction k as [|k IH]; [done|]. simpl. exact IH.
Qed.

Lemma dec_value_pad w n : is_u64 n -> dec_value (dec_pad w n) = n.
Proof. intros Hn. unfold dec_pad. rewrite dec_value_zeros. by apply dec_value_dec. Qed.

Lemma dec_pad_inj w a b : is_u64 a -> is_u64 b -> dec_pad w a = dec_pad w b -> a = b.
Proof. intros Ha Hb He. by rewrite <- (dec_value_pad w a), <- (dec_value_pad w b), He. Qed.

Lemma dec_pad_digits w n : is_u64 n -> forallb is_digit (dec_pad w n) = true.
Proof.
  intros Hn. unfold dec_pad. rewrite forallb_app, dec_is_digits, andb_true_r by done.
  induction (w - length (dec n))%nat; simpl; auto.
Qed.

Lemma dec_pad_length w n :
  is_u64 n -> n < 10 ^ Z.of_nat w -> (0 < w)%nat -> length (dec_pad w n) = w.
Proof.
  intros Hn Hw H0. pose proof (dec_length n w Hn Hw H0). unfold dec_pad.
  rewrite length_app, length_replicate. lia.
Qed.

(** Well-formed strings can be concatenated. *)
Lemma utf8_app a b : utf8_valid a = true -> utf8_valid (a ++ b) = utf8_valid b.
Proof.
  remember (length a) as n eqn:Hn. revert a Hn.
  induction (lt_wf n) as [n _ IH]; intros a Hn Ha. subst n.
  destruct a as [|x1 a]; [done|]. cbn [app utf8_valid] in *.
  destruct (in_range x1 0 127); [by apply (IH (length a)); simpl; auto with lia|].
  destruct a as [|x2 a]; [done|]. cbn [app] in *.
  destruct (in_range x1 194 223).
  { apply andb_true_iff in Ha as [-> Ha]. by apply (IH (length a)); simpl; auto with lia. }
  destruct a as [|x3 a]; [done|]. cbn [app] in *.
  destruct (in_range x1 224 239).
  { apply andb_true_iff in Ha as [-> Ha]. by apply (IH (length a)); simpl; auto with lia. }
  destruct a as [|x4 a]; [done|]. cbn [app] in *.
  apply andb_true_iff in Ha as [-> Ha]. by apply (IH (length a)); simpl; auto with lia.
Qed.

(** Digits are not slashes: a number in a key ends at the next slash. *)
Lemma digits_no_slash s : forallb is_digit s = true -> slash ∉ s.
Proof.
  intros Hs Hin. rewrite forallb_forall in Hs. apply list_elem_of_In, Hs in Hin. discriminate Hin.
Qed.

(** Two strings without slash followed by a slash are equal when the whole
    is. *)
Lemma split_slash (a b : RString) x y :
  slash ∉ a -> slash ∉ b -> a ++ slash :: x = b ++ slash :: y -> a = b /\ x = y.
Proof.
  revert b. induction a as [|c a IH]; intros [|d b] Ha Hb He; simplify_eq/=.
  - done.
  - set_solver.
  - set_solver.
  - destruct (IH b) as [-> ->]; [set_solver|set_solver|done|done].
Qed.
