(* ===== verification/Core.v ===== *)
(** * Hashes and cursors (common/src/core.rs)

    [Hash] is an arbitrary-length byte string, [Cursor] a block number with a
    hash.  Clients send cursors whose hash may be missing or may have lost its
    leading zero bytes, and [is_equivalent] decides whether such a cursor names
    a given block.  The theorems state what that test means (comparison of the
    hashes as big-endian integers, an empty hash matching everything) and that it
    is reflexive and symmetric. *)

From S2P Require Import Prelude.

(** [struct Hash(pub Vec<u8>)]. *)
Definition Hash : Type := list byte.

#[export] Instance Hash_eq_dec : EqDecision Hash := _.
#[export] Instance Hash_countable : Countable Hash := _.

(** [Hash::len] and [Hash::is_empty]. *)
Definition hash_len (h : Hash) : nat := length h.

Definition hash_is_empty (h : Hash) : bool :=
  match h with [] => true | _ :: _ => false end.

(** [Hash::is_zero]: true of the empty hash as well. *)
Definition hash_is_zero (h : Hash) : bool :=
  forallb (fun b => bool_decide (b = x00)) h.

(** The derived [Ord] of [Hash]: lexicographic on the bytes. *)
Fixpoint hash_leb (a b : Hash) : bool :=
  match a, b with
  | [], _ => true
  | _ :: _, [] => false
  | x :: a, y :: b =>
      if byte_val x <? byte_val y then true
      else if byte_val y <? byte_val x then false
      else hash_leb a b
  end.

#[export] Program Instance Hash_key_order : KeyOrder Hash := {| key_leb := hash_leb |}.
Next Obligation.
  induction a as [|x a IH]; intros [|y b]; simpl; auto.
  destruct (Z.ltb_spec (byte_val x) (byte_val y)), (Z.ltb_spec (byte_val y) (byte_val x)); auto.
Qed.
Next Obligation.
  induction a as [|x a IH]; intros [|y b] [|z c]; simpl; try done.
  destruct (Z.ltb_spec (byte_val x) (byte_val y)), (Z.ltb_spec (byte_val y) (byte_val x)),
    (Z.ltb_spec (byte_val y) (byte_val z)), (Z.ltb_spec (byte_val z) (byte_val y)),
    (Z.ltb_spec (byte_val x) (byte_val z)), (Z.ltb_spec (byte_val z) (byte_val x));
    simpl; try done; try lia; intros; eauto.
Qed.
Next Obligation.
  induction a as [|x a IH]; intros [|y b]; simpl; try done.
  destruct (Z.ltb_spec (byte_val x) (byte_val y)), (Z.ltb_spec (byte_val y) (byte_val x));
    try done; try lia; intros.
  f_equal; [apply byte_val_inj; lia | eauto].
Qed.

(** [struct Cursor]. *)
Record Cursor := mkCursor { number : Z; hash : Hash }.

#[export] Instance Cursor_eq_dec : EqDecision Cursor.
Proof. solve_decision. Defined.

#[export] Instance Cursor_countable : Countable Cursor.
Proof.
  refine (inj_countable' (fun c => (number c, hash c)) (fun p => mkCursor p.1 p.2) _).
  by intros [].
Defined.

(** [Cursor::new_finalized] and [Cursor::new_pending]: a cursor without hash. *)
Definition new_finalized (n : Z) : Cursor := mkCursor n [].
Definition new_pending (n : Z) : Cursor := mkCursor n [].

Definition strict_before (self other : Cursor) : bool := number self <? number other.
Definition strict_after (self other : Cursor) : bool := number other <? number self.

(** [Cursor::is_equivalent]. *)
Definition is_equivalent (self other : Cursor) : bool :=
  if negb (number self =? number other) then false
  else if hash_is_empty (hash self) || hash_is_empty (hash other) then true
  else if bool_decide (hash_len (hash self) = hash_len (hash other))
  then bool_decide (hash self = hash other)
  else
    let min_len := Nat.min (hash_len (hash self)) (hash_len (hash other)) in
    let prefix := drop (hash_len (hash self) - min_len) (hash self) in
    let other_prefix := drop (hash_len (hash other) - min_len) (hash other) in
    if Nat.ltb (hash_len (hash other)) (hash_len (hash self)) then
      let len_diff := (hash_len (hash self) - hash_len (hash other))%nat in
      bool_decide (other_prefix = prefix) &&
      bool_decide (take len_diff (hash self) = replicate len_diff x00)
    else
      let len_diff := (hash_len (hash other) - hash_len (hash self))%nat in
      bool_decide (prefix = other_prefix) &&
      bool_decide (take len_diff (hash other) = replicate len_diff x00).

(** The wire form of a cursor, [dna::stream::Cursor], and the two conversions. *)
Record ProtoCursor := mkProtoCursor { order_key : Z; unique_key : list byte }.

Definition cursor_to_proto (c : Cursor) : ProtoCursor := mkProtoCursor (number c) (hash c).
Definition cursor_of_proto (p : ProtoCursor) : Cursor := mkCursor (order_key p) (unique_key p).

(** ** The integer a hash denotes *)

(** Big-endian value of a byte string. *)
Definition be_value (h : Hash) : Z := foldl (fun acc b => acc * 256 + byte_val b) 0 h.

Lemma be_value_acc h acc :
  foldl (fun acc b => acc * 256 + byte_val b) acc h = acc * 256 ^ Z.of_nat (length h) + be_value h.
Proof.
  unfold be_value. revert acc. induction h as [|b h IH]; intros acc; [simpl; lia|].
  cbn [foldl length]. rewrite IH, (IH (0 * 256 + byte_val b)), Nat2Z.inj_succ, Z.pow_succ_r by lia.
  ring.
Qed.

Lemma be_value_cons b h : be_value (b :: h) = byte_val b * 256 ^ Z.of_nat (length h) + be_value h.
Proof.
  transitivity (foldl (fun acc b => acc * 256 + byte_val b) (0 * 256 + byte_val b) h); [done|].
  rewrite be_value_acc. ring.
Qed.

Lemma be_value_app h1 h2 :
  be_value (h1 ++ h2) = be_value h1 * 256 ^ Z.of_nat (length h2) + be_value h2.
Proof. unfold be_value at 1. rewrite foldl_app. apply be_value_acc. Qed.

Lemma be_value_bound h : 0 <= be_value h < 256 ^ Z.of_nat (length h).
Proof.
  induction h as [|b h IH]; [done|].
  rewrite be_value_cons. cbn [length]. rewrite Nat2Z.inj_succ, Z.pow_succ_r by lia.
  pose proof (byte_val_range b). nia.
Qed.

Lemma be_value_inj h1 h2 : length h1 = length h2 -> be_value h1 = be_value h2 -> h1 = h2.
Proof.
  revert h2. induction h1 as [|b1 h1 IH]; intros [|b2 h2] Hlen Hval; try done.
  rewrite !be_value_cons in Hval. injection Hlen as Hlen. rewrite Hlen in Hval.
  pose proof (be_value_bound h1) as B1. pose proof (be_value_bound h2) as B2.
  rewrite Hlen in B1. set (p := 256 ^ Z.of_nat (length h2)) in *.
  assert (byte_val b1 = byte_val b2) as Hb by nia.
  f_equal; [by apply byte_val_inj|]. apply IH; [done|nia].
Qed.

Lemma be_value_zeros n : be_value (replicate n x00) = 0.
Proof.
  induction n as [|n IH]; [done|]. cbn [replicate]. rewrite be_value_cons, IH.
  change (byte_val x00) with 0. lia.
Qed.

(** A hash equals a shorter one as an integer exactly when its extra leading
    bytes are zero and its tail is the shorter hash. *)
Lemma be_value_longer (h1 h2 : Hash) :
  (length h2 <= length h1)%nat ->
  be_value h1 = be_value h2 <->
  drop (length h1 - length h2) h1 = h2 /\
  take (length h1 - length h2) h1 = replicate (length h1 - length h2) x00.
Proof.
  intros Hlen. set (d := (length h1 - length h2)%nat).
  assert (length (take d h1) = d) as Ht by (rewrite length_take; lia).
  assert (length (drop d h1) = length h2) as Hd by (rewrite length_drop; lia).
  rewrite <- (take_drop d h1) at 1. rewrite be_value_app, Hd.
  pose proof (be_value_bound (drop d h1)) as B1. pose proof (be_value_bound h2) as B2.
  rewrite Hd in B1. pose proof (be_value_bound (take d h1)) as B3.
  split.
  - intros Heq. assert (be_value (take d h1) = 0) as H0 by nia.
    split; [apply be_value_inj; [done|nia]|].
    apply be_value_inj; [by rewrite length_replicate|]. by rewrite be_value_zeros.
  - intros [-> ->]. rewrite be_value_zeros. lia.
Qed.

(** What [is_equivalent] decides. *)
Definition same_block (a b : Cursor) : Prop :=
  number a = number b /\
  (hash a = [] \/ hash b = [] \/ be_value (hash a) = be_value (hash b)).

Lemma hash_is_empty_true h : hash_is_empty h = true <-> h = [].
Proof. by destruct h. Qed.

Lemma hash_is_zero_spec h : hash_is_zero h = true <-> h = replicate (length h) x00.
Proof.
  unfold hash_is_zero. induction h as [|b h IH]; simpl; [done|].
  rewrite andb_true_iff, IH, bool_decide_eq_true.
  split; [intros [-> H]; by f_equal | by intros [= -> ?]].
Qed.

Lemma is_equivalent_same_block (a b : Cursor) :
  is_equivalent a b = true <-> same_block a b.
Proof.
  unfold is_equivalent, same_block, hash_len. destruct a as [na ha], b as [nb hb]; simpl.
  destruct (Z.eqb_spec na nb) as [->|]; simpl; [|naive_solver].
  destruct (decide (ha = [])) as [->|Ha]; [naive_solver|].
  destruct (decide (hb = [])) as [->|Hb]; [destruct ha; naive_solver|].
  replace (hash_is_empty ha) with false by (by destruct ha).
  replace (hash_is_empty hb) with false by (by destruct hb). simpl.
  case_bool_decide as Hlen.
  { rewrite bool_decide_eq_true. split; [intros ->; auto|].
    intros [_ [?|[?|?]]]; try done. by apply be_value_inj. }
  destruct (Nat.ltb_spec (length hb) (length ha)).
  - rewrite Nat.min_r, Nat.sub_diag, drop_0 by lia.
    rewrite andb_true_iff, !bool_decide_eq_true.
    pose proof (be_value_longer ha hb ltac:(lia)). naive_solver.
  - rewrite Nat.min_l, Nat.sub_diag, drop_0 by lia.
    rewrite andb_true_iff, !bool_decide_eq_true.
    pose proof (be_value_longer hb ha ltac:(lia)). naive_solver.
Qed.

Lemma same_block_refl a : same_block a a.
Proof. split; auto. Qed.

Lemma same_block_sym a b : same_block a b -> same_block b a.
Proof. unfold same_block. naive_solver. Qed.

(** [Cursor::is_equivalent] holds exactly when the two cursors have the
    same block number and, unless one of them carries no hash, their hashes
    denote the same big-endian integer.  So it is reflexive and symmetric, and
    it does not see leading zero bytes that a client added or dropped. *)
Theorem is_equivalent_iff (a b : Cursor) (k : nat) :
  (is_equivalent a b = true <-> same_block a b) /\
  is_equivalent a b = is_equivalent b a /\
  is_equivalent a (mkCursor (number a) (replicate k x00 ++ hash a)) = true.
Proof.
  split; [apply is_equivalent_same_block|]. split.
  - apply eq_true_iff_eq. rewrite !is_equivalent_same_block. split; apply same_block_sym.
  - apply is_equivalent_same_block. split; [done|]. right. right. simpl.
    rewrite be_value_app, be_value_zeros. lia.
Qed.

(** Conversion to the wire and back. *)
Lemma cursor_of_to_proto c : cursor_of_proto (cursor_to_proto c) = c.
Proof. by destruct c. Qed.

#[export] Hint Resolve same_block_refl same_block_sym : dna.
