(* ===== verification/Chain.v ===== *)
(** * The canonical chain (common/src/chain.rs)

    [CanonicalChainBuilder] holds the most recent blocks of the canonical
    chain and, for every block number, the hashes that were removed by a
    reorganisation together with the block they were rolled back to.  The
    ingestion service grows it with new blocks, shrinks it on a reorg and takes
    full segments off its front.  [CanonicalChainSegment] is the serialised
    form read by the chain view: [canonical] gives the block at a number,
    [siblings] the reorged blocks at a number and [reconnect] tells a client
    what to do with the cursor it stopped at. *)

From S2P Require Import Prelude Core.

(** ** Data *)

Record BlockInfo := mkBlockInfo { bi_number : Z; bi_hash : Hash; bi_parent : Hash }.

Record PendingBlockInfo := mkPendingBlockInfo {
  pbi_number : Z; pbi_generation : Z; pbi_parent : Hash }.

#[export] Instance BlockInfo_eq_dec : EqDecision BlockInfo.
Proof. solve_decision. Defined.

#[export] Instance PendingBlockInfo_eq_dec : EqDecision PendingBlockInfo.
Proof. solve_decision. Defined.

Definition block_cursor (b : BlockInfo) : Cursor := mkCursor (bi_number b) (bi_hash b).

Definition parent_cursor (b : BlockInfo) : option Cursor :=
  if bi_number b =? 0 then None
  else Some (mkCursor (sub64 (bi_number b) 1) (bi_parent b)).

Definition pending_parent_cursor (b : PendingBlockInfo) : option Cursor :=
  if pbi_number b =? 0 then None
  else Some (mkCursor (sub64 (pbi_number b) 1) (pbi_parent b)).

Inductive ReconnectAction :=
| Continue
| OfflineReorg (c : Cursor)
| Unknown.

#[export] Instance ReconnectAction_eq_dec : EqDecision ReconnectAction.
Proof. solve_decision. Defined.

Abbreviation ReorgMap := (gmap Hash Cursor).

Record CanonicalBlock := mkCanonicalBlock { cb_hash : Hash; cb_reorgs : ReorgMap }.

Record ExtraReorg := mkExtraReorg { er_block_number : Z; er_reorgs : ReorgMap }.

Record CanonicalChainSegmentInfo := mkSegmentInfo { first_block : Cursor; last_block : Cursor }.

Record CanonicalChainSegment := mkSegment {
  seg_previous_segment : option CanonicalChainSegmentInfo;
  seg_info : CanonicalChainSegmentInfo;
  seg_canonical : list CanonicalBlock;
  seg_extra_reorgs : list ExtraReorg }.

#[export] Instance CanonicalBlock_eq_dec : EqDecision CanonicalBlock.
Proof. solve_decision. Defined.

#[export] Instance ExtraReorg_eq_dec : EqDecision ExtraReorg.
Proof. solve_decision. Defined.

#[export] Instance CanonicalChainSegmentInfo_eq_dec : EqDecision CanonicalChainSegmentInfo.
Proof. solve_decision. Defined.

#[export] Instance CanonicalChainSegment_eq_dec : EqDecision CanonicalChainSegment.
Proof. solve_decision. Defined.

Inductive CanonicalChainError := Builder | View.

(** The fields of the [Building] variant. *)
Record building := mkBuilding {
  previous_segment : option CanonicalChainSegmentInfo;
  info : CanonicalChainSegmentInfo;
  blocks : list Hash;
  reorgs : gmap Z ReorgMap }.

Inductive CanonicalChainBuilder :=
| Empty
| Building (b : building).

(** ** The builder *)

(** One iteration of the loop of [restore_from_segment]. *)
Definition restore_block (first : Z) (acc : list Hash * gmap Z ReorgMap)
    (entry : Z * CanonicalBlock) : list Hash * gmap Z ReorgMap :=
  let block_number := add64 first entry.1 in
  (acc.1 ++ [cb_hash entry.2], <[block_number := cb_reorgs entry.2]> acc.2).

Definition restore_from_segment (segment : CanonicalChainSegment) :
    outcome CanonicalChainError CanonicalChainBuilder :=
  let info := seg_info segment in
  let '(canonical, reorgs) :=
    foldl (restore_block (number (first_block info))) ([], ∅)
      (enumerate (seg_canonical segment)) in
  Ok (Building (mkBuilding (seg_previous_segment segment) info canonical reorgs)).

Definition builder_info (self : CanonicalChainBuilder) : option CanonicalChainSegmentInfo :=
  match self with Empty => None | Building b => Some (info b) end.

Definition segment_size (self : CanonicalChainBuilder) : Z :=
  match self with Empty => 0 | Building b => Z.of_nat (length (blocks b)) end.

Definition can_grow (self : CanonicalChainBuilder) (block : BlockInfo) : bool :=
  match self with
  | Empty => true
  | Building b =>
      let last := last_block (info b) in
      if hash_is_zero (hash last) then true
      else (add64 (number last) 1 =? bi_number block)
           && bool_decide (hash last = bi_parent block)
  end.

Definition grow (self : CanonicalChainBuilder) (block : BlockInfo) :
    outcome CanonicalChainError CanonicalChainBuilder :=
  if negb (can_grow self block) then Err Builder
  else
    match self with
    | Empty =>
        let cursor := block_cursor block in
        Ok (Building (mkBuilding None (mkSegmentInfo cursor cursor) [bi_hash block] ∅))
    | Building b =>
        Ok (Building (mkBuilding (previous_segment b)
              (mkSegmentInfo (first_block (info b)) (block_cursor block))
              (blocks b ++ [bi_hash block]) (reorgs b)))
    end.

(** [reorgs.entry(n).or_default().insert(hash, new_head)]. *)
Definition record_reorg (new_head : Cursor) (reorgs : gmap Z ReorgMap) (n : Z) (h : Hash) :
    gmap Z ReorgMap :=
  <[n := <[h := new_head]> (default ∅ (reorgs !! n))]> reorgs.

(** One iteration of the removal loop of [shrink]. *)
Definition shrink_block (new_head : Cursor) (first : Z)
    (acc : list Cursor * gmap Z ReorgMap) (entry : Z * Hash) :
    list Cursor * gmap Z ReorgMap :=
  let block_number := add64 first entry.1 in
  (acc.1 ++ [mkCursor block_number entry.2],
   record_reorg new_head acc.2 block_number entry.2).

Definition shrink (self : CanonicalChainBuilder) (new_head : Cursor) :
    outcome CanonicalChainError (list Cursor * CanonicalChainBuilder) :=
  match self with
  | Empty => Err Builder
  | Building b =>
      let first := number (first_block (info b)) in
      if number new_head <? first then Err Builder
      else if number (last_block (info b)) <? number new_head then Err Builder
      else
        let new_head_index := sub64 (number new_head) first in
        match blocks b !! Z.to_nat new_head_index with
        | None => Err Builder
        | Some h =>
            if negb (bool_decide (h = hash new_head)) then Err Builder
            else if new_head_index =? Z.of_nat (length (blocks b)) - 1
            then Ok ([], self)
            else
              let first_removed := new_head_index + 1 in
              let '(removed, reorgs') :=
                foldl (shrink_block new_head first) ([], reorgs b)
                  (enumerate_from first_removed
                     (drop (Z.to_nat first_removed) (blocks b))) in
              let blocks' := take (Z.to_nat (new_head_index + 1)) (blocks b) in
              if Z.of_nat (length blocks') =? add64 (sub64 (number new_head) first) 1
              then
                Ok (removed,
                    Building (mkBuilding (previous_segment b)
                      (mkSegmentInfo (first_block (info b)) new_head) blocks' reorgs'))
              else Panic
        end
  end.

(** The [CanonicalBlock] that [current_segment] builds for the block at an
    offset. *)
Definition canonical_block (b : building) (entry : Z * Hash) : CanonicalBlock :=
  mkCanonicalBlock entry.2
    (default ∅ (reorgs b !! add64 (number (first_block (info b))) entry.1)).

Definition extra_reorg (last : Z) (entry : Z * ReorgMap) : option ExtraReorg :=
  if last <? entry.1 then Some (mkExtraReorg entry.1 entry.2) else None.

Definition current_segment (self : CanonicalChainBuilder) :
    outcome CanonicalChainError CanonicalChainSegment :=
  match self with
  | Empty => Err Builder
  | Building b =>
      Ok (mkSegment (previous_segment b) (info b)
            (canonical_block b <$> enumerate (blocks b))
            (omap (extra_reorg (number (last_block (info b)))) (btree_iter (reorgs b))))
  end.

(** One iteration of the drain loop of [take_segment]. *)
Definition take_block (first : Z) (acc : list CanonicalBlock * gmap Z ReorgMap)
    (entry : Z * Hash) : list CanonicalBlock * gmap Z ReorgMap :=
  let block_number := add64 first entry.1 in
  (acc.1 ++ [mkCanonicalBlock entry.2 (default ∅ (acc.2 !! block_number))],
   delete block_number acc.2).

Definition take_segment (self : CanonicalChainBuilder) (size : Z) :
    outcome CanonicalChainError (CanonicalChainSegment * CanonicalChainBuilder) :=
  match self with
  | Empty => Err Builder
  | Building b =>
      let first := number (first_block (info b)) in
      if sub64 (number (last_block (info b))) first <? size then Err Builder
      else
        last_hash ← index_vec (blocks b) (size - 1);
        let segment_last := mkCursor (sub64 (add64 first size) 1) last_hash in
        (if Z.of_nat (length (blocks b)) <? size then Panic
         else
          let '(segment_canonical, reorgs') :=
            foldl (take_block first) ([], reorgs b)
              (enumerate (take (Z.to_nat size) (blocks b))) in
          let blocks' := drop (Z.to_nat size) (blocks b) in
          let segment_info := mkSegmentInfo (first_block (info b)) segment_last in
          first_hash ← index_vec blocks' 0;
          Ok (mkSegment (previous_segment b) segment_info segment_canonical [],
              Building (mkBuilding (Some segment_info)
                (mkSegmentInfo (mkCursor (add64 first size) first_hash)
                   (last_block (info b)))
                blocks' reorgs')))
  end.

(** ** Reading a segment *)

Definition canonical (self : CanonicalChainSegment) (block_number : Z) :
    outcome CanonicalChainError Cursor :=
  if block_number <? number (first_block (seg_info self)) then Err View
  else if number (last_block (seg_info self)) <? block_number then Err View
  else
    let offset := sub64 block_number (number (first_block (seg_info self))) in
    c ← index_vec (seg_canonical self) offset;
    Ok (mkCursor block_number (cb_hash c)).

Definition find_extra (self : CanonicalChainSegment) (n : Z) : option ExtraReorg :=
  snd <$> list_find (fun r => er_block_number r = n) (seg_extra_reorgs self).

Definition siblings_of (n : Z) (m : ReorgMap) : list Cursor :=
  mkCursor n <$> btree_keys m.

Definition siblings (self : CanonicalChainSegment) (cursor : Cursor) :
    outcome CanonicalChainError (list Cursor) :=
  if number cursor <? number (first_block (seg_info self)) then Err View
  else if number (last_block (seg_info self)) <? number cursor then
    match find_extra self (number cursor) with
    | None => Err View
    | Some r => Ok (siblings_of (number cursor) (er_reorgs r))
    end
  else
    let offset := sub64 (number cursor) (number (first_block (seg_info self))) in
    c ← index_vec (seg_canonical self) offset;
    Ok (siblings_of (number cursor) (cb_reorgs c)).

(** The reorg target of a cursor, or [Unknown]. *)
Definition reorg_action (m : ReorgMap) (h : Hash) : ReconnectAction :=
  match m !! h with Some target => OfflineReorg target | None => Unknown end.

Definition reconnect (self : CanonicalChainSegment) (cursor : Cursor) :
    outcome CanonicalChainError ReconnectAction :=
  if number cursor <? number (first_block (seg_info self)) then Err View
  else if number (last_block (seg_info self)) <? number cursor then
    match find_extra self (number cursor) with
    | None => Err View
    | Some r => Ok (reorg_action (er_reorgs r) (hash cursor))
    end
  else
    let offset := sub64 (number cursor) (number (first_block (seg_info self))) in
    c ← index_vec (seg_canonical self) offset;
    if bool_decide (cb_hash c = hash cursor) || hash_is_zero (hash cursor)
    then Ok Continue
    else Ok (reorg_action (cb_reorgs c) (hash cursor)).

(** The accessors of [ReconnectAction]. *)
Definition as_offline_reorg_cursor (a : ReconnectAction) : option Cursor :=
  match a with OfflineReorg c => Some c | _ => None end.
