(* ===== verification/ChainFacts.v ===== *)
(** * Correctness of the canonical chain

    [wf_building] is the invariant of a builder; every operation preserves it.
    [ledger] is the abstract contract (the chain as a list of cursors, and the
    target of every reorged cursor) and [represents] relates a builder to it;
    each operation of the builder implements the one of the ledger and
    [reconnect], read from the serialised segment, answers from the ledger. *)

From S2P Require Import Prelude Core Chain.

(** ** Blocks and reorgs of a builder *)

Definition first_number (b : building) : Z := number (first_block (info b)).
Definition last_number (b : building) : Z := number (last_block (info b)).

(** The canonical hash at a block number. *)
Definition block_at (b : building) (n : Z) : option Hash :=
  if n <? first_number b then None else blocks b !! Z.to_nat (n - first_number b).

(** The reorg target recorded for a hash at a block number. *)
Definition reorg_at (r : gmap Z ReorgMap) (n : Z) (h : Hash) : option Cursor :=
  r !! n ≫= fun m => m !! h.

(** A block the node can return: it has a hash and a successor number. *)
Definition valid_block (blk : BlockInfo) : Prop :=
  0 <= bi_number blk /\ bi_number blk + 1 < U64 /\ hash_is_zero (bi_hash blk) = false.

Record wf_building (b : building) : Prop := {
  wf_first : 0 <= first_number b;
  wf_last : last_number b + 1 < U64;
  wf_len : Z.of_nat (length (blocks b)) = last_number b - first_number b + 1;
  wf_nonempty : blocks b <> [];
  wf_head : head (blocks b) = Some (hash (first_block (info b)));
  wf_tail : last (blocks b) = Some (hash (last_block (info b)));
  wf_hashes : Forall (fun h => hash_is_zero h = false) (blocks b);
  wf_reorgs : forall n m, reorgs b !! n = Some m -> first_number b <= n /\ n + 1 < U64;
  wf_extra : forall n m, reorgs b !! n = Some m -> last_number b < n -> m <> ∅;
  wf_targets : forall n h t, reorg_at (reorgs b) n h = Some t ->
    number t < n /\
    (first_number b <= number t ->
     block_at b (number t) = Some (hash t) \/
     is_Some (reorg_at (reorgs b) (number t) (hash t)));
  wf_previous : forall i, previous_segment b = Some i ->
    number (last_block i) + 1 = first_number b }.

Definition wf_builder (self : CanonicalChainBuilder) : Prop :=
  match self with Empty => True | Building b => wf_building b end.

Lemma wf_range b : wf_building b -> 0 <= first_number b <= last_number b.
Proof.
  intros H. pose proof (wf_first _ H). pose proof (wf_len _ H) as Hlen.
  pose proof (wf_nonempty _ H). destruct (blocks b); [done|]. simpl in Hlen. lia.
Qed.

Lemma block_at_Some b n h :
  block_at b n = Some h <-> first_number b <= n /\ blocks b !! Z.to_nat (n - first_number b) = Some h.
Proof. unfold block_at. destruct (Z.ltb_spec n (first_number b)); naive_solver lia. Qed.

Lemma block_at_range b n h :
  wf_building b -> block_at b n = Some h -> first_number b <= n <= last_number b.
Proof.
  intros Hwf [Hn Hl]%block_at_Some. apply lookup_lt_Some in Hl.
  pose proof (wf_len _ Hwf). lia.
Qed.

Lemma block_at_is_Some b n :
  wf_building b -> is_Some (block_at b n) <-> first_number b <= n <= last_number b.
Proof.
  intros Hwf. split.
  - intros [h Hh]. by apply block_at_range in Hh.
  - intros Hn. pose proof (wf_len _ Hwf).
    destruct (lookup_lt_is_Some_2 (blocks b) (Z.to_nat (n - first_number b))) as [h Hh]; [lia|].
    exists h. apply block_at_Some. split; [lia|done].
Qed.

Lemma block_at_first b : wf_building b -> block_at b (first_number b) = Some (hash (first_block (info b))).
Proof.
  intros Hwf. apply block_at_Some. split; [lia|]. rewrite Z.sub_diag. simpl.
  by rewrite <- head_lookup, (wf_head _ Hwf).
Qed.

Lemma block_at_last b : wf_building b -> block_at b (last_number b) = Some (hash (last_block (info b))).
Proof.
  intros Hwf. pose proof (wf_len _ Hwf). pose proof (wf_range _ Hwf). apply block_at_Some. split; [lia|].
  rewrite <- (wf_tail _ Hwf), last_lookup. f_equal. lia.
Qed.

(** ** The loops of the builder *)

Definition cursors_from (first i : Z) (hs : list Hash) : list Cursor :=
  (fun e => mkCursor (first + e.1) e.2) <$> enumerate_from i hs.

(** After the loop of [shrink], the removed hashes point to the new head and
    every other record is unchanged. *)
Lemma shrink_loop nh first i hs acc r :
  0 <= first + i -> first + i + Z.of_nat (length hs) <= U64 ->
  exists r', foldl (shrink_block nh first) (acc, r) (enumerate_from i hs) =
      (acc ++ cursors_from first i hs, r') /\
    (forall n h, reorg_at r' n h =
       if decide (first + i <= n /\ hs !! Z.to_nat (n - first - i) = Some h)
       then Some nh else reorg_at r n h) /\
    (forall n, is_Some (r' !! n) <->
       is_Some (r !! n) \/ first + i <= n < first + i + Z.of_nat (length hs)) /\
    (forall n, ~ first + i <= n < first + i + Z.of_nat (length hs) -> r' !! n = r !! n).
Proof.
  revert i acc r. induction hs as [|h0 hs IH]; intros i acc r Hlo Hhi.
  { exists r. split_and!.
    - by rewrite app_nil_r.
    - intros n h. rewrite decide_False; [done|]. by intros [_ ?].
    - simpl. naive_solver lia.
    - done. }
  cbn [length] in Hhi. cbn [enumerate_from foldl].
  set (r1 := record_reorg nh r (first + i) h0).
  destruct (IH (i + 1) (acc ++ [mkCursor (first + i) h0]) r1) as (r' & Hf & Hr & Hs & Ho);
    [lia | lia |].
  exists r'. split_and!.
  - unfold shrink_block at 2. cbn [fst snd]. rewrite add64_id by lia. fold r1. rewrite Hf.
    by rewrite <- (assoc_L (++)).
  - intros n h. rewrite Hr. subst r1. unfold reorg_at, record_reorg.
    destruct (decide (n = first + i)) as [->|Hne].
    + rewrite (decide_False (P := first + (i + 1) <= first + i /\ _)) by lia.
      replace (first + i - first - i) with 0 by lia. simpl. rewrite lookup_insert_eq. simpl.
      rewrite lookup_insert. destruct (decide (h0 = h)) as [->|].
      * by rewrite decide_True by (split; [lia|done]).
      * rewrite decide_False by (intros [_ [=]]; done). by destruct (r !! (first + i)).
    + rewrite lookup_insert_ne by done.
      apply decide_ext. split; intros [H1 H2]; (split; [lia|]).
      * replace (Z.to_nat (n - first - i)) with (S (Z.to_nat (n - first - (i + 1)))) by lia. done.
      * replace (Z.to_nat (n - first - i)) with (S (Z.to_nat (n - first - (i + 1)))) in H2 by lia.
        done.
  - intros n. rewrite Hs. subst r1. unfold record_reorg. rewrite lookup_insert_is_Some. cbn [length].
    destruct (decide (first + i = n)); naive_solver lia.
  - intros n Hn. cbn [length] in Hn. rewrite Ho by lia. subst r1. unfold record_reorg.
    rewrite lookup_insert_ne by lia. done.
Qed.

(** After the loop of [take_segment], the drained blocks carry their reorgs
    and the builder has lost them. *)
Lemma take_loop first i hs acc r :
  0 <= first + i -> first + i + Z.of_nat (length hs) <= U64 ->
  exists r', foldl (take_block first) (acc, r) (enumerate_from i hs) =
      (acc ++ ((fun e => mkCanonicalBlock e.2 (default ∅ (r !! (first + e.1)))) <$> enumerate_from i hs), r') /\
    (forall n, r' !! n =
       if decide (first + i <= n < first + i + Z.of_nat (length hs)) then None else r !! n).
Proof.
  revert i acc r. induction hs as [|h0 hs IH]; intros i acc r Hlo Hhi.
  { exists r. split; [by rewrite app_nil_r|]. intros n. rewrite decide_False; [done|simpl; lia]. }
  cbn [length] in Hhi. cbn [enumerate_from foldl].
  destruct (IH (i + 1) (acc ++ [mkCanonicalBlock h0 (default ∅ (r !! (first + i)))])
              (delete (first + i) r)) as (r' & Hf & Hr); [lia | lia |].
  exists r'. split.
  - unfold take_block at 2. cbn [fst snd]. rewrite add64_id by lia. rewrite Hf.
    rewrite <- (assoc_L (++)). f_equal. f_equal. cbn [fmap list_fmap fst snd app]. f_equal.
    apply list_fmap_ext. intros k [j h] He. rewrite lookup_enumerate_from in He.
    destruct (hs !! k); simpl in He; [|done]. injection He as <- <-. simpl.
    by rewrite lookup_delete_ne by lia.
  - intros n. rewrite Hr. cbn [length]. rewrite lookup_delete.
    repeat case_decide; try done; try lia.
Qed.

(** The loop of [restore_from_segment] rebuilds the hashes and one record per
    block. *)
Lemma restore_loop first i cbs acc r :
  0 <= first + i -> first + i + Z.of_nat (length cbs) <= U64 ->
  exists r', foldl (restore_block first) (acc, r) (enumerate_from i cbs) =
      (acc ++ (cb_hash <$> cbs), r') /\
    (forall n, r' !! n =
       if decide (first + i <= n < first + i + Z.of_nat (length cbs))
       then cb_reorgs <$> cbs !! Z.to_nat (n - first - i) else r !! n).
Proof.
  revert i acc r. induction cbs as [|c0 cbs IH]; intros i acc r Hlo Hhi.
  { exists r. split; [by rewrite app_nil_r|]. intros n. rewrite decide_False; [done|simpl; lia]. }
  cbn [length] in Hhi. cbn [enumerate_from foldl].
  destruct (IH (i + 1) (acc ++ [cb_hash c0]) (<[first + i := cb_reorgs c0]> r))
    as (r' & Hf & Hr); [lia | lia |].
  exists r'. split.
  - unfold restore_block at 2. cbn [fst snd]. rewrite add64_id by lia. rewrite Hf.
    by rewrite <- (assoc_L (++)).
  - intros n. rewrite Hr. cbn [length]. rewrite lookup_insert.
    destruct (decide (first + i = n)) as [<-|].
    + rewrite decide_False, decide_True by lia. replace (first + i - first - i) with 0 by lia. done.
    + repeat case_decide; try done; try lia.
      by replace (Z.to_nat (n - first - i)) with (S (Z.to_nat (n - first - (i + 1)))) by lia.
Qed.

(** ** Growing *)

Lemma last_hash_nonzero b : wf_building b -> hash_is_zero (hash (last_block (info b))) = false.
Proof.
  intros Hwf. pose proof (wf_hashes _ Hwf) as Hh. rewrite Forall_forall in Hh. apply Hh.
  apply last_Some_elem_of. apply (wf_tail _ Hwf).
Qed.

Lemma can_grow_building b blk :
  wf_building b ->
  can_grow (Building b) blk = true <->
  bi_number blk = last_number b + 1 /\ bi_parent blk = hash (last_block (info b)).
Proof.
  intros Hwf. simpl. rewrite last_hash_nonzero by done.
  fold (last_number b). pose proof (wf_range _ Hwf). pose proof (wf_last _ Hwf).
  rewrite add64_id by lia. rewrite andb_true_iff, Z.eqb_eq, bool_decide_eq_true. naive_solver.
Qed.

Definition grown (b : building) (blk : BlockInfo) : building :=
  mkBuilding (previous_segment b) (mkSegmentInfo (first_block (info b)) (block_cursor blk))
    (blocks b ++ [bi_hash blk]) (reorgs b).

Lemma grow_building b blk s :
  grow (Building b) blk = Ok s <-> can_grow (Building b) blk = true /\ s = Building (grown b blk).
Proof. unfold grow. destruct (can_grow (Building b) blk); simpl; naive_solver. Qed.

Lemma block_at_grown b blk n :
  wf_building b -> bi_number blk = last_number b + 1 ->
  block_at (grown b blk) n = if decide (n = bi_number blk) then Some (bi_hash blk) else block_at b n.
Proof.
  intros Hwf Hn. pose proof (wf_len _ Hwf). pose proof (wf_range _ Hwf).
  unfold block_at. change (first_number (grown b blk)) with (first_number b). cbn [blocks grown].
  case_decide as Hd.
  - subst n. rewrite (proj2 (Z.ltb_ge _ _)) by lia. rewrite lookup_app_r by lia.
    by replace (Z.to_nat (bi_number blk - first_number b) - length (blocks b))%nat with 0%nat by lia.
  - destruct (Z.ltb_spec n (first_number b)); [done|].
    destruct (decide (Z.to_nat (n - first_number b) < length (blocks b))%nat).
    + by rewrite lookup_app_l.
    + rewrite !lookup_ge_None_2; [done | lia | rewrite length_app; simpl; lia].
Qed.

Lemma grow_wf s blk s' :
  wf_builder s -> valid_block blk -> grow s blk = Ok s' -> wf_builder s'.
Proof.
  intros Hwf (Hn0 & Hn1 & Hz) Hg. destruct s as [|b].
  { simpl in Hg. injection Hg as <-. simpl. constructor; simpl; auto; try done;
      unfold first_number, last_number; simpl; try lia; repeat constructor; done. }
  apply grow_building in Hg as [Hc ->]. simpl in Hwf. simpl.
  apply can_grow_building in Hc as [Hnum _]; [|done].
  pose proof (wf_range _ Hwf). pose proof (wf_len _ Hwf).
  constructor; unfold first_number, last_number; cbn [grown info blocks reorgs first_block last_block
    block_cursor number hash previous_segment]; fold (first_number b).
  - lia.
  - lia.
  - rewrite length_app. simpl. lia.
  - by destruct (blocks b).
  - rewrite <- (wf_head _ Hwf). pose proof (wf_nonempty _ Hwf). by destruct (blocks b).
  - apply last_snoc.
  - apply Forall_app. split; [apply (wf_hashes _ Hwf) | by constructor].
  - apply (wf_reorgs _ Hwf).
  - intros n m Hm Hlt. apply (wf_extra _ Hwf n m Hm). lia.
  - intros n h t Ht. destruct (wf_targets _ Hwf n h t Ht) as [Hlt Hcl]. split; [done|].
    intros Hf. destruct (Hcl Hf) as [Hb|?]; [left|by right].
    rewrite block_at_grown by done. rewrite decide_False; [done|].
    apply block_at_range in Hb; [lia|done].
  - apply (wf_previous _ Hwf).
Qed.

(** ** Shrinking *)

Definition shrunk (b : building) (nh : Cursor) (r : gmap Z ReorgMap) : building :=
  mkBuilding (previous_segment b) (mkSegmentInfo (first_block (info b)) nh)
    (take (Z.to_nat (number nh - first_number b + 1)) (blocks b)) r.

(** The canonical cursors above a block, in order. *)
Definition blocks_above (b : building) (n : Z) : list Cursor :=
  cursors_from (first_number b) (n - first_number b + 1)
    (drop (Z.to_nat (n - first_number b + 1)) (blocks b)).

Lemma elem_of_blocks_above b n c :
  wf_building b -> first_number b <= n ->
  c ∈ blocks_above b n <-> n < number c /\ block_at b (number c) = Some (hash c).
Proof.
  intros Hwf Hn. unfold blocks_above, cursors_from. rewrite list_elem_of_fmap. split.
  - intros [[i h] [-> Hi]]. apply elem_of_enumerate_from in Hi as [Hi Hl]. cbn [fst snd number hash].
    rewrite lookup_drop in Hl. split; [lia|]. apply block_at_Some. split; [lia|].
    rewrite <- Hl. f_equal. lia.
  - intros [Hlt [Hf Hl]%block_at_Some]. exists (number c - first_number b, hash c).
    cbn [fst snd]. split; [destruct c; simpl; f_equal; lia|].
    apply elem_of_enumerate_from. split; [lia|]. rewrite lookup_drop, <- Hl. f_equal. lia.
Qed.

Lemma block_at_shrunk b nh r n :
  wf_building b -> block_at b (number nh) = Some (hash nh) ->
  block_at (shrunk b nh r) n = if decide (n <= number nh) then block_at b n else None.
Proof.
  intros Hwf Hnh. pose proof (block_at_range _ _ _ Hwf Hnh).
  unfold block_at. change (first_number (shrunk b nh r)) with (first_number b). cbn [blocks shrunk].
  destruct (Z.ltb_spec n (first_number b)); [by case_decide|].
  rewrite lookup_take. case_decide; case_decide; try done; lia.
Qed.

(** What the reorg records are after a shrink. *)
Definition shrunk_reorgs (b : building) (nh : Cursor) (r : gmap Z ReorgMap) : Prop :=
  (forall n h, reorg_at r n h =
     if decide (number nh < n /\ block_at b n = Some h) then Some nh
     else reorg_at (reorgs b) n h) /\
  (forall n, is_Some (r !! n) <-> is_Some (reorgs b !! n) \/ number nh < n <= last_number b) /\
  (forall n, ~ number nh < n <= last_number b -> r !! n = reorgs b !! n).

Lemma shrink_ok b nh :
  wf_building b -> block_at b (number nh) = Some (hash nh) ->
  exists r, shrink (Building b) nh = Ok (blocks_above b (number nh), Building (shrunk b nh r)) /\
    shrunk_reorgs b nh r.
Proof.
  intros Hwf Hnh. pose proof (block_at_range _ _ _ Hwf Hnh) as Hrng.
  pose proof (wf_len _ Hwf) as Hlen. pose proof (wf_first _ Hwf). pose proof (wf_last _ Hwf).
  apply block_at_Some in Hnh as Hnh'. destruct Hnh' as [_ Hl].
  simpl. fold (first_number b) (last_number b).
  rewrite !(proj2 (Z.ltb_ge _ _)) by lia. rewrite sub64_id by lia. rewrite Hl.
  rewrite bool_decide_eq_true_2 by done. simpl.
  destruct (Z.eqb_spec (number nh - first_number b) (Z.of_nat (length (blocks b)) - 1)) as [He|He].
  - assert (number nh = last_number b) as Hlast by lia.
    exists (reorgs b). split.
    + unfold blocks_above. rewrite drop_ge by lia. simpl. repeat f_equal.
      destruct b as [p [f l] bl r]. unfold shrunk. simpl. f_equal.
      * f_equal. destruct nh as [nn nhh], l as [ln lh]. simpl in *. f_equal; [done|].
        pose proof (block_at_last _ Hwf) as Hb. unfold last_number in Hb, Hlast. simpl in Hb, Hlast.
        rewrite <- Hlast in Hb. congruence.
      * unfold first_number in *. simpl in *. rewrite take_ge by lia. done.
    + split_and!.
      * intros n h. rewrite decide_False; [done|]. intros [? Hb].
        apply block_at_range in Hb; [lia|done].
      * naive_solver lia.
      * done.
  - set (k := number nh - first_number b + 1).
    destruct (shrink_loop nh (first_number b) k (drop (Z.to_nat k) (blocks b)) [] (reorgs b))
      as (r' & Hfold & Hr & Hs & Ho); [lia | rewrite length_drop; lia |].
    rewrite Hfold. rewrite length_take. rewrite (proj2 (Z.eqb_eq _ _)).
    2:{ rewrite add64_id by lia. lia. }
    exists r'. split; [done|]. rewrite length_drop in Hs, Ho. split_and!.
    + intros n h. rewrite Hr. apply decide_ext. rewrite block_at_Some, lookup_drop.
      split; intros [H1 H2].
      * split; [lia|]. split; [lia|]. rewrite <- H2. f_equal. lia.
      * destruct H2 as [_ H2]. split; [lia|]. rewrite <- H2. f_equal. lia.
    + intros n. rewrite Hs. split; (intros [?|?]; [by left|right; lia]).
    + intros n Hn. apply Ho. lia.
Qed.

Lemma shrink_err s nh :
  wf_builder s ->
  (forall b, s = Building b -> block_at b (number nh) <> Some (hash nh)) ->
  shrink s nh = Err Builder.
Proof.
  intros Hwf Hne. destruct s as [|b]; [done|]. specialize (Hne b eq_refl). simpl in Hwf.
  pose proof (wf_first _ Hwf). pose proof (wf_last _ Hwf).
  simpl. fold (first_number b) (last_number b).
  destruct (Z.ltb_spec (number nh) (first_number b)); [done|].
  destruct (Z.ltb_spec (last_number b) (number nh)); [done|].
  rewrite sub64_id by lia. rewrite block_at_Some in Hne.
  destruct (blocks b !! _) as [h|] eqn:Hl; [|done].
  rewrite bool_decide_eq_false_2; [done|]. naive_solver.
Qed.

Lemma shrunk_wf b nh r :
  wf_building b -> block_at b (number nh) = Some (hash nh) -> shrunk_reorgs b nh r ->
  wf_building (shrunk b nh r).
Proof.
  intros Hwf Hnh (Hr & Hs & Ho). pose proof (block_at_range _ _ _ Hwf Hnh) as Hrng.
  pose proof (wf_len _ Hwf) as Hlen. pose proof (wf_last _ Hwf).
  apply block_at_Some in Hnh as Hnh'. destruct Hnh' as [_ Hl].
  constructor; unfold first_number, last_number;
    cbn [shrunk info blocks reorgs first_block last_block previous_segment]; fold (first_number b).
  - apply (wf_first _ Hwf).
  - lia.
  - rewrite length_take. lia.
  - pose proof (wf_nonempty _ Hwf). destruct (blocks b); [done|].
    by replace (Z.to_nat (number nh - first_number b + 1)) with
      (S (Z.to_nat (number nh - first_number b))) by lia.
  - rewrite head_lookup, lookup_take_lt, <- head_lookup by lia. apply (wf_head _ Hwf).
  - rewrite last_lookup, length_take, lookup_take_lt by lia. rewrite <- Hl. f_equal. lia.
  - apply Forall_take, (wf_hashes _ Hwf).
  - intros n m Hm. destruct (proj1 (Hs n) (mk_is_Some _ _ Hm)) as [[m' Hm']|?]; [|lia].
    apply (wf_reorgs _ Hwf _ _ Hm').
  - intros n m Hm Hlt. destruct (decide (n <= last_number b)).
    + destruct (proj2 (block_at_is_Some b n Hwf)) as [h Hh]; [lia|].
      specialize (Hr n h). rewrite decide_True in Hr by done.
      unfold reorg_at in Hr. rewrite Hm in Hr. simpl in Hr. by intros ->.
    + rewrite Ho in Hm by lia. apply (wf_extra _ Hwf _ _ Hm). lia.
  - intros n h t Ht. rewrite Hr in Ht. case_decide as Hd.
    + injection Ht as <-. split; [lia|]. intros _. left.
      rewrite block_at_shrunk, decide_True by done. done.
    + destruct (wf_targets _ Hwf n h t Ht) as [Hlt Hcl]. split; [done|]. intros Hf.
      rewrite block_at_shrunk by done. rewrite Hr.
      destruct (Hcl Hf) as [Hb|[u Hu]].
      * destruct (decide (number t <= number nh)); [by left|]. right.
        rewrite decide_True by (split; [lia|done]). done.
      * right. case_decide; by eauto.
  - apply (wf_previous _ Hwf).
Qed.

(** ** Taking a segment off the front *)

Definition taken (b : building) (size : Z) (lh fh : Hash) (r : gmap Z ReorgMap) : building :=
  mkBuilding
    (Some (mkSegmentInfo (first_block (info b)) (mkCursor (first_number b + size - 1) lh)))
    (mkSegmentInfo (mkCursor (first_number b + size) fh) (last_block (info b)))
    (drop (Z.to_nat size) (blocks b)) r.

Definition taken_segment (b : building) (size : Z) (lh : Hash) : CanonicalChainSegment :=
  mkSegment (previous_segment b)
    (mkSegmentInfo (first_block (info b)) (mkCursor (first_number b + size - 1) lh))
    ((fun e => mkCanonicalBlock e.2 (default ∅ (reorgs b !! (first_number b + e.1)))) <$>
       enumerate (take (Z.to_nat size) (blocks b))) [].

Definition taken_reorgs (b : building) (size : Z) (r : gmap Z ReorgMap) : Prop :=
  forall n, r !! n = if decide (first_number b + size <= n) then reorgs b !! n else None.

Lemma take_segment_small b size :
  wf_building b -> last_number b - first_number b < size -> take_segment (Building b) size = Err Builder.
Proof.
  intros Hwf Hs. pose proof (wf_range _ Hwf). pose proof (wf_last _ Hwf).
  simpl. fold (first_number b) (last_number b). rewrite sub64_id by lia.
  by rewrite (proj2 (Z.ltb_lt _ _)) by lia.
Qed.

Lemma take_segment_ok b size :
  wf_building b -> 0 < size -> size <= last_number b - first_number b ->
  exists lh fh r,
    block_at b (first_number b + size - 1) = Some lh /\
    block_at b (first_number b + size) = Some fh /\
    take_segment (Building b) size =
      Ok (taken_segment b size lh, Building (taken b size lh fh r)) /\
    taken_reorgs b size r.
Proof.
  intros Hwf Hpos Hs. pose proof (wf_range _ Hwf). pose proof (wf_last _ Hwf).
  pose proof (wf_len _ Hwf) as Hlen.
  destruct (proj2 (block_at_is_Some b (first_number b + size - 1) Hwf)) as [lh Hlh]; [lia|].
  destruct (proj2 (block_at_is_Some b (first_number b + size) Hwf)) as [fh Hfh]; [lia|].
  destruct (take_loop (first_number b) 0 (take (Z.to_nat size) (blocks b)) [] (reorgs b))
    as (r & Hfold & Hr); [lia | rewrite length_take; lia |].
  exists lh, fh, r. split_and!; [done | done | |].
  - simpl. fold (first_number b) (last_number b). rewrite sub64_id by lia.
    rewrite (proj2 (Z.ltb_ge _ _)) by lia.
    apply block_at_Some in Hlh as [_ Hlh]. apply block_at_Some in Hfh as [_ Hfh].
    rewrite (proj2 (index_vec_Ok (blocks b) (size - 1) lh)).
    2:{ split; [lia|]. rewrite <- Hlh. f_equal. lia. }
    rewrite bind_Ok_l, (proj2 (Z.ltb_ge _ _)) by lia. unfold enumerate. rewrite Hfold.
    rewrite (proj2 (index_vec_Ok (drop (Z.to_nat size) (blocks b)) 0 fh)).
    2:{ split; [lia|]. rewrite lookup_drop, <- Hfh. f_equal. lia. }
    rewrite bind_Ok_l. rewrite !add64_id, sub64_id by lia. done.
  - intros n. rewrite Hr, length_take. destruct (decide (first_number b + size <= n)).
    + rewrite decide_False by lia. done.
    + case_decide; [done|]. destruct (reorgs b !! n) eqn:Hn; [|done].
      apply (wf_reorgs _ Hwf) in Hn. lia.
Qed.

Lemma block_at_taken b size lh fh r n :
  0 <= size ->
  block_at (taken b size lh fh r) n = if decide (first_number b + size <= n) then block_at b n else None.
Proof.
  intros Hs. unfold block_at. change (first_number (taken b size lh fh r)) with (first_number b + size).
  cbn [blocks taken]. case_decide.
  - rewrite !(proj2 (Z.ltb_ge _ _)) by lia. rewrite lookup_drop. f_equal. lia.
  - by rewrite (proj2 (Z.ltb_lt _ _)) by lia.
Qed.

Lemma taken_wf b size lh fh r :
  wf_building b -> 0 < size -> size <= last_number b - first_number b ->
  block_at b (first_number b + size) = Some fh -> taken_reorgs b size r ->
  wf_building (taken b size lh fh r).
Proof.
  intros Hwf Hpos Hs Hfh Hr. pose proof (wf_range _ Hwf). pose proof (wf_len _ Hwf) as Hlen.
  apply block_at_Some in Hfh as [_ Hfh].
  assert (forall n h, reorg_at r n h =
    if decide (first_number b + size <= n) then reorg_at (reorgs b) n h else None) as Hra.
  { intros n h. unfold reorg_at. rewrite Hr. by case_decide. }
  constructor; try (unfold first_number, last_number;
    cbn [taken info blocks reorgs first_block last_block previous_segment number hash];
    fold (first_number b) (last_number b)).
  - lia.
  - apply (wf_last _ Hwf).
  - rewrite length_drop. lia.
  - intros Hd. apply (f_equal length) in Hd. rewrite length_drop in Hd. simpl in Hd. lia.
  - rewrite head_lookup, lookup_drop, <- Hfh. f_equal. lia.
  - rewrite last_lookup, length_drop, lookup_drop, <- (wf_tail _ Hwf), last_lookup. f_equal. lia.
  - apply Forall_drop, (wf_hashes _ Hwf).
  - intros n m Hm. rewrite Hr in Hm. case_decide; [|done]. apply (wf_reorgs _ Hwf) in Hm. lia.
  - intros n m Hm Hlt. rewrite Hr in Hm. case_decide; [|done]. by apply (wf_extra _ Hwf _ _ Hm).
  - intros n h t Ht. rewrite Hra in Ht. case_decide; [|done].
    destruct (wf_targets _ Hwf n h t Ht) as [Hlt Hcl]. split; [done|].
    intros Hf. rewrite block_at_taken by lia.
    rewrite Hra, !decide_True by done. apply Hcl. lia.
  - intros i [= <-]. simpl. lia.
Qed.

(** ** The serialised segment *)

(** [b] is what [current_segment] serialised into [seg]. *)
Definition segment_of (b : building) : CanonicalChainSegment :=
  mkSegment (previous_segment b) (info b) (canonical_block b <$> enumerate (blocks b))
    (omap (extra_reorg (last_number b)) (btree_iter (reorgs b))).

Lemma current_segment_building b : current_segment (Building b) = Ok (segment_of b).
Proof. done. Qed.

Lemma segment_index {E} b n h :
  wf_building b -> block_at b n = Some h ->
  (index_vec (seg_canonical (segment_of b)) (sub64 n (first_number b)) : outcome E _) =
    Ok (mkCanonicalBlock h (default ∅ (reorgs b !! n))).
Proof.
  intros Hwf Hh. pose proof (block_at_range _ _ _ Hwf Hh). pose proof (wf_last _ Hwf).
  pose proof (wf_first _ Hwf). apply block_at_Some in Hh as [_ Hh].
  rewrite sub64_id by lia. apply index_vec_Ok. split; [lia|].
  cbn [seg_canonical segment_of]. rewrite list_lookup_fmap. unfold enumerate.
  rewrite lookup_enumerate_from, Hh. simpl. unfold canonical_block. simpl.
  fold (first_number b). rewrite add64_id by lia. do 4 f_equal. lia.
Qed.

Lemma segment_find_extra b n :
  last_number b < n -> find_extra (segment_of b) n = mkExtraReorg n <$> reorgs b !! n.
Proof.
  intros Hn. unfold find_extra. cbn [seg_extra_reorgs segment_of].
  set (l := omap _ _).
  assert (forall r, r ∈ l -> er_block_number r = n -> reorgs b !! n = Some (er_reorgs r)) as Hin.
  { intros r Hr <-. subst l. apply list_elem_of_omap in Hr as ([k m] & Hk & Heq).
    unfold extra_reorg in Heq. simpl in Heq. destruct (_ <? k); [|done]. injection Heq as <-.
    by apply elem_of_btree_iter in Hk. }
  destruct (list_find (fun r => er_block_number r = n) l) as [[i r]|] eqn:Hf.
  - apply list_find_Some in Hf as (Hi & Hp & _). simpl.
    rewrite (Hin r); [|eapply list_elem_of_lookup_2; done | done]. simpl. f_equal.
    destruct r. simpl in *. by subst.
  - simpl. destruct (reorgs b !! n) as [m|] eqn:Hm; [|done]. exfalso.
    rewrite list_find_None, Forall_forall in Hf. apply (Hf (mkExtraReorg n m)); [|done].
    subst l. apply list_elem_of_omap. exists (n, m). split; [by apply elem_of_btree_iter|].
    unfold extra_reorg. simpl. by rewrite (proj2 (Z.ltb_lt _ _)) by lia.
Qed.

(** The taken segment is itself the segment of a builder. *)
Definition front (b : building) (size : Z) (lh : Hash) : building :=
  mkBuilding (previous_segment b)
    (mkSegmentInfo (first_block (info b)) (mkCursor (first_number b + size - 1) lh))
    (take (Z.to_nat size) (blocks b))
    (filter (fun p => p.1 < first_number b + size) (reorgs b)).

Lemma front_reorgs b size lh n :
  reorgs (front b size lh) !! n =
  if decide (n < first_number b + size) then reorgs b !! n else None.
Proof.
  cbn [front reorgs]. rewrite map_lookup_filter. destruct (reorgs b !! n); simpl; [|by case_decide].
  case_decide; [by rewrite option_guard_True | by rewrite option_guard_False].
Qed.

Lemma front_segment b size lh :
  wf_building b -> 0 < size -> size <= last_number b - first_number b ->
  taken_segment b size lh = segment_of (front b size lh).
Proof.
  intros Hwf Hs Hl. pose proof (wf_range _ Hwf). pose proof (wf_last _ Hwf).
  pose proof (wf_len _ Hwf). unfold taken_segment, segment_of. f_equal.
  - cbn [front blocks]. apply list_eq. intros i. rewrite !list_lookup_fmap. unfold enumerate.
    rewrite !lookup_enumerate_from. destruct (take _ _ !! i) eqn:Hi; [|done]. simpl.
    apply lookup_lt_Some in Hi. rewrite length_take in Hi. unfold canonical_block.
    cbn [fst snd front info first_block]. fold (first_number b). rewrite add64_id by lia.
    by rewrite (front_reorgs b size lh), decide_True by lia.
  - symmetry. destruct (omap _ _) as [|x l] eqn:Ho; [done|].
    assert (x ∈ x :: l) as Hx by apply list_elem_of_here. rewrite <- Ho in Hx.
    apply list_elem_of_omap in Hx as ([n m] & Hn%elem_of_btree_iter & He).
    rewrite front_reorgs in Hn. case_decide; [|done].
    unfold extra_reorg in He. change (last_number (front b size lh)) with (first_number b + size - 1) in He.
    simpl in He. destruct (Z.ltb_spec (first_number b + size - 1) n); [lia|done].
Qed.

Lemma block_at_front b size lh n :
  0 <= size ->
  block_at (front b size lh) n = if decide (n < first_number b + size) then block_at b n else None.
Proof.
  intros Hs. unfold block_at. change (first_number (front b size lh)) with (first_number b).
  cbn [blocks front]. destruct (Z.ltb_spec n (first_number b)); [by case_decide|].
  rewrite lookup_take. case_decide; case_decide; try done; lia.
Qed.

Lemma front_wf b size lh :
  wf_building b -> 0 < size -> size <= last_number b - first_number b ->
  block_at b (first_number b + size - 1) = Some lh -> wf_building (front b size lh).
Proof.
  intros Hwf Hs Hl Hlh. pose proof (wf_range _ Hwf). pose proof (wf_last _ Hwf).
  pose proof (wf_len _ Hwf) as Hlen. apply block_at_Some in Hlh as [_ Hlh].
  assert (forall n h, reorg_at (reorgs (front b size lh)) n h =
    if decide (n < first_number b + size) then reorg_at (reorgs b) n h else None) as Hra.
  { intros n h. unfold reorg_at. rewrite front_reorgs. by case_decide. }
  constructor; change (first_number (front b size lh)) with (first_number b);
    change (last_number (front b size lh)) with (first_number b + size - 1).
  - lia.
  - lia.
  - cbn [front blocks]. rewrite length_take. lia.
  - cbn [front blocks]. pose proof (wf_nonempty _ Hwf). destruct (blocks b); [done|].
    by replace (Z.to_nat size) with (S (Z.to_nat (size - 1))) by lia.
  - cbn [front blocks info first_block]. rewrite <- (wf_head _ Hwf), !head_lookup, lookup_take.
    by rewrite decide_True by lia.
  - cbn [front blocks info last_block hash]. rewrite last_lookup, length_take, lookup_take, decide_True by lia.
    rewrite <- Hlh. f_equal. lia.
  - cbn [front blocks]. apply Forall_take, Hwf.
  - intros n m Hm. rewrite front_reorgs in Hm. case_decide; [|done]. by apply (wf_reorgs _ Hwf) in Hm.
  - intros n m Hm Hlt. rewrite front_reorgs in Hm. case_decide; [lia|done].
  - intros n h t Ht. rewrite Hra in Ht. case_decide; [|done].
    destruct (wf_targets _ Hwf n h t Ht) as [Hlt Hcl]. split; [done|]. intros Hf.
    rewrite Hra, block_at_front, !decide_True by lia. by apply Hcl.
  - apply (wf_previous _ Hwf).
Qed.

(** ** Restoring a builder from its segment *)

Definition restored (b : building) (r : gmap Z ReorgMap) : building :=
  mkBuilding (previous_segment b) (info b) (blocks b) r.

Definition restored_reorgs (b : building) (r : gmap Z ReorgMap) : Prop :=
  forall n, r !! n = if decide (first_number b <= n <= last_number b)
                     then Some (default ∅ (reorgs b !! n)) else None.

Lemma restore_ok b :
  wf_building b ->
  exists r, restore_from_segment (segment_of b) = Ok (Building (restored b r)) /\
    restored_reorgs b r.
Proof.
  intros Hwf. pose proof (wf_range _ Hwf). pose proof (wf_last _ Hwf). pose proof (wf_len _ Hwf).
  unfold restore_from_segment. cbn [seg_info segment_of]. fold (first_number b).
  destruct (restore_loop (first_number b) 0 (seg_canonical (segment_of b)) [] ∅)
    as (r & Hf & Hr); cbn [seg_canonical segment_of];
    unfold enumerate; rewrite ?length_fmap, ?length_enumerate_from; [lia..|].
  cbn [seg_canonical segment_of] in Hf, Hr. unfold enumerate in Hf, Hr. rewrite Hf. exists r. split.
  - repeat f_equal. unfold restored. f_equal. simpl. rewrite <- list_fmap_compose.
    apply list_eq. intros i. rewrite list_lookup_fmap. unfold enumerate.
    rewrite lookup_enumerate_from. by destruct (blocks b !! i).
  - intros n. rewrite Hr. rewrite length_fmap. unfold enumerate. rewrite length_enumerate_from.
    destruct (decide (first_number b <= n <= last_number b)).
    + rewrite decide_True by lia. rewrite list_lookup_fmap, lookup_enumerate_from.
      destruct (proj2 (block_at_is_Some b n Hwf)) as [h Hh]; [lia|].
      apply block_at_Some in Hh as [_ Hh]. replace (n - first_number b - 0) with (n - first_number b) by lia.
      rewrite Hh. simpl. fold (first_number b). rewrite add64_id by lia.
      by replace (first_number b + (0 + Z.of_nat (Z.to_nat (n - first_number b)))) with n by lia.
    + rewrite decide_False by lia. apply lookup_empty.
Qed.

Lemma restored_reorg_at b r n h :
  restored_reorgs b r ->
  reorg_at r n h =
  if decide (first_number b <= n <= last_number b) then reorg_at (reorgs b) n h else None.
Proof.
  intros Hr. unfold reorg_at. rewrite Hr. case_decide; [|done]. simpl.
  destruct (reorgs b !! n); simpl; [done|]. apply lookup_empty.
Qed.

Lemma restored_wf b r : wf_building b -> restored_reorgs b r -> wf_building (restored b r).
Proof.
  intros Hwf Hr. pose proof (wf_last _ Hwf). pose proof (wf_range _ Hwf).
  constructor; try apply Hwf; cbn [restored reorgs]; change (first_number (restored b r)) with (first_number b);
    change (last_number (restored b r)) with (last_number b).
  - intros n m Hm. rewrite Hr in Hm. case_decide; [lia|done].
  - intros n m Hm Hlt. rewrite Hr in Hm. case_decide; [lia|done].
  - intros n h t Ht. rewrite (restored_reorg_at b r) in Ht by done. case_decide; [|done].
    destruct (wf_targets _ Hwf n h t Ht) as [Hlt Hcl]. split; [done|]. intros Hf.
    destruct (Hcl Hf) as [?|?]; [by left|right].
    rewrite (restored_reorg_at b r), decide_True by (done || lia). done.
Qed.

#[export] Hint Resolve shrunk_wf taken_wf restored_wf grow_wf : dna.
