(* ===== verification/ChainSpec.v ===== *)
(** * The contract of the canonical chain

    The abstract ledger, the simulation of its operations by the builder, the
    reachable builders, and what a client that reconnects observes. *)

From S2P Require Import Prelude Core Chain ChainFacts.

(** ** The ledger *)

(** The canonical cursors in order, and for every cursor that was reorged away
    the block it was rolled back to. *)
Record ledger := mkLedger { lg_chain : list Cursor; lg_reorged : gmap Cursor Cursor }.

Definition ledger_grow (c : Cursor) (L : ledger) : ledger :=
  mkLedger (lg_chain L ++ [c]) (lg_reorged L).

Definition ledger_removed (nh : Cursor) (L : ledger) : list Cursor :=
  filter (fun c => number nh < number c) (lg_chain L).

Definition ledger_shrink (nh : Cursor) (L : ledger) : ledger :=
  mkLedger (filter (fun c => number c <= number nh) (lg_chain L))
    (list_to_map ((fun c => (c, nh)) <$> ledger_removed nh L) ∪ lg_reorged L).

(** The blocks below [n] leave the ledger. *)
Definition ledger_take (n : Z) (L : ledger) : ledger :=
  mkLedger (filter (fun c => n <= number c) (lg_chain L))
    (filter (fun p => n <= number p.1) (lg_reorged L)).

(** A restart keeps the reorgs at or below the head only. *)
Definition ledger_restart (head : Z) (L : ledger) : ledger :=
  mkLedger (lg_chain L) (filter (fun p => number p.1 <= head) (lg_reorged L)).

Definition ledger_action (L : ledger) (c : Cursor) : ReconnectAction :=
  match lg_reorged L !! c with Some t => OfflineReorg t | None => Unknown end.

Definition ledger_reconnect (L : ledger) (c : Cursor) : outcome CanonicalChainError ReconnectAction :=
  match head (lg_chain L), last (lg_chain L) with
  | Some f, Some l =>
      if decide (number c < number f) then Err View
      else if decide (number l < number c) then
        if decide (map_Exists (fun k _ => number k = number c) (lg_reorged L))
        then Ok (ledger_action L c) else Err View
      else if decide (c ∈ lg_chain L \/ hash_is_zero (hash c) = true) then Ok Continue
      else Ok (ledger_action L c)
  | _, _ => Err View
  end.

(** ** Simulation *)

Definition chain_of (b : building) : list Cursor := cursors_from (first_number b) 0 (blocks b).

Record represents (b : building) (L : ledger) : Prop := {
  rep_chain : lg_chain L = chain_of b;
  rep_reorged : forall c, lg_reorged L !! c = reorg_at (reorgs b) (number c) (hash c) }.

Lemma elem_of_chain_of b c : c ∈ chain_of b <-> block_at b (number c) = Some (hash c).
Proof.
  unfold chain_of, cursors_from. rewrite list_elem_of_fmap. split.
  - intros [[i h] [-> Hi]]. apply elem_of_enumerate_from in Hi as [Hi Hl]. simpl in *.
    apply block_at_Some. split; [lia|]. rewrite <- Hl. f_equal. lia.
  - intros [Hf Hl]%block_at_Some. exists (number c - first_number b, hash c). simpl.
    split; [destruct c; simpl; f_equal; lia|].
    apply elem_of_enumerate_from. split; [lia|]. rewrite <- Hl. f_equal. lia.
Qed.

Lemma chain_of_head b : wf_building b -> head (chain_of b) = Some (first_block (info b)).
Proof.
  intros Hwf. pose proof (wf_head _ Hwf) as Hh. unfold chain_of, cursors_from.
  destruct (blocks b); [done|]. simpl in *. injection Hh as ->. unfold first_number.
  destruct (first_block (info b)). simpl. do 2 f_equal. lia.
Qed.

Lemma chain_of_last b : wf_building b -> last (chain_of b) = Some (last_block (info b)).
Proof.
  intros Hwf. pose proof (wf_tail _ Hwf) as Ht. pose proof (wf_len _ Hwf). pose proof (wf_range _ Hwf).
  rewrite last_lookup in Ht. rewrite last_lookup. unfold chain_of, cursors_from.
  rewrite length_fmap, length_enumerate_from, list_lookup_fmap, lookup_enumerate_from, Ht. simpl.
  f_equal. unfold last_number in *. destruct (last_block (info b)). simpl in *. f_equal. lia.
Qed.

(** Splitting the numbered blocks at an index splits them by number. *)
Lemma filter_cursors_below f i hs n :
  filter (fun c => number c < n) (cursors_from f i hs) =
  cursors_from f i (take (Z.to_nat (n - f - i)) hs).
Proof.
  revert i. induction hs as [|h hs IH]; intros i; [by rewrite take_nil|].
  unfold cursors_from in *. simpl. rewrite filter_cons. simpl. case_decide.
  - rewrite IH. replace (Z.to_nat (n - f - i)) with (S (Z.to_nat (n - f - (i + 1)))) by lia. done.
  - rewrite IH. replace (Z.to_nat (n - f - i)) with 0%nat by lia.
    by replace (Z.to_nat (n - f - (i + 1))) with 0%nat by lia.
Qed.

Lemma filter_cursors_above f i hs n :
  filter (fun c => n <= number c) (cursors_from f i hs) =
  cursors_from f (i + Z.of_nat (Z.to_nat (n - f - i))) (drop (Z.to_nat (n - f - i)) hs).
Proof.
  revert i. induction hs as [|h hs IH]; intros i; [by rewrite drop_nil|].
  unfold cursors_from in *. simpl. rewrite filter_cons. simpl. case_decide.
  - rewrite IH. replace (Z.to_nat (n - f - i)) with 0%nat by lia.
    replace (Z.to_nat (n - f - (i + 1))) with 0%nat by lia. simpl.
    by rewrite !Z.add_0_r.
  - rewrite IH. replace (Z.to_nat (n - f - i)) with (S (Z.to_nat (n - f - (i + 1)))) by lia.
    simpl. f_equal. f_equal. lia.
Qed.

Lemma filter_lt_le (l : list Cursor) n :
  filter (fun c => n < number c) l = filter (fun c => n + 1 <= number c) l.
Proof. apply list_filter_iff. intros c. lia. Qed.

Lemma filter_le_lt (l : list Cursor) n :
  filter (fun c => number c <= n) l = filter (fun c => number c < n + 1) l.
Proof. apply list_filter_iff. intros c. lia. Qed.

Lemma represents_grow b L blk :
  wf_building b -> represents b L -> bi_number blk = last_number b + 1 ->
  represents (grown b blk) (ledger_grow (block_cursor blk) L).
Proof.
  intros Hwf [Hc Hr] Hn. pose proof (wf_len _ Hwf). split; [|done].
  unfold ledger_grow, chain_of. cbn [lg_chain grown blocks]. rewrite Hc.
  change (first_number (grown b blk)) with (first_number b). unfold chain_of, cursors_from.
  rewrite enumerate_from_app, fmap_app. f_equal. simpl. unfold block_cursor. do 2 f_equal. lia.
Qed.

Lemma represents_removed b L nh :
  wf_building b -> represents b L -> block_at b (number nh) = Some (hash nh) ->
  ledger_removed nh L = blocks_above b (number nh).
Proof.
  intros Hwf [Hc _] Hnh. pose proof (block_at_range _ _ _ Hwf Hnh).
  unfold ledger_removed. rewrite Hc, filter_lt_le. unfold chain_of. rewrite filter_cursors_above.
  unfold blocks_above. f_equal; [lia|]. f_equal. lia.
Qed.

Lemma lookup_const_map (l : list Cursor) (t c : Cursor) :
  (list_to_map ((fun c => (c, t)) <$> l) : gmap Cursor Cursor) !! c =
  if decide (c ∈ l) then Some t else None.
Proof.
  induction l as [|x l IH]; [apply lookup_empty|].
  rewrite fmap_cons, list_to_map_cons.
  destruct (decide (c = x)) as [->|].
  - rewrite lookup_insert_eq, decide_True; [done|]. apply list_elem_of_here.
  - rewrite lookup_insert_ne, IH by done. repeat case_decide; set_solver.
Qed.

Lemma represents_shrink b L nh r :
  wf_building b -> represents b L -> block_at b (number nh) = Some (hash nh) ->
  shrunk_reorgs b nh r -> represents (shrunk b nh r) (ledger_shrink nh L).
Proof.
  intros Hwf HL Hnh (Hr & _). pose proof (block_at_range _ _ _ Hwf Hnh). split.
  - cbn [ledger_shrink lg_chain]. rewrite (rep_chain _ _ HL), filter_le_lt. unfold chain_of.
    rewrite filter_cursors_below. cbn [shrunk blocks].
    change (first_number (shrunk b nh r)) with (first_number b). f_equal. f_equal. lia.
  - intros c. cbn [ledger_shrink lg_reorged shrunk reorgs]. rewrite Hr.
    rewrite (represents_removed b L nh) by done.
    rewrite lookup_union, lookup_const_map.
    pose proof (elem_of_blocks_above b (number nh) c Hwf ltac:(lia)).
    repeat case_decide; try tauto; [by rewrite union_Some_l|].
    rewrite <- (rep_reorged _ _ HL). by destruct (lg_reorged L !! c).
Qed.

Lemma represents_take b L size lh fh r :
  wf_building b -> represents b L -> 0 < size -> taken_reorgs b size r ->
  represents (taken b size lh fh r) (ledger_take (first_number b + size) L).
Proof.
  intros Hwf HL Hs Hr. split.
  - cbn [ledger_take lg_chain]. rewrite (rep_chain _ _ HL). unfold chain_of.
    rewrite filter_cursors_above. cbn [taken blocks].
    change (first_number (taken b size lh fh r)) with (first_number b + size).
    replace (first_number b + size - first_number b - 0) with size by lia.
    unfold cursors_from. generalize (drop (Z.to_nat size) (blocks b)). intros hs.
    apply list_eq. intros i. rewrite !list_lookup_fmap, !lookup_enumerate_from.
    destruct (hs !! i); simpl; [|done]. do 2 f_equal. lia.
  - intros c. cbn [ledger_take lg_reorged taken reorgs]. unfold reorg_at. rewrite Hr.
    case_decide.
    + rewrite map_lookup_filter, (rep_reorged _ _ HL). unfold reorg_at.
      destruct (reorgs b !! number c ≫= _) as [t|]; [|done]. simpl. by rewrite option_guard_True.
    + rewrite map_lookup_filter. destruct (lg_reorged L !! c); [|done]. simpl.
      by rewrite option_guard_False.
Qed.

Lemma represents_restore b L r :
  wf_building b -> represents b L -> restored_reorgs b r ->
  represents (restored b r) (ledger_restart (last_number b) L).
Proof.
  intros Hwf HL Hr. split; [apply (rep_chain _ _ HL)|].
  intros c. cbn [ledger_restart lg_reorged restored reorgs].
  rewrite (restored_reorg_at b r), map_lookup_filter by done. rewrite (rep_reorged _ _ HL).
  destruct (reorg_at (reorgs b) (number c) (hash c)) as [t|] eqn:Ht; simpl; [|by case_decide].
  assert (first_number b <= number c) as Hf.
  { unfold reorg_at in Ht. destruct (reorgs b !! number c) eqn:Hm; [|done].
    by apply (wf_reorgs _ Hwf) in Hm as [? _]. }
  case_guard; case_decide; done || lia.
Qed.

(** ** Runs of the builder *)

(** The operations of the ingestion service on its builder; a restart loads
    the segment it uploaded last. *)
Inductive builder_op :=
| OpGrow (block : BlockInfo)
| OpShrink (new_head : Cursor)
| OpTake (size : Z)
| OpRestart.

Definition valid_op (op : builder_op) : Prop :=
  match op with
  | OpGrow block => valid_block block
  | OpTake size => 0 < size
  | _ => True
  end.

Definition builder_apply (s : CanonicalChainBuilder) (op : builder_op) :
    outcome CanonicalChainError CanonicalChainBuilder :=
  match op with
  | OpGrow block => grow s block
  | OpShrink nh => snd <$> shrink s nh
  | OpTake size => snd <$> take_segment s size
  | OpRestart => seg ← current_segment s; restore_from_segment seg
  end.

Definition ledger_apply (L : ledger) (op : builder_op) : ledger :=
  match op, head (lg_chain L), last (lg_chain L) with
  | OpGrow block, _, _ => ledger_grow (block_cursor block) L
  | OpShrink nh, _, _ => ledger_shrink nh L
  | OpTake size, Some f, _ => ledger_take (number f + size) L
  | OpRestart, _, Some l => ledger_restart (number l) L
  | _, _, _ => L
  end.

(** A sequence of operations; the ones that fail leave the builder as it was,
    as in the service, which gives up on them. *)
Definition builder_run (s : CanonicalChainBuilder) (op : builder_op) : CanonicalChainBuilder :=
  match builder_apply s op with Ok s' => s' | _ => s end.

Definition ledger_run (sL : CanonicalChainBuilder * ledger) (op : builder_op) :
    CanonicalChainBuilder * ledger :=
  match builder_apply sL.1 op with
  | Ok s' => (s', ledger_apply sL.2 op)
  | _ => sL
  end.

Definition represents_builder (s : CanonicalChainBuilder) (L : ledger) : Prop :=
  match s with
  | Empty => L = mkLedger [] ∅
  | Building b => wf_building b /\ represents b L
  end.

Lemma represents_builder_wf s L : represents_builder s L -> wf_builder s.
Proof. destruct s; simpl; naive_solver. Qed.

Lemma represents_new blk s :
  valid_block blk -> grow Empty blk = Ok s ->
  represents_builder s (mkLedger [block_cursor blk] ∅).
Proof.
  intros Hv Hg. pose proof (grow_wf Empty blk s I Hv Hg) as Hwf.
  simpl in Hg. injection Hg as <-. split; [done|]. split.
  - unfold chain_of, cursors_from, first_number. simpl. unfold block_cursor. simpl.
    do 3 f_equal. lia.
  - intros c. simpl. unfold reorg_at. simpl. by rewrite !lookup_empty.
Qed.

(** One operation of the builder is one operation of the ledger. *)
Lemma builder_apply_refines s L op s' :
  represents_builder s L -> valid_op op -> builder_apply s op = Ok s' ->
  represents_builder s' (ledger_apply L op).
Proof.
  intros HL Hv Hop. destruct s as [|b].
  { simpl in HL. subst L. destruct op; try discriminate Hop. by apply represents_new. }
  destruct HL as [Hwf HL]. unfold ledger_apply. rewrite (rep_chain _ _ HL).
  rewrite chain_of_head, chain_of_last by done. destruct op as [blk|nh|size|]; simpl in Hv.
  - pose proof (grow_wf (Building b) _ _ Hwf Hv Hop) as Hwf'.
    apply grow_building in Hop as [Hc ->]. apply can_grow_building in Hc as [Hn _]; [|done].
    split; [done|]. by apply represents_grow.
  - unfold builder_apply in Hop.
    destruct (decide (block_at b (number nh) = Some (hash nh))) as [Hb|Hb].
    + destruct (shrink_ok b nh) as (r & Heq & Hr); [done..|].
      rewrite Heq in Hop. injection Hop as <-.
      split; [by apply shrunk_wf | by apply represents_shrink].
    + rewrite shrink_err in Hop; [done | done | naive_solver].
  - unfold builder_apply in Hop.
    destruct (decide (size <= last_number b - first_number b)).
    + destruct (take_segment_ok b size) as (lh & fh & r & _ & Hfh & Heq & Hr); [done..|].
      rewrite Heq in Hop. injection Hop as <-.
      split; [by eapply taken_wf | by apply represents_take].
    + rewrite take_segment_small in Hop; [done | done | lia].
  - unfold builder_apply in Hop. rewrite current_segment_building, bind_Ok_l in Hop.
    destruct (restore_ok b) as (r & Heq & Hr); [done|]. rewrite Heq in Hop. injection Hop as <-.
    split; [by apply restored_wf | by apply represents_restore].
Qed.

Lemma ledger_run_represents ops s L s' L' :
  represents_builder s L -> Forall valid_op ops ->
  foldl ledger_run (s, L) ops = (s', L') -> represents_builder s' L'.
Proof.
  revert s L. induction ops as [|op ops IH]; intros s L HL Hv Hf; simpl in Hf.
  { by injection Hf as <- <-. }
  apply Forall_cons in Hv as [Hop Hv]. unfold ledger_run at 2 in Hf. simpl in Hf.
  destruct (builder_apply s op) as [s1| |] eqn:Heq; try by apply (IH s L).
  apply (IH s1 (ledger_apply L op)); [|done..]. by eapply builder_apply_refines.
Qed.

Lemma ledger_run_fst ops s L :
  (foldl ledger_run (s, L) ops).1 = foldl builder_run s ops.
Proof.
  revert s L. induction ops as [|op ops IH]; intros s L; simpl; [done|].
  unfold ledger_run at 2, builder_run at 2. simpl.
  destruct (builder_apply s op); apply IH.
Qed.

Lemma run_wf ops : Forall valid_op ops -> wf_builder (foldl builder_run Empty ops).
Proof.
  intros Hv. rewrite <- (ledger_run_fst _ _ (mkLedger [] ∅)).
  destruct (foldl ledger_run _ ops) as [s' L'] eqn:Hf.
  eapply represents_builder_wf, (ledger_run_represents ops Empty (mkLedger [] ∅)); done.
Qed.

(** ** What the segment answers *)

Lemma reorg_at_action r n h :
  reorg_action (default ∅ (r !! n)) h =
  match reorg_at r n h with Some t => OfflineReorg t | None => Unknown end.
Proof.
  unfold reorg_action, reorg_at. destruct (r !! n) as [m|]; [done|]. simpl. by rewrite lookup_empty.
Qed.

Lemma reconnect_below b c :
  number c < first_number b -> reconnect (segment_of b) c = Err View.
Proof.
  intros H. unfold reconnect. cbn [seg_info segment_of]. fold (first_number b).
  by rewrite (proj2 (Z.ltb_lt _ _)) by lia.
Qed.

Lemma reconnect_in b c h :
  wf_building b -> block_at b (number c) = Some h ->
  reconnect (segment_of b) c =
  Ok (if bool_decide (h = hash c) || hash_is_zero (hash c) then Continue
      else match reorg_at (reorgs b) (number c) (hash c) with
           | Some t => OfflineReorg t | None => Unknown end).
Proof.
  intros Hwf Hh. pose proof (block_at_range _ _ _ Hwf Hh).
  unfold reconnect. cbn [seg_info segment_of]. fold (first_number b) (last_number b).
  rewrite !(proj2 (Z.ltb_ge _ _)) by lia. rewrite (segment_index b _ h), bind_Ok_l by done.
  cbn [cb_hash cb_reorgs]. rewrite reorg_at_action. by destruct (_ || _).
Qed.

Lemma reconnect_above b c :
  wf_building b -> last_number b < number c ->
  reconnect (segment_of b) c =
  match reorgs b !! number c with
  | None => Err View
  | Some m => Ok (reorg_action m (hash c))
  end.
Proof.
  intros Hwf Hl. pose proof (wf_range _ Hwf).
  unfold reconnect. cbn [seg_info segment_of]. fold (first_number b) (last_number b).
  rewrite (proj2 (Z.ltb_ge _ _)), (proj2 (Z.ltb_lt _ _)) by lia.
  rewrite segment_find_extra by lia. by destruct (reorgs b !! number c).
Qed.

Lemma ledger_has_number b L n :
  wf_building b -> represents b L -> last_number b < n ->
  map_Exists (fun k _ => number k = n) (lg_reorged L) <-> is_Some (reorgs b !! n).
Proof.
  intros Hwf HL Hn. split.
  - intros (k & t & Hk & <-). rewrite (rep_reorged _ _ HL) in Hk. unfold reorg_at in Hk.
    by destruct (reorgs b !! number k).
  - intros [m Hm]. pose proof (wf_extra _ Hwf n m Hm Hn) as Hne.
    apply map_choose in Hne as (h & t & Ht). exists (mkCursor n h), t. split; [|done].
    rewrite (rep_reorged _ _ HL). unfold reorg_at. simpl. by rewrite Hm.
Qed.

Lemma reconnect_refines b L c :
  wf_building b -> represents b L -> reconnect (segment_of b) c = ledger_reconnect L c.
Proof.
  intros Hwf HL. unfold ledger_reconnect. rewrite (rep_chain _ _ HL), chain_of_head, chain_of_last by done.
  fold (first_number b) (last_number b). unfold ledger_action.
  case_decide; [by apply reconnect_below|]. case_decide as Hl.
  - rewrite reconnect_above by done. pose proof (ledger_has_number b L (number c) Hwf HL Hl) as Hiff.
    case_decide as Hx.
    + apply Hiff in Hx as [m Hm]. rewrite Hm, (rep_reorged _ _ HL). unfold reorg_action, reorg_at.
      by rewrite Hm.
    + destruct (reorgs b !! number c) eqn:Hm; [|done]. destruct Hx. by apply Hiff.
  - destruct (proj2 (block_at_is_Some b (number c) Hwf)) as [h Hh]; [lia|].
    rewrite (reconnect_in b c h) by done. rewrite (rep_reorged _ _ HL).
    pose proof (elem_of_chain_of b c) as Hin. rewrite Hh in Hin.
    case_bool_decide; case_decide as Hd; destruct (hash_is_zero (hash c)); simpl; naive_solver.
Qed.

Lemma run_building ops s L :
  Forall valid_op ops -> foldl ledger_run (Empty, mkLedger [] ∅) ops = (s, L) ->
  represents_builder s L.
Proof. intros Hv Hf. by apply (ledger_run_represents ops Empty (mkLedger [] ∅)). Qed.

Lemma canonical_in b n :
  wf_building b ->
  canonical (segment_of b) n =
  match block_at b n with Some h => Ok (mkCursor n h) | None => Err View end.
Proof.
  intros Hwf. unfold canonical. cbn [seg_info segment_of]. fold (first_number b) (last_number b).
  destruct (block_at b n) as [h|] eqn:Hh.
  - pose proof (block_at_range _ _ _ Hwf Hh). rewrite !(proj2 (Z.ltb_ge _ _)) by lia.
    by rewrite (segment_index b _ h), bind_Ok_l by done.
  - destruct (Z.ltb_spec n (first_number b)); [done|].
    destruct (Z.ltb_spec (last_number b) n); [done|].
    destruct (proj2 (block_at_is_Some b n Hwf)); [lia|congruence].
Qed.

Lemma siblings_no_panic b c : wf_building b -> siblings (segment_of b) c <> Panic.
Proof.
  intros Hwf. unfold siblings. cbn [seg_info segment_of]. fold (first_number b) (last_number b).
  destruct (Z.ltb_spec (number c) (first_number b)); [done|].
  destruct (Z.ltb_spec (last_number b) (number c)); [by destruct (find_extra _ _)|].
  destruct (proj2 (block_at_is_Some b (number c) Hwf)) as [h Hh]; [lia|].
  by rewrite (segment_index b _ h), bind_Ok_l by done.
Qed.

Lemma builder_apply_no_panic s op :
  wf_builder s -> valid_op op -> builder_apply s op <> Panic.
Proof.
  intros Hwf Hv. destruct s as [|b]; [by destruct op|]. simpl in Hwf.
  destruct op as [blk|nh|size|]; simpl in Hv; unfold builder_apply.
  - unfold grow. by destruct (can_grow _ _).
  - destruct (decide (block_at b (number nh) = Some (hash nh))).
    + by destruct (shrink_ok b nh) as (r & -> & _).
    + by rewrite shrink_err by naive_solver.
  - destruct (decide (size <= last_number b - first_number b)).
    + by destruct (take_segment_ok b size) as (lh & fh & r & _ & _ & -> & _).
    + by rewrite take_segment_small by (done || lia).
  - rewrite current_segment_building, bind_Ok_l. by destruct (restore_ok b Hwf) as (r & -> & _).
Qed.

Lemma current_segment_inv s seg :
  current_segment s = Ok seg -> exists b, s = Building b /\ seg = segment_of b.
Proof. destruct s as [|b]; [done|]. rewrite current_segment_building. naive_solver. Qed.

Lemma reconnect_no_panic b c : wf_building b -> reconnect (segment_of b) c <> Panic.
Proof.
  intros Hwf. destruct (decide (number c < first_number b)); [by rewrite reconnect_below|].
  destruct (decide (last_number b < number c)).
  - rewrite reconnect_above by done. by destruct (_ !! _).
  - destruct (proj2 (block_at_is_Some b (number c) Hwf)) as [h Hh]; [lia|].
    by rewrite (reconnect_in b c h).
Qed.

(** The builder after a sequence of operations of the service. *)
Definition builder_after (ops : list builder_op) : CanonicalChainBuilder :=
  foldl builder_run Empty ops.

Lemma segment_after ops seg :
  Forall valid_op ops -> current_segment (builder_after ops) = Ok seg ->
  exists b, builder_after ops = Building b /\ wf_building b /\ seg = segment_of b.
Proof.
  intros Hv (b & Hb & ->)%current_segment_inv. exists b. split_and!; [done| |done].
  pose proof (run_wf ops Hv) as Hwf. unfold builder_after in Hb. by rewrite Hb in Hwf.
Qed.

Lemma reconnect_block b1 b2 c :
  wf_building b1 -> wf_building b2 ->
  first_number b1 <= number c <= last_number b1 ->
  block_at b2 (number c) = block_at b1 (number c) ->
  reorgs b2 !! number c = reorgs b1 !! number c ->
  reconnect (segment_of b2) c = reconnect (segment_of b1) c.
Proof.
  intros H1 H2 Hn Hb Hr. destruct (proj2 (block_at_is_Some b1 (number c) H1)) as [h Hh]; [done|].
  rewrite (reconnect_in b1 c h), (reconnect_in b2 c h) by congruence.
  unfold reorg_at. by rewrite Hr.
Qed.

(** ** The builder against the ledger *)

(** What the ledger allows: a block on top of the last one, a return to a canonical
    block, taking fewer blocks than there are, and a restart once there is a block. *)
Definition ledger_allows (L : ledger) (op : builder_op) : Prop :=
  match op with
  | OpGrow block =>
      match last (lg_chain L) with
      | None => True
      | Some l => bi_number block = number l + 1 /\ bi_parent block = hash l
      end
  | OpShrink nh => nh ∈ lg_chain L
  | OpTake size => size < Z.of_nat (length (lg_chain L))
  | OpRestart => lg_chain L <> []
  end.

#[export] Instance ledger_allows_dec L op : Decision (ledger_allows L op).
Proof. destruct op; simpl; [destruct (last (lg_chain L))|..]; apply _. Defined.

(** The ledger on its own: what it does not allow leaves it as it was. *)
Definition ledger_step (L : ledger) (op : builder_op) : ledger :=
  if decide (ledger_allows L op) then ledger_apply L op else L.

Definition ledger_after (ops : list builder_op) : ledger := foldl ledger_step (mkLedger [] ∅) ops.

Lemma length_chain_of b : wf_building b -> Z.of_nat (length (chain_of b)) = last_number b - first_number b + 1.
Proof.
  intros Hwf. pose proof (wf_len _ Hwf). unfold chain_of, cursors_from.
  rewrite length_fmap, length_enumerate_from. lia.
Qed.

(** An operation succeeds exactly when the ledger allows it. *)
Lemma builder_apply_answers s L op :
  represents_builder s L -> valid_op op ->
  match builder_apply s op with
  | Ok s' => ledger_allows L op /\ represents_builder s' (ledger_apply L op)
  | Err _ => ~ ledger_allows L op
  | Panic => False
  end.
Proof.
  intros HL Hv. pose proof (builder_apply_refines s L op) as Hr.
  pose proof (builder_apply_no_panic s op (represents_builder_wf _ _ HL) Hv) as Hp.
  assert ((exists s', builder_apply s op = Ok s') <-> ledger_allows L op) as Hiff.
  { destruct s as [|b].
    { simpl in HL. subst L. destruct op as [blk|nh|size|]; simpl in Hv |- *.
      - split; [done|by eexists].
      - split; [by intros [? ?]|by intros ?%elem_of_nil].
      - split; [by intros [? ?]|lia].
      - split; [by intros [? ?]|done]. }
    destruct HL as [Hwf HL]. unfold ledger_allows. rewrite (rep_chain _ _ HL), chain_of_last by done.
    destruct op as [blk|nh|size|]; simpl in Hv; unfold builder_apply.
    - fold (last_number b). rewrite <- can_grow_building by done. setoid_rewrite grow_building. naive_solver.
    - rewrite elem_of_chain_of. destruct (decide (block_at b (number nh) = Some (hash nh))) as [Hb|Hb].
      + destruct (shrink_ok b nh Hwf Hb) as (r & -> & _). naive_solver.
      + rewrite (shrink_err (Building b)) by naive_solver. naive_solver.
    - rewrite length_chain_of by done. destruct (decide (size <= last_number b - first_number b)).
      + destruct (take_segment_ok b size) as (lh & fh & r & _ & _ & -> & _); [done..|]. split; [lia|by eexists].
      + rewrite take_segment_small by (done || lia). split; [by intros [? ?]|lia].
    - rewrite current_segment_building, bind_Ok_l. destruct (restore_ok b Hwf) as (r & -> & _).
      split; [|by eexists]. intros _ Hn. pose proof (chain_of_last b Hwf) as Hl. by rewrite Hn in Hl. }
  destruct (builder_apply s op) as [s'|e|]; [|intros Ha%Hiff; by destruct Ha|done].
  split; [apply Hiff; by eexists|by apply Hr].
Qed.

Lemma after_represents ops : Forall valid_op ops -> represents_builder (builder_after ops) (ledger_after ops).
Proof.
  unfold builder_after, ledger_after. generalize (eq_refl : represents_builder Empty (mkLedger [] ∅)).
  generalize Empty, (mkLedger [] ∅). induction ops as [|op ops IH]; intros s L HL Hv; [done|].
  apply Forall_cons in Hv as [Hop Hv]. simpl. apply IH; [|done].
  pose proof (builder_apply_answers s L op HL Hop) as Ha. unfold builder_run, ledger_step.
  destruct (builder_apply s op) as [s'|e|]; [|by rewrite decide_False|done].
  destruct Ha as [Ha Hr]. by rewrite decide_True.
Qed.

(** (C1) The builder against an abstract ledger, which has the list of the canonical
    blocks and, for every block that was reorganised away, the block it was rolled back
    to.  After any sequence of blocks, reorganisations, uploaded segments and restarts
    the builder is well formed, and it succeeds with an operation exactly when the
    ledger allows it: a block on top of the last one, a return to a canonical block,
    taking fewer blocks than there are, a restart once there is a block; otherwise it
    refuses it, and it never panics.  The segment that it serialises has the canonical
    blocks of the ledger and answers a client that reconnects as the ledger does: every
    block that was reorganised away is recorded with its rollback, except those that a
    restart forgets, which are above the head of the time. *)
Theorem builder_run_safe (ops : list builder_op) :
  Forall valid_op ops ->
  wf_builder (builder_after ops) /\
  (forall op, valid_op op ->
     match builder_apply (builder_after ops) op with
     | Ok s' => ledger_allows (ledger_after ops) op /\ wf_builder s'
     | Err _ => ~ ledger_allows (ledger_after ops) op
     | Panic => False
     end) /\
  (forall seg, current_segment (builder_after ops) = Ok seg -> forall n c,
     (canonical seg n = Ok c <-> number c = n /\ c ∈ lg_chain (ledger_after ops)) /\
     reconnect seg c = ledger_reconnect (ledger_after ops) c /\
     canonical seg n <> Panic /\ siblings seg c <> Panic).
Proof.
  intros Hv. pose proof (after_represents ops Hv) as HL. split_and!; [by eapply represents_builder_wf| |].
  - intros op Hop. pose proof (builder_apply_answers _ _ op HL Hop) as Ha.
    destruct (builder_apply (builder_after ops) op) as [s'|e|]; [|done|done].
    destruct Ha as [Ha Hr]. split; [done|by eapply represents_builder_wf].
  - intros seg (b & Hb & ->)%current_segment_inv n c. rewrite Hb in HL. destruct HL as [Hwf HL].
    rewrite canonical_in by done. split_and!.
    + rewrite (rep_chain _ _ HL), elem_of_chain_of. destruct c as [m h]. simpl.
      destruct (block_at b n) as [h'|] eqn:Hn; naive_solver.
    + by apply reconnect_refines.
    + by destruct (block_at b n).
    + by apply siblings_no_panic.
Qed.

(** Refinement: after any sequence of operations the answer that
    [reconnect] computes from the serialised segment is the one of the
    abstract ledger run in parallel, which knows only the list of canonical
    cursors and a map from reorged cursors to the block they were rolled
    back to. *)
Theorem reconnect_ledger (ops : list builder_op) s L seg c :
  Forall valid_op ops ->
  foldl ledger_run (Empty, mkLedger [] ∅) ops = (s, L) ->
  current_segment s = Ok seg ->
  reconnect seg c = ledger_reconnect L c.
Proof.
  intros Hv Hf (b & -> & ->)%current_segment_inv.
  destruct (run_building ops _ _ Hv Hf) as [Hwf HL]. by apply reconnect_refines.
Qed.

(** [shrink] to a canonical block returns exactly the canonical cursors
    above it, every one of which then reconnects to the new head, keeps the
    canonical blocks up to the new head, and makes it the last block; to any
    other cursor it is an error. *)
Theorem shrink_spec (ops : list builder_op) nh seg :
  Forall valid_op ops -> current_segment (builder_after ops) = Ok seg ->
  (canonical seg (number nh) = Ok nh /\
   exists removed s' seg',
     shrink (builder_after ops) nh = Ok (removed, s') /\ current_segment s' = Ok seg' /\
     (forall c, c ∈ removed <-> number nh < number c /\ canonical seg (number c) = Ok c) /\
     (forall c, c ∈ removed -> reconnect seg' c = Ok (OfflineReorg nh)) /\
     (forall n, n <= number nh -> canonical seg' n = canonical seg n) /\
     last_block (seg_info seg') = nh) \/
  (canonical seg (number nh) <> Ok nh /\ shrink (builder_after ops) nh = Err Builder).
Proof.
  intros Hv (b & Hb & Hwf & ->)%segment_after; [|done]. rewrite Hb, canonical_in by done.
  assert (forall c, match block_at b (number c) with Some h => Ok (mkCursor (number c) h) | None => Err View end
            = Ok c <-> block_at b (number c) = Some (hash c)) as Hcan.
  { intros [n h]. simpl. destruct (block_at b n); naive_solver. }
  destruct (decide (block_at b (number nh) = Some (hash nh))) as [Hnh|Hnh].
  - left. split; [by apply Hcan|]. destruct (shrink_ok b nh Hwf Hnh) as (r & Hs & Hr).
    pose proof (shrunk_wf _ _ _ Hwf Hnh Hr) as Hwf'. pose proof (block_at_range _ _ _ Hwf Hnh).
    exists (blocks_above b (number nh)), (Building (shrunk b nh r)), (segment_of (shrunk b nh r)).
    split_and!; [done|done| | | |done].
    + intros c. rewrite elem_of_blocks_above by (done || lia). rewrite canonical_in by done.
      by rewrite Hcan.
    + intros c Hc. apply elem_of_blocks_above in Hc as [Hn Hc]; [|done|lia].
      rewrite reconnect_above by done. destruct Hr as (Hr & _). specialize (Hr (number c) (hash c)).
      rewrite decide_True in Hr by done. unfold reorg_at in Hr. cbn [shrunk reorgs].
      destruct (r !! number c) as [m|]; [|done]. simpl in Hr. unfold reorg_action. by rewrite Hr.
    + intros n Hn. rewrite !canonical_in by done. rewrite block_at_shrunk by done.
      by rewrite decide_True.
  - right. split; [by rewrite Hcan|]. apply shrink_err; naive_solver.
Qed.

(** [take_segment] succeeds exactly when more than [size] blocks are
    held; it then splits the chain: the taken segment holds the first [size]
    blocks and links to the segment taken before it, what remains holds the
    rest and links to the taken one, and reconnecting to either part gives
    what the whole segment answered. *)
Theorem take_segment_splits (ops : list builder_op) size seg :
  Forall valid_op ops -> current_segment (builder_after ops) = Ok seg -> 0 < size ->
  (segment_size (builder_after ops) <= size /\
   take_segment (builder_after ops) size = Err Builder) \/
  (size < segment_size (builder_after ops) /\
   exists front s' rest,
     take_segment (builder_after ops) size = Ok (front, s') /\ current_segment s' = Ok rest /\
     let cut := number (first_block (seg_info seg)) + size in
     seg_previous_segment front = seg_previous_segment seg /\
     seg_previous_segment rest = Some (seg_info front) /\
     number (last_block (seg_info front)) + 1 = number (first_block (seg_info rest)) /\
     number (first_block (seg_info rest)) = cut /\
     (forall n, n < cut -> canonical front n = canonical seg n) /\
     (forall n, cut <= n -> canonical rest n = canonical seg n) /\
     (forall c, number c < cut -> reconnect front c = reconnect seg c) /\
     (forall c, cut <= number c -> reconnect rest c = reconnect seg c)).
Proof.
  intros Hv (b & Hb & Hwf & ->)%segment_after Hs; [|done]. rewrite Hb.
  pose proof (wf_len _ Hwf) as Hlen. pose proof (wf_range _ Hwf).
  cbn [segment_size seg_info segment_of]. rewrite Hlen. fold (first_number b).
  destruct (decide (size <= last_number b - first_number b)); [right|left].
  2:{ split; [lia|]. apply take_segment_small; [done|lia]. }
  split; [lia|].
  destruct (take_segment_ok b size) as (lh & fh & r & Hlh & Hfh & Ht & Hr); [done..|].
  assert (wf_building (taken b size lh fh r)) as Hw2 by (by apply taken_wf).
  assert (wf_building (front b size lh)) as Hw1 by (by apply front_wf).
  exists (taken_segment b size lh), (Building (taken b size lh fh r)), (segment_of (taken b size lh fh r)).
  split; [done|]. split; [done|]. rewrite front_segment by done. cbn zeta.
  split_and!; [done | done | simpl; lia | done | | | |].
  - intros n Hn. rewrite !canonical_in by done. by rewrite block_at_front, decide_True by lia.
  - intros n Hn. rewrite !canonical_in by done. by rewrite block_at_taken, decide_True by lia.
  - intros c Hc. destruct (decide (number c < first_number b)); [by rewrite !reconnect_below|].
    apply reconnect_block; [done|done|lia|by rewrite block_at_front, decide_True by lia|].
    by rewrite front_reorgs, decide_True.
  - intros c Hc. destruct (decide (number c <= last_number b)).
    + apply reconnect_block; [done|done|lia|by rewrite block_at_taken, decide_True by lia|].
      cbn [taken reorgs]. by rewrite Hr, decide_True.
    + rewrite !reconnect_above by (done || unfold last_number in *; simpl; lia). cbn [taken reorgs]. by rewrite Hr, decide_True.
Qed.

(** (C34) Restarting from the uploaded segment keeps the canonical chain and
    the answer to every cursor up to the head, but forgets the reorged blocks
    above the head: [restore_from_segment] does not read [extra_reorgs], so
    every such cursor, for which the segment answered [OfflineReorg], becomes
    an error. *)
Theorem restart_forgets_extra_reorgs (ops : list builder_op) seg :
  Forall valid_op ops -> current_segment (builder_after ops) = Ok seg ->
  exists s' seg',
    restore_from_segment seg = Ok s' /\ current_segment s' = Ok seg' /\
    (forall n, canonical seg' n = canonical seg n) /\
    (forall c, number c <= number (last_block (seg_info seg)) -> reconnect seg' c = reconnect seg c) /\
    (forall c, number (last_block (seg_info seg)) < number c -> reconnect seg' c = Err View).
Proof.
  intros Hv (b & Hb & Hwf & ->)%segment_after; [|done].
  destruct (restore_ok b Hwf) as (r & Hrs & Hr). pose proof (restored_wf _ _ Hwf Hr) as Hw.
  exists (Building (restored b r)), (segment_of (restored b r)).
  cbn [seg_info segment_of]. fold (last_number b). split_and!; [done|done| | |].
  - intros n. by rewrite !canonical_in.
  - intros c Hc. destruct (decide (number c < first_number b)); [by rewrite !reconnect_below|].
    destruct (proj2 (block_at_is_Some b (number c) Hwf)) as [h Hh]; [lia|].
    rewrite (reconnect_in b c h), (reconnect_in (restored b r) c h) by done. cbn [restored reorgs].
    by rewrite (restored_reorg_at b r), decide_True by (done || lia).
  - intros c Hc. rewrite reconnect_above by done. cbn [restored reorgs].
    by rewrite Hr, decide_False by lia.
Qed.

(** ** A client that follows the reorgs *)

(** The client at [c] is told to go back to [t]. *)
Definition follows (seg : CanonicalChainSegment) (c t : Cursor) : Prop :=
  reconnect seg c = Ok (OfflineReorg t).

(** The builder together with the cursors of all the blocks it ever held. *)
Definition deliver (sD : CanonicalChainBuilder * list Cursor) (op : builder_op) :
    CanonicalChainBuilder * list Cursor :=
  match builder_apply sD.1 op with
  | Ok s' => (s', match op with OpGrow blk => block_cursor blk :: sD.2 | _ => sD.2 end)
  | _ => sD
  end.

Definition known (b : building) (c : Cursor) : Prop :=
  block_at b (number c) = Some (hash c) \/ is_Some (reorg_at (reorgs b) (number c) (hash c)).

Definition all_known (s : CanonicalChainBuilder) (D : list Cursor) : Prop :=
  match s with
  | Empty => D = []
  | Building b => wf_building b /\ Forall (fun c => number c < first_number b \/ known b c) D
  end.

Lemma known_reconnect b c :
  wf_building b -> known b c ->
  reconnect (segment_of b) c = Ok Continue \/
  exists t, follows (segment_of b) c t /\ number t < number c /\
    (number t < first_number b \/ known b t).
Proof.
  intros Hwf Hk. unfold follows. destruct (block_at b (number c)) as [h|] eqn:Hh.
  - rewrite (reconnect_in b c h) by done. destruct Hk as [Hk|[t Ht]].
    + left. rewrite Hh in Hk. injection Hk as ->. by rewrite bool_decide_eq_true_2.
    + rewrite Ht. destruct (_ || _); [by left|right]. exists t. split; [done|].
      destruct (wf_targets _ Hwf _ _ _ Ht) as [Hlt Hcl]. split; [done|].
      destruct (decide (number t < first_number b)); [by left|right]. apply Hcl. lia.
  - destruct Hk as [Hk|[t Ht]]; [congruence|right]. exists t.
    destruct (wf_targets _ Hwf _ _ _ Ht) as [Hlt Hcl]. split_and!; [|done|].
    + assert (last_number b < number c).
      { unfold reorg_at in Ht. destruct (reorgs b !! number c) eqn:Hm; [|done].
        apply (wf_reorgs _ Hwf) in Hm as [? _]. apply Z.nle_gt. intros Hle.
        destruct (proj2 (block_at_is_Some b (number c) Hwf)); [lia|congruence]. }
      rewrite reconnect_above by done. unfold reorg_at in Ht.
      destruct (reorgs b !! number c) as [m|]; [|done]. simpl in Ht. unfold reorg_action. by rewrite Ht.
    + destruct (decide (number t < first_number b)); [by left|right]. apply Hcl. lia.
Qed.

Lemma follows_decreases b c t :
  wf_building b -> follows (segment_of b) c t -> number t < number c.
Proof.
  intros Hwf Hf. unfold follows in Hf.
  assert (reorg_at (reorgs b) (number c) (hash c) = Some t) as Ht.
  { destruct (decide (number c < first_number b)); [by rewrite reconnect_below in Hf|].
    destruct (decide (last_number b < number c)).
    - rewrite reconnect_above in Hf by done. unfold reorg_at.
      destruct (reorgs b !! number c) as [m|]; [|done]. simpl. unfold reorg_action in Hf.
      destruct (m !! hash c); naive_solver.
    - destruct (proj2 (block_at_is_Some b (number c) Hwf)) as [h Hh]; [lia|].
      rewrite (reconnect_in b c h) in Hf by done. destruct (_ || _); [done|].
      destruct (reorg_at _ _ _); naive_solver. }
  by apply (wf_targets _ Hwf) in Ht as [? _].
Qed.

Lemma known_follow b c :
  wf_building b -> number c < first_number b \/ known b c ->
  exists t, rtc (follows (segment_of b)) c t /\ number t <= number c /\
    (reconnect (segment_of b) t = Ok Continue \/ number t < first_number b).
Proof.
  intros Hwf. remember (Z.to_nat (number c)) as m eqn:Hm. revert c Hm.
  induction m as [m IH] using lt_wf_ind. intros c -> [Hc|Hk]; [exists c; eauto using rtc_refl with lia|].
  destruct (decide (number c < first_number b)); [exists c; eauto using rtc_refl with lia|].
  destruct (known_reconnect b c Hwf Hk) as [?|(t & Hf & Hlt & Ht)];
    [exists c; eauto using rtc_refl with lia|].
  destruct (decide (number t < first_number b)).
  - exists t. split; [by apply rtc_once|]. split; [lia|by right].
  - pose proof (wf_first _ Hwf). destruct (IH (Z.to_nat (number t))) with (c := t) as (u & Hu & Hle & Hfin);
      [lia|done|done|]. exists u. split; [by eapply rtc_l|]. split; [lia|done].
Qed.

Lemma known_grow b blk c :
  wf_building b -> bi_number blk = last_number b + 1 -> known b c -> known (grown b blk) c.
Proof.
  intros Hwf Hn [Hc|Hc]; [left|by right]. rewrite block_at_grown by done.
  rewrite decide_False; [done|]. apply block_at_range in Hc; [lia|done].
Qed.

Lemma known_shrink b nh r c :
  wf_building b -> block_at b (number nh) = Some (hash nh) -> shrunk_reorgs b nh r ->
  known b c -> known (shrunk b nh r) c.
Proof.
  intros Hwf Hnh (Hr & _) Hc. unfold known. rewrite block_at_shrunk by done. cbn [shrunk reorgs].
  rewrite Hr. destruct (decide (number nh < number c /\ block_at b (number c) = Some (hash c))) as [|Hno];
    [right; eauto|].
  destruct Hc as [Hc|Hc]; [left|by right]. rewrite decide_True; [done|].
  apply Z.nlt_ge. intros ?. by apply Hno.
Qed.

Lemma known_take b size lh fh r c :
  0 < size -> taken_reorgs b size r -> first_number b + size <= number c ->
  known b c -> known (taken b size lh fh r) c.
Proof.
  intros Hs Hr Hc Hk. unfold known. rewrite block_at_taken, decide_True by lia.
  unfold reorg_at. cbn [taken reorgs]. by rewrite Hr, decide_True.
Qed.

Lemma deliver_known s D op :
  all_known s D -> valid_op op -> op <> OpRestart ->
  all_known (deliver (s, D) op).1 (deliver (s, D) op).2.
Proof.
  intros HD Hv Hop. unfold deliver. cbn [fst snd].
  destruct (builder_apply s op) as [s'| |] eqn:Ha; [|done..]. cbn [fst snd].
  destruct s as [|b].
  { simpl in HD. subst D. destruct op as [blk| | |]; try done.
    pose proof (grow_wf Empty blk s' I Hv Ha) as Hw. simpl in Ha. injection Ha as <-.
    split; [done|]. apply Forall_singleton. right. left. simpl. unfold block_at, first_number. simpl.
    by rewrite Z.ltb_irrefl, Z.sub_diag. }
  destruct HD as [Hwf HD]. destruct op as [blk|nh|size|]; simpl in Hv; [| | |done].
  - pose proof (grow_wf (Building b) _ _ Hwf Hv Ha) as Hw.
    apply grow_building in Ha as [Hc ->]. apply can_grow_building in Hc as [Hn _]; [|done].
    split; [done|]. constructor.
    + right. left. simpl. by rewrite block_at_grown, decide_True.
    + eapply Forall_impl; [done|]. intros c [?|?]; [by left|right]. by apply known_grow.
  - unfold builder_apply in Ha.
    destruct (decide (block_at b (number nh) = Some (hash nh))) as [Hb|Hb].
    + destruct (shrink_ok b nh) as (r & Heq & Hr); [done..|]. rewrite Heq in Ha. injection Ha as <-.
      split; [by apply shrunk_wf|]. eapply Forall_impl; [done|].
      intros c [?|?]; [by left|right]. by apply known_shrink.
    + rewrite shrink_err in Ha; [done | done | naive_solver].
  - unfold builder_apply in Ha. destruct (decide (size <= last_number b - first_number b)).
    + destruct (take_segment_ok b size) as (lh & fh & r & _ & Hfh & Heq & Hr); [done..|].
      rewrite Heq in Ha. injection Ha as <-. split; [by eapply taken_wf|].
      eapply Forall_impl; [done|]. intros c Hc.
      change (first_number (taken b size lh fh r)) with (first_number b + size).
      destruct (decide (number c < first_number b + size)); [by left|right].
      destruct Hc; [lia|]. apply known_take; [done|done|lia|done].
    + rewrite take_segment_small in Ha; [done | done | lia].
Qed.

Lemma deliver_all_known ops s D :
  all_known s D -> Forall (fun op => valid_op op /\ op <> OpRestart) ops ->
  all_known (foldl deliver (s, D) ops).1 (foldl deliver (s, D) ops).2.
Proof.
  revert s D. induction ops as [|op ops IH]; intros s D HD Hops; [done|].
  apply Forall_cons in Hops as [[Hv Hne] Hops]. simpl.
  destruct (deliver (s, D) op) as [s1 D1] eqn:Hd. apply IH; [|done].
  replace s1 with (deliver (s, D) op).1 by (by rewrite Hd).
  replace D1 with (deliver (s, D) op).2 by (by rewrite Hd). by apply deliver_known.
Qed.

(** While the service is not restarted, a client that stopped at any
    block that was ever part of the chain finds its way back: the reorg
    answers go to lower and lower blocks, so that following them ends, and
    they end at a block from which it can continue or below the first block
    of the segment, from where it goes on with an older segment. *)
Theorem follow_ends (ops : list builder_op) s D seg c :
  Forall (fun op => valid_op op /\ op <> OpRestart) ops ->
  foldl deliver (Empty, []) ops = (s, D) -> current_segment s = Ok seg -> c ∈ D ->
  (forall x y, follows seg x y -> number y < number x) /\
  exists t, rtc (follows seg) c t /\ number t <= number c /\
    (reconnect seg t = Ok Continue \/ number t < number (first_block (seg_info seg))).
Proof.
  intros Hops Hf (b & -> & ->)%current_segment_inv Hc.
  pose proof (deliver_all_known ops Empty [] eq_refl Hops) as HD. rewrite Hf in HD.
  destruct HD as [Hwf HD]. rewrite Forall_forall in HD. split.
  - intros x y. by apply follows_decreases.
  - by apply known_follow, HD.
Qed.

(** ** Witnesses *)

Definition example_block (n : Z) (h p : byte) : BlockInfo := mkBlockInfo n [h] [p].

(** Five blocks, a reorg of the last two and a block on the new branch. *)
Definition example_ops : list builder_op :=
  [OpGrow (example_block 10 x0a x09); OpGrow (example_block 11 x0b x0a);
   OpGrow (example_block 12 x0c x0b); OpGrow (example_block 13 x0d x0c);
   OpGrow (example_block 14 x0e x0d); OpShrink (mkCursor 12 [x0c]);
   OpGrow (example_block 13 xdd x0c)].

Lemma example_valid : Forall valid_op example_ops.
Proof. repeat constructor; done. Qed.

Lemma example_no_restart : Forall (fun op => valid_op op /\ op <> OpRestart) example_ops.
Proof. repeat constructor; done. Qed.

Definition example_segment : CanonicalChainSegment :=
  match current_segment (builder_after example_ops) with
  | Ok seg => seg
  | _ => mkSegment None (mkSegmentInfo (new_finalized 0) (new_finalized 0)) [] []
  end.

Lemma example_current : current_segment (builder_after example_ops) = Ok example_segment.
Proof. vm_compute. reflexivity. Qed.

(** A block that was reorganised away is known with its rollback, and a return to a
    block that is not canonical is refused. *)
Lemma builder_run_safe_witness :
  reconnect example_segment (mkCursor 14 [x0e]) = ledger_reconnect (ledger_after example_ops) (mkCursor 14 [x0e]) /\
  ledger_reconnect (ledger_after example_ops) (mkCursor 14 [x0e]) = Ok (OfflineReorg (mkCursor 12 [x0c])) /\
  ~ ledger_allows (ledger_after example_ops) (OpShrink (mkCursor 13 [x0d])).
Proof.
  pose proof (builder_run_safe example_ops example_valid) as (_ & H2 & H3). split; [|split].
  - apply (H3 example_segment example_current 14 (mkCursor 14 [x0e])).
  - vm_compute. reflexivity.
  - specialize (H2 (OpShrink (mkCursor 13 [x0d])) I).
    replace (builder_apply (builder_after example_ops) (OpShrink (mkCursor 13 [x0d]))) with
      (Err Builder : outcome CanonicalChainError CanonicalChainBuilder) in H2 by (vm_compute; reflexivity). exact H2.
Defined.

Lemma reconnect_ledger_witness :
  reconnect example_segment (mkCursor 14 [x0e]) = Ok (OfflineReorg (mkCursor 12 [x0c])).
Proof.
  rewrite (reconnect_ledger example_ops _ _ _ (mkCursor 14 [x0e]) example_valid
    (surjective_pairing _)).
  - vm_compute. reflexivity.
  - vm_compute. reflexivity.
Defined.

Lemma shrink_spec_witness :
  exists removed s', shrink (builder_after example_ops) (mkCursor 11 [x0b]) = Ok (removed, s').
Proof.
  destruct (shrink_spec example_ops (mkCursor 11 [x0b]) example_segment example_valid example_current)
    as [[_ (removed & s' & seg' & H & _)]|[H _]].
  - exists removed, s'. exact H.
  - exfalso. apply H. vm_compute. reflexivity.
Defined.

Lemma take_segment_splits_witness :
  exists front s', take_segment (builder_after example_ops) 2 = Ok (front, s').
Proof.
  destruct (take_segment_splits example_ops 2 example_segment example_valid example_current eq_refl)
    as [[H _]|[_ (front & s' & rest & H & _)]].
  - exfalso. apply H. vm_compute. reflexivity.
  - exists front, s'. exact H.
Defined.

(** Before the restart the segment sends the client of block 14 back to
    block 12; after it the same request is an error. *)
Lemma restart_forgets_extra_reorgs_witness :
  reconnect example_segment (mkCursor 14 [x0e]) = Ok (OfflineReorg (mkCursor 12 [x0c])) /\
  exists s' seg',
    restore_from_segment example_segment = Ok s' /\ current_segment s' = Ok seg' /\
    reconnect seg' (mkCursor 14 [x0e]) = Err View.
Proof.
  split; [vm_compute; reflexivity|].
  destruct (restart_forgets_extra_reorgs example_ops example_segment example_valid example_current)
    as (s' & seg' & H1 & H2 & _ & _ & H3).
  exists s', seg'. split; [exact H1|]. split; [exact H2|].
  apply H3. vm_compute. reflexivity.
Defined.

Lemma follow_ends_witness :
  exists t, rtc (follows example_segment) (mkCursor 14 [x0e]) t /\ number t <= 14.
Proof.
  destruct (follow_ends example_ops _ _ example_segment (mkCursor 14 [x0e]) example_no_restart
    (surjective_pairing _)) as [_ (t & H1 & H2 & _)].
  - vm_compute. reflexivity.
  - apply (bool_decide_unpack _). vm_compute. exact I.
  - exists t. split; [exact H1|exact H2].
Defined.
