(* ===== verification/ChainView.v ===== *)
(** * The chain view (common/src/chain_view/full.rs and view.rs)

    The read side of the canonical chain.  [FullCanonicalChain] joins the
    segments that were taken off the builder, read back from the chain store by
    their first block, with the recent segment; [ChainViewInner] adds the
    finalized, segmented and grouped blocks and the arithmetic of segments and
    groups.  The chain store is the interface [ChainStoreOps]: this file does
    not depend on how segments are kept. *)

From S2P Require Import Prelude Core Chain.

Inductive ChainViewError := ChainViewErr.
Inductive ChainStoreError := ChainStoreErr.

(** ** The chain store as the view uses it *)

(** [ChainStore::get] (by first block number) and [ChainStore::put]. *)
Class ChainStoreOps (S : Type) := {
  store_get : S -> Z -> outcome ChainStoreError (option CanonicalChainSegment);
  store_put : S -> CanonicalChainSegment -> outcome ChainStoreError S }.

(** What the users of the store rely on: a segment put under a first block
    that has none is read back, and the others are not affected.  [store_ok] is
    the invariant of the store. *)
Class ChainStoreLaws (S : Type) `{ChainStoreOps S} := {
  store_ok : S -> Prop;
  store_put_ok : forall (st st' : S) seg,
    store_ok st -> is_u64 (number (first_block (seg_info seg))) ->
    store_get st (number (first_block (seg_info seg))) = Ok None ->
    store_put st seg = Ok st' -> store_ok st';
  store_put_get : forall (st st' : S) seg,
    store_ok st -> is_u64 (number (first_block (seg_info seg))) ->
    store_get st (number (first_block (seg_info seg))) = Ok None ->
    store_put st seg = Ok st' ->
    store_get st' (number (first_block (seg_info seg))) = Ok (Some seg);
  store_put_other : forall (st st' : S) seg k,
    store_ok st -> is_u64 (number (first_block (seg_info seg))) -> is_u64 k ->
    store_get st (number (first_block (seg_info seg))) = Ok None ->
    k <> number (first_block (seg_info seg)) ->
    store_put st seg = Ok st' -> store_get st' k = store_get st k }.

(** A store without segments. *)
Definition fresh_store {S : Type} `{ChainStoreLaws S} (st : S) : Prop :=
  store_ok st /\ forall k, is_u64 k -> store_get st k = Ok None.

(** ** FullCanonicalChain *)

Inductive CanonicalCursor :=
| BeforeAvailable (c : Cursor)
| AfterAvailable (c : Cursor)
| Canonical (c : Cursor).

Inductive ValidatedCursor :=
| Valid (c : Cursor)
| Invalid (canonical : Cursor) (siblings : list Cursor).

Inductive NextCursor :=
| NextContinue (cursor : Cursor) (is_head : bool)
| Invalidate (c : Cursor)
| AtHead.

Record FullCanonicalChain (S : Type) := mkFullChain {
  fc_store : S;
  starting_block : Z;
  chain_segment_size : Z;
  recent : CanonicalChainSegment }.

Arguments mkFullChain {S} _ _ _ _.
Arguments fc_store {S} _.
Arguments starting_block {S} _.
Arguments chain_segment_size {S} _.
Arguments recent {S} _.

(** Division of unsigned integers: by zero panics. *)
Definition div64 {E} (a b : Z) : outcome E Z :=
  if b =? 0 then Panic else Ok (a / b).

Definition chain_segment_start {E} (block_number starting_block chain_segment_size : Z) :
    outcome E Z :=
  q ← div64 (sub64 block_number starting_block) chain_segment_size;
  Ok (add64 (mul64 q chain_segment_size) starting_block).

Section full.
Context {S : Type} `{ChainStoreOps S}.
Implicit Type self : FullCanonicalChain S.

Definition get_chain_segment self (block_number : Z) :
    outcome ChainViewError CanonicalChainSegment :=
  if number (first_block (seg_info (recent self))) <=? block_number then Ok (recent self)
  else
    start ← chain_segment_start block_number (starting_block self) (chain_segment_size self);
    o ← change_context ChainViewErr (store_get (fc_store self) start);
    ok_or ChainViewErr o.

Definition get_canonical_impl self (block_number : Z) : outcome ChainViewError Cursor :=
  segment ← get_chain_segment self block_number;
  change_context ChainViewErr (canonical segment block_number).

Definition get_next_cursor self (cursor : option Cursor) : outcome ChainViewError NextCursor :=
  match cursor with
  | None =>
      first_available ← get_canonical_impl self (starting_block self);
      Ok (NextContinue first_available false)
  | Some cursor =>
      segment ← get_chain_segment self (number cursor);
      action ← change_context ChainViewErr (reconnect segment cursor);
      match action with
      | Continue =>
          if number cursor =? number (last_block (seg_info (recent self))) then Ok AtHead
          else
            next_available ← get_canonical_impl self (add64 (number cursor) 1);
            Ok (NextContinue next_available
                  (number next_available =? number (last_block (seg_info (recent self)))))
      | OfflineReorg target => Ok (Invalidate target)
      | Unknown => Err ChainViewErr
      end
  end.

Definition validate_cursor self (cursor : Cursor) : outcome ChainViewError ValidatedCursor :=
  segment ← get_chain_segment self (number cursor);
  canonical ← change_context ChainViewErr (canonical segment (number cursor));
  if is_equivalent canonical cursor then Ok (Valid canonical)
  else
    siblings ← change_context ChainViewErr (siblings segment cursor);
    match list_find (fun sibling => is_equivalent sibling cursor = true) siblings with
    | Some (_, sibling) => Ok (Valid sibling)
    | None => Ok (Invalid canonical siblings)
    end.

Definition get_head self : outcome ChainViewError Cursor :=
  Ok (last_block (seg_info (recent self))).

Definition get_canonical self (block_number : Z) : outcome ChainViewError CanonicalCursor :=
  if number (last_block (seg_info (recent self))) <? block_number
  then Ok (AfterAvailable (last_block (seg_info (recent self))))
  else if block_number <? starting_block self then
    first_available ← get_canonical_impl self (starting_block self);
    Ok (BeforeAvailable first_available)
  else
    cursor ← get_canonical_impl self block_number;
    Ok (Canonical cursor).

Definition full_set_recent self (recent : CanonicalChainSegment) : FullCanonicalChain S :=
  mkFullChain (fc_store self) (starting_block self) (chain_segment_size self) recent.

End full.

(** ** ChainViewInner *)

(** A [Notify] is the number of times its waiters were woken: a task that
    waits is woken by the first notification after it started to wait. *)
Record ChainViewInner (S : Type) := mkChainView {
  cv_finalized : Z;
  cv_pending_generation : option Z;
  cv_segmented : option Z;
  cv_grouped : option Z;
  cv_canonical : FullCanonicalChain S;
  cv_segment_size : Z;
  cv_group_size : Z;
  cv_pending_notify : nat;
  cv_head_notify : nat;
  cv_finalized_notify : nat;
  cv_segmented_notify : nat }.

Arguments mkChainView {S} _ _ _ _ _ _ _ _ _ _ _.
Arguments cv_finalized {S} _.
Arguments cv_pending_generation {S} _.
Arguments cv_segmented {S} _.
Arguments cv_grouped {S} _.
Arguments cv_canonical {S} _.
Arguments cv_segment_size {S} _.
Arguments cv_group_size {S} _.
Arguments cv_pending_notify {S} _.
Arguments cv_head_notify {S} _.
Arguments cv_finalized_notify {S} _.
Arguments cv_segmented_notify {S} _.

Section inner.
Context {S : Type} `{ChainStoreOps S}.
Implicit Type self : ChainViewInner S.

Definition chain_view_new (finalized : Z) (segmented grouped : option Z)
    (segment_size group_size : Z) (canonical : FullCanonicalChain S) : ChainViewInner S :=
  mkChainView finalized None segmented grouped canonical segment_size group_size 0 0 0 0.

Definition get_segment_start_block self (block : Z) : outcome ChainViewError Z :=
  let starting_block := starting_block (cv_canonical self) in
  let blocks := sub64 block starting_block in
  segment_count ← div64 blocks (cv_segment_size self);
  Ok (add64 starting_block (mul64 segment_count (cv_segment_size self))).

Definition get_segment_end_block self (block : Z) : outcome ChainViewError Z :=
  start ← get_segment_start_block self block;
  Ok (sub64 (add64 start (cv_segment_size self)) 1).

Definition has_segment_for_block self (block : Z) : outcome ChainViewError bool :=
  match cv_segmented self with
  | None => Ok false
  | Some segmented =>
      segment_end ← get_segment_end_block self block;
      Ok (segment_end <=? segmented)
  end.

Definition get_blocks_in_group self : Z := mul64 (cv_group_size self) (cv_segment_size self).

Definition get_group_start_block self (block : Z) : outcome ChainViewError Z :=
  let starting_block := starting_block (cv_canonical self) in
  let blocks_in_group := mul64 (cv_group_size self) (cv_segment_size self) in
  group_count ← div64 (sub64 block starting_block) blocks_in_group;
  Ok (add64 starting_block (mul64 group_count blocks_in_group)).

Definition get_group_end_block self (block : Z) : outcome ChainViewError Z :=
  let blocks_in_group := mul64 (cv_group_size self) (cv_segment_size self) in
  start ← get_group_start_block self block;
  Ok (sub64 (add64 start blocks_in_group) 1).

Definition has_group_for_block self (block : Z) : outcome ChainViewError bool :=
  match cv_grouped self with
  | None => Ok false
  | Some grouped =>
      group_end ← get_group_end_block self block;
      Ok (group_end <=? grouped)
  end.

(** The cursor of a block number the view knows: its canonical cursor, or a
    cursor without hash when the block is not available. *)
Definition cursor_or_finalized self (n : Z) : outcome ChainViewError Cursor :=
  r ← get_canonical (cv_canonical self) n;
  match r with
  | Canonical cursor => Ok cursor
  | _ => Ok (new_finalized n)
  end.

Definition get_starting_cursor self : outcome ChainViewError Cursor :=
  cursor_or_finalized self (starting_block (cv_canonical self)).

Definition get_finalized_cursor self : outcome ChainViewError Cursor :=
  cursor_or_finalized self (cv_finalized self).

Definition get_grouped_cursor self : outcome ChainViewError (option Cursor) :=
  match cv_grouped self with
  | None => Ok None
  | Some grouped => Some <$> cursor_or_finalized self grouped
  end.

Definition get_segmented_cursor self : outcome ChainViewError (option Cursor) :=
  match cv_segmented self with
  | None => Ok None
  | Some segmented => Some <$> cursor_or_finalized self segmented
  end.

Definition set_finalized_block self (block : Z) : ChainViewInner S :=
  mkChainView block (cv_pending_generation self) (cv_segmented self) (cv_grouped self)
    (cv_canonical self) (cv_segment_size self) (cv_group_size self)
    (cv_pending_notify self) (cv_head_notify self) (cv_finalized_notify self + 1)
    (cv_segmented_notify self).

Definition set_pending_generation self (generation : option Z) : ChainViewInner S :=
  mkChainView (cv_finalized self) generation (cv_segmented self) (cv_grouped self)
    (cv_canonical self) (cv_segment_size self) (cv_group_size self)
    (cv_pending_notify self + 1) (cv_head_notify self) (cv_finalized_notify self)
    (cv_segmented_notify self).

Definition set_segmented_block self (block : Z) : ChainViewInner S :=
  mkChainView (cv_finalized self) (cv_pending_generation self) (Some block) (cv_grouped self)
    (cv_canonical self) (cv_segment_size self) (cv_group_size self)
    (cv_pending_notify self) (cv_head_notify self) (cv_finalized_notify self)
    (cv_segmented_notify self + 1).

Definition set_grouped_block self (block : Z) : ChainViewInner S :=
  mkChainView (cv_finalized self) (cv_pending_generation self) (cv_segmented self) (Some block)
    (cv_canonical self) (cv_segment_size self) (cv_group_size self)
    (cv_pending_notify self) (cv_head_notify self) (cv_finalized_notify self)
    (cv_segmented_notify self).

Definition view_set_recent self (recent : CanonicalChainSegment) : ChainViewInner S :=
  mkChainView (cv_finalized self) (cv_pending_generation self) (cv_segmented self)
    (cv_grouped self) (full_set_recent (cv_canonical self) recent) (cv_segment_size self)
    (cv_group_size self) (cv_pending_notify self) (cv_head_notify self + 1)
    (cv_finalized_notify self) (cv_segmented_notify self).

End inner.
