(* ===== verification/ChainViewFacts.v ===== *)
(** * Facts about the chain view

    A builder that gives away its full segments, together with the store they
    are put in, is related to the builder that would have kept the whole chain
    ([archived]).  Every query of the view on the split chain is a query on a
    segment that agrees with the whole chain at the block asked for. *)

From S2P Require Import Prelude Core Chain ChainFacts ChainSpec ChainView.

(** ** Agreement of two builders at a block number *)

Definition agree (b B : building) (n : Z) : Prop :=
  block_at b n = block_at B n /\
  forall h, reorg_at (reorgs b) n h = reorg_at (reorgs B) n h.

Lemma agree_refl b n : agree b b n.
Proof. done. Qed.

Lemma agree_trans a b c n : agree a b n -> agree b c n -> agree a c n.
Proof. intros [H1 H2] [H3 H4]. split; [congruence|]. intros h. by rewrite H2. Qed.

Lemma agree_default b B n :
  agree b B n -> default ∅ (reorgs b !! n) = default ∅ (reorgs B !! n).
Proof.
  intros [_ Hr]. apply map_eq. intros h. specialize (Hr h). unfold reorg_at in Hr.
  destruct (reorgs b !! n), (reorgs B !! n); simpl in *; rewrite ?lookup_empty; done.
Qed.

(** Above the last block the rows themselves agree, because they are not
    empty. *)
Lemma agree_extra b B n :
  wf_building b -> wf_building B -> last_number b < n -> last_number B < n ->
  agree b B n -> reorgs b !! n = reorgs B !! n.
Proof.
  intros Hb HB Hn HN [_ Hr].
  assert (forall m, reorgs b !! n = Some m -> is_Some (reorgs B !! n)) as H1.
  { intros m Hm. apply (wf_extra _ Hb) in Hm as Hne; [|done].
    apply map_choose in Hne as (h & t & Ht). specialize (Hr h). unfold reorg_at in Hr.
    rewrite Hm in Hr. simpl in Hr. rewrite Ht in Hr. by destruct (reorgs B !! n). }
  assert (forall m, reorgs B !! n = Some m -> is_Some (reorgs b !! n)) as H2.
  { intros m Hm. apply (wf_extra _ HB) in Hm as Hne; [|done].
    apply map_choose in Hne as (h & t & Ht). specialize (Hr h). unfold reorg_at in Hr.
    rewrite Hm in Hr. simpl in Hr. rewrite Ht in Hr. by destruct (reorgs b !! n). }
  destruct (reorgs b !! n) as [m|] eqn:Hm, (reorgs B !! n) as [m'|] eqn:Hm'.
  - f_equal. apply map_eq. intros h. specialize (Hr h). unfold reorg_at in Hr.
    by rewrite Hm, Hm' in Hr.
  - by destruct (H1 m eq_refl).
  - by destruct (H2 m' eq_refl).
  - done.
Qed.

(** [b] covers the block [n] of [B]: it holds it or both end before it. *)
Record covers (b B : building) (n : Z) : Prop := {
  cov_wf : wf_building b;
  cov_first : first_number b <= n;
  cov_last : last_number b < n <-> last_number B < n;
  cov_agree : agree b B n }.

Lemma covers_canonical b B n :
  wf_building B -> covers b B n -> canonical (segment_of b) n = canonical (segment_of B) n.
Proof.
  intros HB Hc. rewrite !canonical_in by (done || apply Hc).
  by rewrite (proj1 (cov_agree _ _ _ Hc)).
Qed.

Lemma covers_reconnect b B c :
  wf_building B -> first_number B <= number c -> covers b B (number c) ->
  reconnect (segment_of b) c = reconnect (segment_of B) c.
Proof.
  intros HB Hf [Hb Hfb Hl Ha]. destruct (decide (last_number B < number c)).
  - rewrite !reconnect_above by tauto. by rewrite (agree_extra b B) by tauto.
  - destruct (proj2 (block_at_is_Some B (number c) HB)) as [h Hh]; [lia|].
    destruct Ha as [Hbl Hr].
    rewrite (reconnect_in b c h), (reconnect_in B c h) by congruence. by rewrite Hr.
Qed.

Lemma siblings_in b c :
  wf_building b -> first_number b <= number c <= last_number b ->
  siblings (segment_of b) c = Ok (siblings_of (number c) (default ∅ (reorgs b !! number c))).
Proof.
  intros Hb Hn. unfold siblings. cbn [seg_info segment_of]. fold (first_number b) (last_number b).
  rewrite !(proj2 (Z.ltb_ge _ _)) by lia.
  destruct (proj2 (block_at_is_Some b (number c) Hb)) as [h Hh]; [lia|].
  by rewrite (segment_index b _ h), bind_Ok_l by done.
Qed.

Lemma covers_siblings b B c :
  wf_building B -> first_number B <= number c <= last_number B -> covers b B (number c) ->
  siblings (segment_of b) c = siblings (segment_of B) c.
Proof.
  intros HB Hn [Hb Hfb Hl Ha]. rewrite !siblings_in by (done || lia).
  by rewrite (agree_default b B).
Qed.

(** ** The archive *)

Section archive.
Context {S : Type} `{ChainStoreLaws S}.
Variable size : Z.
Hypothesis size_pos : 0 < size.

(** The store, the builder of the service, and the builder that keeps the
    whole chain. *)
Record archive := mkArchive {
  ar_store : S; ar_builder : CanonicalChainBuilder; ar_whole : CanonicalChainBuilder }.

(** An operation of the service: a full segment is put in the store, every
    other operation is applied to both builders. *)
Definition archive_step (a : archive) (op : builder_op) : archive :=
  match op with
  | OpTake _ =>
      match take_segment (ar_builder a) size with
      | Ok (seg, s') =>
          match store_put (ar_store a) seg with
          | Ok st' => mkArchive st' s' (ar_whole a)
          | _ => a
          end
      | _ => a
      end
  | _ =>
      match builder_apply (ar_builder a) op with
      | Ok s' => mkArchive (ar_store a) s' (builder_run (ar_whole a) op)
      | _ => a
      end
  end.

Record archived_building (st : S) (b B : building) : Prop := {
  ab_ok : store_ok st;
  ab_wf : wf_building b;
  ab_whole : wf_building B;
  ab_last : last_block (info b) = last_block (info B);
  ab_first : exists q, 0 <= q /\ first_number b = first_number B + q * size;
  ab_agree : forall n, first_number b <= n -> agree b B n;
  ab_stored : forall i, 0 <= i -> first_number B + i * size < first_number b ->
    exists bi, store_get st (first_number B + i * size) = Ok (Some (segment_of bi)) /\
      wf_building bi /\ first_number bi = first_number B + i * size /\
      last_number bi = first_number B + i * size + size - 1 /\
      forall n, first_number bi <= n <= last_number bi -> agree bi B n;
  ab_fresh : forall k, first_number b <= k < U64 -> store_get st k = Ok None }.

Definition archived (a : archive) : Prop :=
  match ar_builder a, ar_whole a with
  | Empty, Empty => fresh_store (ar_store a)
  | Building b, Building B => archived_building (ar_store a) b B
  | _, _ => False
  end.

Lemma ab_last_number st b B : archived_building st b B -> last_number b = last_number B.
Proof. intros Ha. unfold last_number. by rewrite (ab_last _ _ _ Ha). Qed.

(** A step that keeps the first block and does not touch the blocks below it
    keeps the stored segments in agreement. *)
Lemma archived_update st b B b' B' :
  archived_building st b B -> wf_building b' -> wf_building B' ->
  first_number b' = first_number b -> first_number B' = first_number B ->
  last_block (info b') = last_block (info B') ->
  (forall n, n < first_number b -> agree B B' n) ->
  (forall n, first_number b <= n -> agree b' B' n) ->
  archived_building st b' B'.
Proof.
  intros Ha Hb HB Hf HF Hl Hlow Hhigh. constructor; rewrite ?Hf, ?HF; try done.
  - apply (ab_ok _ _ _ Ha).
  - apply Ha.
  - intros i Hi Hlt. destruct (ab_stored _ _ _ Ha i Hi Hlt) as (bi & Hg & Hw & H1 & H2 & Hag).
    exists bi. split_and!; try done. intros n Hn. eapply agree_trans; [by apply Hag|].
    apply Hlow. destruct (ab_first _ _ _ Ha) as (q & Hq & Hfb). rewrite Hfb in *.
    assert (i < q) by nia. nia.
  - apply Ha.
Qed.

Lemma agree_grown b B blk n :
  wf_building b -> wf_building B -> last_number b = last_number B ->
  bi_number blk = last_number b + 1 -> agree b B n -> agree (grown b blk) (grown B blk) n.
Proof.
  intros Hb HB Hl Hn [H1 H2]. split; [|done].
  rewrite !block_at_grown by (done || congruence). by rewrite H1.
Qed.

Lemma agree_grown_low B blk n :
  wf_building B -> bi_number blk = last_number B + 1 -> n <= last_number B -> agree B (grown B blk) n.
Proof.
  intros HB Hn Hle. split; [|done]. rewrite block_at_grown by done. by rewrite decide_False by lia.
Qed.

Lemma archived_grow st b B blk s' :
  archived_building st b B -> valid_block blk -> grow (Building b) blk = Ok s' ->
  exists b' B', s' = Building b' /\ grow (Building B) blk = Ok (Building B') /\
    archived_building st b' B'.
Proof.
  intros Ha Hv Hg. pose proof (ab_wf _ _ _ Ha) as Hb. pose proof (ab_whole _ _ _ Ha) as HB.
  pose proof (ab_last_number _ _ _ Ha) as Hl. pose proof (wf_range _ Hb).
  pose proof (grow_wf (Building b) _ _ Hb Hv Hg) as Hb'.
  apply grow_building in Hg as [Hc ->]. apply can_grow_building in Hc as [Hn Hp]; [|done].
  assert (grow (Building B) blk = Ok (Building (grown B blk))) as HgB.
  { apply grow_building. split; [|done]. apply can_grow_building; [done|].
    rewrite <- (ab_last _ _ _ Ha). split; [lia|done]. }
  pose proof (grow_wf (Building B) _ _ HB Hv HgB) as HB'.
  exists (grown b blk), (grown B blk). split_and!; [done|done|].
  apply (archived_update st b B); try done.
  - intros n Hlt. apply agree_grown_low; [done|lia|lia].
  - intros n Hle. apply agree_grown; try done. by apply Ha.
Qed.

Lemma agree_shrunk b B nh r R n :
  wf_building b -> wf_building B -> block_at b (number nh) = Some (hash nh) ->
  block_at B (number nh) = Some (hash nh) -> shrunk_reorgs b nh r -> shrunk_reorgs B nh R ->
  agree b B n -> agree (shrunk b nh r) (shrunk B nh R) n.
Proof.
  intros Hb HB Hnh HNh (Hr & _) (HR & _) [H1 H2]. split.
  - rewrite !block_at_shrunk by done. by rewrite H1.
  - intros h. cbn [shrunk reorgs]. by rewrite Hr, HR, H1, H2.
Qed.

Lemma agree_shrunk_low B nh R n :
  wf_building B -> block_at B (number nh) = Some (hash nh) -> shrunk_reorgs B nh R ->
  n <= number nh -> agree B (shrunk B nh R) n.
Proof.
  intros HB HNh (HR & _) Hle. split.
  - rewrite block_at_shrunk by done. by rewrite decide_True.
  - intros h. cbn [shrunk reorgs]. rewrite HR, decide_False; [done|]. intros [? _]. lia.
Qed.

Lemma archived_shrink st b B nh removed s' :
  archived_building st b B -> shrink (Building b) nh = Ok (removed, s') ->
  exists b' B' removed', s' = Building b' /\ shrink (Building B) nh = Ok (removed', Building B') /\
    archived_building st b' B'.
Proof.
  intros Ha Hs. pose proof (ab_wf _ _ _ Ha) as Hb. pose proof (ab_whole _ _ _ Ha) as HB.
  destruct (decide (block_at b (number nh) = Some (hash nh))) as [Hnh|Hnh].
  2:{ rewrite shrink_err in Hs; [done | done | naive_solver]. }
  pose proof (block_at_range _ _ _ Hb Hnh).
  assert (block_at B (number nh) = Some (hash nh)) as HNh.
  { rewrite <- Hnh. symmetry. apply (ab_agree _ _ _ Ha). lia. }
  destruct (shrink_ok b nh) as (r & Heq & Hr); [done..|]. rewrite Heq in Hs. injection Hs as <- <-.
  destruct (shrink_ok B nh) as (R & HeqB & HR); [done..|].
  exists (shrunk b nh r), (shrunk B nh R), (blocks_above B (number nh)). split_and!; [done|done|].
  apply (archived_update st b B); try done; [by apply shrunk_wf|by apply shrunk_wf| |].
  - intros n Hlt. apply agree_shrunk_low; [done..|lia].
  - intros n Hle. apply agree_shrunk; try done. by apply Ha.
Qed.

Lemma archived_restart st b B s' :
  archived_building st b B -> builder_apply (Building b) OpRestart = Ok s' ->
  exists b' B', s' = Building b' /\ builder_apply (Building B) OpRestart = Ok (Building B') /\
    archived_building st b' B'.
Proof.
  intros Ha Hs. pose proof (ab_wf _ _ _ Ha) as Hb. pose proof (ab_whole _ _ _ Ha) as HB.
  pose proof (ab_last_number _ _ _ Ha) as Hl. pose proof (wf_range _ Hb). pose proof (wf_range _ HB).
  destruct (ab_first _ _ _ Ha) as (q & Hq & Hfb).
  destruct (restore_ok b Hb) as (r & Heq & Hr). destruct (restore_ok B HB) as (R & HeqB & HR).
  unfold builder_apply in *. rewrite current_segment_building, bind_Ok_l in *.
  rewrite Heq in Hs. injection Hs as <-.
  exists (restored b r), (restored B R). split_and!; [done|done|].
  apply (archived_update st b B); try done; [by apply restored_wf|by apply restored_wf|apply Ha| |].
  - intros n Hlt. split; [done|]. intros h. cbn [restored reorgs].
    rewrite (restored_reorg_at B R) by done. case_decide as Hd; [done|].
    destruct (reorg_at (reorgs B) n h) eqn:Hra; [|done]. unfold reorg_at in Hra.
    destruct (reorgs B !! n) eqn:Hrow; [|done]. apply (wf_reorgs _ HB) in Hrow. lia.
  - intros n Hle. split; [apply (ab_agree _ _ _ Ha n Hle)|]. intros h. cbn [restored reorgs].
    rewrite (restored_reorg_at B R), (restored_reorg_at b r) by done.
    repeat case_decide; try lia; try done. apply (ab_agree _ _ _ Ha n Hle).
Qed.

Lemma archived_take st st' b B seg s' :
  archived_building st b B -> take_segment (Building b) size = Ok (seg, s') ->
  store_put st seg = Ok st' ->
  exists b', s' = Building b' /\ archived_building st' b' B.
Proof.
  intros Ha Hs Hp. pose proof (ab_wf _ _ _ Ha) as Hb. pose proof (ab_last_number _ _ _ Ha) as Hl.
  destruct (decide (size <= last_number b - first_number b)).
  2:{ rewrite take_segment_small in Hs; [done|done|lia]. }
  destruct (take_segment_ok b size) as (lh & fh & r & Hlh & Hfh & Heq & Hr); [done..|].
  rewrite Heq in Hs. injection Hs as <- <-. rewrite front_segment in Hp by done.
  pose proof (wf_range _ Hb) as Hrng. pose proof (wf_last _ Hb).
  assert (is_u64 (first_number b)) as Hu by (unfold is_u64; lia).
  assert (store_get st (first_number b) = Ok None) as Hnone by (apply Ha; lia).
  pose proof (ab_ok _ _ _ Ha) as Hok.
  assert (store_get st' (first_number b) = Ok (Some (segment_of (front b size lh)))) as Hput.
  { by apply (store_put_get st st' (segment_of (front b size lh))). }
  assert (forall k, is_u64 k -> k <> first_number b -> store_get st' k = store_get st k) as Hother.
  { intros k Hk Hne. by apply (store_put_other st st' (segment_of (front b size lh))). }
  destruct (ab_first _ _ _ Ha) as (q & Hq & Hfb).
  exists (taken b size lh fh r). split; [done|].
  constructor; change (first_number (taken b size lh fh r)) with (first_number b + size).
  - by apply (store_put_ok st st' (segment_of (front b size lh))).
  - by apply taken_wf.
  - apply Ha.
  - apply (ab_last _ _ _ Ha).
  - exists (q + 1). split; [lia|]. rewrite Hfb. lia.
  - intros n Hn. apply (agree_trans _ b); [|apply Ha; lia]. split.
    + rewrite block_at_taken by lia. by rewrite decide_True.
    + intros h. unfold reorg_at. cbn [taken reorgs]. by rewrite Hr, decide_True.
  - intros i Hi Hlt. destruct (decide (i = q)) as [->|Hne].
    + exists (front b size lh). rewrite <- Hfb.
      split_and!; [done|by apply front_wf|done|done|]. intros n Hn.
      apply (agree_trans _ b); [|apply Ha; apply Hn]. change (last_number (front b size lh))
        with (first_number b + size - 1) in Hn. split.
      * rewrite block_at_front by lia. by rewrite decide_True by lia.
      * intros h. unfold reorg_at. by rewrite front_reorgs, decide_True by lia.
    + assert (i < q) by nia. pose proof (wf_range _ (ab_whole _ _ _ Ha)).
      rewrite Hother by (unfold is_u64; nia). apply (ab_stored _ _ _ Ha); [done|]. nia.
  - intros k Hk. rewrite Hother by (unfold is_u64; lia). apply (ab_fresh _ _ _ Ha). lia.
Qed.

Lemma archived_new st blk s :
  fresh_store st -> valid_block blk -> grow Empty blk = Ok s ->
  exists b, s = Building b /\ archived_building st b b.
Proof.
  intros [Hok Hst] Hv Hg. pose proof (grow_wf Empty blk s I Hv Hg) as Hwf.
  destruct s as [|b]; [done|]. exists b. split; [done|]. simpl in Hwf.
  pose proof (wf_range _ Hwf).
  constructor; try done.
  - exists 0. lia.
  - intros i Hi Hlt. nia.
  - intros k Hk. apply Hst. unfold is_u64. lia.
Qed.

Lemma archive_step_archived a op :
  archived a -> valid_op op -> archived (archive_step a op).
Proof.
  intros Ha Hv. destruct a as [st s w]. unfold archived in Ha. cbn [ar_store ar_builder ar_whole] in Ha.
  destruct s as [|b], w as [|B]; try done.
  { destruct op as [blk|nh|n|]; try done. unfold archive_step. cbn [ar_store ar_builder ar_whole].
    unfold builder_run. cbn [builder_apply].
    destruct (grow Empty blk) as [s'| |] eqn:Hg; [|done..].
    by destruct (archived_new st blk s') as (b & -> & Hab). }
  destruct op as [blk|nh|n|]; unfold archive_step; cbn [ar_store ar_builder ar_whole].
  - cbn [builder_apply]. destruct (grow (Building b) blk) as [s'| |] eqn:Hg; [|done..].
    destruct (archived_grow st b B blk s') as (b' & B' & -> & HB & Hab); [done..|].
    unfold builder_run. cbn [builder_apply]. by rewrite HB.
  - unfold builder_run. cbn [builder_apply].
    destruct (shrink (Building b) nh) as [[removed s']| |] eqn:Hg; [|done..].
    destruct (archived_shrink st b B nh removed s') as (b' & B' & removed' & -> & HB & Hab); [done..|].
    cbn [fmap outcome_fmap snd]. by rewrite HB.
  - destruct (take_segment (Building b) size) as [[seg s']| |] eqn:Ht; [|done..].
    destruct (store_put st seg) as [st'| |] eqn:Hp; [|done..].
    by destruct (archived_take st st' b B seg s') as (b' & -> & Hab).
  - destruct (builder_apply (Building b) OpRestart) as [s'| |] eqn:Hg; [|done..].
    destruct (archived_restart st b B s') as (b' & B' & -> & HB & Hab); [done..|].
    unfold builder_run. by rewrite HB.
Qed.

Lemma archive_run_archived ops a :
  archived a -> Forall valid_op ops -> archived (foldl archive_step a ops).
Proof.
  revert a. induction ops as [|op ops IH]; intros a Ha Hv; [done|]. simpl.
  apply Forall_cons in Hv as [Hop Hv]. apply IH; [|done]. by apply archive_step_archived.
Qed.

End archive.
