(* ===== verification/ChainViewSpec.v ===== *)
(** * What the chain view answers

    The view on the split chain gives the answers of the whole chain, a client
    that follows [get_next_cursor] sees every canonical block in order, cursor
    validation finds the block a client means, and the arithmetic of segments
    and groups partitions the blocks. *)

From S2P Require Import Prelude Core Chain ChainFacts ChainSpec ChainView ChainViewFacts.

Section view.
Context {S : Type} `{ChainStoreLaws S}.
Variable size : Z.

(** The view of an archive: the segments in the store and the recent one. *)
Definition split_view (st : S) (b B : building) : FullCanonicalChain S :=
  mkFullChain st (first_number B) size (segment_of b).

(** The view that would hold the whole chain in its recent segment. *)
Definition whole_view (st : S) (B : building) : FullCanonicalChain S :=
  mkFullChain st (first_number B) size (segment_of B).

Lemma chain_segment_start_eq {E} n start :
  0 < size -> 0 <= start <= n -> n < U64 ->
  (chain_segment_start n start size : outcome E Z) = Ok (start + (n - start) / size * size).
Proof.
  intros Hs Hn Hu. unfold chain_segment_start, div64.
  rewrite (proj2 (Z.eqb_neq size 0)), bind_Ok_l by lia. rewrite sub64_id by lia.
  assert (0 <= (n - start) / size * size <= n - start).
  { pose proof (Z.div_pos (n - start) size). pose proof (Z.mul_div_le (n - start) size). lia. }
  rewrite mul64_id, add64_id by lia. f_equal. lia.
Qed.

Lemma whole_segment st B n :
  first_number B <= n -> get_chain_segment (whole_view st B) n = Ok (segment_of B).
Proof.
  intros Hn. unfold get_chain_segment. cbn [recent whole_view seg_info segment_of].
  fold (first_number B). by rewrite (proj2 (Z.leb_le _ _)).
Qed.

Lemma split_segment st b B n :
  0 < size -> archived_building size st b B -> first_number B <= n < U64 ->
  exists bx, get_chain_segment (split_view st b B) n = Ok (segment_of bx) /\ covers bx B n.
Proof.
  intros Hs Ha Hn. pose proof (ab_whole _ _ _ _ Ha) as HB. pose proof (wf_range _ HB).
  pose proof (ab_last_number _ _ _ _ Ha) as Hl.
  unfold get_chain_segment. cbn [recent split_view seg_info segment_of]. fold (first_number b).
  destruct (Z.leb_spec (first_number b) n) as [Hle|Hlt].
  - exists b. split; [done|]. constructor; [apply Ha|done|lia|by apply Ha].
  - cbn [starting_block chain_segment_size split_view fc_store].
    rewrite chain_segment_start_eq, bind_Ok_l by lia.
    set (i := (n - first_number B) / size).
    pose proof (Z.mul_div_le (n - first_number B) size Hs).
    pose proof (Z.mul_succ_div_gt (n - first_number B) size Hs).
    assert (0 <= i) by (apply Z.div_pos; lia).
    destruct (ab_stored _ _ _ _ Ha i) as (bi & Hg & Hw & Hfi & Hli & Hag); [done|subst i; lia|].
    rewrite Hg. exists bi. split; [done|]. pose proof (wf_range _ Hw).
    assert (last_number bi < first_number b).
    { destruct (ab_first _ _ _ _ Ha) as (q & Hq & Hfb). assert (i < q) by (subst i; nia). nia. }
    pose proof (wf_range _ (ab_wf _ _ _ _ Ha)).
    constructor; [done|subst i; lia|subst i; lia|]. apply Hag. subst i. lia.
Qed.

Lemma split_canonical_impl st b B n :
  0 < size -> archived_building size st b B -> first_number B <= n < U64 ->
  get_canonical_impl (split_view st b B) n = get_canonical_impl (whole_view st B) n.
Proof.
  intros Hs Ha Hn. destruct (split_segment st b B n Hs Ha Hn) as (bx & Hg & Hc).
  unfold get_canonical_impl. rewrite Hg, whole_segment, !bind_Ok_l by lia.
  by rewrite (covers_canonical bx B) by (done || apply Ha).
Qed.

Lemma whole_canonical st B n h :
  wf_building B -> block_at B n = Some h ->
  get_canonical_impl (whole_view st B) n = Ok (mkCursor n h).
Proof.
  intros HB Hh. pose proof (block_at_range _ _ _ HB Hh).
  unfold get_canonical_impl. rewrite whole_segment, bind_Ok_l by lia.
  by rewrite canonical_in, Hh by done.
Qed.

(** Every query of the split view, on a block at or after the first one. *)
Lemma split_next_cursor st b B cursor :
  0 < size -> archived_building size st b B ->
  (forall c, cursor = Some c -> first_number B <= number c < U64) ->
  get_next_cursor (split_view st b B) cursor = get_next_cursor (whole_view st B) cursor.
Proof.
  intros Hs Ha Hc. pose proof (ab_whole _ _ _ _ Ha) as HB. pose proof (wf_range _ HB).
  pose proof (wf_last _ HB). destruct cursor as [c|]; simpl.
  2:{ by rewrite split_canonical_impl by (done || lia). }
  specialize (Hc c eq_refl). destruct (split_segment st b B (number c) Hs Ha Hc) as (bx & Hg & Hcov).
  rewrite Hg, whole_segment, !bind_Ok_l by lia.
  rewrite (covers_reconnect bx B) by (done || lia).
  destruct (reconnect (segment_of B) c) as [[]| |] eqn:Hrec; simpl; try done.
  fold (last_number b). fold (last_number B). rewrite (ab_last_number _ _ _ _ Ha).
  destruct (Z.eqb_spec (number c) (last_number B)) as [|Hne]; [done|].
  destruct (decide (number c + 1 < U64)).
  - by rewrite add64_id, split_canonical_impl by (done || lia).
  - exfalso. rewrite reconnect_above in Hrec by (done || lia).
    destruct (reorgs B !! number c) eqn:Hrow; [|done]. apply (wf_reorgs _ HB) in Hrow. lia.
Qed.

Lemma split_validate st b B c :
  0 < size -> archived_building size st b B -> first_number B <= number c < U64 ->
  validate_cursor (split_view st b B) c = validate_cursor (whole_view st B) c.
Proof.
  intros Hs Ha Hc. pose proof (ab_whole _ _ _ _ Ha) as HB.
  destruct (split_segment st b B (number c) Hs Ha Hc) as (bx & Hg & Hcov).
  unfold validate_cursor. rewrite Hg, whole_segment, !bind_Ok_l by lia.
  rewrite (covers_canonical bx B) by done.
  destruct (canonical (segment_of B) (number c)) as [cc| |] eqn:Hcan; simpl; try done.
  assert (first_number B <= number c <= last_number B) as Hr.
  { rewrite canonical_in in Hcan by done. destruct (block_at B (number c)) eqn:Hb; [|done].
    by apply block_at_range in Hb. }
  by rewrite (covers_siblings bx B).
Qed.

Lemma split_get_canonical st b B n :
  0 < size -> archived_building size st b B -> 0 <= n < U64 ->
  get_canonical (split_view st b B) n = get_canonical (whole_view st B) n.
Proof.
  intros Hs Ha Hn. pose proof (ab_whole _ _ _ _ Ha) as HB. pose proof (wf_range _ HB).
  pose proof (wf_last _ HB). unfold get_canonical. cbn [recent split_view whole_view seg_info segment_of starting_block].
  rewrite (ab_last _ _ _ _ Ha). destruct (_ <? n); [done|].
  destruct (Z.ltb_spec n (first_number B)); by rewrite split_canonical_impl by (done || lia).
Qed.

End view.

(** ** Walking the chain *)

(** A client that asks for the next cursor until it is told to wait: the
    cursors it gets, and whether it reached the head within the fuel. *)
Fixpoint walk {S} `{ChainStoreOps S} (fuel : nat) (self : FullCanonicalChain S)
    (cursor : option Cursor) : outcome ChainViewError (list Cursor * bool) :=
  match fuel with
  | O => Ok ([], false)
  | Datatypes.S fuel =>
      next ← get_next_cursor self cursor;
      match next with
      | NextContinue c _ =>
          r ← walk fuel self (Some c);
          Ok (c :: r.1, r.2)
      | AtHead => Ok ([], true)
      | Invalidate _ => Err ChainViewErr
      end
  end.

Lemma blocks_above_last B : wf_building B -> blocks_above B (last_number B) = [].
Proof.
  intros HB. pose proof (wf_len _ HB). pose proof (wf_range _ HB).
  unfold blocks_above. by rewrite drop_ge by lia.
Qed.

Lemma blocks_above_step B n h :
  wf_building B -> first_number B <= n -> block_at B (n + 1) = Some h ->
  blocks_above B n = mkCursor (n + 1) h :: blocks_above B (n + 1).
Proof.
  intros HB Hn Hh. apply block_at_Some in Hh as [_ Hh]. unfold blocks_above.
  replace (Z.to_nat (n - first_number B + 1)) with (Z.to_nat (n + 1 - first_number B)) by lia.
  rewrite (drop_S _ h) by done. unfold cursors_from. simpl. f_equal; [f_equal; lia|].
  f_equal. f_equal; [lia|]. f_equal. lia.
Qed.

Lemma chain_of_above B h :
  wf_building B -> block_at B (first_number B) = Some h ->
  chain_of B = mkCursor (first_number B) h :: blocks_above B (first_number B).
Proof.
  intros HB Hh. apply block_at_Some in Hh as [_ Hh]. rewrite Z.sub_diag in Hh.
  unfold chain_of, blocks_above. destruct (blocks B) as [|h0 hs] eqn:Hb; [done|].
  injection Hh as ->. rewrite Z.sub_diag. unfold cursors_from. simpl. rewrite drop_0. by rewrite Z.add_0_r.
Qed.

Section walking.
Context {S : Type} `{ChainStoreLaws S}.
Variables (size : Z) (st : S) (b B : building).
Hypothesis size_pos : 0 < size.
Hypothesis is_archived : archived_building size st b B.

(** What the view answers at a block of the chain, and at the start. *)
Lemma split_next_above n h :
  block_at B n = Some h ->
  if n =? last_number B
  then get_next_cursor (split_view size st b B) (Some (mkCursor n h)) = Ok AtHead
  else exists h' is_head, block_at B (n + 1) = Some h' /\
    get_next_cursor (split_view size st b B) (Some (mkCursor n h)) =
      Ok (NextContinue (mkCursor (n + 1) h') is_head).
Proof using All.
  pose proof (ab_whole _ _ _ _ is_archived) as HB. pose proof (wf_last _ HB). pose proof (wf_first _ HB).
  intros Hh. pose proof (block_at_range _ _ _ HB Hh).
  rewrite split_next_cursor; [|done|done|intros c [= <-]; simpl; lia].
  cbn [get_next_cursor number]. rewrite whole_segment, bind_Ok_l by lia.
  rewrite (reconnect_in B _ h) by done. cbn [hash number].
  rewrite bool_decide_eq_true_2 by done. cbn [orb change_context mbind outcome_bind].
  cbn [recent whole_view seg_info segment_of]. fold (last_number B).
  destruct (Z.eqb_spec n (last_number B)) as [->|Hne]; [done|].
  rewrite add64_id by lia.
  destruct (proj2 (block_at_is_Some B (n + 1) HB)) as [h' Hh']; [lia|].
  rewrite (whole_canonical size st B (n + 1) h') by done. cbn [mbind outcome_bind]. eauto.
Qed.

Lemma split_next_first h :
  block_at B (first_number B) = Some h ->
  get_next_cursor (split_view size st b B) None = Ok (NextContinue (mkCursor (first_number B) h) false).
Proof using All.
  pose proof (ab_whole _ _ _ _ is_archived) as HB. intros Hh. rewrite split_next_cursor by done.
  cbn [get_next_cursor starting_block whole_view]. by rewrite (whole_canonical size st B _ _ HB Hh).
Qed.

Lemma walk_above fuel n h :
  block_at B n = Some h -> last_number B - n < Z.of_nat fuel ->
  walk fuel (split_view size st b B) (Some (mkCursor n h)) = Ok (blocks_above B n, true).
Proof using All.
  pose proof (ab_whole _ _ _ _ is_archived) as HB.
  revert n h. induction fuel as [|fuel IH]; intros n h Hh Hf; pose proof (block_at_range _ _ _ HB Hh).
  { lia. }
  cbn [walk]. pose proof (split_next_above n h Hh) as Hnext.
  destruct (Z.eqb_spec n (last_number B)) as [->|Hne].
  { rewrite Hnext. by rewrite blocks_above_last. }
  destruct Hnext as (h' & is_head & Hh' & ->). cbn [mbind outcome_bind].
  rewrite IH by (done || lia). cbn [mbind outcome_bind fst snd].
  by rewrite (blocks_above_step B n h') by (done || lia).
Qed.

Lemma walk_all fuel :
  (length (chain_of B) < fuel)%nat ->
  walk fuel (split_view size st b B) None = Ok (chain_of B, true).
Proof using All.
  pose proof (ab_whole _ _ _ _ is_archived) as HB. pose proof (wf_range _ HB). pose proof (wf_len _ HB).
  unfold chain_of, cursors_from at 1. rewrite length_fmap, length_enumerate_from. intros Hf.
  pose proof (block_at_first B HB) as Hh.
  destruct fuel as [|fuel]; [lia|]. cbn [walk]. rewrite (split_next_first _ Hh). cbn [mbind outcome_bind].
  rewrite (walk_above fuel _ _ Hh) by lia. cbn [mbind outcome_bind fst snd].
  fold (chain_of B). by rewrite (chain_of_above B _ HB Hh).
Qed.

End walking.

(** ** Validating a cursor *)

Lemma elem_of_siblings_of n m v :
  v ∈ siblings_of n m <-> number v = n /\ is_Some (m !! hash v).
Proof.
  unfold siblings_of. rewrite list_elem_of_fmap. split.
  - intros (h & -> & Hh). simpl. by apply elem_of_btree_keys in Hh.
  - intros [<- Hs]. exists (hash v). split; [by destruct v|]. by apply elem_of_btree_keys.
Qed.

Lemma reorg_at_default r n h : default ∅ (r !! n) !! h = reorg_at r n h.
Proof. unfold reorg_at. destruct (r !! n); simpl; [done|]. apply lookup_empty. Qed.

(** The blocks of [B] that a client may mean by a cursor at number [n]: the
    canonical one and the reorged ones. *)
Definition candidate (B : building) (n : Z) (v : Cursor) : Prop :=
  number v = n /\ known B v.

Lemma not_equivalent a b : ~ is_equivalent a b = true -> ~ same_block a b.
Proof. by rewrite is_equivalent_same_block. Qed.

Lemma whole_validate {S} `{ChainStoreOps S} size (st : S) B c :
  wf_building B -> first_number B <= number c ->
  match validate_cursor (whole_view size st B) c with
  | Ok (Valid v) => candidate B (number c) v /\ same_block v c
  | Ok (Invalid canonical siblings) =>
      (forall v, v = canonical \/ v ∈ siblings <-> candidate B (number c) v) /\
      (forall v, candidate B (number c) v -> ~ same_block v c)
  | Err _ => last_number B < number c
  | Panic => False
  end.
Proof.
  intros HB Hn. unfold validate_cursor. rewrite whole_segment, bind_Ok_l by done.
  rewrite canonical_in by done. destruct (block_at B (number c)) as [h|] eqn:Hh.
  2:{ simpl. apply Z.nle_gt. intros Hle.
      destruct (proj2 (block_at_is_Some B (number c) HB)); [lia|congruence]. }
  pose proof (block_at_range _ _ _ HB Hh) as Hr. cbn [change_context mbind outcome_bind].
  set (cc := mkCursor (number c) h).
  assert (forall v, v = cc \/ v ∈ siblings_of (number c) (default ∅ (reorgs B !! number c)) <->
            candidate B (number c) v) as Hcand.
  { intros v. rewrite elem_of_siblings_of, reorg_at_default. unfold candidate, known. split.
    - intros [->|[Hv Hs]]; [simpl; split; [done|by left]|]. rewrite Hv. split; [done|by right].
    - intros [Hv [Hb|Hs]]; rewrite Hv in *; [|by right].
      left. rewrite Hh in Hb. injection Hb as ->. destruct v. simpl in Hv. by subst. }
  destruct (is_equivalent cc c) eqn:He.
  { split; [by apply Hcand; left|]. by apply is_equivalent_same_block. }
  rewrite siblings_in by done. cbn [change_context mbind outcome_bind].
  destruct (list_find _ _) as [[i v]|] eqn:Hf.
  - apply list_find_Some in Hf as (Hl & He' & _). split.
    + apply Hcand. right. by eapply list_elem_of_lookup_2.
    + by apply is_equivalent_same_block.
  - apply list_find_None in Hf. rewrite Forall_forall in Hf. split; [done|].
    intros v [->|Hv]%Hcand; apply not_equivalent; [by rewrite He|by apply Hf].
Qed.

Lemma candidate_streams {S} `{ChainStoreOps S} size (st : S) B v :
  wf_building B -> first_number B <= number v <= last_number B -> known B v ->
  match get_next_cursor (whole_view size st B) (Some v) with
  | Ok (NextContinue c _) => number c = number v + 1 /\ block_at B (number c) = Some (hash c)
  | Ok (Invalidate t) => number t < number v
  | Ok AtHead => number v = last_number B
  | _ => False
  end.
Proof.
  intros HB Hn Hk. cbn [get_next_cursor]. rewrite whole_segment, bind_Ok_l by lia.
  destruct (known_reconnect B v HB Hk) as [Hr|(t & Hr & Hlt & _)].
  - rewrite Hr. cbn [change_context mbind outcome_bind recent whole_view seg_info segment_of].
    fold (last_number B). destruct (Z.eqb_spec (number v) (last_number B)); [done|].
    pose proof (wf_last _ HB). pose proof (wf_first _ HB). rewrite add64_id by lia.
    destruct (proj2 (block_at_is_Some B (number v + 1) HB)) as [h Hh]; [lia|].
    by rewrite (whole_canonical size st B _ h HB Hh).
  - unfold follows in Hr. rewrite Hr. done.
Qed.

(** ** Segments and groups *)

Section ranges.
Context {S : Type} (self : ChainViewInner S).

Abbreviation start := (starting_block (cv_canonical self)).
Abbreviation ssize := (cv_segment_size self).
Abbreviation gsize := (cv_group_size self * cv_segment_size self).

(** The sizes are positive and the group that holds [block] ends below
    2^64. *)
Definition fits (block : Z) : Prop :=
  0 < ssize /\ 0 < cv_group_size self /\ 0 <= start <= block /\ block + gsize < U64.

Lemma round_down n k : 0 < k -> 0 <= n -> 0 <= n / k * k <= n /\ n < n / k * k + k.
Proof.
  intros Hk Hn. pose proof (Z.mul_div_le n k Hk). pose proof (Z.mul_succ_div_gt n k Hk).
  pose proof (Z.div_pos n k Hn Hk). lia.
Qed.

Lemma segment_start_eq block :
  fits block ->
  get_segment_start_block self block = Ok (start + (block - start) / ssize * ssize).
Proof.
  intros (Hs & Hg & Hb & Hu). unfold get_segment_start_block, div64.
  pose proof (round_down (block - start) ssize). rewrite sub64_id by nia.
  rewrite (proj2 (Z.eqb_neq ssize 0)), bind_Ok_l by lia.
  rewrite mul64_id, add64_id by nia. done.
Qed.

Lemma segment_end_eq block :
  fits block ->
  get_segment_end_block self block = Ok (start + (block - start) / ssize * ssize + ssize - 1).
Proof.
  intros Hf. unfold get_segment_end_block. rewrite segment_start_eq, bind_Ok_l by done.
  destruct Hf as (Hs & Hg & Hb & Hu). pose proof (round_down (block - start) ssize).
  rewrite add64_id, sub64_id by nia. done.
Qed.

Lemma group_start_eq block :
  fits block ->
  get_group_start_block self block = Ok (start + (block - start) / gsize * gsize).
Proof.
  intros (Hs & Hg & Hb & Hu). unfold get_group_start_block, div64.
  assert (0 < gsize) by nia.
  pose proof (round_down (block - start) gsize). rewrite sub64_id, (mul64_id (cv_group_size self)) by nia.
  rewrite (proj2 (Z.eqb_neq gsize 0)), bind_Ok_l by lia.
  rewrite mul64_id, add64_id by lia. done.
Qed.

Lemma group_end_eq block :
  fits block ->
  get_group_end_block self block = Ok (start + (block - start) / gsize * gsize + gsize - 1).
Proof.
  intros Hf. unfold get_group_end_block. rewrite group_start_eq, bind_Ok_l by done.
  destruct Hf as (Hs & Hg & Hb & Hu). assert (0 < gsize) by nia.
  pose proof (round_down (block - start) gsize).
  rewrite (mul64_id (cv_group_size self)), add64_id, sub64_id by lia. done.
Qed.

(** The segment of a block lies inside its group. *)
Lemma segment_in_group block :
  fits block ->
  (block - start) / gsize * gsize <= (block - start) / ssize * ssize /\
  (block - start) / ssize * ssize + ssize <= (block - start) / gsize * gsize + gsize.
Proof.
  intros (Hs & Hg & Hb & Hu). set (g := cv_group_size self) in *. set (s := ssize) in *.
  set (n := block - start). assert (0 < g * s) by nia.
  pose proof (round_down n (g * s)) as HG. pose proof (round_down n s) as HS.
  assert (0 <= n) as Hn by (subst n; lia).
  specialize (HG ltac:(lia) Hn). specialize (HS ltac:(lia) Hn).
  set (a := n / (g * s)) in *. set (c := n / s) in *.
  assert (a * g <= c) by (apply Z.lt_succ_r; nia).
  assert (c + 1 <= a * g + g) by (apply Z.le_succ_l; nia). nia.
Qed.

End ranges.

(** ** Properties *)

(** The archive after a sequence of operations from an empty store. *)
Definition archive_after {S} `{ChainStoreOps S} (size : Z) (st0 : S) (ops : list builder_op) :
    archive (S := S) :=
  foldl (archive_step size) (mkArchive st0 Empty Empty) ops.

Lemma archive_after_archived {S} `{ChainStoreLaws S} size (st0 : S) ops st b B :
  0 < size -> fresh_store st0 -> Forall valid_op ops ->
  archive_after size st0 ops = mkArchive st (Building b) (Building B) ->
  archived_building size st b B.
Proof.
  intros Hs Hempty Hv Ha.
  pose proof (archive_run_archived size Hs ops (mkArchive st0 Empty Empty) Hempty Hv) as Hr.
  unfold archive_after in Ha. by rewrite Ha in Hr.
Qed.

(** (C29) Splitting the chain into stored segments is invisible: for any
    history of blocks, reorgs, taken segments and restarts and any chain store
    that keeps what is put in it, every query of the view on a block at or
    after the starting block gives the answer of a view that holds the whole,
    never split chain in memory. *)
Theorem split_view_transparent {S} `{ChainStoreLaws S} size (st0 : S) ops st b B :
  0 < size -> fresh_store st0 -> Forall valid_op ops ->
  archive_after size st0 ops = mkArchive st (Building b) (Building B) ->
  let split := split_view size st b B in
  let whole := whole_view size st B in
  (forall cursor, (forall c, cursor = Some c -> first_number B <= number c < U64) ->
     get_next_cursor split cursor = get_next_cursor whole cursor) /\
  (forall c, first_number B <= number c < U64 ->
     validate_cursor split c = validate_cursor whole c) /\
  (forall n, 0 <= n < U64 -> get_canonical split n = get_canonical whole n).
Proof.
  intros Hs Hempty Hv Ha. pose proof (archive_after_archived size st0 ops st b B Hs Hempty Hv Ha) as Hab.
  split_and!.
  - intros cursor Hc. by apply split_next_cursor.
  - intros c Hc. by apply split_validate.
  - intros n Hn. by apply split_get_canonical.
Qed.

(** A client that starts without a cursor and keeps asking for the next
    one is given exactly the canonical chain, every block once and in order,
    across the stored segments and the recent one, and is then told that it is
    at the head. *)
Theorem walk_canonical_chain {S} `{ChainStoreLaws S} size (st0 : S) ops st b B fuel :
  0 < size -> fresh_store st0 -> Forall valid_op ops ->
  archive_after size st0 ops = mkArchive st (Building b) (Building B) ->
  (length (chain_of B) < fuel)%nat ->
  walk fuel (split_view size st b B) None = Ok (chain_of B, true).
Proof.
  intros Hs Hempty Hv Ha Hf. apply walk_all; [done| |done].
  by apply (archive_after_archived size st0 ops).
Qed.


(** The segment and the group of a block: both ranges hold the block,
    have the configured length, start at a multiple of it after the starting
    block, and the segment lies inside the group; a block has a segment (a
    group) exactly when the whole range is at or below the segmented (grouped)
    block. *)
Theorem segment_group_ranges {S} (self : ChainViewInner S) block :
  fits self block ->
  exists s e gs ge,
    get_segment_start_block self block = Ok s /\ get_segment_end_block self block = Ok e /\
    get_group_start_block self block = Ok gs /\ get_group_end_block self block = Ok ge /\
    gs <= s /\ s <= block <= e /\ e <= ge /\
    e - s + 1 = cv_segment_size self /\ ge - gs + 1 = get_blocks_in_group self /\
    (s - starting_block (cv_canonical self)) mod cv_segment_size self = 0 /\
    (gs - starting_block (cv_canonical self)) mod get_blocks_in_group self = 0 /\
    has_segment_for_block self block =
      Ok (match cv_segmented self with Some m => e <=? m | None => false end) /\
    has_group_for_block self block =
      Ok (match cv_grouped self with Some m => ge <=? m | None => false end).
Proof.
  intros Hf. pose proof (segment_in_group self block Hf) as Hin.
  pose proof Hf as (Hs & Hg & Hb & Hu).
  assert (get_blocks_in_group self = cv_group_size self * cv_segment_size self) as Hbg.
  { unfold get_blocks_in_group. rewrite mul64_id by nia. done. }
  pose proof (round_down (block - starting_block (cv_canonical self)) (cv_segment_size self)).
  do 4 eexists. rewrite segment_start_eq, segment_end_eq, group_start_eq, group_end_eq by done.
  do 4 (split; [done|]). rewrite Hbg. split_and!; try lia.
  - rewrite Z.add_simpl_l. apply Z.mod_mul. lia.
  - rewrite Z.add_simpl_l. apply Z.mod_mul. nia.
  - unfold has_segment_for_block. destruct (cv_segmented self); [|done].
    by rewrite segment_end_eq.
  - unfold has_group_for_block. destruct (cv_grouped self); [|done].
    by rewrite group_end_eq.
Qed.

(** ** Witnesses *)

(** A chain store kept in memory. *)
#[export] Instance memory_chain_store : ChainStoreOps (gmap Z CanonicalChainSegment) := {|
  store_get st k := Ok (st !! k);
  store_put st seg := Ok (<[number (first_block (seg_info seg)) := seg]> st) |}.

#[export] Program Instance memory_chain_store_laws :
  ChainStoreLaws (gmap Z CanonicalChainSegment) := {| store_ok _ := True |}.
Next Obligation. done. Qed.
Next Obligation. intros st st' seg _ _ _ [= <-]. simpl. by rewrite lookup_insert_eq. Qed.
Next Obligation. intros st st' seg k _ _ _ _ Hk [= <-]. simpl. by rewrite lookup_insert_ne. Qed.

(** The blocks 10 to 13 with a reorg, of which 10 and 11 are stored. *)
Definition example_history : list builder_op := example_ops ++ [OpTake 2].

Lemma example_history_valid : Forall valid_op example_history.
Proof. apply Forall_app. split; [apply example_valid|]. repeat constructor. Qed.

Definition get_building (s : CanonicalChainBuilder) : building :=
  match s with
  | Building b => b
  | Empty => mkBuilding None (mkSegmentInfo (new_finalized 0) (new_finalized 0)) [] ∅
  end.

Definition example_archive : archive (S := gmap Z CanonicalChainSegment) :=
  archive_after 2 ∅ example_history.

Definition example_b : building := get_building (ar_builder example_archive).
Definition example_B : building := get_building (ar_whole example_archive).

Lemma example_empty : fresh_store (∅ : gmap Z CanonicalChainSegment).
Proof. split; [done|]. intros k _. simpl. by rewrite lookup_empty. Qed.

Lemma example_archive_eq :
  archive_after 2 (∅ : gmap Z CanonicalChainSegment) example_history =
  mkArchive (ar_store example_archive) (Building example_b) (Building example_B).
Proof. vm_compute. reflexivity. Qed.

Lemma split_view_transparent_witness :
  first_number example_b = 12 /\
  get_next_cursor (split_view 2 (ar_store example_archive) example_b example_B) (Some (mkCursor 10 [x0a])) =
  get_next_cursor (whole_view 2 (ar_store example_archive) example_B) (Some (mkCursor 10 [x0a])).
Proof.
  split; [vm_compute; reflexivity|].
  apply (split_view_transparent 2 ∅ example_history _ _ _ eq_refl example_empty
    example_history_valid example_archive_eq).
  intros c [= <-]. vm_compute. split; [discriminate|reflexivity].
Defined.

Lemma walk_canonical_chain_witness :
  walk 5 (split_view 2 (ar_store example_archive) example_b example_B) None =
  Ok ([mkCursor 10 [x0a]; mkCursor 11 [x0b]; mkCursor 12 [x0c]; mkCursor 13 [xdd]], true).
Proof.
  rewrite (walk_canonical_chain 2 ∅ example_history _ _ _ 5 eq_refl example_empty
    example_history_valid example_archive_eq).
  - vm_compute. reflexivity.
  - vm_compute. lia.
Defined.


Definition example_view : ChainViewInner (gmap Z CanonicalChainSegment) :=
  chain_view_new 12 (Some 29) (Some 19) 5 2
    (split_view 2 (ar_store example_archive) example_b example_B).

Lemma segment_group_ranges_witness :
  fits example_view 17 /\ exists s, get_segment_start_block example_view 17 = Ok s.
Proof.
  assert (fits example_view 17) as Hf by (vm_compute; split_and!; (reflexivity || discriminate)).
  split; [exact Hf|].
  destruct (segment_group_ranges example_view 17 Hf) as (s & e & gs & ge & Hs & _).
  exists s. exact Hs.
Defined.
