(* ===== verification/Index.v ===== *)
(** * Indexes and joins (common/src/index.rs, join.rs and fragment.rs)

    A bitmap index maps a scalar value to the rows of a fragment that have it;
    a join index maps a row of one fragment to the row or rows of another.  Both
    are built in an ordered map, written as two parallel vectors and searched
    with [slice::binary_search_by]. *)

From S2P Require Import Prelude Core External.

(** ** Scalar values *)

Inductive ScalarValue :=
| Null
| Bool (b : bool)
| Int32 (z : Z)
| Uint8 (z : Z)
| Uint16 (z : Z)
| Uint32 (z : Z)
| Uint64 (z : Z)
| B160 (bytes : list byte)
| B256 (bytes : list byte)
| B384 (bytes : list byte).

#[export] Instance ScalarValue_eq_dec : EqDecision ScalarValue.
Proof. solve_decision. Defined.

(** The position of a variant, and its payload as a list of integers. *)
Definition scalar_rank (v : ScalarValue) : Z :=
  match v with
  | Null => 0 | Bool _ => 1 | Int32 _ => 2 | Uint8 _ => 3 | Uint16 _ => 4
  | Uint32 _ => 5 | Uint64 _ => 6 | B160 _ => 7 | B256 _ => 8 | B384 _ => 9
  end.

Definition scalar_payload (v : ScalarValue) : list Z :=
  match v with
  | Null => []
  | Bool b => [if b then 1 else 0]
  | Int32 z | Uint8 z | Uint16 z | Uint32 z | Uint64 z => [z]
  | B160 bs | B256 bs | B384 bs => byte_val <$> bs
  end.

Fixpoint lex_compare (a b : list Z) : comparison :=
  match a, b with
  | [], [] => Eq
  | [], _ :: _ => Lt
  | _ :: _, [] => Gt
  | x :: a, y :: b =>
      match x ?= y with Eq => lex_compare a b | c => c end
  end.

(** The derived [Ord]: by variant, then by payload. *)
Definition scalar_compare (a b : ScalarValue) : comparison :=
  lex_compare (scalar_rank a :: scalar_payload a) (scalar_rank b :: scalar_payload b).

Definition scalar_leb (a b : ScalarValue) : bool :=
  match scalar_compare a b with Gt => false | _ => true end.

(** [cmp_scalar_value]: values of different variants compare as [Greater]. *)
Definition cmp_scalar_value (a b : ScalarValue) : comparison :=
  match a, b with
  | Null, Null => Eq
  | Bool a, Bool b => Z.compare (if a then 1 else 0) (if b then 1 else 0)
  | Int32 a, Int32 b => Z.compare a b
  | Uint8 a, Uint8 b => Z.compare a b
  | Uint16 a, Uint16 b => Z.compare a b
  | Uint32 a, Uint32 b => Z.compare a b
  | Uint64 a, Uint64 b => Z.compare a b
  | B160 a, B160 b => lex_compare (byte_val <$> a) (byte_val <$> b)
  | B256 a, B256 b => lex_compare (byte_val <$> a) (byte_val <$> b)
  | B384 a, B384 b => lex_compare (byte_val <$> a) (byte_val <$> b)
  | _, _ => Gt
  end.

Lemma lex_compare_refl a : lex_compare a a = Eq.
Proof. induction a as [|x a IH]; simpl; [done|]. by rewrite Z.compare_refl. Qed.

Lemma lex_compare_eq a b : lex_compare a b = Eq -> a = b.
Proof.
  revert b. induction a as [|x a IH]; intros [|y b]; simpl; try done.
  destruct (Z.compare_spec x y); try done. subst. intros ?%IH. by subst.
Qed.

Lemma lex_compare_antisym a b : lex_compare b a = CompOpp (lex_compare a b).
Proof.
  revert b. induction a as [|x a IH]; intros [|y b]; simpl; try done.
  rewrite (Z.compare_antisym x y). destruct (x ?= y); simpl; auto.
Qed.

Lemma lex_compare_trans a b c :
  lex_compare a b <> Gt -> lex_compare b c <> Gt -> lex_compare a c <> Gt.
Proof.
  revert b c. induction a as [|x a IH]; intros [|y b] [|z c]; simpl; try done.
  destruct (Z.compare_spec x y), (Z.compare_spec y z), (Z.compare_spec x z);
    subst; try lia; try done; eauto.
Qed.

Lemma scalar_key_inj a b :
  scalar_rank a :: scalar_payload a = scalar_rank b :: scalar_payload b -> a = b.
Proof.
  assert (forall x y : list byte, byte_val <$> x = byte_val <$> y -> x = y) as Hb.
  { intros x y. apply list_fmap_eq_inj. intros ??. apply byte_val_inj. }
  intros [= Hr Hp]. destruct a, b; try discriminate Hr; simpl in Hp; try (injection Hp as Hp);
    subst; try done; f_equal; auto.
  repeat match goal with b : bool |- _ => destruct b end; done.
Qed.

#[export] Program Instance ScalarValue_key_order : KeyOrder ScalarValue := {| key_leb := scalar_leb |}.
Next Obligation.
  intros a b. unfold scalar_leb, scalar_compare.
  rewrite (lex_compare_antisym (scalar_rank a :: _) (scalar_rank b :: _)).
  destruct (lex_compare _ _); simpl; auto.
Qed.
Next Obligation.
  intros a b c. unfold scalar_leb, scalar_compare.
  pose proof (lex_compare_trans (scalar_rank a :: scalar_payload a)
    (scalar_rank b :: scalar_payload b) (scalar_rank c :: scalar_payload c)) as Ht.
  repeat destruct (lex_compare _ _); try done; intros; exfalso; by apply Ht.
Qed.
Next Obligation.
  intros a b. unfold scalar_leb, scalar_compare.
  rewrite (lex_compare_antisym (scalar_rank a :: _) (scalar_rank b :: _)).
  destruct (lex_compare (scalar_rank a :: _) (scalar_rank b :: _)) eqn:He; simpl; try done.
  intros _ _. apply scalar_key_inj. by apply lex_compare_eq.
Qed.

(** Injection of the scalar values into a countable type. *)
Definition scalar_code (v : ScalarValue) : Z * (Z * list byte) :=
  (scalar_rank v,
   match v with
   | Null => (0, [])
   | Bool b => (if b then 1 else 0, [])
   | Int32 z | Uint8 z | Uint16 z | Uint32 z | Uint64 z => (z, [])
   | B160 bs | B256 bs | B384 bs => (0, bs)
   end).

Definition scalar_of_code (c : Z * (Z * list byte)) : ScalarValue :=
  let '(r, (z, bs)) := c in
  if r =? 0 then Null else if r =? 1 then Bool (z =? 1) else if r =? 2 then Int32 z
  else if r =? 3 then Uint8 z else if r =? 4 then Uint16 z else if r =? 5 then Uint32 z
  else if r =? 6 then Uint64 z else if r =? 7 then B160 bs else if r =? 8 then B256 bs
  else B384 bs.

#[export] Instance ScalarValue_countable : Countable ScalarValue.
Proof. refine (inj_countable' scalar_code scalar_of_code _). by intros [| [] | | | | | | | |]. Defined.

(** ** Binary search *)

(** [slice::binary_search_by]: the loop keeps the search range
    [base .. base + size]. *)
Fixpoint binary_search_loop {A} (cmp : A -> comparison) (l : list A)
    (fuel size base : nat) : nat :=
  match fuel with
  | O => base
  | S fuel =>
      if (1 <? size)%nat then
        let half := (size / 2)%nat in
        let mid := (base + half)%nat in
        let base' :=
          match cmp <$> l !! mid with Some Gt => base | _ => mid end in
        binary_search_loop cmp l fuel (size - half) base'
      else base
  end.

(** The index of an element that compares as [Equal], if the search ends on
    one; [Err] of the standard library is [None]. *)
Definition binary_search_by {A} (cmp : A -> comparison) (l : list A) : option nat :=
  match l with
  | [] => None
  | _ :: _ =>
      let base := binary_search_loop cmp l (length l) (length l) 0 in
      match cmp <$> l !! base with Some Eq => Some base | _ => None end
  end.

(** ** Bitmap indexes *)

Record BitmapIndex := mkBitmapIndex { bx_keys : list ScalarValue; bx_values : list (list byte) }.

Abbreviation BitmapIndexBuilder := (gmap ScalarValue RoaringBitmap).

Definition bitmap_builder_len (self : BitmapIndexBuilder) : nat := size self.

Definition bitmap_builder_is_empty (self : BitmapIndexBuilder) : bool :=
  bool_decide (self = ∅).

Definition bitmap_insert (self : BitmapIndexBuilder) (key : ScalarValue) (value : Z) :
    BitmapIndexBuilder :=
  <[key := {[value]} ∪ default ∅ (self !! key)]> self.

(** [insert_range(start..end)]. *)
Definition bitmap_insert_range (self : BitmapIndexBuilder) (key : ScalarValue) (start stop : Z) :
    BitmapIndexBuilder :=
  <[key := bitmap_range start stop ∪ default ∅ (self !! key)]> self.

Inductive Index :=
| BitmapIdx (index : BitmapIndex)
| EmptyIdx.

Section bitmap.
Context `{Roaring}.

(** The [try_fold] of [build] over the entries in key order. *)
Definition bitmap_build_entry (acc : outcome IoError BitmapIndex)
    (entry : ScalarValue * RoaringBitmap) : outcome IoError BitmapIndex :=
  index ← acc;
  out ← roaring_serialize entry.2;
  Ok (mkBitmapIndex (bx_keys index ++ [entry.1]) (bx_values index ++ [out])).

Definition bitmap_build (self : BitmapIndexBuilder) : outcome IoError BitmapIndex :=
  foldl bitmap_build_entry (Ok (mkBitmapIndex [] [])) (btree_iter self).

Definition bitmap_get {E} (self : BitmapIndex) (key : ScalarValue) :
    outcome E (option RoaringBitmap) :=
  match binary_search_by (fun entry => cmp_scalar_value entry key) (bx_keys self) with
  | None => Ok None
  | Some pos =>
      value ← index_vec (bx_values self) (Z.of_nat pos);
      match roaring_deserialize value with
      | Some bitmap => Ok (Some bitmap)
      | None => Panic
      end
  end.

End bitmap.

(** ** Join indexes *)

Record JoinToOneIndex := mkJoinToOne { jo_keys : list Z; jo_values : list Z }.
Record JoinToManyIndex := mkJoinToMany { jm_keys : list Z; jm_values : list (list byte) }.

Inductive JoinTo :=
| JoinOne (index : JoinToOneIndex)
| JoinMany (index : JoinToManyIndex).

Abbreviation JoinToOneIndexBuilder := (gmap Z Z).
Abbreviation JoinToManyIndexBuilder := (gmap Z RoaringBitmap).

Definition join_one_insert (self : JoinToOneIndexBuilder) (key value : Z) :
    JoinToOneIndexBuilder := <[key := value]> self.

Definition join_many_insert (self : JoinToManyIndexBuilder) (key value : Z) :
    JoinToManyIndexBuilder := <[key := {[value]} ∪ default ∅ (self !! key)]> self.

Definition join_many_insert_range (self : JoinToManyIndexBuilder) (key start stop : Z) :
    JoinToManyIndexBuilder :=
  <[key := bitmap_range start stop ∪ default ∅ (self !! key)]> self.

Definition join_one_build_entry (index : JoinToOneIndex) (entry : Z * Z) : JoinToOneIndex :=
  mkJoinToOne (jo_keys index ++ [entry.1]) (jo_values index ++ [entry.2]).

Definition join_one_build (self : JoinToOneIndexBuilder) : JoinToOneIndex :=
  foldl join_one_build_entry (mkJoinToOne [] []) (btree_iter self).

Definition join_one_get {E} (self : JoinToOneIndex) (key : Z) : outcome E (option Z) :=
  match binary_search_by (fun entry => entry ?= key) (jo_keys self) with
  | None => Ok None
  | Some pos => Some <$> index_vec (jo_values self) (Z.of_nat pos)
  end.

Section join_many.
Context `{Roaring}.

Definition join_many_build_entry (acc : outcome IoError JoinToManyIndex)
    (entry : Z * RoaringBitmap) : outcome IoError JoinToManyIndex :=
  index ← acc;
  out ← roaring_serialize entry.2;
  Ok (mkJoinToMany (jm_keys index ++ [entry.1]) (jm_values index ++ [out])).

Definition join_many_build (self : JoinToManyIndexBuilder) : outcome IoError JoinToManyIndex :=
  foldl join_many_build_entry (Ok (mkJoinToMany [] [])) (btree_iter self).

Definition join_many_get {E} (self : JoinToManyIndex) (key : Z) :
    outcome E (option RoaringBitmap) :=
  match binary_search_by (fun entry => entry ?= key) (jm_keys self) with
  | None => Ok None
  | Some pos =>
      value ← index_vec (jm_values self) (Z.of_nat pos);
      match roaring_deserialize value with
      | Some bitmap => Ok (Some bitmap)
      | None => Panic
      end
  end.

End join_many.

(** ** Fragments *)

Definition INDEX_FRAGMENT_ID : Z := 0.
Definition HEADER_FRAGMENT_ID : Z := 1.
Definition JOIN_FRAGMENT_ID : Z := 255.

Abbreviation SerializedProto := (list byte).

(** [fragment::Index] and [fragment::Join]. *)
Record FragmentIndex := mkFragmentIndex { fi_index_id : Z; fi_index : Index }.
Record FragmentJoin := mkFragmentJoin { fj_to_fragment_id : Z; fj_index : JoinTo }.

Record IndexFragment := mkIndexFragment {
  if_fragment_id : Z; if_range_start : Z; if_range_len : Z; if_indexes : list FragmentIndex }.

Record JoinFragment := mkJoinFragment { jf_fragment_id : Z; jf_joins : list FragmentJoin }.

Record HeaderFragment := mkHeaderFragment { hf_data : SerializedProto }.

Record BodyFragment := mkBodyFragment {
  bf_fragment_id : Z; bf_name : string; bf_data : list SerializedProto }.

Record IndexGroupFragment := mkIndexGroup { ig_indexes : list IndexFragment }.
Record JoinGroupFragment := mkJoinGroup { jg_joins : list JoinFragment }.

Record Block := mkBlock {
  blk_header : HeaderFragment;
  blk_index : IndexGroupFragment;
  blk_join : JoinGroupFragment;
  blk_body : list BodyFragment }.
