(* ===== verification/IndexSpec.v ===== *)
(** * Correctness of the indexes

    The binary search finds the entry of a key in a sorted vector, so that an
    index written by [build] is read by [get] as the map it was built from.
    For bitmap indexes the keys must be of one variant: [cmp_scalar_value] does
    not order values of different variants. *)

From S2P Require Import Prelude Core External Index.

(** ** Binary search *)

Lemma binary_search_by_loop {A} (cmp : A -> comparison) (l : list A) :
  l <> [] ->
  binary_search_by cmp l =
  let base := binary_search_loop cmp l (length l) (length l) 0 in
  match cmp <$> l !! base with Some Eq => Some base | _ => None end.
Proof. by destruct l. Qed.

Section binary_search.
Context {A : Type} (cmp : A -> comparison) (l : list A) (i : nat).
Hypothesis before : forall j x, (j <= i)%nat -> l !! j = Some x -> cmp x <> Gt.
Hypothesis after : forall j x, (i < j)%nat -> l !! j = Some x -> cmp x = Gt.
Hypothesis in_range : (i < length l)%nat.

Lemma binary_search_loop_finds fuel size base :
  (size <= fuel)%nat -> (base <= i < base + size)%nat -> (base + size <= length l)%nat ->
  binary_search_loop cmp l fuel size base = i.
Proof using All.
  revert size base. induction fuel as [|fuel IH]; intros size base Hf Hi Hl; [lia|].
  cbn [binary_search_loop]. destruct (Nat.ltb_spec 1 size); [|lia].
  assert (1 <= size / 2)%nat by (apply Nat.div_le_lower_bound; lia).
  assert (2 * (size / 2) <= size)%nat by (apply Nat.Div0.mul_div_le; lia).
  destruct (lookup_lt_is_Some_2 l (base + size / 2)) as [x Hx]; [lia|]. rewrite Hx. cbn [fmap option_fmap option_map].
  destruct (decide (base + size / 2 <= i)%nat) as [Hle|Hgt].
  - pose proof (before _ _ Hle Hx) as Hb.
    replace (match cmp x with Gt => base | _ => (base + size / 2)%nat end)
      with (base + size / 2)%nat by (by destruct (cmp x)).
    apply IH; lia.
  - rewrite (after (base + size / 2) x ltac:(lia) Hx). apply IH; lia.
Qed.

Lemma binary_search_finds x :
  l !! i = Some x -> cmp x = Eq -> binary_search_by cmp l = Some i.
Proof using All.
  intros Hx He. rewrite binary_search_by_loop by (intros ->; simpl in in_range; lia).
  rewrite (binary_search_loop_finds (length l) (length l) 0) by lia.
  cbn zeta. rewrite Hx. cbn [fmap option_fmap option_map]. by rewrite He.
Qed.

End binary_search.

Lemma binary_search_sound {A} (cmp : A -> comparison) l pos :
  binary_search_by cmp l = Some pos -> exists x, l !! pos = Some x /\ cmp x = Eq.
Proof.
  unfold binary_search_by. destruct l as [|y l']; [done|]. set (l := y :: l').
  set (base := binary_search_loop _ _ _ _ _).
  destruct (l !! base) as [x|] eqn:Hx; simpl; [|done].
  destruct (cmp x) eqn:He; try done. intros [= <-]. eauto.
Qed.

(** ** Searching the keys of an ordered map *)

Section btree_search.
Context `{Countable K, KeyOrder K} {V : Type} (m : gmap K V) (cmp : K -> comparison) (k : K).

Lemma btree_keys_lt i j x y :
  (i < j)%nat -> btree_keys m !! i = Some x -> btree_keys m !! j = Some y ->
  key_leb x y = true /\ x <> y.
Proof.
  intros Hij Hx Hy. split.
  - pose proof (btree_iter_sorted m) as Hs. unfold btree_keys in *.
    rewrite list_lookup_fmap in Hx, Hy.
    destruct (btree_iter m !! i) as [[x' v]|] eqn:Hi; [|done].
    destruct (btree_iter m !! j) as [[y' w]|] eqn:Hj; [|done].
    simpl in Hx, Hy. simplify_eq.
    by apply (StronglySorted_lookup_lt _ _ _ _ _ _ Hs Hij Hi Hj).
  - intros ->. pose proof (NoDup_lookup _ _ _ _ (NoDup_btree_keys m) Hx Hy). lia.
Qed.

Hypothesis cmp_eq : forall x, is_Some (m !! x) -> cmp x = Eq <-> x = k.
Hypothesis cmp_le : forall x, is_Some (m !! k) -> is_Some (m !! x) -> key_leb x k = true -> cmp x <> Gt.
Hypothesis cmp_gt : forall x, is_Some (m !! k) -> is_Some (m !! x) -> key_leb k x = true -> x <> k -> cmp x = Gt.

Lemma binary_search_btree :
  match binary_search_by cmp (btree_keys m) with
  | Some pos => exists v, m !! k = Some v /\ btree_iter m !! pos = Some (k, v)
  | None => m !! k = None
  end.
Proof using All.
  destruct (m !! k) as [v|] eqn:Hk.
  - assert (k ∈ btree_keys m) as (i & Hi)%list_elem_of_lookup by (apply elem_of_btree_keys; eauto).
    assert (forall j x, btree_keys m !! j = Some x -> is_Some (m !! x)) as Hdom.
    { intros j x Hx. apply elem_of_btree_keys. by eapply list_elem_of_lookup_2. }
    rewrite (binary_search_finds cmp (btree_keys m) i) with (x := k).
    + exists v. split; [done|]. unfold btree_keys in Hi. rewrite list_lookup_fmap in Hi.
      destruct (btree_iter m !! i) as [[k' v']|] eqn:Hb; [|done]. simpl in Hi. injection Hi as ->.
      apply list_elem_of_lookup_2, elem_of_btree_iter in Hb. congruence.
    + intros j x Hj Hx. apply cmp_le; eauto. destruct (decide (j = i)) as [->|].
      * rewrite Hi in Hx. injection Hx as <-. by destruct (key_leb_total k k).
      * apply (btree_keys_lt j i x k); [lia|done|done].
    + intros j x Hj Hx. destruct (btree_keys_lt i j k x) as [Hle Hne]; [lia|done|done|]. eauto.
    + by eapply lookup_lt_Some.
    + done.
    + apply cmp_eq; eauto.
  - destruct (binary_search_by cmp (btree_keys m)) as [pos|] eqn:Hs; [|done].
    apply binary_search_sound in Hs as (x & Hx & He). exfalso.
    assert (is_Some (m !! x)) as Hd by (apply elem_of_btree_keys; by eapply list_elem_of_lookup_2).
    apply cmp_eq in He; [|done]. subst x. rewrite Hk in Hd. by destruct Hd.
Qed.

End btree_search.

(** ** Reading back a bitmap index *)

(** The result of [cmp_scalar_value] is the order of the keys when they have
    the same variant. *)
Lemma cmp_scalar_same a b :
  scalar_rank a = scalar_rank b -> cmp_scalar_value a b = scalar_compare a b.
Proof.
  intros Hr. unfold scalar_compare. destruct a, b; try discriminate Hr; simpl; try done;
    by destruct (_ ?= _).
Qed.

Lemma cmp_scalar_eq a b : cmp_scalar_value a b = Eq <-> a = b.
Proof.
  destruct (decide (scalar_rank a = scalar_rank b)) as [Hr|Hr].
  - rewrite cmp_scalar_same by done. unfold scalar_compare. split.
    + intros He. by apply scalar_key_inj, lex_compare_eq.
    + intros ->. apply lex_compare_refl.
  - split; [|congruence]. destruct a, b; done.
Qed.

Lemma scalar_leb_compare a b : scalar_leb a b = true <-> scalar_compare a b <> Gt.
Proof. unfold scalar_leb. by destruct (scalar_compare a b). Qed.

Lemma scalar_compare_antisym a b : scalar_compare b a = CompOpp (scalar_compare a b).
Proof. apply lex_compare_antisym. Qed.

Lemma scalar_compare_eq a b : scalar_compare a b = Eq -> a = b.
Proof. intros He. by apply scalar_key_inj, lex_compare_eq. Qed.

(** All the keys of an index have the same variant. *)
Definition homogeneous {V} (m : gmap ScalarValue V) : Prop :=
  forall a b, is_Some (m !! a) -> is_Some (m !! b) -> scalar_rank a = scalar_rank b.

Lemma binary_search_scalar {V} (m : gmap ScalarValue V) key :
  homogeneous m ->
  match binary_search_by (fun entry => cmp_scalar_value entry key) (btree_keys m) with
  | Some pos => exists v, m !! key = Some v /\ btree_iter m !! pos = Some (key, v)
  | None => m !! key = None
  end.
Proof.
  intros Hh. apply binary_search_btree.
  - intros x _. apply cmp_scalar_eq.
  - intros x Hk Hx Hle. rewrite cmp_scalar_same by (by apply Hh). by apply scalar_leb_compare.
  - intros x Hk Hx Hle Hne. rewrite cmp_scalar_same by (by apply Hh).
    rewrite scalar_compare_antisym. simpl in Hle. apply scalar_leb_compare in Hle.
    destruct (scalar_compare key x) eqn:Hc; try done. apply scalar_compare_eq in Hc. congruence.
Qed.

Section read_back.
Context `{Roaring}.

Definition serialized {K} (entry : K * RoaringBitmap) (bytes : list byte) : Prop :=
  roaring_serialize entry.2 = Ok bytes.

Lemma bitmap_build_fold l acc :
  exists vs,
    foldl bitmap_build_entry (Ok acc) l =
      Ok (mkBitmapIndex (bx_keys acc ++ l.*1) (bx_values acc ++ vs)) /\
    Forall2 serialized l vs.
Proof.
  revert acc. induction l as [|e l IH]; intros acc.
  { exists []. rewrite !app_nil_r. by destruct acc. }
  destruct (roaring_serialize_ok e.2) as [bs Hbs]. cbn [foldl].
  replace (bitmap_build_entry (Ok acc) e) with (Ok (E := IoError) (mkBitmapIndex (bx_keys acc ++ [e.1]) (bx_values acc ++ [bs])))
    by (unfold bitmap_build_entry; simpl; by rewrite Hbs).
  destruct (IH (mkBitmapIndex (bx_keys acc ++ [e.1]) (bx_values acc ++ [bs]))) as (vs & Hf & H2).
  exists (bs :: vs). rewrite Hf. simpl. rewrite <- !(assoc_L (++)). split; [done|]. by constructor.
Qed.

Lemma join_many_build_fold l acc :
  exists vs,
    foldl join_many_build_entry (Ok acc) l =
      Ok (mkJoinToMany (jm_keys acc ++ l.*1) (jm_values acc ++ vs)) /\
    Forall2 serialized l vs.
Proof.
  revert acc. induction l as [|e l IH]; intros acc.
  { exists []. rewrite !app_nil_r. by destruct acc. }
  destruct (roaring_serialize_ok e.2) as [bs Hbs]. cbn [foldl].
  replace (join_many_build_entry (Ok acc) e) with (Ok (E := IoError) (mkJoinToMany (jm_keys acc ++ [e.1]) (jm_values acc ++ [bs])))
    by (unfold join_many_build_entry; simpl; by rewrite Hbs).
  destruct (IH (mkJoinToMany (jm_keys acc ++ [e.1]) (jm_values acc ++ [bs]))) as (vs & Hf & H2).
  exists (bs :: vs). rewrite Hf. simpl. rewrite <- !(assoc_L (++)). split; [done|]. by constructor.
Qed.

(** The bitmap at a position of the serialised values. *)
Lemma read_value {E K} (l : list (K * RoaringBitmap)) vs pos k bm :
  Forall2 serialized l vs -> l !! pos = Some (k, bm) ->
  exists bs, (index_vec vs (Z.of_nat pos) : outcome E _) = Ok bs /\ roaring_deserialize bs = Some bm.
Proof.
  intros H2 Hl. destruct (Forall2_lookup_l _ _ _ _ _ H2 Hl) as (bs & Hbs & Hs).
  exists bs. split; [|by apply roaring_roundtrip].
  apply index_vec_Ok. split; [lia|]. by rewrite Nat2Z.id.
Qed.

Lemma bitmap_build_get (m : BitmapIndexBuilder) :
  homogeneous m ->
  exists idx, bitmap_build m = Ok idx /\
    forall E key, (bitmap_get idx key : outcome E _) = Ok (m !! key).
Proof.
  intros Hh. destruct (bitmap_build_fold (btree_iter m) (mkBitmapIndex [] [])) as (vs & Hf & H2).
  simpl in Hf. eexists. split; [exact Hf|]. intros E key. unfold bitmap_get. simpl.
  pose proof (binary_search_scalar m key Hh) as Hs. unfold btree_keys in Hs.
  destruct (binary_search_by _ _) as [pos|]; [|by rewrite Hs].
  destruct Hs as (bm & Hm & Hp). destruct (read_value (E := E) _ _ _ _ _ H2 Hp) as (bs & Hbs & Hd).
  rewrite Hbs. simpl. by rewrite Hd, Hm.
Qed.

Lemma binary_search_Z {V} (m : gmap Z V) key :
  match binary_search_by (fun entry => entry ?= key) (btree_keys m) with
  | Some pos => exists v, m !! key = Some v /\ btree_iter m !! pos = Some (key, v)
  | None => m !! key = None
  end.
Proof.
  apply binary_search_btree; simpl.
  - intros x _. apply Z.compare_eq_iff.
  - intros x _ _ Hle%Z.leb_le. by apply Z.compare_le_iff.
  - intros x _ _ Hle%Z.leb_le Hne. apply Z.compare_gt_iff. lia.
Qed.

Lemma join_many_build_get (m : JoinToManyIndexBuilder) :
  exists idx, join_many_build m = Ok idx /\
    forall E key, (join_many_get idx key : outcome E _) = Ok (m !! key).
Proof.
  destruct (join_many_build_fold (btree_iter m) (mkJoinToMany [] [])) as (vs & Hf & H2).
  simpl in Hf. eexists. split; [exact Hf|]. intros E key. unfold join_many_get. simpl.
  pose proof (binary_search_Z m key) as Hs. unfold btree_keys in Hs.
  destruct (binary_search_by _ _) as [pos|]; [|by rewrite Hs].
  destruct Hs as (bm & Hm & Hp). destruct (read_value (E := E) _ _ _ _ _ H2 Hp) as (bs & Hbs & Hd).
  rewrite Hbs. simpl. by rewrite Hd, Hm.
Qed.

Lemma join_one_build_get (m : JoinToOneIndexBuilder) E key :
  (join_one_get (join_one_build m) key : outcome E _) = Ok (m !! key).
Proof.
  assert (forall l acc, foldl join_one_build_entry acc l =
    mkJoinToOne (jo_keys acc ++ l.*1) (jo_values acc ++ l.*2)) as Hf.
  { induction l as [|e l IH]; intros acc; simpl; [by rewrite !app_nil_r; destruct acc|].
    rewrite IH. simpl. by rewrite <- !(assoc_L (++)). }
  unfold join_one_build, join_one_get. rewrite Hf. simpl.
  pose proof (binary_search_Z m key) as Hs. unfold btree_keys in Hs.
  destruct (binary_search_by _ _) as [pos|]; [|by rewrite Hs].
  destruct Hs as (v & Hm & Hp). rewrite (proj2 (index_vec_Ok _ (Z.of_nat pos) v)); [by rewrite Hm|].
  split; [lia|]. by rewrite Nat2Z.id, list_lookup_fmap, Hp.
Qed.

End read_back.

(** ** Indexes built by insertion *)

(** The builder after the insertions of the ingestion. *)
Definition bitmap_of_rows (rows : list (ScalarValue * Z)) : BitmapIndexBuilder :=
  foldl (fun m e => bitmap_insert m e.1 e.2) ∅ rows.

Definition same_variant (rows : list (ScalarValue * Z)) : Prop :=
  forall a b, a ∈ rows -> b ∈ rows -> scalar_rank a.1 = scalar_rank b.1.

Lemma elem_of_bitmap_insert m key value k r :
  r ∈ default ∅ (bitmap_insert m key value !! k) <->
  (k = key /\ r = value) \/ r ∈ default ∅ (m !! k).
Proof.
  unfold bitmap_insert. destruct (decide (k = key)) as [->|].
  - rewrite lookup_insert_eq. simpl. set_solver.
  - rewrite lookup_insert_ne by done. naive_solver.
Qed.

Lemma bitmap_insert_is_Some m key value k :
  is_Some (bitmap_insert m key value !! k) <-> k = key \/ is_Some (m !! k).
Proof.
  unfold bitmap_insert. destruct (decide (k = key)) as [->|].
  - rewrite lookup_insert_eq. naive_solver.
  - rewrite lookup_insert_ne by done. naive_solver.
Qed.

Lemma bitmap_of_rows_spec rows k :
  (forall r, r ∈ default ∅ (bitmap_of_rows rows !! k) <-> (k, r) ∈ rows) /\
  (is_Some (bitmap_of_rows rows !! k) <-> exists r, (k, r) ∈ rows).
Proof.
  unfold bitmap_of_rows. induction rows as [|[key v] rows IH] using rev_ind; simpl.
  { rewrite lookup_empty. simpl. split; [set_solver|]. split; [by intros []|set_solver]. }
  rewrite foldl_app. simpl. destruct IH as [IH1 IH2]. split.
  - intros r. rewrite elem_of_bitmap_insert, IH1. set_solver.
  - rewrite bitmap_insert_is_Some, IH2. set_solver.
Qed.

Lemma bitmap_of_rows_homogeneous rows : same_variant rows -> homogeneous (bitmap_of_rows rows).
Proof.
  intros Hs a b Ha Hb. apply bitmap_of_rows_spec in Ha as [r Ha], Hb as [r' Hb].
  by apply (Hs (a, r) (b, r')).
Qed.

Definition join_one_of_rows (rows : list (Z * Z)) : JoinToOneIndexBuilder :=
  foldl (fun m e => join_one_insert m e.1 e.2) ∅ rows.

Definition join_many_of_rows (rows : list (Z * Z)) : JoinToManyIndexBuilder :=
  foldl (fun m e => join_many_insert m e.1 e.2) ∅ rows.

Lemma join_many_of_rows_spec rows k r :
  r ∈ default ∅ (join_many_of_rows rows !! k) <-> (k, r) ∈ rows.
Proof.
  unfold join_many_of_rows. induction rows as [|[key v] rows IH] using rev_ind; simpl.
  { rewrite lookup_empty. set_solver. }
  rewrite foldl_app. simpl. unfold join_many_insert at 1. destruct (decide (k = key)) as [->|].
  - rewrite lookup_insert_eq. simpl. set_solver.
  - rewrite lookup_insert_ne by done. set_solver.
Qed.

Lemma join_one_of_rows_spec rows k :
  join_one_of_rows rows !! k = snd <$> last (filter (fun e => e.1 = k) rows).
Proof.
  unfold join_one_of_rows. induction rows as [|[key v] rows IH] using rev_ind; simpl.
  { apply lookup_empty. }
  rewrite foldl_app, filter_app. simpl. unfold join_one_insert at 1.
  destruct (decide (k = key)) as [->|].
  - rewrite lookup_insert_eq. rewrite filter_cons_True, filter_nil, last_snoc by done. done.
  - rewrite lookup_insert_ne, IH by done. rewrite filter_cons_False, filter_nil, app_nil_r by (simpl; congruence).
    done.
Qed.

(** ** Properties *)

(** A bitmap index built by inserting rows under keys of one variant can
    always be written, and reading a key back, through the serialised bitmaps
    and the binary search, gives exactly the rows inserted under it; a key of
    any variant that was not inserted is absent. *)
Theorem bitmap_index_roundtrip `{Roaring} (rows : list (ScalarValue * Z)) :
  same_variant rows ->
  exists idx, bitmap_build (bitmap_of_rows rows) = Ok idx /\
    forall E key,
      ((forall r, (key, r) ∉ rows) /\ (bitmap_get idx key : outcome E _) = Ok None) \/
      exists bitmap, (bitmap_get idx key : outcome E _) = Ok (Some bitmap) /\ bitmap <> ∅ /\
        forall r, r ∈ bitmap <-> (key, r) ∈ rows.
Proof.
  intros Hs. destruct (bitmap_build_get (bitmap_of_rows rows)) as (idx & Hb & Hg);
    [by apply bitmap_of_rows_homogeneous|].
  exists idx. split; [done|]. intros E key. rewrite Hg.
  destruct (bitmap_of_rows_spec rows key) as [H1 H2].
  destruct (bitmap_of_rows rows !! key) as [bm|] eqn:Hk; [right|left].
  - exists bm. simpl in H1. split; [done|]. split; [|done].
    destruct (proj1 H2 (mk_is_Some _ _ eq_refl)) as [r Hr]. apply H1 in Hr. set_solver.
  - split; [|done]. intros r Hr. simpl in H1. apply H1 in Hr. set_solver.
Qed.

(** Join indexes: the to-one index maps a row to the last row inserted
    for it, the to-many index to the set of all of them; both are read back
    through the binary search, and writing them never fails. *)
Theorem join_index_roundtrip `{Roaring} (rows : list (Z * Z)) :
  (forall E key, (join_one_get (join_one_build (join_one_of_rows rows)) key : outcome E _) =
     Ok (snd <$> last (filter (fun e => e.1 = key) rows))) /\
  exists idx, join_many_build (join_many_of_rows rows) = Ok idx /\
    forall E key, exists found, (join_many_get idx key : outcome E _) = Ok found /\
      forall r, r ∈ default ∅ found <-> (key, r) ∈ rows.
Proof.
  split.
  - intros E key. by rewrite join_one_build_get, join_one_of_rows_spec.
  - destruct (join_many_build_get (join_many_of_rows rows)) as (idx & Hb & Hg).
    exists idx. split; [done|]. intros E key. eexists. split; [apply Hg|].
    intros r. apply join_many_of_rows_spec.
Qed.

(** The restriction to one variant is needed: [cmp_scalar_value] answers
    [Greater] for values of different variants, in either order, so that an
    index over mixed variants loses entries: here [Uint8 5] was inserted and is
    not found. *)
Theorem bitmap_index_mixed_variants `{Roaring} :
  let rows := [(Bool false, 0); (Bool true, 1); (Uint8 5, 2)] in
  exists idx, bitmap_build (bitmap_of_rows rows) = Ok idx /\
    forall E, (bitmap_get idx (Uint8 5) : outcome E _) = Ok None.
Proof.
  cbn zeta. destruct (bitmap_build_fold (btree_iter (bitmap_of_rows
    [(Bool false, 0); (Bool true, 1); (Uint8 5, 2)])) (mkBitmapIndex [] [])) as (vs & Hf & _).
  eexists. split; [exact Hf|]. intros E. unfold bitmap_get. cbn [bx_keys app].
  replace ((btree_iter (bitmap_of_rows [(Bool false, 0); (Bool true, 1); (Uint8 5, 2)])).*1)
    with [Bool false; Bool true; Uint8 5] by (vm_compute; reflexivity).
  reflexivity.
Qed.

(** ** Witnesses *)

Import External.Reference.

Definition example_rows : list (ScalarValue * Z) :=
  [(Uint32 7, 0); (Uint32 3, 1); (Uint32 7, 2); (Uint32 9, 3)].

Lemma bitmap_index_roundtrip_witness :
  exists idx, bitmap_build (bitmap_of_rows example_rows) = Ok idx.
Proof.
  destruct (bitmap_index_roundtrip example_rows) as (idx & Hb & _).
  - intros a b Ha Hb. unfold example_rows in *. set_unfold in Ha. set_unfold in Hb.
    destruct Ha as [->|[->|[->|[->|[]]]]], Hb as [->|[->|[->|[->|[]]]]]; reflexivity.
  - exists idx. exact Hb.
Defined.
