(* ===== verification/Query.v ===== *)
(** * Filters (common/src/query.rs and data_stream/filter.rs)

    A filter selects the rows of one fragment by the values of its indexes; a
    block filter groups filters by fragment and says when the block header is
    wanted.  [FilterMatch] collects, for every row, the ids of the filters that
    selected it. *)

From S2P Require Import Prelude Core External Index.

Inductive HeaderFilter := Always | OnData | OnDataOrOnNewBlock.

(** [index_id] is the position of the index in its fragment. *)
Record Condition := mkCondition { index_id : Z; key : ScalarValue }.

Record Filter := mkFilter {
  filter_id : Z;
  fragment_id : Z;
  conditions : list Condition;
  joins : list Z }.

Record BlockFilter := mkBlockFilter {
  header_filter : HeaderFilter;
  filters : gmap Z (list Filter) }.

Definition block_filter_default : BlockFilter := mkBlockFilter OnDataOrOnNewBlock ∅.

Definition always_include_header (self : BlockFilter) : bool :=
  match header_filter self with Always => true | _ => false end.

Definition block_filter_is_empty (self : BlockFilter) : bool := bool_decide (filters self = ∅).

Definition block_filter_len (self : BlockFilter) : nat := size (filters self).

Definition can_produce_data (self : BlockFilter) : bool :=
  always_include_header self || negb (block_filter_is_empty self).

Definition set_header_filter (self : BlockFilter) (value : HeaderFilter) : BlockFilter :=
  mkBlockFilter value (filters self).

Definition add_filter (self : BlockFilter) (f : Filter) : BlockFilter :=
  mkBlockFilter (header_filter self)
    (<[fragment_id f := default [] (filters self !! fragment_id f) ++ [f]]> (filters self)).

Definition block_filter_iter (self : BlockFilter) : list (Z * list Filter) :=
  btree_iter (filters self).

Definition all_fragment_ids (self : BlockFilter) : gset Z :=
  foldl (fun out entry =>
           foldl (fun out f => list_to_set (joins f) ∪ out) ({[entry.1]} ∪ out) entry.2)
    ∅ (block_filter_iter self).

Inductive FilterError := FilterErr.

Definition add32 (a b : Z) : Z := wrap32 (a + b).

(** The loop over the conditions; a key that no row has ends it. *)
Fixpoint filter_conditions `{Roaring} (conds : list Condition) (indexes : list FragmentIndex)
    (result : RoaringBitmap) : outcome FilterError RoaringBitmap :=
  match conds with
  | [] => Ok result
  | cond :: conds =>
      cond_index ← ok_or FilterErr (indexes !! Z.to_nat (index_id cond));
      match fi_index cond_index with
      | EmptyIdx => filter_conditions conds indexes result
      | BitmapIdx bitmap =>
          found ← bitmap_get bitmap (key cond);
          match found with
          | Some bitmap => filter_conditions conds indexes (result ∩ bitmap)
          | None => Ok ∅
          end
      end
  end.

(** [Filter::filter]. *)
Definition filter_rows `{Roaring} (self : Filter) (indexes : IndexFragment) :
    outcome FilterError RoaringBitmap :=
  let range_start := if_range_start indexes in
  let range_len := if_range_len indexes in
  filter_conditions (conditions self) (if_indexes indexes)
    (bitmap_range range_start (add32 range_start range_len)).

(** ** FilterMatch *)

Abbreviation FilterMatch := (gmap Z (gset Z)).

Definition add_single_match (self : FilterMatch) (filter_id index : Z) : FilterMatch :=
  <[index := {[filter_id]} ∪ default ∅ (self !! index)]> self.

Definition add_match (self : FilterMatch) (filter_id : Z) (bitmap : RoaringBitmap) : FilterMatch :=
  foldl (fun m index => add_single_match m filter_id index) self (bitmap_iter bitmap).

Definition match_is_empty (self : FilterMatch) : bool := bool_decide (self = ∅).

(** The matches in row order, with the ids of their filters. *)
Definition match_iter (self : FilterMatch) : list (Z * gset Z) := btree_iter self.
