(* ===== verification/QuerySpec.v ===== *)
(** * What a filter selects

    The reference meaning of a filter on the rows of a fragment, independent of
    bitmaps and searches, and the proof that [filter_rows] computes it on the
    indexes the ingestion writes. *)

From S2P Require Import Prelude Core External Index IndexSpec Query.

Section query.
Context `{Roaring}.

(** The values of a fragment's rows: for each index, in order, the rows that
    have a key, or [None] when the index is empty and constrains nothing. *)
Abbreviation index_model := (option (list (ScalarValue * Z))).

Definition indexes_model (models : list index_model) (indexes : list FragmentIndex) : Prop :=
  Forall2 (fun model idx =>
    match model, fi_index idx with
    | None, EmptyIdx => True
    | Some rows, BitmapIdx bitmap =>
        same_variant rows /\ bitmap_build (bitmap_of_rows rows) = Ok bitmap
    | _, _ => False
    end) models indexes.

(** A row satisfies a condition. *)
Definition satisfies (models : list index_model) (row : Z) (cond : Condition) : Prop :=
  match models !! Z.to_nat (index_id cond) with
  | Some (Some rows) => (key cond, row) ∈ rows
  | Some None => True
  | None => False
  end.

Definition valid_condition (models : list index_model) (cond : Condition) : Prop :=
  is_Some (models !! Z.to_nat (index_id cond)).

Lemma bitmap_get_model rows bitmap k :
  same_variant rows -> bitmap_build (bitmap_of_rows rows) = Ok bitmap ->
  exists found, (bitmap_get bitmap k : outcome FilterError _) = Ok found /\
    forall r, r ∈ default ∅ found <-> (k, r) ∈ rows.
Proof.
  intros Hv Hb. destruct (bitmap_build_get (bitmap_of_rows rows)) as (idx & Hi & Hg);
    [by apply bitmap_of_rows_homogeneous|].
  rewrite Hb in Hi. injection Hi as <-. eexists. split; [apply Hg|].
  apply bitmap_of_rows_spec.
Qed.

Lemma filter_conditions_spec models indexes conds result :
  indexes_model models indexes -> Forall (valid_condition models) conds ->
  exists rows, filter_conditions conds indexes result = Ok rows /\
    forall r, r ∈ rows <-> r ∈ result /\ Forall (satisfies models r) conds.
Proof.
  intros Hm Hv. revert result. induction Hv as [|cond conds [model Hc] Hv IH]; intros result.
  { exists result. split; [done|]. intros r. rewrite Forall_nil. tauto. }
  destruct (Forall2_lookup_l _ _ _ _ _ Hm Hc) as (idx & Hi & Hmi). cbn [filter_conditions].
  rewrite Hi. cbn [ok_or mbind outcome_bind].
  assert (forall r, satisfies models r cond <-> match model with Some rows => (key cond, r) ∈ rows | None => True end)
    as Hsat by (intros r; unfold satisfies; rewrite Hc; by destruct model).
  destruct model as [rows|], (fi_index idx) as [bitmap|]; try done.
  - destruct Hmi as [Hsv Hb]. destruct (bitmap_get_model rows bitmap (key cond) Hsv Hb) as (found & Hf & Hr).
    rewrite Hf. cbn [mbind outcome_bind]. destruct found as [bm|]; simpl in Hr.
    + destruct (IH (result ∩ bm)) as (out & Ho & Hout). exists out. split; [done|]. intros r.
      rewrite Hout, Forall_cons, Hsat, elem_of_intersection, Hr. tauto.
    + exists ∅. split; [done|]. intros r. rewrite Forall_cons, Hsat, <- Hr. set_solver.
  - destruct (IH result) as (out & Ho & Hout). exists out. split; [done|]. intros r.
    rewrite Hout, Forall_cons, Hsat. tauto.
Qed.

Lemma filter_rows_spec models f indexes :
  indexes_model models (if_indexes indexes) -> Forall (valid_condition models) (conditions f) ->
  0 <= if_range_start indexes -> if_range_start indexes + if_range_len indexes < U32 ->
  0 <= if_range_len indexes ->
  exists rows, filter_rows f indexes = Ok rows /\
    forall r, r ∈ rows <->
      if_range_start indexes <= r < if_range_start indexes + if_range_len indexes /\
      Forall (satisfies models r) (conditions f).
Proof.
  intros Hm Hv H1 H2 H3. unfold filter_rows.
  destruct (filter_conditions_spec models (if_indexes indexes) (conditions f)
    (bitmap_range (if_range_start indexes) (add32 (if_range_start indexes) (if_range_len indexes))))
    as (rows & Hr & Hrows); [done|done|].
  exists rows. split; [done|]. intros r. rewrite Hrows, elem_of_bitmap_range.
  unfold add32. by rewrite wrap32_id by (split; lia).
Qed.

End query.

(** ** Matches *)

Lemma elem_of_add_single_match m fid i r id :
  id ∈ default ∅ (add_single_match m fid i !! r) <-> (r = i /\ id = fid) \/ id ∈ default ∅ (m !! r).
Proof.
  unfold add_single_match. destruct (decide (r = i)) as [->|].
  - rewrite lookup_insert_eq. simpl. set_solver.
  - rewrite lookup_insert_ne by done. naive_solver.
Qed.

Lemma elem_of_add_match m fid bm r id :
  id ∈ default ∅ (add_match m fid bm !! r) <-> (r ∈ bm /\ id = fid) \/ id ∈ default ∅ (m !! r).
Proof.
  unfold add_match. rewrite <- (elem_of_bitmap_iter bm). generalize (bitmap_iter bm). intros l.
  revert m. induction l as [|i l IH]; intros m; simpl; [set_solver|].
  rewrite IH, elem_of_add_single_match. set_solver.
Qed.

(** No row is recorded without a filter. *)
Definition match_wf (m : FilterMatch) : Prop := forall r ids, m !! r = Some ids -> ids <> ∅.

Lemma match_wf_empty : match_wf ∅.
Proof. intros r ids. by rewrite lookup_empty. Qed.

Lemma add_single_match_wf m fid i : match_wf m -> match_wf (add_single_match m fid i).
Proof.
  intros Hm r ids. unfold add_single_match. destruct (decide (r = i)) as [->|].
  - rewrite lookup_insert_eq. intros [= <-]. set_solver.
  - rewrite lookup_insert_ne by done. apply Hm.
Qed.

Lemma add_match_wf m fid bm : match_wf m -> match_wf (add_match m fid bm).
Proof.
  unfold add_match. generalize (bitmap_iter bm). intros l. revert m.
  induction l as [|i l IH]; intros m Hm; simpl; [done|]. by apply IH, add_single_match_wf.
Qed.

Lemma match_is_Some m r :
  match_wf m -> is_Some (m !! r) <-> exists id, id ∈ default ∅ (m !! r).
Proof.
  intros Hm. split.
  - intros [ids Hi]. rewrite Hi. simpl. apply set_choose_L. by apply (Hm r).
  - intros [id Hid]. destruct (m !! r); [eauto|]. simpl in Hid. set_solver.
Qed.

#[export] Hint Resolve match_wf_empty add_single_match_wf add_match_wf : dna.

(** ** Block filters *)

Lemma elem_of_all_fragment_ids bf id :
  id ∈ all_fragment_ids bf <->
  exists fid fs, filters bf !! fid = Some fs /\ (id = fid \/ exists f, f ∈ fs /\ id ∈ joins f).
Proof.
  unfold all_fragment_ids, block_filter_iter.
  assert (forall (fs : list Filter) (out : gset Z),
      id ∈ foldl (fun (out : gset Z) f => list_to_set (joins f) ∪ out) out fs <->
            id ∈ out \/ exists f, f ∈ fs /\ id ∈ joins f) as Hin.
  { induction fs as [|f fs IH]; intros out; simpl; [set_solver|]. rewrite IH. set_solver. }
  assert (forall l (out : gset Z), id ∈ foldl (fun (out : gset Z) (entry : Z * list Filter) =>
      foldl (fun (out : gset Z) f => list_to_set (joins f) ∪ out) ({[entry.1]} ∪ out) entry.2) out l <->
    id ∈ out \/ exists fid fs, (fid, fs) ∈ l /\ (id = fid \/ exists f, f ∈ fs /\ id ∈ joins f)) as Hout.
  { induction l as [|[fid fs] l IH]; intros out; simpl; [set_solver|].
    rewrite IH, Hin. set_solver. }
  rewrite Hout. setoid_rewrite elem_of_btree_iter. set_solver.
Qed.

Lemma add_filter_lookup bf f fid :
  filters (add_filter bf f) !! fid =
  if decide (fid = fragment_id f) then Some (default [] (filters bf !! fid) ++ [f])
  else filters bf !! fid.
Proof.
  unfold add_filter. simpl. case_decide as Hd.
  - subst. by rewrite lookup_insert_eq.
  - by rewrite lookup_insert_ne.
Qed.
