(* ===== verification/Encoding.v ===== *)
(** * Encoding of a filtered block (common/src/data_stream/stream.rs)

    The stream writes the protobuf message of a block directly from the
    serialised fragments: the header and every selected item are
    length-delimited fields whose tag is the fragment id, and each item is
    preceded by the packed list of the filters that selected it.  The size is
    computed first, with overflow checks, to allocate the buffer. *)

From S2P Require Import Prelude External.

Inductive DataStreamError := DataStreamErr.

Definition FILTER_IDS_TAG : Z := 1.

(** [usize::checked_add]. *)
Definition checked_add (a b : Z) : option Z := if a + b <? U64 then Some (a + b) else None.

Section encoding.
Context `{Prost}.

(** [u64::try_from(usize)] cannot fail: both have 64 bits. *)
Definition encoded_length_delimited_field_len (tag payload_len : Z) : outcome DataStreamError Z :=
  ok_or DataStreamErr
    (len ← checked_add (key_len tag) (encoded_len_varint payload_len);
     checked_add len payload_len).

Definition encoded_header_len (fragment_id data_len : Z) : outcome DataStreamError Z :=
  encoded_length_delimited_field_len fragment_id data_len.

Definition encoded_body_item_len_from_parts (fragment_id filter_ids_len message_len : Z) :
    outcome DataStreamError Z :=
  payload_len ← ok_or DataStreamErr (checked_add filter_ids_len message_len);
  encoded_length_delimited_field_len fragment_id payload_len.

Definition packed_filter_ids_payload_len (filter_ids : list Z) : outcome DataStreamError Z :=
  foldl (fun len filter_id =>
           len ← len;
           ok_or DataStreamErr (checked_add len (encoded_len_varint filter_id)))
    (Ok 0) filter_ids.

Definition encoded_filter_ids_len (filter_ids : list Z) : outcome DataStreamError Z :=
  payload_len ← packed_filter_ids_payload_len filter_ids;
  if payload_len =? 0 then Ok 0
  else encoded_length_delimited_field_len FILTER_IDS_TAG payload_len.

Definition encoded_body_item_len (fragment_id : Z) (filter_ids : list Z) (message_len : Z) :
    outcome DataStreamError Z :=
  filter_ids_len ← encoded_filter_ids_len filter_ids;
  encoded_body_item_len_from_parts fragment_id filter_ids_len message_len.

Definition encode_filter_ids (filter_ids : list Z) (payload_len : Z) (output : list byte) : list byte :=
  if payload_len =? 0 then output
  else
    foldl (fun output filter_id => output ++ encode_varint filter_id)
      (output ++ encode_key FILTER_IDS_TAG LengthDelimited ++ encode_varint payload_len)
      filter_ids.

Definition encode_body_item (fragment_id : Z) (filter_ids : list Z) (message output : list byte) :
    outcome DataStreamError (list byte) :=
  filter_ids_payload_len ← packed_filter_ids_payload_len filter_ids;
  filter_ids_len ←
    (if filter_ids_payload_len =? 0 then Ok 0
     else encoded_length_delimited_field_len FILTER_IDS_TAG filter_ids_payload_len);
  payload_len ← ok_or DataStreamErr (checked_add filter_ids_len (Z.of_nat (length message)));
  let output := output ++ encode_key fragment_id LengthDelimited ++ encode_varint payload_len in
  Ok (encode_filter_ids filter_ids filter_ids_payload_len output ++ message).

Definition encode_header (fragment_id : Z) (data output : list byte) : list byte :=
  output ++ encode_key fragment_id LengthDelimited
    ++ encode_varint (Z.of_nat (length data)) ++ data.

End encoding.
