(* ===== verification/EncodingSpec.v ===== *)
(** * Correctness of the encoding

    A field is a tag and a payload.  The bytes written for a header or an item
    are those of a field, the payload of an item being the field of its filter
    ids followed by the message; the computed sizes are the sizes written, and a
    protobuf reader recovers the fields. *)

From S2P Require Import Prelude External Encoding.

Section encoding_spec.
Context `{Prost}.

(** ** Reference encoder and reader *)

Definition field (tag : Z) (payload : list byte) : list byte :=
  encode_key tag LengthDelimited ++ encode_varint (Z.of_nat (length payload)) ++ payload.

Definition packed (ids : list Z) : list byte := ids ≫= encode_varint.

(** Field 1 of an item holds the packed filter ids; it is absent when there is
    none. *)
Definition item_payload (ids : list Z) (message : list byte) : list byte :=
  match ids with [] => message | _ => field FILTER_IDS_TAG (packed ids) ++ message end.

Definition item (fragment_id : Z) (ids : list Z) (message : list byte) : list byte :=
  field fragment_id (item_payload ids message).

(** Reads one length-delimited field. *)
Definition read_field (bytes : list byte) : option (Z * list byte * list byte) :=
  '(tag, rest) ← decode_key bytes;
  '(len, rest) ← decode_varint rest;
  if Z.of_nat (length rest) <? len then None
  else Some (tag, take (Z.to_nat len) rest, drop (Z.to_nat len) rest).

Definition valid_tag (tag : Z) : Prop := 0 < tag < 2 ^ 29.

Lemma read_field_field tag payload rest :
  valid_tag tag -> Z.of_nat (length payload) < U64 ->
  read_field (field tag payload ++ rest) = Some (tag, payload, rest).
Proof.
  intros Ht Hp. unfold read_field, field. rewrite <- !(assoc_L (++)).
  rewrite decode_encode_key by done. simpl. rewrite decode_encode_varint by (split; lia). simpl.
  rewrite length_app, (proj2 (Z.ltb_ge _ _)) by lia. rewrite Nat2Z.id.
  by rewrite take_app_length, drop_app_length.
Qed.

(** Reads all the fields of a message. *)
Fixpoint read_fields (fuel : nat) (bytes : list byte) : option (list (Z * list byte)) :=
  match bytes, fuel with
  | [], _ => Some []
  | _, O => None
  | _, S fuel =>
      '(tag, payload, rest) ← read_field bytes;
      fields ← read_fields fuel rest;
      Some ((tag, payload) :: fields)
  end.

Definition valid_field (f : Z * list byte) : Prop :=
  valid_tag f.1 /\ Z.of_nat (length f.2) < U64.

Lemma field_nonempty tag payload : valid_tag tag -> field tag payload <> [].
Proof.
  intros Ht Hf. unfold field in Hf. apply app_eq_nil in Hf as [Hk _].
  pose proof (encode_key_len tag Ht) as Hl. pose proof (key_len_pos tag Ht). rewrite Hk in Hl. simpl in Hl. lia.
Qed.

Lemma read_fields_fields fields fuel :
  Forall valid_field fields -> (length fields <= fuel)%nat ->
  read_fields fuel (fields ≫= fun f => field f.1 f.2) = Some fields.
Proof.
  intros Hv. revert fuel. induction Hv as [|[tag payload] fields [Ht Hp] Hv IH]; intros fuel Hf; [by destruct fuel|].
  destruct fuel as [|fuel]; [simpl in Hf; lia|]. rewrite bind_cons. cbn [fst snd] in *.
  pose proof (field_nonempty tag payload Ht) as Hne.
  cbn [read_fields]. destruct (field tag payload ++ _) as [|x xs] eqn:Hx.
  { by apply app_eq_nil in Hx as [? _]. }
  rewrite <- Hx, read_field_field by done. simpl. simpl in Hf. by rewrite IH by lia.
Qed.

(** Reads packed integers to the end of the payload. *)
Fixpoint read_packed (fuel : nat) (bytes : list byte) : option (list Z) :=
  match bytes, fuel with
  | [], _ => Some []
  | _, O => None
  | _, S fuel =>
      '(n, rest) ← decode_varint bytes;
      ids ← read_packed fuel rest;
      Some (n :: ids)
  end.

Lemma read_packed_packed ids fuel :
  Forall is_u64 ids -> (length ids <= fuel)%nat -> read_packed fuel (packed ids) = Some ids.
Proof.
  intros Hids. revert fuel. induction Hids as [|n ids Hn Hids IH]; intros fuel Hf; [by destruct fuel|].
  destruct fuel as [|fuel]; [simpl in Hf; lia|]. unfold packed in *. rewrite bind_cons.
  pose proof (encode_varint_len n Hn) as Hl. pose proof (encoded_len_varint_pos n Hn).
  cbn [read_packed].
  destruct (encode_varint n ++ mbind encode_varint ids) as [|b bs] eqn:Hb.
  { apply app_eq_nil in Hb as [Hb _]. rewrite Hb in Hl. simpl in Hl. lia. }
  rewrite <- Hb, decode_encode_varint by done. simpl. simpl in Hf. by rewrite IH by lia.
Qed.

(** ** Sizes *)

Definition zlen (bytes : list byte) : Z := Z.of_nat (length bytes).

Lemma zlen_app a b : zlen (a ++ b) = zlen a + zlen b.
Proof. unfold zlen. rewrite length_app. lia. Qed.

Lemma zlen_nonneg a : 0 <= zlen a.
Proof. unfold zlen. lia. Qed.

Lemma checked_add_Some a b : a + b < U64 -> checked_add a b = Some (a + b).
Proof. intros. unfold checked_add. by rewrite (proj2 (Z.ltb_lt _ _)). Qed.

Lemma zlen_field tag payload :
  valid_tag tag -> zlen payload < U64 ->
  zlen (field tag payload) = key_len tag + encoded_len_varint (zlen payload) + zlen payload.
Proof.
  intros Ht Hp. unfold field. rewrite !zlen_app. unfold zlen at 1 2.
  rewrite encode_key_len by done. rewrite encode_varint_len by (pose proof (zlen_nonneg payload); split; [lia|done]).
  unfold zlen. lia.
Qed.

Lemma field_larger tag payload : zlen payload <= zlen (field tag payload).
Proof.
  unfold field. rewrite !zlen_app.
  pose proof (zlen_nonneg (encode_key tag LengthDelimited)).
  pose proof (zlen_nonneg (encode_varint (Z.of_nat (length payload)))). lia.
Qed.

Lemma field_len_ok tag payload :
  valid_tag tag -> zlen (field tag payload) < U64 ->
  encoded_length_delimited_field_len tag (zlen payload) = Ok (zlen (field tag payload)).
Proof.
  intros Ht Hf. pose proof (field_larger tag payload). pose proof (zlen_nonneg payload).
  assert (zlen payload < U64) by lia. rewrite zlen_field in * by done.
  assert (is_u64 (zlen payload)) as Hu by (split; lia).
  pose proof (encoded_len_varint_pos _ Hu). pose proof (key_len_pos _ Ht).
  unfold encoded_length_delimited_field_len. rewrite checked_add_Some by lia. simpl.
  by rewrite checked_add_Some by lia.
Qed.

Lemma zlen_packed_snoc ids id :
  is_u64 id -> zlen (packed (ids ++ [id])) = zlen (packed ids) + encoded_len_varint id.
Proof.
  intros Hid. unfold packed. rewrite bind_app, zlen_app. simpl. rewrite app_nil_r.
  unfold zlen at 2. by rewrite encode_varint_len.
Qed.

Lemma packed_len_ok ids :
  Forall is_u64 ids -> zlen (packed ids) < U64 ->
  packed_filter_ids_payload_len ids = Ok (zlen (packed ids)).
Proof.
  induction ids as [|id ids IH] using rev_ind; [done|]. intros [Hids Hid]%Forall_app Hl.
  rewrite Forall_singleton in Hid. rewrite zlen_packed_snoc in Hl |- * by done.
  pose proof (encoded_len_varint_pos _ Hid). unfold packed_filter_ids_payload_len in *.
  rewrite foldl_app. rewrite IH by (done || lia). simpl. by rewrite checked_add_Some.
Qed.

Lemma packed_nil ids : Forall is_u64 ids -> zlen (packed ids) = 0 -> ids = [].
Proof.
  destruct ids as [|id ids] using rev_ind; [done|]. intros [_ Hid]%Forall_app Hl.
  rewrite Forall_singleton in Hid. rewrite zlen_packed_snoc in Hl by done.
  pose proof (encoded_len_varint_pos _ Hid). pose proof (zlen_nonneg (packed ids)). lia.
Qed.

Lemma item_payload_larger ids message :
  zlen message <= zlen (item_payload ids message) /\
  (ids <> [] -> zlen (field FILTER_IDS_TAG (packed ids)) <= zlen (item_payload ids message)).
Proof.
  unfold item_payload. destruct ids; [done|]. rewrite zlen_app.
  pose proof (zlen_nonneg message). pose proof (zlen_nonneg (field FILTER_IDS_TAG (packed (z :: ids)))).
  split; lia.
Qed.

Lemma valid_filter_ids_tag : valid_tag FILTER_IDS_TAG.
Proof. done. Qed.

(** The parts of the size of an item. *)
Lemma filter_ids_len_ok ids message :
  Forall is_u64 ids -> zlen (item_payload ids message) < U64 ->
  exists flen,
    packed_filter_ids_payload_len ids = Ok (zlen (packed ids)) /\
    encoded_filter_ids_len ids = Ok flen /\
    (if zlen (packed ids) =? 0 then Ok 0
     else encoded_length_delimited_field_len FILTER_IDS_TAG (zlen (packed ids))) = Ok flen /\
    flen + zlen message = zlen (item_payload ids message).
Proof.
  intros Hids Hl. destruct (item_payload_larger ids message) as [Hm Hf].
  destruct (decide (ids = [])) as [->|Hne]; [by exists 0|].
  specialize (Hf Hne). pose proof (field_larger FILTER_IDS_TAG (packed ids)).
  assert (packed_filter_ids_payload_len ids = Ok (zlen (packed ids))) as Hp
    by (apply packed_len_ok; [done|lia]).
  assert (zlen (packed ids) <> 0) as Hz by (intros Hz; by apply packed_nil in Hz).
  exists (zlen (field FILTER_IDS_TAG (packed ids))). unfold encoded_filter_ids_len. rewrite Hp. simpl.
  rewrite (proj2 (Z.eqb_neq _ _)) by done.
  rewrite field_len_ok by (apply valid_filter_ids_tag || lia). split_and!; try done.
  unfold item_payload. destruct ids; [done|]. by rewrite zlen_app.
Qed.

Lemma body_item_len_ok fragment_id ids message :
  valid_tag fragment_id -> Forall is_u64 ids -> zlen (item fragment_id ids message) < U64 ->
  encoded_body_item_len fragment_id ids (zlen message) = Ok (zlen (item fragment_id ids message)).
Proof.
  intros Ht Hids Hl. unfold item in *. pose proof (field_larger fragment_id (item_payload ids message)).
  destruct (filter_ids_len_ok ids message) as (flen & _ & Hf & _ & Hsum); [done|lia|].
  unfold encoded_body_item_len, encoded_body_item_len_from_parts. rewrite Hf. simpl.
  rewrite checked_add_Some by lia. simpl. rewrite Hsum. by apply field_len_ok.
Qed.

(** ** Bytes *)

Lemma encode_filter_ids_fold ids out :
  foldl (fun output filter_id => output ++ encode_varint filter_id) out ids = out ++ packed ids.
Proof.
  revert out. induction ids as [|id ids IH]; intros out; simpl; [by rewrite app_nil_r|].
  rewrite IH. unfold packed. simpl. by rewrite <- (assoc_L (++)).
Qed.

Lemma encode_filter_ids_ok ids message out :
  Forall is_u64 ids ->
  encode_filter_ids ids (zlen (packed ids)) out ++ message = out ++ item_payload ids message.
Proof.
  intros Hids. unfold encode_filter_ids. destruct (Z.eqb_spec (zlen (packed ids)) 0) as [Hz|Hz].
  - apply packed_nil in Hz; [|done]. by subst.
  - rewrite encode_filter_ids_fold. destruct ids as [|id ids]; [done|]. unfold item_payload, field.
    by rewrite <- !(assoc_L (++)).
Qed.

Lemma encode_body_item_ok fragment_id ids message out :
  valid_tag fragment_id -> Forall is_u64 ids -> zlen (item fragment_id ids message) < U64 ->
  encode_body_item fragment_id ids message out = Ok (out ++ item fragment_id ids message).
Proof.
  intros Ht Hids Hl. unfold item in *. pose proof (field_larger fragment_id (item_payload ids message)).
  destruct (filter_ids_len_ok ids message) as (flen & Hp & _ & Hf & Hsum); [done|lia|].
  unfold encode_body_item. rewrite Hp. cbn [mbind outcome_bind]. rewrite Hf. cbn [mbind outcome_bind].
  fold (zlen message). rewrite checked_add_Some by lia. cbn [ok_or mbind outcome_bind].
  rewrite encode_filter_ids_ok by done. rewrite Hsum. unfold field, zlen.
  by rewrite <- !(assoc_L (++)).
Qed.

Lemma encode_header_ok fragment_id data out :
  encode_header fragment_id data out = out ++ field fragment_id data.
Proof. done. Qed.

End encoding_spec.

(** The item of a selected row.  Writing it appends one field whose tag
    is the fragment id, of exactly the length computed in advance; a protobuf
    reader finds the ids of the filters in field 1 of the payload, followed by
    the message of the row, or the bare message when there is no filter id. *)
Theorem body_item_roundtrip `{Prost} fid ids message out :
  valid_tag fid -> Forall is_u32 ids -> zlen (item fid ids message) < U64 ->
  exists bytes payload,
    encode_body_item fid ids message out = Ok (out ++ bytes) /\
    encoded_body_item_len fid ids (zlen message) = Ok (zlen bytes) /\
    read_field bytes = Some (fid, payload, []) /\
    match ids with
    | [] => payload = message
    | _ => exists p, read_field payload = Some (FILTER_IDS_TAG, p, message) /\
             read_packed (length ids) p = Some ids
    end.
Proof.
  intros Ht Hids Hl.
  assert (Forall is_u64 ids) as Hids'
    by (eapply Forall_impl; [done|]; unfold is_u32, is_u64, U32, U64; lia).
  exists (item fid ids message), (item_payload ids message). unfold item in *.
  pose proof (field_larger fid (item_payload ids message)).
  destruct (item_payload_larger ids message) as [_ Hf]. split_and!.
  - by apply encode_body_item_ok.
  - by apply body_item_len_ok.
  - rewrite <- (app_nil_r (field _ _)). apply read_field_field; [done|]. unfold zlen in *. lia.
  - destruct ids as [|id ids']; [done|]. set (ids := id :: ids') in *.
    specialize (Hf ltac:(done)). pose proof (field_larger FILTER_IDS_TAG (packed ids)).
    exists (packed ids). split; [|by apply read_packed_packed].
    apply read_field_field; [done|]. unfold zlen in *. lia.
Qed.

Import External.Reference.

Lemma body_item_roundtrip_witness :
  exists bytes, encode_body_item 5 [1; 300] [x0a; x0b] [xff] = Ok ([xff] ++ bytes).
Proof.
  destruct (body_item_roundtrip 5 [1; 300] [x0a; x0b] [xff]) as (bytes & payload & Hb & _).
  - split; reflexivity.
  - repeat constructor; discriminate || reflexivity.
  - vm_compute. reflexivity.
  - exists bytes. exact Hb.
Defined.
