(* ===== verification/FragmentAccess.v ===== *)
(** * Access to the fragments of a block (common/src/segment.rs,
    data_stream/fragment_access.rs and segment_access.rs)

    The stream reads a block either from its own object or from the segments
    of its fragments.  [FragmentAccess] hides the difference: the indexes, the
    joins, the header and the body of a fragment.  Archived bytes that do not
    decode are undefined behaviour in the code ([access_unchecked]) and a
    panic here. *)

From S2P Require Import Prelude External Core Index.

(** ** Segments *)

Record FragmentData (T : Type) := mkFragmentData { fd_cursor : Cursor; fd_data : T }.
Arguments mkFragmentData {T} _ _.
Arguments fd_cursor {T} _.
Arguments fd_data {T} _.

Record Segment (T : Type) := mkSegmentOf { sg_first_block : Cursor; sg_data : list (FragmentData T) }.
Arguments mkSegmentOf {T} _ _.
Arguments sg_first_block {T} _.
Arguments sg_data {T} _.

Record SegmentGroup := mkSegmentGroup { gr_first_block : Cursor; gr_index : IndexGroupFragment }.

Inductive FragmentAccessError := FragmentAccessErr.
Inductive FileCacheError := Foyer.

(** The bytes of a cached file. *)
Abbreviation FileEntry := (list byte).

(** The archived types that are read. *)
Class BlockArchives := {
  #[global] archive_block :: Archive Block;
  #[global] archive_index_segment :: Archive (Segment IndexGroupFragment);
  #[global] archive_join_segment :: Archive (Segment JoinGroupFragment);
  #[global] archive_header_segment :: Archive (Segment HeaderFragment);
  #[global] archive_body_segment :: Archive (Segment BodyFragment);
  #[global] archive_group :: Archive SegmentGroup }.

Definition access_unchecked {E A} `{Archive A} (bytes : list byte) : outcome E A :=
  match from_bytes bytes with Some a => Ok a | None => Panic end.

(** [iter().position(..)] followed by indexing at the position found. *)
Definition find_first {A} (p : A -> bool) (l : list A) : option A :=
  snd <$> list_find (fun x => p x = true) l.

(** ** Segment access *)

(** A fetch that was started and its result. *)
Record SegmentAccessFetch := mkSegmentFetch {
  sf_first_block : Z;
  sf_blocks : RoaringBitmap;
  sf_fragments : gmap Z (outcome FileCacheError FileEntry) }.

Record SegmentAccess := mkSegmentAccess {
  sa_first_block : Z;
  sa_blocks : RoaringBitmap;
  sa_fragments : gmap Z FileEntry }.

Record SegmentBlockAccess := mkSegmentBlock { sb_offset : Z; sb_segment : SegmentAccess }.

Definition segment_fetch_new (first_block : Z) (blocks : RoaringBitmap) : SegmentAccessFetch :=
  mkSegmentFetch first_block blocks ∅.

Definition insert_fragment (self : SegmentAccessFetch) (fragment_id : Z)
    (fetch : outcome FileCacheError FileEntry) : SegmentAccessFetch :=
  mkSegmentFetch (sf_first_block self) (sf_blocks self) (<[fragment_id := fetch]> (sf_fragments self)).

(** [SegmentAccessFetch::wait]: every fetch must succeed. *)
Definition segment_wait_entry (access : SegmentAccess) (entry : Z * outcome FileCacheError FileEntry) :
    outcome FragmentAccessError SegmentAccess :=
  file ← change_context FragmentAccessErr entry.2;
  Ok (mkSegmentAccess (sa_first_block access) (sa_blocks access)
        (<[entry.1 := file]> (sa_fragments access))).

Definition segment_wait (self : SegmentAccessFetch) : outcome FragmentAccessError SegmentAccess :=
  ofold segment_wait_entry (mkSegmentAccess (sf_first_block self) (sf_blocks self) ∅)
    (map_to_list (sf_fragments self)).

(** [SegmentAccessIter::next] over all the blocks. *)
Definition segment_iter {E} (self : SegmentAccess) : outcome E (list SegmentBlockAccess) :=
  omapM (fun block_number =>
           if sa_first_block self <=? block_number
           then Ok (mkSegmentBlock (sub64 block_number (sa_first_block self)) self)
           else Panic)
    (bitmap_iter (sa_blocks self)).

Definition segment_block_number (self : SegmentBlockAccess) : Z :=
  add64 (sa_first_block (sb_segment self)) (sb_offset self).

Definition segment_block_cursor (self : SegmentBlockAccess) : Cursor :=
  new_finalized (segment_block_number self).

Section access.
Context `{BlockArchives}.

(** The data of a block in the segment of one of the fragments. *)
Definition segment_data {T} `{Archive (Segment T)} (self : SegmentBlockAccess) (fragment_id : Z) :
    outcome FragmentAccessError T :=
  entry ← ok_or FragmentAccessErr (sa_fragments (sb_segment self) !! fragment_id);
  segment ← access_unchecked (A := Segment T) entry;
  data ← index_vec (sg_data segment) (sb_offset self);
  Ok (fd_data data).

Definition segment_get_index_fragment (self : SegmentBlockAccess) (fragment_id : Z) :
    outcome FragmentAccessError IndexFragment :=
  block_index ← segment_data (T := IndexGroupFragment) self INDEX_FRAGMENT_ID;
  ok_or FragmentAccessErr (find_first (fun f => if_fragment_id f =? fragment_id) (ig_indexes block_index)).

Definition segment_get_join_fragment (self : SegmentBlockAccess) (fragment_id : Z) :
    outcome FragmentAccessError JoinFragment :=
  block_index ← segment_data (T := JoinGroupFragment) self JOIN_FRAGMENT_ID;
  ok_or FragmentAccessErr (find_first (fun f => jf_fragment_id f =? fragment_id) (jg_joins block_index)).

Definition segment_get_header_fragment (self : SegmentBlockAccess) :
    outcome FragmentAccessError HeaderFragment :=
  segment_data (T := HeaderFragment) self HEADER_FRAGMENT_ID.

Definition segment_get_body_fragment (self : SegmentBlockAccess) (fragment_id : Z) :
    outcome FragmentAccessError BodyFragment :=
  segment_data (T := BodyFragment) self fragment_id.

(** ** Block access *)

Definition block_get_index_fragment (self : FileEntry) (fragment_id : Z) :
    outcome FragmentAccessError IndexFragment :=
  block ← access_unchecked (A := Block) self;
  ok_or FragmentAccessErr
    (find_first (fun f => if_fragment_id f =? fragment_id) (ig_indexes (blk_index block))).

Definition block_get_join_fragment (self : FileEntry) (fragment_id : Z) :
    outcome FragmentAccessError JoinFragment :=
  block ← access_unchecked (A := Block) self;
  ok_or FragmentAccessErr
    (find_first (fun f => jf_fragment_id f =? fragment_id) (jg_joins (blk_join block))).

Definition block_get_header_fragment (self : FileEntry) : outcome FragmentAccessError HeaderFragment :=
  block ← access_unchecked (A := Block) self;
  Ok (blk_header block).

Definition block_get_body_fragment (self : FileEntry) (fragment_id : Z) :
    outcome FragmentAccessError BodyFragment :=
  block ← access_unchecked (A := Block) self;
  ok_or FragmentAccessErr
    (find_first (fun f => bf_fragment_id f =? fragment_id) (blk_body block)).

(** ** Both *)

Inductive FragmentAccess :=
| AccessSegment (access : SegmentBlockAccess)
| AccessBlock (access : FileEntry).

Definition get_index_fragment (self : FragmentAccess) (fragment_id : Z) :
    outcome FragmentAccessError IndexFragment :=
  match self with
  | AccessSegment access => segment_get_index_fragment access fragment_id
  | AccessBlock access => block_get_index_fragment access fragment_id
  end.

Definition get_join_fragment (self : FragmentAccess) (fragment_id : Z) :
    outcome FragmentAccessError JoinFragment :=
  match self with
  | AccessSegment access => segment_get_join_fragment access fragment_id
  | AccessBlock access => block_get_join_fragment access fragment_id
  end.

Definition get_header_fragment (self : FragmentAccess) : outcome FragmentAccessError HeaderFragment :=
  match self with
  | AccessSegment access => segment_get_header_fragment access
  | AccessBlock access => block_get_header_fragment access
  end.

Definition get_body_fragment (self : FragmentAccess) (fragment_id : Z) :
    outcome FragmentAccessError BodyFragment :=
  match self with
  | AccessSegment access => segment_get_body_fragment access fragment_id
  | AccessBlock access => block_get_body_fragment access fragment_id
  end.

(** ** Reading what was archived *)

Lemma access_to_bytes {E A} `{Archive A} (a : A) : (access_unchecked (to_bytes a) : outcome E A) = Ok a.
Proof. unfold access_unchecked. by rewrite from_to_bytes. Qed.

Lemma block_index_eq blk fid :
  get_index_fragment (AccessBlock (to_bytes blk)) fid =
  ok_or FragmentAccessErr (find_first (fun f => if_fragment_id f =? fid) (ig_indexes (blk_index blk))).
Proof. unfold get_index_fragment, block_get_index_fragment. by rewrite access_to_bytes. Qed.

Lemma block_join_eq blk fid :
  get_join_fragment (AccessBlock (to_bytes blk)) fid =
  ok_or FragmentAccessErr (find_first (fun f => jf_fragment_id f =? fid) (jg_joins (blk_join blk))).
Proof. unfold get_join_fragment, block_get_join_fragment. by rewrite access_to_bytes. Qed.

Lemma block_header_eq blk : get_header_fragment (AccessBlock (to_bytes blk)) = Ok (blk_header blk).
Proof. unfold get_header_fragment, block_get_header_fragment. by rewrite access_to_bytes. Qed.

Lemma block_body_eq blk fid :
  get_body_fragment (AccessBlock (to_bytes blk)) fid =
  ok_or FragmentAccessErr (find_first (fun f => bf_fragment_id f =? fid) (blk_body blk)).
Proof. unfold get_body_fragment, block_get_body_fragment. by rewrite access_to_bytes. Qed.

End access.

(** ** Reference archives, for the witnesses *)

Module ReferenceArchives.

#[export] Instance BitmapIndex_eq_dec : EqDecision BitmapIndex.
Proof. solve_decision. Defined.
#[export] Instance BitmapIndex_countable : Countable BitmapIndex.
Proof.
  refine (inj_countable' (fun x => (bx_keys x, bx_values x)) (fun p => mkBitmapIndex p.1 p.2) _).
  by intros [].
Defined.

#[export] Instance Index_eq_dec : EqDecision Index.
Proof. solve_decision. Defined.
#[export] Instance Index_countable : Countable Index.
Proof.
  refine (inj_countable' (fun x => match x with BitmapIdx i => Some i | EmptyIdx => None end)
    (fun o => match o with Some i => BitmapIdx i | None => EmptyIdx end) _).
  by intros [].
Defined.

#[export] Instance FragmentIndex_eq_dec : EqDecision FragmentIndex.
Proof. solve_decision. Defined.
#[export] Instance FragmentIndex_countable : Countable FragmentIndex.
Proof.
  refine (inj_countable' (fun x => (fi_index_id x, fi_index x)) (fun p => mkFragmentIndex p.1 p.2) _).
  by intros [].
Defined.

#[export] Instance JoinToOneIndex_eq_dec : EqDecision JoinToOneIndex.
Proof. solve_decision. Defined.
#[export] Instance JoinToManyIndex_eq_dec : EqDecision JoinToManyIndex.
Proof. solve_decision. Defined.
#[export] Instance JoinTo_eq_dec : EqDecision JoinTo.
Proof. solve_decision. Defined.
#[export] Instance JoinTo_countable : Countable JoinTo.
Proof.
  refine (inj_countable' (fun x => match x with
      | JoinOne i => inl (jo_keys i, jo_values i)
      | JoinMany i => inr (jm_keys i, jm_values i) end)
    (fun s => match s with
      | inl p => JoinOne (mkJoinToOne p.1 p.2)
      | inr p => JoinMany (mkJoinToMany p.1 p.2) end) _).
  by intros [[]|[]].
Defined.

#[export] Instance FragmentJoin_eq_dec : EqDecision FragmentJoin.
Proof. solve_decision. Defined.
#[export] Instance FragmentJoin_countable : Countable FragmentJoin.
Proof.
  refine (inj_countable' (fun x => (fj_to_fragment_id x, fj_index x)) (fun p => mkFragmentJoin p.1 p.2) _).
  by intros [].
Defined.

#[export] Instance IndexFragment_eq_dec : EqDecision IndexFragment.
Proof. solve_decision. Defined.
#[export] Instance IndexFragment_countable : Countable IndexFragment.
Proof.
  refine (inj_countable' (fun x => (if_fragment_id x, if_range_start x, if_range_len x, if_indexes x))
    (fun p => mkIndexFragment p.1.1.1 p.1.1.2 p.1.2 p.2) _).
  by intros [].
Defined.

#[export] Instance JoinFragment_eq_dec : EqDecision JoinFragment.
Proof. solve_decision. Defined.
#[export] Instance JoinFragment_countable : Countable JoinFragment.
Proof.
  refine (inj_countable' (fun x => (jf_fragment_id x, jf_joins x)) (fun p => mkJoinFragment p.1 p.2) _).
  by intros [].
Defined.

#[export] Instance HeaderFragment_eq_dec : EqDecision HeaderFragment.
Proof. solve_decision. Defined.
#[export] Instance HeaderFragment_countable : Countable HeaderFragment.
Proof. refine (inj_countable' hf_data mkHeaderFragment _). by intros []. Defined.

#[export] Instance BodyFragment_eq_dec : EqDecision BodyFragment.
Proof. solve_decision. Defined.
#[export] Instance BodyFragment_countable : Countable BodyFragment.
Proof.
  refine (inj_countable' (fun x => (bf_fragment_id x, bf_name x, bf_data x))
    (fun p => mkBodyFragment p.1.1 p.1.2 p.2) _).
  by intros [].
Defined.

#[export] Instance IndexGroupFragment_eq_dec : EqDecision IndexGroupFragment.
Proof. solve_decision. Defined.
#[export] Instance IndexGroupFragment_countable : Countable IndexGroupFragment.
Proof. refine (inj_countable' ig_indexes mkIndexGroup _). by intros []. Defined.

#[export] Instance JoinGroupFragment_eq_dec : EqDecision JoinGroupFragment.
Proof. solve_decision. Defined.
#[export] Instance JoinGroupFragment_countable : Countable JoinGroupFragment.
Proof. refine (inj_countable' jg_joins mkJoinGroup _). by intros []. Defined.

#[export] Instance Block_eq_dec : EqDecision Block.
Proof. solve_decision. Defined.
#[export] Instance Block_countable : Countable Block.
Proof.
  refine (inj_countable' (fun x => (blk_header x, blk_index x, blk_join x, blk_body x))
    (fun p => mkBlock p.1.1.1 p.1.1.2 p.1.2 p.2) _).
  by intros [].
Defined.

#[export] Instance Segment_eq_dec {T} `{EqDecision T} : EqDecision (Segment T).
Proof.
  assert (EqDecision (FragmentData T)) by solve_decision. solve_decision.
Defined.
#[export] Instance Segment_countable {T} `{Countable T} : Countable (Segment T).
Proof.
  refine (inj_countable' (fun x => (sg_first_block x, (fun d => (fd_cursor d, fd_data d)) <$> sg_data x))
    (fun p => mkSegmentOf p.1 ((fun d => mkFragmentData d.1 d.2) <$> p.2)) _).
  intros [c l]. simpl. f_equal. rewrite <- list_fmap_compose. induction l as [|[] l IH]; simpl; [done|].
  f_equal. exact IH.
Defined.

#[export] Instance SegmentGroup_eq_dec : EqDecision SegmentGroup.
Proof. solve_decision. Defined.
#[export] Instance SegmentGroup_countable : Countable SegmentGroup.
Proof.
  refine (inj_countable' (fun x => (gr_first_block x, gr_index x)) (fun p => mkSegmentGroup p.1 p.2) _).
  by intros [].
Defined.

#[export] Instance block_archives : BlockArchives.
Proof. split; apply External.Reference.archive. Defined.

End ReferenceArchives.
