(* ===== verification/FilterBlock.v ===== *)
(** * Filtering a block (DataStream::filter_fragment in
    common/src/data_stream/stream.rs)

    For every block filter of a request: the rows selected in each fragment
    with the ids of the filters that selected them, extended along the joins;
    whether the header is sent; and the bytes of the filtered block. *)

From S2P Require Import Prelude External Core Index Query Encoding FragmentAccess.

Section filter_block.
Context `{!Roaring, !Prost, !HashOrder Z, !BlockArchives}.

(** The rows matched in each fragment, and those to follow along each join
    (source fragment, target fragment). *)
Record Matches := mkMatches {
  fragment_matches : gmap Z FilterMatch;
  join_matches : gmap (Z * Z) FilterMatch }.

(** The body of the loop over the filters of one fragment: it extends the
    matches of the fragment and of the joins. *)
Definition match_filter (fid : Z) (indexes : IndexFragment)
    (acc : FilterMatch * gmap (Z * Z) FilterMatch) (f : Filter) :
    outcome DataStreamError (FilterMatch * gmap (Z * Z) FilterMatch) :=
  rows ← change_context DataStreamErr (filter_rows f indexes);
  let filter_match := add_match acc.1 (filter_id f) rows in
  if bool_decide (rows = ∅) then Ok (filter_match, acc.2)
  else
    Ok (filter_match,
        foldl (fun js target =>
                 <[(fid, target) := add_match (default ∅ (js !! (fid, target))) (filter_id f) rows]> js)
          acc.2 (joins f)).

(** The loop over the fragments of the block filter. *)
Definition match_fragment (access : FragmentAccess) (acc : Matches) (entry : Z * list Filter) :
    outcome DataStreamError Matches :=
  indexes ← change_context DataStreamErr (get_index_fragment access entry.1);
  r ← ofold (match_filter entry.1 indexes) (∅, join_matches acc) entry.2;
  if match_is_empty r.1 then Ok (mkMatches (fragment_matches acc) r.2)
  else Ok (mkMatches (<[entry.1 := r.1]> (fragment_matches acc)) r.2).

(** One row of the matches of a join: each of its filters selects the rows it
    joins to. *)
Definition follow_match (index : JoinTo) (target : FilterMatch) (m : Z * gset Z) :
    outcome DataStreamError FilterMatch :=
  match index with
  | JoinOne inner =>
      o ← join_one_get inner m.1;
      match o with
      | Some i => Ok (foldl (fun t id => add_single_match t id i) target (hash_iter [m.1] m.2))
      | None => Ok target
      end
  | JoinMany inner =>
      o ← join_many_get inner m.1;
      match o with
      | Some bitmap => Ok (foldl (fun t id => add_match t id bitmap) target (hash_iter [m.1] m.2))
      | None => Ok target
      end
  end.

(** The loop over the joins. *)
Definition follow_join (access : FragmentAccess) (acc : gmap Z FilterMatch)
    (entry : Z * Z * FilterMatch) : outcome DataStreamError (gmap Z FilterMatch) :=
  let '(source, target, filter_match) := entry in
  join_fragment ← change_context DataStreamErr (get_join_fragment access source);
  join ← ok_or DataStreamErr
    (find_first (fun j => fj_to_fragment_id j =? target) (jf_joins join_fragment));
  target_matches ←
    ofold (follow_match (fj_index join)) (default ∅ (acc !! target)) (match_iter filter_match);
  Ok (<[target := target_matches]> acc).

Definition should_send_header (bf : BlockFilter) (matches : gmap Z FilterMatch) (is_live : bool) : bool :=
  match header_filter bf with
  | Always => true
  | OnData => negb (bool_decide (matches = ∅))
  | OnDataOrOnNewBlock => negb (bool_decide (matches = ∅)) || is_live
  end.

(** A matched fragment with its body. *)
Definition matched_fragment (access : FragmentAccess) (names : gmap Z string)
    (entry : Z * FilterMatch) : outcome DataStreamError (Z * BodyFragment * FilterMatch) :=
  _ ← ok_or DataStreamErr (names !! entry.1);
  body ← change_context DataStreamErr (get_body_fragment access entry.1);
  Ok (entry.1, body, entry.2).

(** The two passes over the matched rows: their size and their bytes. *)
Definition item_size (fid : Z) (body : BodyFragment) (encoded_size : Z) (m : Z * gset Z) :
    outcome DataStreamError Z :=
  message_bytes ← index_vec (bf_data body) m.1;
  len ← encoded_body_item_len fid (hash_iter [fid; m.1] m.2) (Z.of_nat (length message_bytes));
  ok_or DataStreamErr (checked_add encoded_size len).

Definition fragment_size (encoded_size : Z) (entry : Z * BodyFragment * FilterMatch) :
    outcome DataStreamError Z :=
  let '(fid, body, filter_match) := entry in
  ofold (item_size fid body) encoded_size (match_iter filter_match).

Definition item_bytes (fid : Z) (body : BodyFragment) (data_buffer : list byte) (m : Z * gset Z) :
    outcome DataStreamError (list byte) :=
  message_bytes ← index_vec (bf_data body) m.1;
  encode_body_item fid (hash_iter [fid; m.1] m.2) message_bytes data_buffer.

Definition fragment_bytes (data_buffer : list byte) (entry : Z * BodyFragment * FilterMatch) :
    outcome DataStreamError (list byte) :=
  let '(fid, body, filter_match) := entry in
  ofold (item_bytes fid body) data_buffer (match_iter filter_match).

(** One block filter: the size computed for the buffer and the buffer. *)
Definition filter_one (access : FragmentAccess) (names : gmap Z string) (is_live : bool)
    (bf : BlockFilter) : outcome DataStreamError (Z * list byte) :=
  m ← ofold (match_fragment access) (mkMatches ∅ ∅) (block_filter_iter bf);
  matches ← ofold (follow_join access) (fragment_matches m) (btree_iter (join_matches m));
  header ←
    (if should_send_header bf matches is_live
     then Some <$> change_context DataStreamErr (get_header_fragment access)
     else Ok None);
  matched_fragments ← omapM (matched_fragment access names) (btree_iter matches);
  header_size ←
    (match header with
     | Some header => encoded_header_len HEADER_FRAGMENT_ID (Z.of_nat (length (hf_data header)))
     | None => Ok 0
     end);
  encoded_size ← ofold fragment_size header_size matched_fragments;
  let data_buffer :=
    match header with
    | Some header => encode_header HEADER_FRAGMENT_ID (hf_data header) []
    | None => []
    end in
  data_buffer ← ofold fragment_bytes data_buffer matched_fragments;
  Ok (encoded_size, data_buffer).

(** [filter_fragment]: whether any of the filtered blocks has data, and the
    filtered blocks. *)
Definition filter_fragment (block_filter : list BlockFilter) (names : gmap Z string)
    (access : FragmentAccess) (is_live : bool) : outcome DataStreamError (bool * list (list byte)) :=
  ofold (fun acc bf =>
           r ← filter_one access names is_live bf;
           Ok (acc.1 || negb (bool_decide (r.2 = [])), acc.2 ++ [r.2]))
    (false, []) block_filter.

End filter_block.
