(* ===== verification/FilterOrder.v ===== *)
(** * The order of the filter ids

    The ids of the filters that selected a row are visited in the order of a hash
    table, which differs from one table to the next.  The answer depends on it only in
    the order of the ids inside an item. *)

From S2P Require Import Prelude External Core Index Query Encoding FragmentAccess FilterBlock.

(** Two computations that end alike, in related values. *)
Definition outcome_rel {E A} (R : A -> A -> Prop) (m1 m2 : outcome E A) : Prop :=
  match m1, m2 with
  | Ok a1, Ok a2 => R a1 a2
  | Err e1, Err e2 => e1 = e2
  | Panic, Panic => True
  | _, _ => False
  end.

Lemma outcome_rel_bind {E A B} (R : A -> A -> Prop) (Q : B -> B -> Prop) (m1 m2 : outcome E A) f1 f2 :
  outcome_rel R m1 m2 -> (forall a1 a2, R a1 a2 -> outcome_rel Q (f1 a1) (f2 a2)) ->
  outcome_rel Q (a ← m1; f1 a) (a ← m2; f2 a).
Proof. destruct m1, m2; try done. intros HR Hf. by apply Hf. Qed.

Lemma outcome_rel_same {E A} (R : A -> A -> Prop) (m : outcome E A) : (forall a, R a a) -> outcome_rel R m m.
Proof. intros HR. destruct m; simpl; auto. Qed.

Lemma outcome_rel_ofold {E A B} (R : A -> A -> Prop) (f1 f2 : A -> B -> outcome E A) l a1 a2 :
  (forall a1 a2 b, R a1 a2 -> outcome_rel R (f1 a1 b) (f2 a2 b)) -> R a1 a2 ->
  outcome_rel R (ofold f1 a1 l) (ofold f2 a2 l).
Proof.
  intros Hf. revert a1 a2. induction l as [|b l IH]; intros a1 a2 HR; [done|]. cbn [ofold].
  apply (outcome_rel_bind R); [by apply Hf|]. intros b1 b2. apply IH.
Qed.

(** A fold whose steps commute does not depend on the order. *)
Lemma foldl_perm {A B} (f : A -> B -> A) l1 l2 a :
  (forall a x y, f (f a x) y = f (f a y) x) -> l1 ≡ₚ l2 -> foldl f a l1 = foldl f a l2.
Proof.
  intros Hf Hp. revert a. induction Hp as [|x l1 l2 Hp IH|x y l|l1 l2 l3 H1 IH1 H2 IH2]; intros a; simpl.
  - done.
  - apply IH.
  - by rewrite Hf.
  - by rewrite IH1, IH2.
Qed.

(** ** The matches do not depend on the order *)

Lemma add_single_comm m a b i : add_single_match (add_single_match m a i) b i = add_single_match (add_single_match m b i) a i.
Proof.
  unfold add_single_match. rewrite !lookup_insert_eq, !insert_insert_eq. f_equal. simpl. set_solver.
Qed.

Lemma lookup_add_singles m id (l : list Z) i :
  foldl (fun m index => add_single_match m id index) m l !! i =
  if decide (i ∈ l) then Some ({[id]} ∪ default ∅ (m !! i)) else m !! i.
Proof.
  revert m. induction l as [|j l IH]; intros m; simpl; [done|]. rewrite IH. unfold add_single_match.
  destruct (decide (i = j)) as [->|Hne].
  - rewrite lookup_insert_eq, (decide_True (P := j ∈ j :: l)) by set_solver. simpl.
    destruct (decide (j ∈ l)); [|done]. f_equal. set_solver.
  - rewrite lookup_insert_ne by done. destruct (decide (i ∈ l)); [rewrite decide_True by set_solver|rewrite decide_False by set_solver]; done.
Qed.

Lemma add_match_comm m a b bm : add_match (add_match m a bm) b bm = add_match (add_match m b bm) a bm.
Proof.
  apply map_eq. intros i. unfold add_match. rewrite !lookup_add_singles. destruct (decide (i ∈ bitmap_iter bm)); [|done].
  simpl. f_equal. set_solver.
Qed.

Section order.
Context `{!Roaring, !Prost, !BlockArchives}.
Variables o1 o2 : HashOrder Z.

Lemma hash_iter_orders place s : hash_iter (HashOrder := o1) place s ≡ₚ hash_iter (HashOrder := o2) place s.
Proof. by rewrite !hash_iter_perm. Qed.

Lemma follow_match_order index target m :
  follow_match (HashOrder0 := o1) index target m = follow_match (HashOrder0 := o2) index target m.
Proof.
  unfold follow_match. destruct index as [inner|inner].
  - destruct (join_one_get inner m.1) as [[i|]| |]; try done. cbn [mbind outcome_bind]. f_equal.
    apply foldl_perm; [intros; apply add_single_comm|apply hash_iter_orders].
  - destruct (join_many_get inner m.1) as [[bm|]| |]; try done. cbn [mbind outcome_bind]. f_equal.
    apply foldl_perm; [intros; apply add_match_comm|apply hash_iter_orders].
Qed.

Lemma follow_join_order access acc entry :
  follow_join (HashOrder0 := o1) access acc entry = follow_join (HashOrder0 := o2) access acc entry.
Proof.
  destruct entry as [[source target] fm]. unfold follow_join.
  destruct (change_context DataStreamErr (get_join_fragment access source)) as [jf| |]; try done. cbn [mbind outcome_bind].
  destruct (ok_or DataStreamErr _) as [join| |]; try done. cbn [mbind outcome_bind].
  rewrite (ofold_ext _ (follow_match (HashOrder0 := o2) (fj_index join))); [done|]. intros. apply follow_match_order.
Qed.

(** ** Neither do the sizes *)

Lemma packed_step_comm (len : outcome DataStreamError Z) a b :
  let step (len : outcome DataStreamError Z) id := len ← len; ok_or DataStreamErr (checked_add len (encoded_len_varint id)) in
  step (step len a) b = step (step len b) a.
Proof.
  intros step. destruct len as [n| |]; try done. unfold step. cbn [mbind outcome_bind]. unfold checked_add.
  pose proof (encoded_len_varint_usize a). pose proof (encoded_len_varint_usize b).
  repeat match goal with |- context [if ?x <? ?y then _ else _] => destruct (Z.ltb_spec x y); cbn [ok_or mbind outcome_bind] end;
    try done; try lia; f_equal; lia.
Qed.

Lemma packed_len_perm ids1 ids2 : ids1 ≡ₚ ids2 -> packed_filter_ids_payload_len ids1 = packed_filter_ids_payload_len ids2.
Proof. intros Hp. unfold packed_filter_ids_payload_len. apply foldl_perm; [|done]. intros. apply packed_step_comm. Qed.

Lemma item_size_order fid body n m :
  item_size (HashOrder0 := o1) fid body n m = item_size (HashOrder0 := o2) fid body n m.
Proof.
  unfold item_size, encoded_body_item_len, encoded_filter_ids_len.
  by rewrite (packed_len_perm _ _ (hash_iter_orders [fid; m.1] m.2)).
Qed.

Lemma fragment_size_order n entry :
  fragment_size (HashOrder0 := o1) n entry = fragment_size (HashOrder0 := o2) n entry.
Proof. destruct entry as [[fid body] fm]. apply ofold_ext. intros. apply item_size_order. Qed.

(** ** The bytes *)

(** Two messages with the same items, up to the order of the filter ids of an item. *)
Inductive same_items : list byte -> list byte -> Prop :=
| same_start out : same_items out out
| same_item fid ids1 ids2 message out1 out2 out1' out2' :
    same_items out1 out2 -> ids1 ≡ₚ ids2 ->
    encode_body_item fid ids1 message out1 = Ok out1' -> encode_body_item fid ids2 message out2 = Ok out2' ->
    same_items out1' out2'.

Lemma encode_item_order fid ids1 ids2 message out1 out2 :
  ids1 ≡ₚ ids2 -> same_items out1 out2 ->
  outcome_rel same_items (encode_body_item fid ids1 message out1) (encode_body_item fid ids2 message out2).
Proof.
  intros Hp Hs.
  assert (outcome_rel (fun _ _ => True) (encode_body_item fid ids1 message out1) (encode_body_item fid ids2 message out2)) as Hr.
  { unfold encode_body_item. rewrite (packed_len_perm _ _ Hp).
    destruct (packed_filter_ids_payload_len ids2) as [n| |]; try done. cbn [mbind outcome_bind].
    destruct (if n =? 0 then _ else _) as [k| |]; try done. cbn [mbind outcome_bind].
    by destruct (ok_or _ _). }
  destruct (encode_body_item fid ids1 message out1) as [out1'|e|] eqn:He1;
    destruct (encode_body_item fid ids2 message out2) as [out2'|e'|] eqn:He2; try done. by eapply same_item.
Qed.

Lemma fragment_bytes_order entry out1 out2 :
  same_items out1 out2 ->
  outcome_rel same_items (fragment_bytes (HashOrder0 := o1) out1 entry) (fragment_bytes (HashOrder0 := o2) out2 entry).
Proof.
  intros Hs. destruct entry as [[fid body] fm]. apply outcome_rel_ofold; [|done]. intros a1 a2 m Ha. unfold item_bytes.
  apply (outcome_rel_bind eq); [by apply outcome_rel_same|]. intros message _ <-. apply encode_item_order; [apply hash_iter_orders|done].
Qed.

(** The size of an encoded item. *)
Lemma encode_ids_length ids n out :
  length (encode_filter_ids ids n out) =
  if n =? 0 then length out
  else (length out + length (encode_key FILTER_IDS_TAG LengthDelimited ++ encode_varint n) + sum_list ((fun id => length (encode_varint id)) <$> ids))%nat.
Proof.
  unfold encode_filter_ids. destruct (n =? 0); [done|]. rewrite <- length_app.
  generalize (out ++ encode_key FILTER_IDS_TAG LengthDelimited ++ encode_varint n).
  induction ids as [|id ids IH]; intros l; [simpl; lia|].
  rewrite fmap_cons. simpl foldl. simpl sum_list. rewrite IH, length_app. lia.
Qed.

Lemma same_items_length out1 out2 : same_items out1 out2 -> length out1 = length out2.
Proof.
  induction 1 as [|fid ids1 ids2 message out1 out2 out1' out2' Hs IH Hp He1 He2]; [done|].
  revert He1 He2. unfold encode_body_item. rewrite (packed_len_perm _ _ Hp).
  destruct (packed_filter_ids_payload_len ids2) as [n| |]; try done. cbn [mbind outcome_bind].
  destruct (if n =? 0 then _ else _) as [k| |]; try done. cbn [mbind outcome_bind].
  destruct (ok_or _ _) as [len| |]; try done. cbn [mbind outcome_bind]. intros [= <-] [= <-].
  rewrite !length_app, !encode_ids_length, !length_app, IH.
  replace (sum_list ((fun id => length (encode_varint id)) <$> ids1)) with (sum_list ((fun id => length (encode_varint id)) <$> ids2)); [done|].
  by rewrite Hp.
Qed.

Lemma filter_one_order access names is_live bf :
  outcome_rel (fun r1 r2 => r1.1 = r2.1 /\ same_items r1.2 r2.2)
    (filter_one (HashOrder0 := o1) access names is_live bf) (filter_one (HashOrder0 := o2) access names is_live bf).
Proof.
  unfold filter_one. apply (outcome_rel_bind eq); [by apply outcome_rel_same|]. intros m _ <-.
  rewrite (ofold_ext (follow_join (HashOrder0 := o1) access) (follow_join (HashOrder0 := o2) access)) by (intros; apply follow_join_order).
  apply (outcome_rel_bind eq); [by apply outcome_rel_same|]. intros matches _ <-.
  apply (outcome_rel_bind eq); [by apply outcome_rel_same|]. intros header _ <-.
  apply (outcome_rel_bind eq); [by apply outcome_rel_same|]. intros fragments _ <-.
  apply (outcome_rel_bind eq); [by apply outcome_rel_same|]. intros header_size _ <-.
  rewrite (ofold_ext (fragment_size (HashOrder0 := o1)) (fragment_size (HashOrder0 := o2))) by (intros; apply fragment_size_order).
  apply (outcome_rel_bind eq); [by apply outcome_rel_same|]. intros size _ <-.
  apply (outcome_rel_bind same_items); [|by intros out1 out2].
  apply outcome_rel_ofold; [|apply same_start]. intros out1 out2 entry. apply fragment_bytes_order.
Qed.

(** Two answers: both have data or neither has, and their messages have the same items
    up to the order of the filter ids of an item. *)
Definition same_answer (r1 r2 : bool * list (list byte)) : Prop := r1.1 = r2.1 /\ Forall2 same_items r1.2 r2.2.

Lemma filter_fragment_order bfs names access is_live :
  outcome_rel same_answer (filter_fragment (HashOrder0 := o1) bfs names access is_live)
    (filter_fragment (HashOrder0 := o2) bfs names access is_live).
Proof.
  apply outcome_rel_ofold; [|by split]. intros [b1 l1] [b2 l2] bf [Hb Hl]. cbn [fst snd] in *.
  eapply outcome_rel_bind; [apply filter_one_order|]. intros r1 r2 [_ Hs]. split; cbn [fst snd].
  - rewrite Hb. do 2 f_equal. apply bool_decide_ext. apply same_items_length in Hs.
    destruct r1.2, r2.2; cbn in Hs; done.
  - apply Forall2_app; [done|]. by constructor.
Qed.
End order.
