(* ===== verification/FilterBlockFacts.v ===== *)
(** * Facts about filtering a block

    [selects] is the reference meaning of a block filter: which rows of which
    fragments are selected, by which filters, directly or along a join.
    [filter_one] computes exactly these rows, writes them in order as protobuf
    fields and announces their size correctly. *)

From S2P Require Import Prelude External Core Index IndexSpec Query QuerySpec Encoding EncodingSpec FragmentAccess FilterBlock.

(** The filters recorded for a row, in one fragment and in all of them. *)
Definition ids_at (m : FilterMatch) (row : Z) : gset Z := default ∅ (m !! row).

Definition ids_in {K} `{Countable K} (M : gmap K FilterMatch) (k : K) (row : Z) : gset Z :=
  ids_at (default ∅ (M !! k)) row.

Definition all_match_wf {K} `{Countable K} (M : gmap K FilterMatch) : Prop :=
  forall k m, M !! k = Some m -> match_wf m.

Lemma all_match_wf_default {K} `{Countable K} (M : gmap K FilterMatch) k :
  all_match_wf M -> match_wf (default ∅ (M !! k)).
Proof. intros HM. destruct (M !! k) eqn:Hk; simpl; [by eapply HM|apply match_wf_empty]. Qed.

Lemma all_match_wf_insert {K} `{Countable K} (M : gmap K FilterMatch) k m :
  all_match_wf M -> match_wf m -> all_match_wf (<[k := m]> M).
Proof.
  intros HM Hm k' m'. rewrite lookup_insert. case_decide; [by intros [= <-]|]. apply HM.
Qed.

Lemma ids_in_insert {K} `{Countable K} (M : gmap K FilterMatch) k m k' row :
  ids_in (<[k := m]> M) k' row = if decide (k' = k) then ids_at m row else ids_in M k' row.
Proof.
  unfold ids_in. case_decide as Hd.
  - subst. by rewrite lookup_insert_eq.
  - by rewrite lookup_insert_ne.
Qed.

Lemma ids_in_empty {K} `{Countable K} k row : ids_in (∅ : gmap K FilterMatch) k row = ∅.
Proof. unfold ids_in, ids_at. rewrite lookup_empty. simpl. by rewrite lookup_empty. Qed.

Lemma elem_of_ids_add_match m fid bm row id :
  id ∈ ids_at (add_match m fid bm) row <-> (row ∈ bm /\ id = fid) \/ id ∈ ids_at m row.
Proof. apply elem_of_add_match. Qed.

Lemma ids_empty_match m : match_wf m -> (forall row id, id ∉ ids_at m row) -> m = ∅.
Proof.
  intros Hm He. apply map_empty. intros row. destruct (m !! row) as [ids|] eqn:Hr; [|done].
  exfalso. pose proof (Hm _ _ Hr) as Hne. apply set_choose_L in Hne as [id Hid].
  apply (He row id). unfold ids_at. by rewrite Hr.
Qed.

Lemma exists_snoc {A} (P : A -> Prop) l x :
  (exists y, y ∈ l ++ [x] /\ P y) <-> (exists y, y ∈ l /\ P y) \/ P x.
Proof.
  split.
  - intros (y & [Hy| ->%list_elem_of_singleton]%elem_of_app & HP); eauto.
  - intros [(y & Hy & HP)|HP]; [exists y|exists x]; (split; [|done]); apply elem_of_app; set_solver.
Qed.

Section spec.
Context `{!Roaring, !Prost, !HashOrder Z, !BlockArchives}.
Variables (access : FragmentAccess) (bf : BlockFilter).

(** The rows each filter selects in its own fragment, and the rows of a
    target fragment a row of a source fragment is joined to. *)
Variable selected : Filter -> gset Z.
Variable joined : Z -> Z -> Z -> gset Z.

(** The answer of a join index for a row. *)
Definition join_answer (index : JoinTo) (row : Z) (rows : gset Z) : Prop :=
  match index with
  | JoinOne inner => exists o, (join_one_get inner row : outcome DataStreamError _) = Ok o /\
      rows = match o with Some i => {[i]} | None => ∅ end
  | JoinMany inner => exists o, (join_many_get inner row : outcome DataStreamError _) = Ok o /\
      rows = default ∅ o
  end.

Hypothesis index_ok : forall fid fs, filters bf !! fid = Some fs ->
  exists idx, get_index_fragment access fid = Ok idx /\
    forall f, f ∈ fs -> filter_rows f idx = Ok (selected f).

Hypothesis join_ok : forall fid fs f t,
  filters bf !! fid = Some fs -> f ∈ fs -> selected f <> ∅ -> t ∈ joins f ->
  exists jf j, get_join_fragment access fid = Ok jf /\
    find_first (fun j => fj_to_fragment_id j =? t) (jf_joins jf) = Some j /\
    forall row, join_answer (fj_index j) row (joined fid t row).

(** A filter of the block filter, with its fragment. *)
Definition has_filter (fid : Z) (f : Filter) : Prop :=
  exists fs, filters bf !! fid = Some fs /\ f ∈ fs.

(** Filter [id] selects row [row] of fragment [fid]. *)
Definition selects (fid row id : Z) : Prop :=
  exists s f, has_filter s f /\ filter_id f = id /\
    ((fid = s /\ row ∈ selected f) \/
     (fid ∈ joins f /\ exists row', row' ∈ selected f /\ row ∈ joined s fid row')).

(** ** The filters of one fragment *)

Lemma join_targets_spec (fid fidf : Z) (rows : gset Z) (ts : list Z) (js : gmap (Z * Z) FilterMatch) :
  rows <> ∅ -> all_match_wf js ->
  let js' := foldl (fun js target =>
    <[(fid, target) := add_match (default ∅ (js !! (fid, target))) fidf rows]> js) js ts in
  all_match_wf js' /\
  (forall k row id, id ∈ ids_in js' k row <->
     id ∈ ids_in js k row \/ (k.1 = fid /\ k.2 ∈ ts /\ id = fidf /\ row ∈ rows)) /\
  (forall k, is_Some (js' !! k) <-> is_Some (js !! k) \/ (k.1 = fid /\ k.2 ∈ ts)).
Proof.
  intros Hr. revert js. induction ts as [|t ts IH]; intros js Hwf.
  { simpl. pose proof (not_elem_of_nil (A := Z)). split_and!; [done|naive_solver|naive_solver]. }
  simpl. set (js1 := <[(fid, t) := _]> js).
  destruct (IH js1) as (I1 & I2 & I3).
  { apply all_match_wf_insert; [done|]. apply add_match_wf. by apply all_match_wf_default. }
  split_and!; [done| |].
  - intros k row id. rewrite I2. subst js1. rewrite ids_in_insert. case_decide as Hd.
    + subst k. rewrite elem_of_ids_add_match, elem_of_cons. unfold ids_in. cbn [fst snd]. tauto.
    + destruct k as [k1 k2]. rewrite elem_of_cons. cbn [fst snd]. naive_solver.
  - intros k. rewrite I3. subst js1. rewrite lookup_insert_is_Some. destruct k as [k1 k2]. simpl.
    rewrite elem_of_cons. destruct (decide ((fid, t) = (k1, k2))); naive_solver.
Qed.

Lemma match_filters_spec fid idx fs js :
  (forall f, f ∈ fs -> filter_rows f idx = Ok (selected f)) -> all_match_wf js ->
  exists m js', ofold (match_filter fid idx) (∅, js) fs = Ok (m, js') /\
    match_wf m /\ all_match_wf js' /\
    (forall row id, id ∈ ids_at m row <-> exists f, f ∈ fs /\ filter_id f = id /\ row ∈ selected f) /\
    (forall k row id, id ∈ ids_in js' k row <->
       id ∈ ids_in js k row \/
       (k.1 = fid /\ exists f, f ∈ fs /\ filter_id f = id /\ k.2 ∈ joins f /\ row ∈ selected f)) /\
    (forall k, is_Some (js' !! k) <->
       is_Some (js !! k) \/ (k.1 = fid /\ exists f, f ∈ fs /\ selected f <> ∅ /\ k.2 ∈ joins f)).
Proof.
  intros Hrows Hjs.
  destruct (ofold_inv (fun pre (acc : FilterMatch * gmap (Z * Z) FilterMatch) =>
    match_wf acc.1 /\ all_match_wf acc.2 /\
    (forall row id, id ∈ ids_at acc.1 row <-> exists f, f ∈ pre /\ filter_id f = id /\ row ∈ selected f) /\
    (forall k row id, id ∈ ids_in acc.2 k row <->
       id ∈ ids_in js k row \/
       (k.1 = fid /\ exists f, f ∈ pre /\ filter_id f = id /\ k.2 ∈ joins f /\ row ∈ selected f)) /\
    (forall k, is_Some (acc.2 !! k) <->
       is_Some (js !! k) \/ (k.1 = fid /\ exists f, f ∈ pre /\ selected f <> ∅ /\ k.2 ∈ joins f)))
    (match_filter fid idx) fs (∅, js)) as ([m js'] & Hf & Hinv).
  - simpl. split_and!; [apply match_wf_empty|done| | |].
    + intros row id. unfold ids_at. rewrite lookup_empty. set_solver.
    + set_solver.
    + set_solver.
  - intros pre f post [m js1] -> (Hm & Hj & I1 & I2 & I3). cbn [fst snd] in *.
    unfold match_filter. rewrite Hrows by set_solver. cbn [change_context mbind outcome_bind fst snd].
    assert (forall row id, id ∈ ids_at (add_match m (filter_id f) (selected f)) row <->
       exists g, g ∈ pre ++ [f] /\ filter_id g = id /\ row ∈ selected g) as I1'.
    { intros row id. rewrite elem_of_ids_add_match, I1, exists_snoc. naive_solver. }
    case_bool_decide as He.
    + eexists. split; [done|]. cbn [fst snd]. split_and!; [by apply add_match_wf|done|done| |].
      * intros k row id. rewrite I2, exists_snoc, He.
        pose proof (not_elem_of_empty (C := gset Z) row). tauto.
      * intros k. rewrite I3, exists_snoc. tauto.
    + destruct (join_targets_spec fid (filter_id f) (selected f) (joins f) js1 He Hj) as (Hj' & I2' & I3').
      eexists. split; [done|]. cbn [fst snd]. split_and!; [by apply add_match_wf|done|done| |].
      * intros k row id. rewrite I2', I2, exists_snoc. naive_solver.
      * intros k. rewrite I3', I3, exists_snoc. tauto.
  - exists m, js'. by split.
Qed.

(** ** All the fragments *)

Definition in_entries (l : list (Z * list Filter)) (fid : Z) (f : Filter) : Prop :=
  exists fs, (fid, fs) ∈ l /\ f ∈ fs.

Lemma in_entries_snoc l s fs fid f :
  in_entries (l ++ [(s, fs)]) fid f <-> in_entries l fid f \/ (fid = s /\ f ∈ fs).
Proof.
  unfold in_entries. split.
  - intros (fs' & [Hy|Hy%list_elem_of_singleton]%elem_of_app & Hf); [left; eauto|].
    injection Hy as -> ->. by right.
  - intros [(fs' & Hy & Hf)|[-> Hf]]; eexists; (split; [|done]); apply elem_of_app; [by left|].
    right. by apply list_elem_of_singleton.
Qed.

Lemma in_entries_iter fid f : in_entries (block_filter_iter bf) fid f <-> has_filter fid f.
Proof.
  unfold in_entries, has_filter, block_filter_iter. split; intros (fs & Hfs & Hf); exists fs;
    (split; [|done]); by apply elem_of_btree_iter.
Qed.

Definition matches_spec (P : Z -> Filter -> Prop) (m : Matches) : Prop :=
  all_match_wf (fragment_matches m) /\ all_match_wf (join_matches m) /\
  (forall fid row id, id ∈ ids_in (fragment_matches m) fid row <->
     exists f, P fid f /\ filter_id f = id /\ row ∈ selected f) /\
  (forall k row id, id ∈ ids_in (join_matches m) k row <->
     exists f, P k.1 f /\ filter_id f = id /\ k.2 ∈ joins f /\ row ∈ selected f) /\
  (forall k, is_Some (join_matches m !! k) <->
     exists f, P k.1 f /\ selected f <> ∅ /\ k.2 ∈ joins f) /\
  (forall fid, is_Some (fragment_matches m !! fid) <-> exists f, P fid f /\ selected f <> ∅).

Lemma ids_at_empty m row id : match_is_empty m = true -> id ∉ ids_at m row.
Proof.
  unfold match_is_empty. intros ->%bool_decide_eq_true. unfold ids_at. rewrite lookup_empty. set_solver.
Qed.

Lemma matches_step pre fid fs m m1 js1 :
  (forall f, ~ in_entries pre fid f) ->
  matches_spec (in_entries pre) m ->
  match_wf m1 -> all_match_wf js1 ->
  (forall row id, id ∈ ids_at m1 row <-> exists f, f ∈ fs /\ filter_id f = id /\ row ∈ selected f) ->
  (forall k row id, id ∈ ids_in js1 k row <->
     id ∈ ids_in (join_matches m) k row \/
     (k.1 = fid /\ exists f, f ∈ fs /\ filter_id f = id /\ k.2 ∈ joins f /\ row ∈ selected f)) ->
  (forall k, is_Some (js1 !! k) <->
     is_Some (join_matches m !! k) \/ (k.1 = fid /\ exists f, f ∈ fs /\ selected f <> ∅ /\ k.2 ∈ joins f)) ->
  matches_spec (in_entries (pre ++ [(fid, fs)]))
    (mkMatches (if match_is_empty m1 then fragment_matches m else <[fid := m1]> (fragment_matches m)) js1).
Proof.
  intros Hnew (Hw & Hj & I1 & I2 & I3 & I4) Hm1 Hjs1 J1 J2 J3.
  unfold matches_spec. cbn [fragment_matches join_matches]. split_and!.
  - destruct (match_is_empty m1); [done|]. by apply all_match_wf_insert.
  - done.
  - intros g row id. transitivity ((exists f, in_entries pre g f /\ filter_id f = id /\ row ∈ selected f) \/
      (g = fid /\ exists f, f ∈ fs /\ filter_id f = id /\ row ∈ selected f)).
    2:{ setoid_rewrite in_entries_snoc. naive_solver. }
    destruct (match_is_empty m1) eqn:He.
    + rewrite I1. split; [by left|]. intros [?|[-> Hex]]; [done|]. apply J1 in Hex.
      by apply ids_at_empty in Hex.
    + rewrite ids_in_insert. case_decide as Hd.
      * subst g. rewrite J1. split; [by right|]. intros [(f & Hf & _)|[_ Hex]]; [|done]. by apply Hnew in Hf.
      * rewrite I1. split; [by left|]. intros [?|[? _]]; done.
  - intros k row id. rewrite J2, I2. setoid_rewrite in_entries_snoc. naive_solver.
  - intros k. rewrite J3, I3. setoid_rewrite in_entries_snoc. naive_solver.
  - intros g. transitivity ((exists f, in_entries pre g f /\ selected f <> ∅) \/
      (g = fid /\ exists f, f ∈ fs /\ selected f <> ∅)).
    2:{ setoid_rewrite in_entries_snoc. naive_solver. }
    assert ((exists f, f ∈ fs /\ selected f <> ∅) <-> match_is_empty m1 = false) as Hne.
    { split.
      - intros (f & Hf & Hs). apply set_choose_L in Hs as [row Hrow]. apply not_true_is_false. intros He.
        apply (ids_at_empty m1 row (filter_id f) He). apply J1. eauto.
      - intros He. unfold match_is_empty in He. apply bool_decide_eq_false in He.
        apply map_choose in He as (row & ids & Hr). destruct (proj1 (match_is_Some m1 row Hm1)) as [id Hid]; [eauto|].
        apply J1 in Hid as (f & Hf & _ & Hrow). exists f. set_solver. }
    destruct (match_is_empty m1) eqn:He.
    + rewrite I4. split; [by left|]. intros [?|[-> Hex]]; [done|]. by apply Hne in Hex.
    + rewrite lookup_insert_is_Some. destruct (decide (fid = g)) as [<-|Hd].
      * split; [intros _; right; split; [done|by apply Hne]|by left].
      * rewrite I4. naive_solver.
Qed.

Lemma match_fragments_spec :
  exists m, ofold (match_fragment access) (mkMatches ∅ ∅) (block_filter_iter bf) = Ok m /\
    matches_spec has_filter m.
Proof using All.
  destruct (ofold_inv (fun pre m => matches_spec (in_entries pre) m) (match_fragment access)
    (block_filter_iter bf) (mkMatches ∅ ∅)) as (m & Hf & Hm).
  - unfold matches_spec. cbn [fragment_matches join_matches].
    assert (forall g f, ~ in_entries [] g f) as Hnil by (intros g f (fs & Hfs & _); set_solver).
    split_and!; try (intros k m; by rewrite lookup_empty).
    + intros. rewrite ids_in_empty. set_solver.
    + intros. rewrite ids_in_empty. set_solver.
    + intros. rewrite lookup_empty. split; [by intros []|naive_solver].
    + intros. rewrite lookup_empty. split; [by intros []|naive_solver].
  - intros pre [fid fs] post m Hl Hm.
    assert ((fid, fs) ∈ block_filter_iter bf) as Hin by (rewrite Hl; apply elem_of_app; right; apply list_elem_of_here).
    apply elem_of_btree_iter in Hin as Hfs.
    destruct (index_ok fid fs Hfs) as (idx & Hidx & Hrows).
    destruct (match_filters_spec fid idx fs (join_matches m) Hrows) as (m1 & js1 & Ho & Hm1 & Hjs1 & J1 & J2 & J3).
    { apply Hm. }
    exists (mkMatches (if match_is_empty m1 then fragment_matches m else <[fid := m1]> (fragment_matches m)) js1).
    split.
    + unfold match_fragment. cbn [fst snd]. rewrite Hidx. cbn [change_context mbind outcome_bind].
      rewrite Ho. cbn [mbind outcome_bind fst snd]. by destruct (match_is_empty m1).
    + apply (matches_step pre fid fs m m1 js1); try done. intros f (fs' & Hp & _).
      pose proof (NoDup_btree_keys (filters bf)) as Hnd. unfold btree_keys in Hnd.
      unfold block_filter_iter in Hl. rewrite Hl, fmap_app, fmap_cons in Hnd.
      apply NoDup_app in Hnd as (_ & Hnd & _). apply (Hnd fid).
      * apply list_elem_of_fmap. exists (fid, fs'). by split.
      * apply list_elem_of_here.
  - exists m. split; [done|]. destruct Hm as (A1 & A2 & A3 & A4 & A5 & A6). unfold matches_spec.
    setoid_rewrite in_entries_iter in A3. setoid_rewrite in_entries_iter in A4.
    setoid_rewrite in_entries_iter in A5. setoid_rewrite in_entries_iter in A6. by split_and!.
Qed.

(** ** Following the joins *)

Lemma elem_of_add_singles t i ids row id :
  id ∈ ids_at (foldl (fun t id => add_single_match t id i) t ids) row <->
  (row = i /\ id ∈ ids) \/ id ∈ ids_at t row.
Proof.
  revert t. induction ids as [|x ids IH]; intros t; simpl; [set_solver|].
  rewrite IH. unfold ids_at at 1. rewrite elem_of_add_single_match, elem_of_cons. unfold ids_at. naive_solver.
Qed.

Lemma elem_of_add_matches t bm ids row id :
  id ∈ ids_at (foldl (fun t id => add_match t id bm) t ids) row <->
  (row ∈ bm /\ id ∈ ids) \/ id ∈ ids_at t row.
Proof.
  revert t. induction ids as [|x ids IH]; intros t; simpl; [set_solver|].
  rewrite IH, elem_of_ids_add_match, elem_of_cons. naive_solver.
Qed.

Lemma fold_match_wf {A} (f : FilterMatch -> A -> FilterMatch) t l :
  (forall t x, match_wf t -> match_wf (f t x)) -> match_wf t -> match_wf (foldl f t l).
Proof. intros Hf. revert t. induction l as [|x l IH]; intros t Ht; simpl; auto. Qed.

Lemma follow_match_spec index target row ids rows :
  join_answer index row rows -> match_wf target ->
  exists t, follow_match index target (row, ids) = Ok t /\ match_wf t /\
    forall r id, id ∈ ids_at t r <-> (r ∈ rows /\ id ∈ ids) \/ id ∈ ids_at target r.
Proof.
  intros Hj Ht. unfold follow_match, join_answer in *. destruct index as [inner|inner]; cbn [fst snd].
  - destruct Hj as (o & Ho & ->). rewrite Ho. cbn [mbind outcome_bind]. destruct o as [i|].
    + eexists. split; [done|]. split.
      * apply fold_match_wf; [|done]. intros. by apply add_single_match_wf.
      * intros r id. rewrite elem_of_add_singles, elem_of_hash_iter. set_solver.
    + exists target. set_solver.
  - destruct Hj as (o & Ho & ->). rewrite Ho. cbn [mbind outcome_bind]. destruct o as [bm|].
    + eexists. split; [done|]. split.
      * apply fold_match_wf; [|done]. intros. by apply add_match_wf.
      * intros r id. by rewrite elem_of_add_matches, elem_of_hash_iter.
    + exists target. set_solver.
Qed.

Lemma follow_matches_spec index (rows : Z -> gset Z) fm target :
  (forall row, join_answer index row (rows row)) -> match_wf target ->
  exists t, ofold (follow_match index) target (match_iter fm) = Ok t /\ match_wf t /\
    forall r id, id ∈ ids_at t r <->
      id ∈ ids_at target r \/ exists row, id ∈ ids_at fm row /\ r ∈ rows row.
Proof.
  intros Hj Ht.
  destruct (ofold_inv (fun (pre : list (Z * gset Z)) t => match_wf t /\
    forall r id, id ∈ ids_at t r <->
      id ∈ ids_at target r \/ exists e, e ∈ pre /\ (id ∈ e.2 /\ r ∈ rows e.1))
    (follow_match index) (match_iter fm) target) as (t & Hf & Hw & Hr).
  - split; [done|]. intros r id. split; [by left|]. intros [?|(e & He & _)]; [done|set_solver].
  - intros pre [row ids] post t Hl [Hw Hr].
    destruct (follow_match_spec index t row ids (rows row)) as (t' & Hf & Hw' & Hr'); [done..|].
    exists t'. split; [done|]. split; [done|]. intros r id. rewrite Hr', Hr, exists_snoc. cbn [fst snd]. tauto.
  - exists t. split; [done|]. split; [done|]. intros r id. rewrite Hr. unfold match_iter, ids_at. split.
    + intros [?|([row ids] & He & Hid & Hin)]; [by left|right]. apply elem_of_btree_iter in He.
      exists row. rewrite He. by split.
    + intros [?|(row & Hid & Hin)]; [by left|right].
      destruct (fm !! row) as [ids|] eqn:He; [|simpl in Hid; set_solver].
      exists (row, ids). split; [by apply elem_of_btree_iter|]. by split.
Qed.

Definition final_spec (matches : gmap Z FilterMatch) : Prop :=
  all_match_wf matches /\
  (forall fid row id, id ∈ ids_in matches fid row <-> selects fid row id) /\
  (forall fid, is_Some (matches !! fid) <->
     exists s f, has_filter s f /\ selected f <> ∅ /\ (fid = s \/ fid ∈ joins f)).

Lemma follow_join_step acc s t jm :
  (exists f, has_filter s f /\ selected f <> ∅ /\ t ∈ joins f) -> all_match_wf acc ->
  exists acc', follow_join access acc (s, t, jm) = Ok acc' /\ all_match_wf acc' /\
    (forall fid row id, id ∈ ids_in acc' fid row <->
       id ∈ ids_in acc fid row \/
       (fid = t /\ exists row', id ∈ ids_at jm row' /\ row ∈ joined s t row')) /\
    (forall fid, is_Some (acc' !! fid) <-> is_Some (acc !! fid) \/ fid = t).
Proof using All.
  intros (f & (fs & Hfs & Hf) & Hne & Ht) Hwf.
  destruct (join_ok s fs f t Hfs Hf Hne Ht) as (jf & j & Hjf & Hj & Hans).
  destruct (follow_matches_spec (fj_index j) (joined s t) jm (default ∅ (acc !! t)) Hans)
    as (tm & Ho & Hw & Hr); [by apply all_match_wf_default|].
  exists (<[t := tm]> acc). split_and!.
  - unfold follow_join. rewrite Hjf. cbn [change_context mbind outcome_bind]. rewrite Hj.
    cbn [ok_or mbind outcome_bind]. rewrite Ho. done.
  - by apply all_match_wf_insert.
  - intros fid row id. rewrite ids_in_insert. case_decide as Hd.
    + subst fid. rewrite Hr. unfold ids_in. naive_solver.
    + naive_solver.
  - intros fid. rewrite lookup_insert_is_Some. destruct (decide (t = fid)); naive_solver.
Qed.

Lemma follow_joins_spec m :
  matches_spec has_filter m ->
  exists matches, ofold (follow_join access) (fragment_matches m) (btree_iter (join_matches m)) = Ok matches /\
    final_spec matches.
Proof using All.
  intros (Hw & Hj & A1 & A2 & A3 & A4).
  destruct (ofold_inv (fun (pre : list (Z * Z * FilterMatch)) acc => all_match_wf acc /\
    (forall fid row id, id ∈ ids_in acc fid row <->
       id ∈ ids_in (fragment_matches m) fid row \/
       exists e, e ∈ pre /\ (fid = e.1.2 /\ exists row', id ∈ ids_at e.2 row' /\ row ∈ joined e.1.1 fid row')) /\
    (forall fid, is_Some (acc !! fid) <->
       is_Some (fragment_matches m !! fid) \/ exists e, e ∈ pre /\ fid = e.1.2))
    (follow_join access) (btree_iter (join_matches m)) (fragment_matches m)) as (matches & Hf & Hwf & B1 & B2).
  - split; [done|]. split; intros; (split; [by left|]); intros [?|(e & He & _)]; (done || set_solver).
  - intros pre [[s t] jm] post acc Hl (Hwf & B1 & B2).
    assert ((s, t, jm) ∈ btree_iter (join_matches m)) as Hin%elem_of_btree_iter
      by (rewrite Hl; apply elem_of_app; right; apply list_elem_of_here).
    destruct (follow_join_step acc s t jm) as (acc' & Ho & Hwf' & C1 & C2); [|done|].
    { apply (A3 (s, t)). eauto. }
    exists acc'. split; [done|]. split; [done|]. split.
    + intros fid row id. rewrite C1, B1, exists_snoc. cbn [fst snd]. naive_solver.
    + intros fid. rewrite C2, B2, exists_snoc. cbn [fst snd]. tauto.
  - exists matches. split; [done|]. split; [done|]. split.
    + intros fid row id. rewrite B1, A1. unfold selects. split.
      * intros [(f & Hf' & Hid & Hr)|([[s t] jm] & He & Hfid & row' & Hid & Hr)].
        { exists fid, f. auto. }
        cbn [fst snd] in *. subst t. apply elem_of_btree_iter in He.
        assert (id ∈ ids_in (join_matches m) (s, fid) row') as Hin by (unfold ids_in; by rewrite He).
        apply A2 in Hin as (f & Hf' & Hfid & Ht & Hrow). cbn [fst snd] in *.
        exists s, f. split_and!; [done|done|]. right. eauto.
      * intros (s & f & Hf' & Hid & [[-> Hr]|(Ht & row' & Hrow & Hr)]); [left; eauto|right].
        assert (id ∈ ids_in (join_matches m) (s, fid) row') as Hin by (apply A2; eauto 10).
        unfold ids_in in Hin. destruct (join_matches m !! (s, fid)) as [jm|] eqn:He.
        2:{ simpl in Hin. unfold ids_at in Hin. rewrite lookup_empty in Hin. set_solver. }
        exists (s, fid, jm). split; [by apply elem_of_btree_iter|]. cbn [fst snd]. eauto.
    + intros fid. rewrite B2, A4. split.
      * intros [(f & Hf' & Hne)|([[s t] jm] & He & ->)]; [exists fid, f; auto|]. cbn [fst snd].
        apply elem_of_btree_iter in He. destruct (proj1 (A3 (s, t))) as (f & Hf' & Hne & Ht); [eauto|].
        exists s, f. auto.
      * intros (s & f & Hf' & Hne & [->|Ht]); [left; eauto|right].
        destruct (proj2 (A3 (s, fid))) as [jm Hjm]; [eauto|].
        exists (s, fid, jm). split; [by apply elem_of_btree_iter|done].
Qed.

(** ** The bytes *)

Variable names : gmap Z string.
Variable body : Z -> BodyFragment.
Variable header : HeaderFragment.

(** The message of a row. *)
Definition message (fid row : Z) : list byte := default [] (bf_data (body fid) !! Z.to_nat row).

Definition render_item (fid : Z) (e : Z * gset Z) : list byte :=
  item fid (hash_iter [fid; e.1] e.2) (message fid e.1).

Definition render_fragment (e : Z * FilterMatch) : list byte := match_iter e.2 ≫= render_item e.1.

Definition render_header (send : bool) : list byte :=
  if send then field HEADER_FRAGMENT_ID (hf_data header) else [].

Definition render (send : bool) (matches : gmap Z FilterMatch) : list byte :=
  render_header send ++ (btree_iter matches ≫= render_fragment).

(** A matched row can be written. *)
Definition writable (fid : Z) (e : Z * gset Z) : Prop :=
  valid_tag fid /\ 0 <= e.1 /\ is_Some (bf_data (body fid) !! Z.to_nat e.1) /\
  Forall is_u64 (hash_iter [fid; e.1] e.2).

Lemma writable_message {E} fid e :
  writable fid e -> (index_vec (bf_data (body fid)) e.1 : outcome E _) = Ok (message fid e.1).
Proof.
  intros (_ & Hnn & [msg Hmsg] & _). apply index_vec_Ok. split; [done|]. unfold message.
  by rewrite Hmsg.
Qed.

Lemma item_size_ok fid n e :
  writable fid e -> 0 <= n -> n + zlen (render_item fid e) < U64 ->
  item_size fid (body fid) n e = Ok (n + zlen (render_item fid e)).
Proof.
  intros He Hn Hl. unfold item_size. rewrite (writable_message fid e) by done. simpl.
  destruct He as (Ht & _ & _ & Hids). fold (zlen (message fid e.1)).
  rewrite body_item_len_ok; [|done|done|unfold render_item in *; lia].
  simpl. fold (render_item fid e). by rewrite checked_add_Some by lia.
Qed.

Lemma item_bytes_step fid e out :
  writable fid e -> zlen (render_item fid e) < U64 ->
  item_bytes fid (body fid) out e = Ok (out ++ render_item fid e).
Proof.
  intros He Hl. unfold item_bytes. rewrite (writable_message fid e) by done. simpl.
  destruct He as (Ht & _ & _ & Hids). by rewrite encode_body_item_ok.
Qed.

Lemma item_sizes_ok fid l n :
  Forall (writable fid) l -> 0 <= n -> n + zlen (l ≫= render_item fid) < U64 ->
  ofold (item_size fid (body fid)) n l = Ok (n + zlen (l ≫= render_item fid)).
Proof.
  intros Hw. revert n. induction Hw as [|e l He Hw IH]; intros n Hn Hl.
  { simpl. f_equal. unfold zlen. simpl. lia. }
  rewrite bind_cons, zlen_app in *. pose proof (zlen_nonneg (render_item fid e)).
  pose proof (zlen_nonneg (l ≫= render_item fid)). cbn [ofold].
  rewrite item_size_ok by (done || lia). cbn [mbind outcome_bind]. rewrite IH by lia. f_equal. lia.
Qed.

Lemma item_bytes_ok fid l out :
  Forall (writable fid) l -> zlen (l ≫= render_item fid) < U64 ->
  ofold (item_bytes fid (body fid)) out l = Ok (out ++ (l ≫= render_item fid)).
Proof.
  intros Hw. revert out. induction Hw as [|e l He Hw IH]; intros out Hl.
  { simpl. by rewrite app_nil_r. }
  rewrite bind_cons, zlen_app in *. pose proof (zlen_nonneg (render_item fid e)).
  pose proof (zlen_nonneg (l ≫= render_item fid)). cbn [ofold].
  rewrite item_bytes_step by (done || lia). cbn [mbind outcome_bind]. rewrite IH by lia.
  by rewrite <- (assoc_L (++)).
Qed.

Definition with_body (e : Z * FilterMatch) : Z * BodyFragment * FilterMatch := (e.1, body e.1, e.2).

Lemma fragment_sizes_ok l n :
  Forall (fun e => Forall (writable e.1) (match_iter e.2)) l ->
  0 <= n -> n + zlen (l ≫= render_fragment) < U64 ->
  ofold fragment_size n (with_body <$> l) = Ok (n + zlen (l ≫= render_fragment)).
Proof.
  intros Hw. revert n. induction Hw as [|e l He Hw IH]; intros n Hn Hl.
  { simpl. f_equal. unfold zlen. simpl. lia. }
  rewrite bind_cons, zlen_app in *. pose proof (zlen_nonneg (render_fragment e)).
  pose proof (zlen_nonneg (l ≫= render_fragment)). rewrite fmap_cons. cbn [ofold].
  assert (fragment_size n (with_body e) = Ok (n + zlen (render_fragment e))) as ->
    by (apply item_sizes_ok; [done|done|unfold render_fragment in *; lia]).
  cbn [mbind outcome_bind]. rewrite IH by lia. f_equal. lia.
Qed.

Lemma fragments_bytes_ok l out :
  Forall (fun e => Forall (writable e.1) (match_iter e.2)) l ->
  zlen (l ≫= render_fragment) < U64 ->
  ofold fragment_bytes out (with_body <$> l) = Ok (out ++ (l ≫= render_fragment)).
Proof.
  intros Hw. revert out. induction Hw as [|e l He Hw IH]; intros out Hl.
  { simpl. by rewrite app_nil_r. }
  rewrite bind_cons, zlen_app in *. pose proof (zlen_nonneg (render_fragment e)).
  pose proof (zlen_nonneg (l ≫= render_fragment)). rewrite fmap_cons. cbn [ofold].
  assert (fragment_bytes out (with_body e) = Ok (out ++ render_fragment e)) as ->
    by (apply item_bytes_ok; [done|unfold render_fragment in *; lia]).
  cbn [mbind outcome_bind]. rewrite IH by lia. by rewrite <- (assoc_L (++)).
Qed.

Hypothesis header_ok : get_header_fragment access = Ok header.

Hypothesis body_ok : forall s f fid, has_filter s f -> fid = s \/ fid ∈ joins f ->
  is_Some (names !! fid) /\ get_body_fragment access fid = Ok (body fid) /\ valid_tag fid.

Hypothesis rows_ok : forall fid row id, selects fid row id ->
  0 <= row /\ is_Some (bf_data (body fid) !! Z.to_nat row) /\ is_u64 id.

Lemma matches_writable matches :
  final_spec matches -> Forall (fun e => Forall (writable e.1) (match_iter e.2)) (btree_iter matches).
Proof using All.
  intros (Hw & Hs & Hk). apply Forall_forall. intros [fid m] Hm%elem_of_btree_iter. cbn [fst snd].
  apply Forall_forall. intros [row ids] Hr%elem_of_btree_iter.
  assert (forall id, id ∈ ids <-> selects fid row id) as Hids.
  { intros id. rewrite <- Hs. unfold ids_in, ids_at. by rewrite Hm; simpl; rewrite Hr. }
  destruct (set_choose_L ids) as [id0 Hid0]; [by apply (Hw _ _ Hm row)|].
  apply Hids in Hid0 as Hsel. destruct (rows_ok _ _ _ Hsel) as (H0' & Hrow & _).
  destruct (proj1 (Hk fid)) as (s & f & Hf & _ & Hfid); [eauto|].
  destruct (body_ok s f fid Hf Hfid) as (_ & _ & Ht).
  split_and!; [done|done|done|]. apply Forall_forall. intros id Hid%elem_of_hash_iter.
  apply Hids in Hid. by apply rows_ok in Hid as (_ & _ & ?).
Qed.

Lemma filter_one_ok is_live :
  exists matches, final_spec matches /\
    let out := render (should_send_header bf matches is_live) matches in
    (zlen out < U64 -> filter_one access names is_live bf = Ok (zlen out, out)).
Proof using All.
  destruct match_fragments_spec as (m & Hm & Hms).
  destruct (follow_joins_spec m Hms) as (matches & Hf & Hfs).
  exists matches. split; [done|]. cbn zeta. intros Hsize.
  pose proof (matches_writable matches Hfs) as Hw. unfold filter_one. rewrite Hm. cbn [mbind outcome_bind].
  rewrite Hf. cbn [mbind outcome_bind]. set (send := should_send_header bf matches is_live) in *.
  unfold render in *. rewrite zlen_app in *. pose proof (zlen_nonneg (render_header send)).
  pose proof (zlen_nonneg (btree_iter matches ≫= render_fragment)).
  rewrite (omapM_ok _ with_body).
  2:{ intros [fid fm] Hin%elem_of_btree_iter. destruct Hfs as (_ & _ & Hk).
      destruct (proj1 (Hk fid)) as (s & f & Hf' & _ & Hfid); [eauto|].
      destruct (body_ok s f fid Hf' Hfid) as ([nm Hnm] & Hb & _).
      unfold matched_fragment. cbn [fst snd]. rewrite Hnm. cbn [ok_or mbind outcome_bind]. by rewrite Hb. }
  unfold render_header in *. destruct send.
  - rewrite header_ok. cbn [change_context fmap outcome_fmap mbind outcome_bind].
    unfold encoded_header_len. fold (zlen (hf_data header)).
    rewrite field_len_ok by (done || lia). cbn [mbind outcome_bind].
    rewrite fragment_sizes_ok by (done || lia). cbn [mbind outcome_bind].
    rewrite encode_header_ok, app_nil_l. by rewrite fragments_bytes_ok by (done || lia).
  - cbn [mbind outcome_bind]. rewrite fragment_sizes_ok by (done || lia). cbn [mbind outcome_bind].
    by rewrite fragments_bytes_ok by (done || lia).
Qed.
End spec.
