(* ===== verification/FilterBlockSpec.v ===== *)
(** * What a client receives of a block

    Blocks as the ingestion writes them ([block_readable]), the reference
    meaning of a request on such a block ([wanted]), and the theorems: the
    client receives exactly the rows it asked for. *)

From S2P Require Import Prelude External Core Index IndexSpec Query QuerySpec Encoding EncodingSpec FragmentAccess FilterBlock FilterBlockFacts.

(** ** Blocks as the ingestion writes them *)

(** The rows of a join: each source row has at most one target (the last one
    written), or any number of them. *)
Inductive join_model :=
| OneRows (rows : list (Z * Z))
| ManyRows (rows : list (Z * Z)).

(** A fragment: the keys of its rows for every index, the joins to other
    fragments, and the serialised rows. *)
Record fragment_model := mkFragmentModel {
  fm_indexes : list (option (list (ScalarValue * Z)));
  fm_joins : list (Z * join_model);
  fm_body : BodyFragment }.

Definition joins_to (m : join_model) (row row' : Z) : Prop :=
  match m with
  | OneRows rows => snd <$> last (filter (fun e => e.1 = row) rows) = Some row'
  | ManyRows rows => (row, row') ∈ rows
  end.

Definition fm_len (fm : fragment_model) : Z := Z.of_nat (length (bf_data (fm_body fm))).

Section block_model.
Context `{!Roaring, !Prost, !HashOrder Z, !BlockArchives}.

Definition join_built (jm : Z * join_model) (j : FragmentJoin) : Prop :=
  fj_to_fragment_id j = jm.1 /\
  match jm.2, fj_index j with
  | OneRows rows, JoinOne idx => idx = join_one_build (join_one_of_rows rows)
  | ManyRows rows, JoinMany idx => join_many_build (join_many_of_rows rows) = Ok idx
  | _, _ => False
  end.

(** What an access gives for a fragment of the block. *)
Record fragment_readable (access : FragmentAccess) (fid : Z) (fm : fragment_model) : Prop := {
  fr_index : exists idx, get_index_fragment access fid = Ok idx /\
    indexes_model (fm_indexes fm) (if_indexes idx) /\
    if_range_start idx = 0 /\ if_range_len idx = fm_len fm;
  fr_joins : exists jf, get_join_fragment access fid = Ok jf /\
    Forall2 join_built (fm_joins fm) (jf_joins jf);
  fr_body : get_body_fragment access fid = Ok (fm_body fm) }.

(** The block as the access shows it. *)
Record block_readable (access : FragmentAccess) (frags : gmap Z fragment_model)
    (header : HeaderFragment) : Prop := {
  br_fragments : forall fid fm, frags !! fid = Some fm ->
    fragment_readable access fid fm /\ fm_len fm < U32 /\ 1 < fid < 255;
  br_header : get_header_fragment access = Ok header;
  br_joins : forall s fm t jm row row', frags !! s = Some fm -> (t, jm) ∈ fm_joins fm ->
    joins_to jm row row' -> exists tm, frags !! t = Some tm /\ 0 <= row' < fm_len tm }.

(** ** The reference meaning of a request *)

(** The row satisfies all the conditions of the filter. *)
Definition row_selected (frags : gmap Z fragment_model) (f : Filter) (row : Z) : Prop :=
  exists fm, frags !! fragment_id f = Some fm /\ 0 <= row < fm_len fm /\
    Forall (satisfies (fm_indexes fm) row) (conditions f).

(** The first join of the source fragment to the target, as the code finds
    it. *)
Definition find_join (fm : fragment_model) (t : Z) : option join_model :=
  snd <$> find_first (fun jm => jm.1 =? t) (fm_joins fm).

Definition row_joined (frags : gmap Z fragment_model) (s t row row' : Z) : Prop :=
  exists fm jm, frags !! s = Some fm /\ find_join fm t = Some jm /\ joins_to jm row row'.

(** Filter [id] of the request wants row [row] of fragment [fid]. *)
Definition wanted (frags : gmap Z fragment_model) (bf : BlockFilter) (fid row id : Z) : Prop :=
  exists s f, has_filter bf s f /\ filter_id f = id /\
    ((fid = s /\ row_selected frags f row) \/
     (fid ∈ joins f /\ exists row', row_selected frags f row' /\ row_joined frags s fid row' row)).

(** The request only uses fragments, indexes and joins that exist. *)
Definition valid_request (frags : gmap Z fragment_model) (names : gmap Z string) (bf : BlockFilter) : Prop :=
  (forall s, filters bf !! s <> Some []) /\
  forall s f, has_filter bf s f ->
    fragment_id f = s /\ is_u32 (filter_id f) /\
    exists fm, frags !! s = Some fm /\ is_Some (names !! s) /\
      Forall (valid_condition (fm_indexes fm)) (conditions f) /\
      forall t, t ∈ joins f ->
        is_Some (find_join fm t) /\ is_Some (frags !! t) /\ is_Some (names !! t).

(** ** The sets the code computes *)

Definition code_selected (access : FragmentAccess) (f : Filter) : gset Z :=
  match get_index_fragment access (fragment_id f) with
  | Ok idx => match filter_rows f idx with Ok rows => rows | _ => ∅ end
  | _ => ∅
  end.

Definition code_joined (access : FragmentAccess) (s t row : Z) : gset Z :=
  match get_join_fragment access s with
  | Ok jf =>
      match find_first (fun j => fj_to_fragment_id j =? t) (jf_joins jf) with
      | Some j =>
          match fj_index j with
          | JoinOne inner =>
              match (join_one_get inner row : outcome DataStreamError _) with
              | Ok (Some i) => {[i]} | _ => ∅ end
          | JoinMany inner =>
              match (join_many_get inner row : outcome DataStreamError _) with
              | Ok (Some bitmap) => bitmap | _ => ∅ end
          end
      | None => ∅
      end
  | _ => ∅
  end.

Variables (access : FragmentAccess) (frags : gmap Z fragment_model) (header : HeaderFragment).
Variables (names : gmap Z string) (bf : BlockFilter).
Hypothesis readable : block_readable access frags header.
Hypothesis request : valid_request frags names bf.

Lemma code_selected_spec s f :
  has_filter bf s f ->
  exists idx, get_index_fragment access s = Ok idx /\ filter_rows f idx = Ok (code_selected access f) /\
    forall row, row ∈ code_selected access f <-> row_selected frags f row.
Proof using readable request.
  intros Hf. destruct (proj2 request s f Hf) as (<- & _ & fm & Hfm & _ & Hv & _).
  destruct (br_fragments _ _ _ readable _ _ Hfm) as ([(idx & Hidx & Hm & Hrs & Hrl) _ _] & Hlen & _).
  assert (0 <= fm_len fm) by (unfold fm_len; lia).
  destruct (filter_rows_spec (fm_indexes fm) f idx) as (rows & Hr & Hrows); [done|done|lia|lia|lia|].
  exists idx. unfold code_selected. rewrite Hidx, Hr. split_and!; [done|done|].
  intros row. rewrite Hrows, Hrs, Hrl. unfold row_selected. split.
  - intros [Hrow Hs]. exists fm. auto.
  - intros (fm' & Hfm' & Hrow & Hs). rewrite Hfm in Hfm'. injection Hfm' as <-. auto.
Qed.

Lemma find_first_Forall2 {A B} (R : A -> B -> Prop) (p : A -> bool) (q : B -> bool) l k :
  Forall2 R l k -> (forall a b, R a b -> p a = q b) ->
  match find_first p l, find_first q k with
  | Some a, Some b => R a b
  | None, None => True
  | _, _ => False
  end.
Proof.
  intros H2 Hpq. unfold find_first. induction H2 as [|a b l k Hab H2 IH]; [done|].
  cbn [list_find]. pose proof (Hpq a b Hab) as Heq.
  destruct (decide (p a = true)) as [Hp|Hp], (decide (q b = true)) as [Hq|Hq]; simpl; try done; try congruence.
  revert IH. destruct (list_find (fun x => p x = true) l) as [[i x]|],
    (list_find (fun x => q x = true) k) as [[j y]|]; done.
Qed.

Lemma code_joined_spec s f t :
  has_filter bf s f -> t ∈ joins f ->
  exists jf j, get_join_fragment access s = Ok jf /\
    find_first (fun j => fj_to_fragment_id j =? t) (jf_joins jf) = Some j /\
    forall row, join_answer (fj_index j) row (code_joined access s t row) /\
      forall row', row' ∈ code_joined access s t row <-> row_joined frags s t row row'.
Proof using readable request.
  intros Hf Ht. destruct (proj2 request s f Hf) as (_ & _ & fm & Hfm & _ & _ & Hjoins).
  destruct (Hjoins t Ht) as ([jm Hjm] & _ & _).
  destruct (br_fragments _ _ _ readable _ _ Hfm) as ([_ (jf & Hjf & H2) _] & _).
  pose proof (find_first_Forall2 _ (fun jm => jm.1 =? t) (fun j => fj_to_fragment_id j =? t) _ _ H2
    ltac:(intros a b [-> _]; done)) as Hfind.
  unfold find_join in Hjm. destruct (find_first (fun jm => jm.1 =? t) (fm_joins fm)) as [[t' jm']|] eqn:Hfj; [|done].
  simpl in Hjm. injection Hjm as ->.
  destruct (find_first _ (jf_joins jf)) as [j|] eqn:Hj; [|done].
  destruct Hfind as [_ Hb]. cbn [snd] in Hb. exists jf, j. split_and!; [done|done|].
  intros row. unfold code_joined. rewrite Hjf, Hj.
  assert (forall row', row_joined frags s t row row' <-> joins_to jm row row') as Hrj.
  { intros row'. unfold row_joined, find_join. split.
    - intros (fm' & jm' & Hfm' & Hjm' & Hto). rewrite Hfm in Hfm'. injection Hfm' as <-.
      rewrite Hfj in Hjm'. simpl in Hjm'. by injection Hjm' as <-.
    - intros Hto. exists fm, jm. rewrite Hfj. done. }
  destruct jm as [rows|rows], (fj_index j) as [idx|idx]; try done.
  - subst idx. unfold join_answer. rewrite join_one_build_get, join_one_of_rows_spec.
    split; [by eexists|]. intros row'. rewrite Hrj. unfold joins_to.
    destruct (snd <$> last _) as [i|]; set_solver.
  - unfold join_answer. destruct (join_many_build_get (join_many_of_rows rows)) as (idx' & Hi & Hg).
    rewrite Hb in Hi. injection Hi as <-. rewrite Hg. split.
    + eexists. split; [done|]. by destruct (join_many_of_rows rows !! row).
    + intros row'. rewrite Hrj. unfold joins_to. rewrite <- join_many_of_rows_spec.
      by destruct (join_many_of_rows rows !! row).
Qed.

Lemma selects_wanted fid row id :
  selects bf (code_selected access) (code_joined access) fid row id <-> wanted frags bf fid row id.
Proof using readable request.
  unfold selects, wanted. split; intros (s & f & Hf & Hid & Hc); exists s, f; (split; [done|]); (split; [done|]);
    destruct (code_selected_spec s f Hf) as (idx & _ & _ & Hsel);
    destruct Hc as [[-> Hr]|(Ht & row' & Hr & Hj)].
  - left. split; [done|]. by apply Hsel.
  - right. split; [done|]. exists row'. split; [by apply Hsel|].
    destruct (code_joined_spec s f fid Hf Ht) as (jf & j & _ & _ & Hjo). by apply Hjo.
  - left. split; [done|]. by apply Hsel.
  - right. split; [done|]. exists row'. split; [by apply Hsel|].
    destruct (code_joined_spec s f fid Hf Ht) as (jf & j & _ & _ & Hjo). by apply Hjo.
Qed.

(** The body of a fragment of the block. *)
Definition body_of (frags : gmap Z fragment_model) (fid : Z) : BodyFragment :=
  match frags !! fid with Some fm => fm_body fm | None => mkBodyFragment fid "" [] end.

(** The protobuf fields of the filtered block: the header, then the selected
    rows by fragment and row. *)
Definition header_fields (send : bool) (header : HeaderFragment) : list (Z * list byte) :=
  if send then [(HEADER_FRAGMENT_ID, hf_data header)] else [].

Definition item_fields (frags : gmap Z fragment_model) (matches : gmap Z FilterMatch) : list (Z * list byte) :=
  btree_iter matches ≫= fun e =>
    (fun m => (e.1, item_payload (hash_iter [e.1; m.1] m.2) (message (body_of frags) e.1 m.1))) <$> match_iter e.2.

Lemma bind_fmap_list {A B C} (f : A -> B) (g : B -> list C) l : (f <$> l) ≫= g = l ≫= (fun a => g (f a)).
Proof. induction l as [|x l IH]; [done|]. by rewrite fmap_cons, !bind_cons, IH. Qed.

Lemma bind_assoc_list {A B C} (f : A -> list B) (g : B -> list C) l :
  (l ≫= f) ≫= g = l ≫= (fun a => f a ≫= g).
Proof. induction l as [|x l IH]; [done|]. by rewrite !bind_cons, bind_app, IH. Qed.

Lemma bind_ext_list {A B} (f g : A -> list B) l : (forall a, f a = g a) -> l ≫= f = l ≫= g.
Proof. intros Hfg. induction l as [|x l IH]; [done|]. by rewrite !bind_cons, Hfg, IH. Qed.

Lemma render_fields send matches :
  render (body_of frags) header send matches =
  (header_fields send header ++ item_fields frags matches) ≫= fun f => field f.1 f.2.
Proof.
  unfold render, render_header, header_fields, item_fields. rewrite bind_app. f_equal.
  - destruct send; [|done]. simpl. by rewrite app_nil_r.
  - rewrite bind_assoc_list. apply bind_ext_list. intros [fid m]. unfold render_fragment. cbn [fst snd].
    rewrite bind_fmap_list. done.
Qed.

Lemma bodies_ok s f fid :
  has_filter bf s f -> fid = s \/ fid ∈ joins f ->
  is_Some (names !! fid) /\ get_body_fragment access fid = Ok (body_of frags fid) /\ valid_tag fid.
Proof using readable request.
  intros Hf Hfid. destruct (proj2 request s f Hf) as (_ & _ & fm & Hfm & Hn & _ & Hjoins).
  assert (exists fm', frags !! fid = Some fm' /\ is_Some (names !! fid)) as (fm' & Hfm' & Hn').
  { destruct Hfid as [->|Ht]; [eauto|]. destruct (Hjoins fid Ht) as (_ & [tm Htm] & Hnt). eauto. }
  destruct (br_fragments _ _ _ readable _ _ Hfm') as ([_ _ Hb] & _ & Htag).
  unfold body_of. rewrite Hfm'. split_and!; [done|done|]. unfold valid_tag. lia.
Qed.

Lemma wanted_rows_ok fid row id :
  wanted frags bf fid row id ->
  0 <= row /\ is_Some (bf_data (body_of frags fid) !! Z.to_nat row) /\ is_u64 id.
Proof using readable request.
  intros (s & f & Hf & <- & Hc). destruct (proj2 request s f Hf) as (Hs & Hid & _).
  assert (is_u64 (filter_id f)) as Hu by (unfold is_u32, is_u64, U32, U64 in *; lia).
  assert (exists tm, frags !! fid = Some tm /\ 0 <= row < fm_len tm) as (tm & Htm & Hrow).
  { destruct Hc as [[-> (fm & Hfm & Hr & _)]|(Ht & row' & _ & fm & jm & Hfm & Hjm & Hto)].
    - exists fm. by rewrite <- Hs.
    - unfold find_join in Hjm. destruct (find_first _ (fm_joins fm)) as [[t' jm']|] eqn:Hff; [|done].
      simpl in Hjm. injection Hjm as ->. unfold find_first in Hff.
      destruct (list_find _ _) as [[i x]|] eqn:Hlf; [|done]. simpl in Hff. injection Hff as ->.
      apply list_find_Some in Hlf as (Hl & Heq%Z.eqb_eq & _). simpl in Heq. subst t'.
      apply (br_joins _ _ _ readable s fm fid jm row' row); [done| |done]. by eapply list_elem_of_lookup_2. }
  unfold body_of. rewrite Htm. split_and!; [lia| |done]. apply lookup_lt_is_Some_2.
  unfold fm_len in Hrow. lia.
Qed.

(** The selected rows with their filters, as a map per fragment. *)
Definition request_matches (matches : gmap Z FilterMatch) : Prop :=
  all_match_wf matches /\
  forall fid row id, id ∈ ids_in matches fid row <-> wanted frags bf fid row id.

Lemma matches_empty_iff matches :
  final_spec bf (code_selected access) (code_joined access) matches ->
  matches = ∅ <-> forall fid row id, ~ wanted frags bf fid row id.
Proof using readable request.
  intros (Hw & Hs & Hk). split.
  - intros -> fid row id Hwant. apply selects_wanted, Hs in Hwant. rewrite ids_in_empty in Hwant. set_solver.
  - intros Hno. apply map_empty. intros fid. destruct (matches !! fid) eqn:Hm; [|done]. exfalso.
    destruct (proj1 (Hk fid)) as (s & f & Hf & Hne & _); [eauto|]. apply set_choose_L in Hne as [row Hrow].
    apply (Hno s row (filter_id f)). apply selects_wanted. exists s, f. auto.
Qed.

Lemma send_header_iff matches is_live :
  final_spec bf (code_selected access) (code_joined access) matches ->
  should_send_header bf matches is_live = true <->
  match header_filter bf with
  | Always => True
  | OnData => exists fid row id, wanted frags bf fid row id
  | OnDataOrOnNewBlock => is_live = true \/ exists fid row id, wanted frags bf fid row id
  end.
Proof using readable request.
  intros Hfs.
  assert (negb (bool_decide (matches = ∅)) = true <-> exists fid row id, wanted frags bf fid row id) as Hne.
  { rewrite negb_true_iff, bool_decide_eq_false, (matches_empty_iff matches Hfs). split.
    - intros Hn. destruct (map_choose matches) as (fid & m & Hm).
      { intros He. by apply Hn, (matches_empty_iff matches Hfs). }
      destruct Hfs as (Hw & Hs & Hk). destruct (proj1 (Hk fid)) as (s & f & Hf & Hsel & _); [eauto|].
      apply set_choose_L in Hsel as [row Hrow]. exists s, row, (filter_id f). apply selects_wanted.
      exists s, f. auto.
    - intros (fid & row & id & Hw) Hno. by apply (Hno fid row id). }
  unfold should_send_header. destruct (header_filter bf); [done|done|].
  rewrite orb_true_iff, Hne. tauto.
Qed.

Lemma field_payload_le (fields : list (Z * list byte)) f :
  f ∈ fields -> zlen f.2 <= zlen (fields ≫= fun f => field f.1 f.2).
Proof.
  intros Hf. induction fields as [|g fields IH]; [by apply not_elem_of_nil in Hf|].
  rewrite bind_cons, zlen_app. pose proof (zlen_nonneg (field g.1 g.2)).
  pose proof (zlen_nonneg (fields ≫= fun f => field f.1 f.2)).
  apply elem_of_cons in Hf as [->|Hf]; [pose proof (field_larger g.1 g.2); lia|]. specialize (IH Hf). lia.
Qed.

(** There are at least as many bytes as fields. *)
Lemma fields_fit (fields : list (Z * list byte)) :
  Forall valid_field fields -> (length fields <= length (fields ≫= fun f => field f.1 f.2))%nat.
Proof.
  induction 1 as [|f fields [Ht _] Hv IH]; [done|]. rewrite bind_cons, length_app. simpl.
  pose proof (field_nonempty f.1 f.2 Ht). destruct (field f.1 f.2); [done|]. simpl. lia.
Qed.

Lemma fields_valid send matches :
  final_spec bf (code_selected access) (code_joined access) matches ->
  zlen (render (body_of frags) header send matches) < U64 ->
  Forall valid_field (header_fields send header ++ item_fields frags matches).
Proof using readable request.
  intros Hfs Hz. rewrite render_fields in Hz. apply Forall_forall. intros f Hf. split.
  - apply elem_of_app in Hf as [Hf|Hf].
    + unfold header_fields in Hf. destruct send; [|by apply not_elem_of_nil in Hf].
      apply list_elem_of_singleton in Hf. by subst f.
    + unfold item_fields in Hf. apply list_elem_of_bind in Hf as ([fid m] & Hf & Hm%elem_of_btree_iter).
      apply list_elem_of_fmap in Hf as (e & -> & _). cbn [fst]. destruct Hfs as (_ & _ & Hk).
      destruct (proj1 (Hk fid)) as (s & g & Hg & _ & Hfid); [eauto|]. by eapply bodies_ok.
  - apply field_payload_le in Hf. unfold zlen in *. lia.
Qed.

Lemma filter_block_ok is_live :
  exists matches send,
    request_matches matches /\
    (send = true <->
       match header_filter bf with
       | Always => True
       | OnData => exists fid row id, wanted frags bf fid row id
       | OnDataOrOnNewBlock => is_live = true \/ exists fid row id, wanted frags bf fid row id
       end) /\
    let fields := header_fields send header ++ item_fields frags matches in
    let out := fields ≫= fun f => field f.1 f.2 in
    (zlen out < U64 ->
       filter_one access names is_live bf = Ok (zlen out, out) /\
       read_fields (length out) out = Some fields).
Proof using readable request.
  destruct (filter_one_ok access bf (code_selected access) (code_joined access)) with
    (names := names) (body := body_of frags) (header := header) (is_live := is_live)
    as (matches & Hfs & Hone).
  - intros fid fs Hfs. destruct fs as [|f0 fs']; [by apply request in Hfs|].
    destruct (code_selected_spec fid f0) as (idx & Hidx & _ & _); [exists (f0 :: fs'); set_solver|].
    exists idx. split; [done|]. intros f Hf.
    destruct (code_selected_spec fid f) as (idx' & Hidx' & Hr & _); [by exists (f0 :: fs')|]. congruence.
  - intros fid fs f t Hfs Hf _ Ht.
    destruct (code_joined_spec fid f t) as (jf & j & Hjf & Hj & Hans); [by exists fs|done|].
    exists jf, j. split_and!; [done|done|]. intros row. apply Hans.
  - apply readable.
  - intros s f fid. apply bodies_ok.
  - intros fid row id Hsel. apply (wanted_rows_ok fid row id). by apply selects_wanted.
  - exists matches, (should_send_header bf matches is_live).
    assert (request_matches matches) as Hrm.
    { split; [apply Hfs|]. intros fid row id. rewrite <- selects_wanted. apply Hfs. }
    split; [done|]. split; [by apply send_header_iff|].
    cbn zeta. rewrite <- render_fields. intros Hz. split; [by apply Hone|].
    rewrite render_fields. apply read_fields_fields.
    + by apply fields_valid.
    + apply fields_fit. by apply fields_valid.
Qed.
End block_model.

(** ** Properties *)

(** When the header is part of the answer. *)
Definition header_wanted (frags : gmap Z fragment_model) (bf : BlockFilter) (is_live : bool) : Prop :=
  match header_filter bf with
  | Always => True
  | OnData => exists fid row id, wanted frags bf fid row id
  | OnDataOrOnNewBlock => is_live = true \/ exists fid row id, wanted frags bf fid row id
  end.

(** The answer to one block filter: the rows and whether the header is sent. *)
Definition is_answer (frags : gmap Z fragment_model) (is_live : bool) (bf : BlockFilter)
    (a : gmap Z FilterMatch * bool) : Prop :=
  request_matches frags bf a.1 /\ (a.2 = true <-> header_wanted frags bf is_live).

Section answers.
Context `{!Roaring, !Prost, !HashOrder Z, !BlockArchives}.

Definition answer_fields (frags : gmap Z fragment_model) (header : HeaderFragment)
    (a : gmap Z FilterMatch * bool) : list (Z * list byte) :=
  header_fields a.2 header ++ item_fields frags a.1.

Definition answer_bytes (frags : gmap Z fragment_model) (header : HeaderFragment)
    (a : gmap Z FilterMatch * bool) : list byte :=
  answer_fields frags header a ≫= fun f => field f.1 f.2.

Definition nonempty (bytes : list byte) : bool := negb (bool_decide (bytes = [])).

Lemma filter_fragment_loop access frags header names is_live bfs answers acc :
  Forall2 (fun bf a => zlen (answer_bytes frags header a) < U64 ->
    filter_one access names is_live bf = Ok (zlen (answer_bytes frags header a), answer_bytes frags header a))
    bfs answers ->
  Forall (fun a => zlen (answer_bytes frags header a) < U64) answers ->
  ofold (fun acc bf =>
           r ← filter_one access names is_live bf;
           Ok (acc.1 || negb (bool_decide (r.2 = [])), acc.2 ++ [r.2]))
    acc bfs =
  Ok (acc.1 || existsb nonempty (answer_bytes frags header <$> answers),
      acc.2 ++ (answer_bytes frags header <$> answers)).
Proof.
  intros H2. revert acc. induction H2 as [|bf a bfs answers Hbf H2 IH]; intros acc Hz.
  { simpl. rewrite orb_false_r, app_nil_r. by destruct acc. }
  apply Forall_cons in Hz as [Hza Hz]. cbn [ofold]. rewrite (Hbf Hza). cbn [mbind outcome_bind fst snd].
  rewrite IH by done. cbn [fst snd]. rewrite fmap_cons. cbn [existsb]. unfold nonempty at 2.
  by rewrite <- orb_assoc, <- (assoc_L (++)).
Qed.

Lemma filter_fragment_answers access frags header names bfs is_live :
  block_readable access frags header -> Forall (valid_request frags names) bfs ->
  exists answers,
    Forall2 (is_answer frags is_live) bfs answers /\
    (Forall (fun a => zlen (answer_bytes frags header a) < U64) answers ->
     filter_fragment bfs names access is_live =
       Ok (existsb nonempty (answer_bytes frags header <$> answers), answer_bytes frags header <$> answers) /\
     Forall2 (fun bf a =>
       filter_one access names is_live bf =
         Ok (zlen (answer_bytes frags header a), answer_bytes frags header a) /\
       read_fields (length (answer_bytes frags header a)) (answer_bytes frags header a) =
         Some (answer_fields frags header a)) bfs answers).
Proof.
  intros Hr Hv.
  assert (exists answers, Forall2 (fun bf a => is_answer frags is_live bf a /\
    (zlen (answer_bytes frags header a) < U64 ->
       filter_one access names is_live bf =
         Ok (zlen (answer_bytes frags header a), answer_bytes frags header a) /\
       read_fields (length (answer_bytes frags header a)) (answer_bytes frags header a) =
         Some (answer_fields frags header a))) bfs answers) as (answers & H2).
  { induction Hv as [|bf bfs Hbf Hv IH]; [by exists []|]. destruct IH as [answers IH].
    destruct (filter_block_ok access frags header names bf Hr Hbf is_live) as (m & send & Hm & Hs & Hout).
    exists ((m, send) :: answers). constructor; [|done]. split; [by split|]. exact Hout. }
  exists answers. split; [by eapply Forall2_impl; [done|intros ?? [??]]|]. intros Hz. split.
  - apply (filter_fragment_loop access frags header names is_live bfs answers (false, [])); [|done].
    eapply Forall2_impl; [done|]. intros bf a [_ Ho] Hza. by apply Ho.
  - apply Forall2_same_length_lookup. split; [by eapply Forall2_length|].
    intros i bf a Hb Ha. destruct (Forall2_lookup_lr _ _ _ _ _ _ H2 Hb Ha) as [_ Ho]. apply Ho.
    exact (Forall_lookup_1 _ _ i a Hz Ha).
Qed.

(** (C3) What a client receives of a block.  For a block whose fragments were
    indexed and joined as the ingestion does, however it is accessed, and for
    any request that names existing fragments, indexes and joins,
    [filter_fragment] answers every block filter with one message.  Read by a
    protobuf reader, the message consists of the header exactly when the header
    filter asks for it, and of the wanted rows and no others, by fragment and
    row, each with the set of the filters that want it: those whose conditions
    the row satisfies and those with a row that joins to it.  The size computed
    in advance is the size written, and the block is reported to have data
    exactly when some message is not empty. *)
Theorem filter_fragment_exact access frags header names bfs is_live :
  block_readable access frags header -> Forall (valid_request frags names) bfs ->
  exists answers,
    Forall2 (is_answer frags is_live) bfs answers /\
    (Forall (fun a => zlen (answer_bytes frags header a) < U64) answers ->
     filter_fragment bfs names access is_live =
       Ok (existsb nonempty (answer_bytes frags header <$> answers), answer_bytes frags header <$> answers) /\
     Forall2 (fun bf a =>
       filter_one access names is_live bf =
         Ok (zlen (answer_bytes frags header a), answer_bytes frags header a) /\
       read_fields (length (answer_bytes frags header a)) (answer_bytes frags header a) =
         Some (answer_fields frags header a)) bfs answers).
Proof. apply filter_fragment_answers. Qed.

End answers.

(** ** Witnesses *)

Import External.Reference ReferenceArchives.

(** Two rows in fragment 2, indexed by one key and joined to the three rows of
    fragment 3. *)
Definition example_keys : list (ScalarValue * Z) := [(Uint32 7, 0); (Uint32 8, 1)].
Definition example_join : list (Z * Z) := [(0, 0); (0, 1); (1, 2)].

Definition example_fm2 : fragment_model :=
  mkFragmentModel [Some example_keys] [(3, ManyRows example_join)]
    (mkBodyFragment 2 "transaction" [[x01]; [x02]]).

Definition example_fm3 : fragment_model :=
  mkFragmentModel [] [] (mkBodyFragment 3 "event" [[x0a]; [x0b]; [x0c]]).

Definition example_frags : gmap Z fragment_model := {[2 := example_fm2; 3 := example_fm3]}.

Definition example_bitmap : BitmapIndex :=
  match bitmap_build (bitmap_of_rows example_keys) with Ok i => i | _ => mkBitmapIndex [] [] end.

Definition example_many : JoinToManyIndex :=
  match join_many_build (join_many_of_rows example_join) with Ok i => i | _ => mkJoinToMany [] [] end.

Definition example_header : HeaderFragment := mkHeaderFragment [xff].

Definition example_block_data : Block :=
  mkBlock example_header
    (mkIndexGroup [mkIndexFragment 2 0 2 [mkFragmentIndex 0 (BitmapIdx example_bitmap)];
                   mkIndexFragment 3 0 3 []])
    (mkJoinGroup [mkJoinFragment 2 [mkFragmentJoin 3 (JoinMany example_many)]; mkJoinFragment 3 []])
    [fm_body example_fm2; fm_body example_fm3].

Definition example_access : FragmentAccess := AccessBlock (@to_bytes Block archive_block example_block_data).

Definition example_names : gmap Z string := {[2 := "transaction"; 3 := "event"]}.

(** The transactions with key 7 and the events they join to. *)
Definition example_request : BlockFilter :=
  add_filter block_filter_default (mkFilter 1 2 [mkCondition 0 (Uint32 7)] [3]).

Lemma example_lookup fid fm :
  example_frags !! fid = Some fm -> (fid = 2 /\ fm = example_fm2) \/ (fid = 3 /\ fm = example_fm3).
Proof.
  unfold example_frags. rewrite lookup_insert. case_decide; [intros [= <-]; auto|].
  rewrite lookup_singleton. case_decide; [intros [= <-]; auto|done].
Qed.

Lemma example_same_variant : same_variant example_keys.
Proof.
  intros a b Ha Hb. unfold example_keys in *. set_unfold in Ha. set_unfold in Hb.
  destruct Ha as [->|[->|[]]], Hb as [->|[->|[]]]; reflexivity.
Qed.

Lemma example_readable : block_readable example_access example_frags example_header.
Proof.
  constructor.
  - intros fid fm [[-> ->]|[-> ->]]%example_lookup; (split; [|by split]); constructor.
    + eexists. split; [unfold example_access; rewrite block_index_eq; reflexivity|].
      split; [|by split]. constructor; [|constructor]. split; [apply example_same_variant|].
      vm_compute. reflexivity.
    + eexists. split; [unfold example_access; rewrite block_join_eq; reflexivity|].
      constructor; [|constructor]. split; [done|]. vm_compute. reflexivity.
    + unfold example_access. rewrite block_body_eq. reflexivity.
    + eexists. split; [unfold example_access; rewrite block_index_eq; reflexivity|].
      split; [constructor|by split].
    + eexists. split; [unfold example_access; rewrite block_join_eq; reflexivity|].
      constructor.
    + unfold example_access. rewrite block_body_eq. reflexivity.
  - apply block_header_eq.
  - intros s fm t jm row row' [[-> ->]|[-> ->]]%example_lookup Hj Hto.
    + apply list_elem_of_singleton in Hj. injection Hj as -> ->. exists example_fm3. split; [done|].
      cbn in Hto. unfold example_join in Hto. set_unfold in Hto. cbn. naive_solver lia.
    + by apply not_elem_of_nil in Hj.
Qed.

Lemma example_request_valid : valid_request example_frags example_names example_request.
Proof.
  assert (forall s fs, filters example_request !! s = Some fs ->
    s = 2 /\ fs = [mkFilter 1 2 [mkCondition 0 (Uint32 7)] [3]]) as Hfs.
  { intros s fs. unfold example_request. rewrite add_filter_lookup. cbn. case_decide as Hd.
    - subst. rewrite lookup_empty. cbn. intros [= <-]. done.
    - by rewrite lookup_empty. }
  split.
  - intros s [_ Hs]%Hfs. discriminate Hs.
  - intros s f (fs & [-> ->]%Hfs & ->%list_elem_of_singleton). split; [done|]. split; [done|].
    exists example_fm2. split; [done|]. split; [by eexists|]. split.
    + repeat constructor. by eexists.
    + intros t ->%list_elem_of_singleton. split; [by eexists|]. split; by eexists.
Qed.

Lemma filter_fragment_exact_witness :
  exists answers, Forall2 (is_answer example_frags true) [example_request] answers.
Proof.
  destruct (filter_fragment_exact example_access example_frags example_header example_names
    [example_request] true example_readable (proj2 (Forall_singleton _ _) example_request_valid))
    as (answers & Ha & _).
  exists answers. exact Ha.
Defined.
