(* ===== verification/Cloud.v ===== *)
(** * The services the program runs against

    The coordination service (etcd), the object store (S3, GCS or Azure) and
    the local file cache (foyer) are outside the program.  [Cloud W] is the
    interface to them: [W] is the state of the outside world, every request is
    a [prog W], and [view] is the part of the world that requests read and
    write.  The laws state the documented behaviour of each request: a read
    returns what is stored, a successful write has happened, and a write that
    failed may have happened or not.  Nothing is assumed about which requests
    fail.

    The module [Reference] has an instance in which requests always succeed,
    used by the witnesses. *)

From S2P Require Import Prelude.

(** ** What the services store *)

Inductive EtcdError := EtcdErr.

(** The operations of an etcd transaction.  Its conditions compare the mod
    revision of a key with a number. *)
Inductive TxnOp :=
| TxnPut (key value : list byte)
| TxnDelete (key : list byte).

Abbreviation KeyValues := (gmap (list byte) (list byte * Z)).

(** The mod revision of a key: 0 when it does not exist. *)
Definition mod_revision (kvs : KeyValues) (key : list byte) : Z :=
  match kvs !! key with Some kv => kv.2 | None => 0 end.

Definition compare_holds (kvs : KeyValues) (when : list (list byte * Z)) : bool :=
  forallb (fun c => mod_revision kvs c.1 =? c.2) when.

(** The effect of the operations of a transaction that has revision [rev]. *)
Definition apply_op (rev : Z) (kvs : KeyValues) (op : TxnOp) : KeyValues :=
  match op with
  | TxnPut key value => <[key := (value, rev)]> kvs
  | TxnDelete key => delete key kvs
  end.

Definition apply_ops (rev : Z) (ops : list TxnOp) (kvs : KeyValues) : KeyValues :=
  foldl (apply_op rev) kvs ops.

(** [ObjectVersion] and [PutMode] of object_store/mod.rs. *)
Abbreviation ObjectVersion := (list byte).

Inductive PutMode :=
| Overwrite
| Create
| Update (version : ObjectVersion).

Inductive ObjectStoreError :=
| Configuration | Precondition | NotModified | NotFound | Request | Metadata | ChecksumMismatch.

#[export] Instance ObjectStoreError_eq_dec : EqDecision ObjectStoreError.
Proof. solve_decision. Defined.

(** An object: its version and its body, by bucket and key. *)
Abbreviation Objects := (gmap (list byte * list byte) (ObjectVersion * list byte)).

Definition put_allowed (mode : PutMode) (old : option (ObjectVersion * list byte)) : Prop :=
  match mode with
  | Overwrite => True
  | Create => old = None
  | Update version => exists body, old = Some (version, body)
  end.

Inductive FoyerError := FoyerErr.

(** The two caches of [FileCache]. *)
Inductive CacheName := CacheIndex | CacheGeneral.

#[export] Instance CacheName_eq_dec : EqDecision CacheName.
Proof. solve_decision. Defined.

#[export] Instance CacheName_countable : Countable CacheName.
Proof.
  refine (inj_countable' (fun c => match c with CacheIndex => true | CacheGeneral => false end)
    (fun b => if b then CacheIndex else CacheGeneral) _). by intros [].
Defined.

(** [v_revision] is the revision of the last write to etcd; [v_cached] holds
    the last value inserted for each key, which the cache may have dropped. *)
Record CloudView := mkView {
  v_kvs : KeyValues;
  v_revision : Z;
  v_objects : Objects;
  v_cached : gmap (CacheName * list byte) (list byte) }.

#[export] Instance CloudView_eq_dec : EqDecision CloudView.
Proof. solve_decision. Defined.

(** Revisions are positive and do not exceed the last one. *)
Definition revisions_ok (v : CloudView) : Prop :=
  0 <= v_revision v /\
  map_Forall (fun _ (kv : list byte * Z) => 0 < kv.2 /\ kv.2 <= v_revision v) (v_kvs v).

Definition set_kvs (rev : Z) (kvs : KeyValues) (v : CloudView) : CloudView :=
  mkView kvs rev (v_objects v) (v_cached v).

Definition set_objects (objects : Objects) (v : CloudView) : CloudView :=
  mkView (v_kvs v) (v_revision v) objects (v_cached v).

Definition set_cached cached (v : CloudView) : CloudView :=
  mkView (v_kvs v) (v_revision v) (v_objects v) cached.

(** The write of some operations to the key-value store, at a new revision. *)
Definition kvs_written (ops : list TxnOp) (v v' : CloudView) : Prop :=
  exists rev, v_revision v < rev /\ v' = set_kvs rev (apply_ops rev ops (v_kvs v)) v.

(** The write of an object, at some version.  Versions are not empty. *)
Definition object_written (at_ : list byte * list byte) (body : list byte)
    (version : ObjectVersion) (v v' : CloudView) : Prop :=
  version <> [] /\ v' = set_objects (<[at_ := (version, body)]> (v_objects v)) v.

Definition object_deleted (at_ : list byte * list byte) (v v' : CloudView) : Prop :=
  v' = set_objects (delete at_ (v_objects v)) v.

(** ** The interface *)

Class Cloud (W : Type) := {
  view : W -> CloudView;
  view_revisions : forall w, revisions_ok (view w);

  (** etcd *)
  etcd_get : list byte -> prog W EtcdError (option (list byte * Z));
  etcd_put : list byte -> list byte -> prog W EtcdError unit;
  etcd_delete : list byte -> prog W EtcdError unit;
  etcd_txn : list (list byte * Z) -> list TxnOp -> prog W EtcdError bool;

  etcd_get_spec : forall key w r w', etcd_get key w = (r, w') ->
    view w' = view w /\ r <> Panic /\ (forall kv, r = Ok kv -> kv = v_kvs (view w) !! key);
  etcd_put_spec : forall key value w r w', etcd_put key value w = (r, w') ->
    r <> Panic /\
    (kvs_written [TxnPut key value] (view w) (view w') \/ (view w' = view w /\ r = Err EtcdErr));
  etcd_delete_spec : forall key w r w', etcd_delete key w = (r, w') ->
    r <> Panic /\
    (kvs_written [TxnDelete key] (view w) (view w') \/
     (view w' = view w /\ (r = Err EtcdErr \/ v_kvs (view w) !! key = None)));
  etcd_txn_spec : forall when ops w r w', etcd_txn when ops w = (r, w') ->
    r <> Panic /\
    if compare_holds (v_kvs (view w)) when
    then r <> Ok false /\
         (kvs_written ops (view w) (view w') \/ (view w' = view w /\ r = Err EtcdErr))
    else r <> Ok true /\ view w' = view w;

  (** the object store *)
  get_object : list byte -> list byte -> option ObjectVersion ->
    prog W ObjectStoreError (ObjectVersion * list byte);
  put_object : list byte -> list byte -> list byte -> PutMode ->
    prog W ObjectStoreError ObjectVersion;
  delete_object : list byte -> list byte -> prog W ObjectStoreError unit;
  list_objects : list byte -> list byte -> prog W ObjectStoreError (list (list byte));

  get_object_spec : forall bucket key version w r w',
    get_object bucket key version w = (r, w') ->
    view w' = view w /\ r <> Panic /\
    (forall o, r = Ok o -> v_objects (view w) !! (bucket, key) = Some o /\
                           (forall v, version = Some v -> o.1 = v)) /\
    (r = Err NotFound -> v_objects (view w) !! (bucket, key) = None);
  put_object_spec : forall bucket key body mode w r w',
    put_object bucket key body mode w = (r, w') ->
    match r with
    | Ok version => put_allowed mode (v_objects (view w) !! (bucket, key)) /\
                    object_written (bucket, key) body version (view w) (view w')
    | Err _ => view w' = view w \/
               (put_allowed mode (v_objects (view w) !! (bucket, key)) /\
                exists version, object_written (bucket, key) body version (view w) (view w'))
    | Panic => False
    end;
  delete_object_spec : forall bucket key w r w', delete_object bucket key w = (r, w') ->
    r <> Panic /\
    (object_deleted (bucket, key) (view w) (view w') \/
     (view w' = view w /\ exists e, r = Err e));
  list_objects_spec : forall bucket prefix w r w', list_objects bucket prefix w = (r, w') ->
    view w' = view w /\ r <> Panic /\
    (forall keys key, r = Ok keys -> key ∈ keys ->
       is_Some (v_objects (view w) !! (bucket, key)) /\ prefix `prefix_of` key);

  (** the file cache *)
  cache_get : CacheName -> list byte -> prog W FoyerError (option (list byte));
  cache_insert : CacheName -> list byte -> list byte -> W -> W;

  cache_get_spec : forall name key w r w', cache_get name key w = (r, w') ->
    view w' = view w /\ r <> Panic /\
    (forall value, r = Ok (Some value) -> v_cached (view w) !! (name, key) = Some value);
  cache_insert_spec : forall name key value w,
    view (cache_insert name key value w) =
      set_cached (<[(name, key) := value]> (v_cached (view w))) (view w);

  (** [HybridCache::get_or_fetch]: the cached value, or the value of the fetch,
      which is then cached. *)
  get_or_fetch : CacheName -> list byte -> prog W ObjectStoreError (list byte) ->
    prog W FoyerError (list byte);
  get_or_fetch_spec : forall name key fetch w r w', get_or_fetch name key fetch w = (r, w') ->
    (exists value, r = Ok value /\ view w' = view w /\
       v_cached (view w) !! (name, key) = Some value) \/
    (exists w0 r0 w1, view w0 = view w /\ fetch w0 = (r0, w1) /\
       match r0 with
       | Ok value => r = Ok value /\
           view w' = set_cached (<[(name, key) := value]> (v_cached (view w1))) (view w1)
       | Err _ => r = Err FoyerErr /\ view w' = view w1
       | Panic => r = Panic /\ view w' = view w1
       end) \/
    (r = Err FoyerErr /\ view w' = view w);

  (** the clock: nanoseconds since the epoch *)
  now_ns : W -> Z;
  now_ns_range : forall w, 0 <= now_ns w }.

(** ** Facts about the effects *)

Lemma kvs_written_objects ops v v' :
  kvs_written ops v v' -> v_objects v' = v_objects v /\ v_cached v' = v_cached v.
Proof. by intros (rev & _ & ->). Qed.

Lemma object_written_kvs at_ body version v v' :
  object_written at_ body version v v' -> v_kvs v' = v_kvs v /\ v_cached v' = v_cached v.
Proof. by intros [_ ->]. Qed.

Lemma kvs_put_lookup key value v v' :
  kvs_written [TxnPut key value] v v' ->
  exists rev, v_revision v < rev /\ v_kvs v' !! key = Some (value, rev) /\
    forall key', key' <> key -> v_kvs v' !! key' = v_kvs v !! key'.
Proof.
  intros (rev & Hrev & ->). exists rev. cbn [set_kvs v_kvs apply_ops foldl apply_op].
  split; [done|]. split; [by rewrite lookup_insert_eq|]. intros key' Hne. by rewrite lookup_insert_ne.
Qed.

Lemma kvs_put_delete_lookup key value del v v' :
  kvs_written [TxnPut key value; TxnDelete del] v v' -> del <> key ->
  exists rev, v_revision v < rev /\ v_kvs v' !! key = Some (value, rev) /\
    v_kvs v' !! del = None /\
    forall key', key' <> key -> key' <> del -> v_kvs v' !! key' = v_kvs v !! key'.
Proof.
  intros (rev & Hrev & ->) Hne. exists rev. cbn [set_kvs v_kvs apply_ops foldl apply_op].
  split; [done|]. split; [by rewrite lookup_delete_ne, lookup_insert_eq|].
  split; [by rewrite lookup_delete_eq|]. intros key' H1 H2. by rewrite lookup_delete_ne, lookup_insert_ne.
Qed.

(** ** A world in which every request succeeds *)

Module ReliableCloud.

#[export] Instance revisions_ok_dec v : Decision (revisions_ok v).
Proof. unfold revisions_ok. apply _. Defined.

Definition World : Type := dsig revisions_ok.

Definition world_view (w : World) : CloudView := proj1_sig w.

Lemma world_ok (w : World) : revisions_ok (world_view w).
Proof. apply (proj2_dsig w). Qed.

(** Worlds with the same stored data are equal. *)
Lemma world_eq (w w' : World) : world_view w = world_view w' -> w = w'.
Proof. apply dsig_eq. Qed.

Lemma empty_ok : revisions_ok (mkView ∅ 0 ∅ ∅).
Proof. split; [done|]. apply map_Forall_empty. Qed.

Definition world_empty : World := dexist (mkView ∅ 0 ∅ ∅) empty_ok.

Lemma write_ok ops (v : CloudView) :
  revisions_ok v ->
  revisions_ok (set_kvs (v_revision v + 1) (apply_ops (v_revision v + 1) ops (v_kvs v)) v).
Proof.
  intros [H0 Hf]. split; cbn [set_kvs v_revision v_kvs]; [lia|]. unfold apply_ops.
  assert (map_Forall (fun _ (kv : list byte * Z) => 0 < kv.2 /\ kv.2 <= v_revision v + 1) (v_kvs v)) as Hf'.
  { intros k kv Hk. apply Hf in Hk. lia. }
  revert Hf'. generalize (v_kvs v). induction ops as [|[k x|k] ops IH]; intros kvs Hk; [done| |]; apply IH.
  - apply map_Forall_insert_2; [simpl; lia|done].
  - by apply map_Forall_delete.
Qed.

Definition write (ops : list TxnOp) (w : World) : World :=
  dexist (set_kvs (v_revision (world_view w) + 1)
             (apply_ops (v_revision (world_view w) + 1) ops (v_kvs (world_view w))) (world_view w))
    (write_ok ops _ (world_ok w)).

Lemma update_ok objects cached (v : CloudView) :
  revisions_ok v -> revisions_ok (mkView (v_kvs v) (v_revision v) objects cached).
Proof. done. Qed.

Definition put_objects (objects : Objects) (w : World) : World :=
  dexist (set_objects objects (world_view w))
    (update_ok objects _ _ (world_ok w)).

Definition put_cached cached (w : World) : World :=
  dexist (set_cached cached (world_view w))
    (update_ok _ cached _ (world_ok w)).

Lemma write_written ops w : kvs_written ops (world_view w) (world_view (write ops w)).
Proof. eexists. split; [|reflexivity]. lia. Qed.

(** The version of an object is its length, a byte a unit, after a first byte. *)
Definition version_of (body : list byte) : ObjectVersion := x01 :: ((fun _ => x01) <$> body).

Definition put_allowedb (mode : PutMode) (old : option (ObjectVersion * list byte)) : bool :=
  match mode, old with
  | Overwrite, _ => true
  | Create, None => true
  | Update version, Some o => bool_decide (o.1 = version)
  | _, _ => false
  end.

Definition reliable_get_object (bucket key : list byte) (version : option ObjectVersion) :
    prog World ObjectStoreError (ObjectVersion * list byte) := fun w =>
  match v_objects (world_view w) !! (bucket, key) with
  | None => (Err NotFound, w)
  | Some o =>
      match version with
      | Some v => if bool_decide (o.1 = v) then (Ok o, w) else (Err Precondition, w)
      | None => (Ok o, w)
      end
  end.

Definition reliable_put_object (bucket key body : list byte) (mode : PutMode) :
    prog World ObjectStoreError ObjectVersion := fun w =>
  if put_allowedb mode (v_objects (world_view w) !! (bucket, key))
  then (Ok (version_of body),
        put_objects (<[(bucket, key) := (version_of body, body)]> (v_objects (world_view w))) w)
  else (Err Precondition, w).

Definition reliable_list (bucket prefix : list byte) (w : World) : list (list byte) :=
  omap (fun p : (list byte * list byte) * (ObjectVersion * list byte) =>
          if bool_decide (p.1.1 = bucket /\ prefix `prefix_of` p.1.2) then Some p.1.2 else None)
    (map_to_list (v_objects (world_view w))).

Definition reliable_get_or_fetch (name : CacheName) (key : list byte)
    (fetch : prog World ObjectStoreError (list byte)) : prog World FoyerError (list byte) := fun w =>
  match v_cached (world_view w) !! (name, key) with
  | Some value => (Ok value, w)
  | None =>
      match fetch w with
      | (Ok value, w1) =>
          (Ok value, put_cached (<[(name, key) := value]> (v_cached (world_view w1))) w1)
      | (Err _, w1) => (Err FoyerErr, w1)
      | (Panic, w1) => (Panic, w1)
      end
  end.

#[local] Obligation Tactic := idtac.

#[export] Program Instance reliable_cloud : Cloud World := {|
  view := world_view;
  etcd_get key w := (Ok (v_kvs (world_view w) !! key), w);
  etcd_put key value w := (Ok tt, write [TxnPut key value] w);
  etcd_delete key w := (Ok tt, write [TxnDelete key] w);
  etcd_txn when ops w :=
    if compare_holds (v_kvs (world_view w)) when then (Ok true, write ops w) else (Ok false, w);
  get_object := reliable_get_object;
  put_object := reliable_put_object;
  delete_object bucket key w :=
    (Ok tt, put_objects (delete (bucket, key) (v_objects (world_view w))) w);
  list_objects bucket prefix w := (Ok (reliable_list bucket prefix w), w);
  cache_get name key w := (Ok (v_cached (world_view w) !! (name, key)), w);
  cache_insert name key value w :=
    put_cached (<[(name, key) := value]> (v_cached (world_view w))) w;
  get_or_fetch := reliable_get_or_fetch;
  now_ns w := 1718123456789123456 |}.
Next Obligation. apply world_ok. Qed.
Next Obligation. intros key w r w' [= <- <-]. naive_solver. Qed.
Next Obligation. intros key value w r w' [= <- <-]. split; [done|]. left. apply write_written. Qed.
Next Obligation. intros key w r w' [= <- <-]. split; [done|]. left. apply write_written. Qed.
Next Obligation.
  intros when ops w r w'. cbv beta. destruct (compare_holds _ _); intros [= <- <-]; split; try done.
  split; [done|]. left. apply write_written.
Qed.
Next Obligation.
  intros bucket key version w r w'. unfold reliable_get_object.
  destruct (v_objects (world_view w) !! (bucket, key)) as [o|]; [|intros [= <- <-]; naive_solver].
  destruct version as [v|]; [case_bool_decide|]; intros [= <- <-]; naive_solver.
Qed.
Next Obligation.
  intros bucket key body mode w r w'. unfold reliable_put_object.
  destruct (put_allowedb _ _) eqn:Hp; intros [= <- <-]; [|by left]. split; [|by split].
  destruct mode as [| |v], (v_objects (world_view w) !! (bucket, key)) as [[ver o]|]; simpl in *; try done.
  apply bool_decide_eq_true in Hp as ->. by exists o.
Qed.
Next Obligation. intros bucket key w r w' [= <- <-]. split; [done|]. by left. Qed.
Next Obligation.
  intros bucket prefix w r w' [= <- <-]. split; [done|]. split; [done|].
  intros keys key [= <-] Hk. unfold reliable_list in Hk.
  apply list_elem_of_omap in Hk as ([[b k] o] & Hin & Heq). cbn [fst snd] in Heq.
  case_bool_decide as Hb; [|done]. injection Heq as <-. destruct Hb as [-> Hpre].
  apply elem_of_map_to_list in Hin. split; [by eexists|done].
Qed.
Next Obligation. intros name key w r w' [= <- <-]. naive_solver. Qed.
Next Obligation. done. Qed.
Next Obligation.
  intros name key fetch w r w'. unfold reliable_get_or_fetch.
  destruct (v_cached (world_view w) !! (name, key)) as [value|].
  { intros [= <- <-]. left. by exists value. }
  intros Heq. right. left. exists w. destruct (fetch w) as [[value|e|] w1] eqn:Hf;
    injection Heq as <- <-; eexists _, w1; (split; [done|]); (split; [done|]); done.
Qed.
Next Obligation. intros w. lia. Qed.

End ReliableCloud.
