(* ===== verification/StateClient.v ===== *)
(** * The coordination state (etcd/src/kv.rs, ingestion/state_client.rs, options_store.rs)

    [KvClient] puts the configured prefix before every key.  Through it the
    ingestion service publishes the chain (the recent segment, the finalized,
    the pending and the starting block), the compaction service publishes its
    progress (the segmented, the grouped and the pruned block), and both check
    that the sizes they were started with are the stored ones.  Values are
    decimal numbers, and JSON for the pointer to the recent segment. *)

From S2P Require Import Prelude External Text Cloud.

(** ** Keys *)

Definition normalize_prefix (prefix : option RString) : RString :=
  let prefix := default [] prefix in
  match last prefix with
  | None => prefix
  | Some b => if bool_decide (b = slash) then prefix else prefix ++ [slash]
  end.

Record KvClient := mkKvClient { kv_prefix : RString }.

Definition kv_format_key (self : KvClient) (key : RString) : list byte := kv_prefix self ++ key.

Definition INGESTION_PREFIX_KEY : RString := str "ingestion/".
Definition RECENT_KEY : RString := str "ingestion/recent".
Definition LEGACY_INGESTED_KEY : RString := str "ingestion/ingested".
Definition PENDING_KEY : RString := str "ingestion/pending".
Definition STARTING_BLOCK_KEY : RString := str "ingestion/starting_block".
Definition FINALIZED_KEY : RString := str "ingestion/finalized".
Definition SEGMENTED_KEY : RString := str "ingestion/segmented".
Definition GROUPED_KEY : RString := str "ingestion/grouped".
Definition PRUNED_KEY : RString := str "compaction/pruned".

Definition CHAIN_SEGMENT_SIZE_KEY : RString := str "options/chain_segment_size".
Definition SEGMENT_SIZE_KEY : RString := str "options/segment_size".
Definition GROUP_SIZE_KEY : RString := str "options/group_size".

(** ** KvClient *)

Inductive EtcdClientError := EtcdClientErr.

Section kv.
Context {W : Type} `{Cloud W}.
Implicit Type self : KvClient.

(** The first of the returned key-values, [response.kvs().first()]. *)
Definition kv_get self (key : RString) : prog W EtcdClientError (option (list byte * Z)) :=
  pcontext EtcdClientErr (etcd_get (kv_format_key self key)).

Definition kv_put self (key : RString) (value : list byte) : prog W EtcdClientError unit :=
  pcontext EtcdClientErr (etcd_put (kv_format_key self key) value).

Definition put_if_mod_revision self (key : RString) (value : list byte) (mod_revision : Z) :
    prog W EtcdClientError bool :=
  let formatted_key := kv_format_key self key in
  pcontext EtcdClientErr
    (etcd_txn [(formatted_key, mod_revision)] [TxnPut formatted_key value]).

Definition kv_delete self (key : RString) : prog W EtcdClientError unit :=
  pcontext EtcdClientErr (etcd_delete (kv_format_key self key)).

Definition put_and_delete self (put_key : RString) (put_value : list byte) (del_key : RString) :
    prog W EtcdClientError bool :=
  pcontext EtcdClientErr
    (etcd_txn []
       [TxnPut (kv_format_key self put_key) put_value; TxnDelete (kv_format_key self del_key)]).

End kv.

(** ** The pointer to the recent segment *)

Record RecentSegmentPointer := mkPointer {
  ptr_key : RString;
  ptr_version : RString;
  ptr_first_block : Z;
  ptr_last_block : Z }.

#[export] Instance RecentSegmentPointer_eq_dec : EqDecision RecentSegmentPointer.
Proof. solve_decision. Defined.

#[export] Instance RecentSegmentPointer_countable : Countable RecentSegmentPointer.
Proof.
  refine (inj_countable' (fun p => (ptr_key p, ptr_version p, ptr_first_block p, ptr_last_block p))
    (fun t => mkPointer t.1.1.1 t.1.1.2 t.1.2 t.2) _). by intros [].
Defined.

Inductive JsonError := JsonErr.

(** [serde_json::to_vec] and [serde_json::from_slice] on a type that derives
    [Serialize] and [Deserialize]. *)
Class SerdeJson (A : Type) := {
  json_to_vec : A -> outcome JsonError (list byte);
  json_from_slice : list byte -> outcome JsonError A;
  json_to_vec_ok : forall a, exists bytes, json_to_vec a = Ok bytes;
  json_roundtrip : forall a bytes, json_to_vec a = Ok bytes -> json_from_slice bytes = Ok a }.

Module ReferenceJson.

#[export] Program Instance reference_json `{Countable A} : SerdeJson A := {|
  json_to_vec a := Ok (to_bytes (Archive := Reference.archive) a);
  json_from_slice bytes := ok_or JsonErr (from_bytes (Archive := Reference.archive) bytes) |}.
Next Obligation. intros A EqA CA a. by eexists. Qed.
Next Obligation. intros A EqA CA a bytes [= <-]. apply ok_or_Ok. exact (from_to_bytes (Archive := Reference.archive) a). Qed.

End ReferenceJson.

(** ** IngestionStateClient *)

Inductive IngestionStateClientError := IngestionStateClientErr.

Inductive IngestionStateUpdate :=
| StartingBlock (block : Z)
| Finalized (block : Z)
| Pending (generation : option Z)
| Segmented (block : Z)
| Grouped (block : Z)
| Recent (pointer : RecentSegmentPointer).

(** [String::from_utf8(value)] followed by [parse::<u64>()]. *)
Definition decode_block {E} (e : E) (value : list byte) : outcome E Z :=
  s ← ok_or e (from_utf8 value);
  ok_or e (parse_u64 s).

Section state_client.
Context {W : Type} `{Cloud W} `{!SerdeJson RecentSegmentPointer}.
Implicit Type self : KvClient.

(** The body shared by the getters of a block number. *)
Definition get_block_number self (key : RString) :
    prog W IngestionStateClientError (option Z) :=
  response ← pcontext IngestionStateClientErr (kv_get self key);
  match response with
  | None => mret None
  | Some kv => block ← lift (decode_block IngestionStateClientErr kv.1); mret (Some block)
  end.

Definition put_block_number self (key : RString) (block : Z) :
    prog W IngestionStateClientError unit :=
  pcontext IngestionStateClientErr (kv_put self key (dec block)).

Definition get_starting_block self := get_block_number self STARTING_BLOCK_KEY.
Definition put_starting_block self (block : Z) := put_block_number self STARTING_BLOCK_KEY block.
Definition get_finalized self := get_block_number self FINALIZED_KEY.
Definition put_finalized self (block : Z) := put_block_number self FINALIZED_KEY block.
Definition put_pending self (generation : Z) := put_block_number self PENDING_KEY generation.
Definition get_segmented self := get_block_number self SEGMENTED_KEY.
Definition get_grouped self := get_block_number self GROUPED_KEY.
Definition get_pruned self := get_block_number self PRUNED_KEY.
Definition put_pruned self (block : Z) := put_block_number self PRUNED_KEY block.

(** [TryFrom<&RecentSegmentPointer> for Vec<u8>] and back. *)
Definition pointer_to_bytes (pointer : RecentSegmentPointer) :
    outcome IngestionStateClientError (list byte) :=
  change_context IngestionStateClientErr (json_to_vec pointer).

Definition pointer_of_bytes (bytes : list byte) :
    outcome IngestionStateClientError RecentSegmentPointer :=
  change_context IngestionStateClientErr (json_from_slice bytes).

Definition get_recent self : prog W IngestionStateClientError (option RecentSegmentPointer) :=
  response ← pcontext IngestionStateClientErr (kv_get self RECENT_KEY);
  match response with
  | None => mret None
  | Some kv => pointer ← lift (pointer_of_bytes kv.1); mret (Some pointer)
  end.

Definition put_recent self (pointer : RecentSegmentPointer) :
    prog W IngestionStateClientError unit :=
  value ← lift (pointer_to_bytes pointer);
  _ ← pcontext IngestionStateClientErr (put_and_delete self RECENT_KEY value PENDING_KEY);
  mret tt.

Definition get_legacy_ingested self : prog W IngestionStateClientError (option RString) :=
  response ← pcontext IngestionStateClientErr (kv_get self LEGACY_INGESTED_KEY);
  match response with
  | None => mret None
  | Some kv =>
      value ← lift (ok_or IngestionStateClientErr (from_utf8 kv.1)); mret (Some value)
  end.

Definition delete_legacy_ingested self : prog W IngestionStateClientError unit :=
  pcontext IngestionStateClientErr (kv_delete self LEGACY_INGESTED_KEY).

(** One iteration of the loop of [put_if_higher], in two requests.  The read
    decides: [None] when there is nothing to write, or the revision that the
    conditional put checks. *)
Definition put_if_higher_read self (key : RString) (block : Z) :
    prog W IngestionStateClientError (option Z) :=
  response ← pcontext IngestionStateClientErr (kv_get self key);
  match response with
  | None => mret (Some 0)
  | Some kv =>
      current ← lift (decode_block IngestionStateClientErr kv.1);
      if block <=? current then mret None else mret (Some kv.2)
  end.

Definition put_if_higher_write self (key : RString) (block mod_revision : Z) :
    prog W IngestionStateClientError bool :=
  pcontext IngestionStateClientErr (put_if_mod_revision self key (dec block) mod_revision).

(** The loop; [None] when the fuel runs out. *)
Fixpoint put_if_higher (fuel : nat) self (key : RString) (block : Z) :
    prog W IngestionStateClientError (option unit) :=
  match fuel with
  | O => mret None
  | S fuel =>
      decision ← put_if_higher_read self key block;
      match decision with
      | None => mret (Some tt)
      | Some mod_revision =>
          applied ← put_if_higher_write self key block mod_revision;
          if (applied : bool) then mret (Some tt) else put_if_higher fuel self key block
      end
  end.

Definition put_segmented (fuel : nat) self (block : Z) :
    prog W IngestionStateClientError (option unit) := put_if_higher fuel self SEGMENTED_KEY block.

Definition put_grouped (fuel : nat) self (block : Z) :
    prog W IngestionStateClientError (option unit) := put_if_higher fuel self GROUPED_KEY block.

Definition is_pending (u : IngestionStateUpdate) : bool :=
  match u with Pending _ => true | _ => false end.

(** [IngestionStateUpdate::from_kv]: what a change of a key means. *)
Definition ends_with (s suffix : RString) : bool := bool_decide (suffix `suffix_of` s).

Definition from_kv (key value : list byte) :
    outcome IngestionStateClientError (option IngestionStateUpdate) :=
  let e := IngestionStateClientErr in
  key ← ok_or e (from_utf8 key);
  if ends_with key RECENT_KEY then
    pointer ← pointer_of_bytes value; Ok (Some (Recent pointer))
  else
    value ← ok_or e (from_utf8 value);
    if ends_with key STARTING_BLOCK_KEY then
      block ← ok_or e (parse_u64 value); Ok (Some (StartingBlock block))
    else if ends_with key FINALIZED_KEY then
      block ← ok_or e (parse_u64 value); Ok (Some (Finalized block))
    else if ends_with key PENDING_KEY then
      match value with
      | [] => Ok (Some (Pending None))
      | _ :: _ => generation ← ok_or e (parse_u64 value); Ok (Some (Pending (Some generation)))
      end
    else if ends_with key SEGMENTED_KEY then
      block ← ok_or e (parse_u64 value); Ok (Some (Segmented block))
    else if ends_with key GROUPED_KEY then
      block ← ok_or e (parse_u64 value); Ok (Some (Grouped block))
    else Ok None.

(** [watch_changes]: the updates of one response of the watch stream.  An
    event without key-value is skipped, as is a key that is not watched. *)
Definition watch_response (events : list (option (list byte * list byte))) :
    list (outcome IngestionStateClientError IngestionStateUpdate) :=
  omap (fun event =>
    match event with
    | None => None
    | Some (key, value) =>
        match from_kv key value with
        | Ok (Some update) => Some (Ok update)
        | Ok None => None
        | Err err => Some (Err err)
        | Panic => Some Panic
        end
    end) events.

End state_client.

(** ** OptionsStore *)

Inductive OptionsStoreError := OptionsStoreErr.

Section options_store.
Context {W : Type} `{Cloud W}.
Implicit Type self : KvClient.

Definition set_usize self (key : RString) (size : Z) : prog W OptionsStoreError unit :=
  pcontext OptionsStoreErr (kv_put self key (dec size)).

Definition get_usize self (key : RString) : prog W OptionsStoreError (option Z) :=
  response ← pcontext OptionsStoreErr (kv_get self key);
  match response with
  | None => mret None
  | Some kv => size ← lift (decode_block OptionsStoreErr kv.1); mret (Some size)
  end.

Definition set_chain_segment_size self (size : Z) := set_usize self CHAIN_SEGMENT_SIZE_KEY size.
Definition set_segment_size self (size : Z) := set_usize self SEGMENT_SIZE_KEY size.
Definition set_group_size self (size : Z) := set_usize self GROUP_SIZE_KEY size.
Definition get_chain_segment_size self := get_usize self CHAIN_SEGMENT_SIZE_KEY.
Definition get_segment_size self := get_usize self SEGMENT_SIZE_KEY.
Definition get_group_size self := get_usize self GROUP_SIZE_KEY.

End options_store.
