(* ===== verification/StateClientFacts.v ===== *)
(** * Facts about the coordination state

    The effect of each request of [KvClient], [IngestionStateClient] and
    [OptionsStore] on the view of the cloud. *)

From S2P Require Import Prelude External Text Cloud StateClient.

Section kv_facts.
Context {W : Type} `{Cloud W}.
Implicit Types (self : KvClient) (w : W).

Lemma kv_get_inv self key w r w' :
  kv_get self key w = (r, w') ->
  view w' = view w /\ r <> Panic /\
  (forall kv, r = Ok kv -> kv = v_kvs (view w) !! kv_format_key self key).
Proof.
  unfold kv_get, pcontext. destruct (etcd_get _ w) as [r0 w0] eqn:He. intros [= <- <-].
  destruct (etcd_get_spec _ _ _ _ He) as (Hv & Hp & Ho). destruct r0; simpl; naive_solver.
Qed.

Lemma kv_put_inv self key value w r w' :
  kv_put self key value w = (r, w') ->
  r <> Panic /\
  (kvs_written [TxnPut (kv_format_key self key) value] (view w) (view w') \/
   (view w' = view w /\ r = Err EtcdClientErr)).
Proof.
  unfold kv_put, pcontext. destruct (etcd_put _ _ w) as [r0 w0] eqn:He. intros [= <- <-].
  destruct (etcd_put_spec _ _ _ _ _ He) as (Hp & Hs).
  split; [by destruct r0|]. destruct Hs as [Hw|[Hv ->]]; auto.
Qed.

Lemma kv_delete_inv self key w r w' :
  kv_delete self key w = (r, w') ->
  r <> Panic /\
  (kvs_written [TxnDelete (kv_format_key self key)] (view w) (view w') \/
   (view w' = view w /\ (r = Err EtcdClientErr \/ v_kvs (view w) !! kv_format_key self key = None))).
Proof.
  unfold kv_delete, pcontext. destruct (etcd_delete _ w) as [r0 w0] eqn:He. intros [= <- <-].
  destruct (etcd_delete_spec _ _ _ _ He) as (Hp & Hs).
  split; [by destruct r0|]. destruct Hs as [Hw|[Hv [->|Hn]]]; auto.
Qed.

Lemma put_if_mod_revision_inv self key value rev w r w' :
  put_if_mod_revision self key value rev w = (r, w') ->
  r <> Panic /\
  if mod_revision (v_kvs (view w)) (kv_format_key self key) =? rev
  then r <> Ok false /\
       (kvs_written [TxnPut (kv_format_key self key) value] (view w) (view w') \/
        (view w' = view w /\ r = Err EtcdClientErr))
  else r <> Ok true /\ view w' = view w.
Proof.
  unfold put_if_mod_revision, pcontext. destruct (etcd_txn _ _ w) as [r0 w0] eqn:He. intros [= <- <-].
  destruct (etcd_txn_spec _ _ _ _ _ He) as (Hp & Hs). cbn [compare_holds forallb fst snd] in Hs.
  rewrite andb_true_r in Hs. split; [by destruct r0|].
  destruct (mod_revision _ _ =? rev).
  - destruct Hs as [Hf Hs]. split; [destruct r0; simpl; naive_solver|].
    destruct Hs as [Hw|[Hv ->]]; auto.
  - destruct Hs as [Hf Hv]. split; [destruct r0; simpl; naive_solver|done].
Qed.

Lemma put_and_delete_inv self put_key value del_key w r w' :
  put_and_delete self put_key value del_key w = (r, w') ->
  r <> Panic /\
  (kvs_written [TxnPut (kv_format_key self put_key) value; TxnDelete (kv_format_key self del_key)]
     (view w) (view w') \/
   (view w' = view w /\ r = Err EtcdClientErr)).
Proof.
  unfold put_and_delete, pcontext. destruct (etcd_txn _ _ w) as [r0 w0] eqn:He. intros [= <- <-].
  destruct (etcd_txn_spec _ _ _ _ _ He) as (Hp & Hs). cbn [compare_holds forallb] in Hs.
  destruct Hs as [Hf Hs]. split; [by destruct r0|]. destruct Hs as [Hw|[Hv ->]]; auto.
Qed.

End kv_facts.

Lemma kv_format_key_inj self a b : kv_format_key self a = kv_format_key self b -> a = b.
Proof. apply app_inv_head. Qed.

(** ** Block numbers *)

Lemma decode_block_dec {E} (e : E) n : is_u64 n -> decode_block e (dec n) = Ok n.
Proof. intros Hn. unfold decode_block. rewrite from_utf8_dec by done. simpl. by rewrite parse_dec. Qed.

Lemma decode_block_no_panic {E} (e : E) bytes : decode_block e bytes <> Panic.
Proof. unfold decode_block. destruct (from_utf8 bytes); simpl; [by destruct (parse_u64 _)|done]. Qed.

(** The number stored under a key. *)
Definition stored_number (v : CloudView) (key : list byte) : option Z :=
  kv ← v_kvs v !! key;
  match decode_block tt kv.1 with Ok n => Some n | _ => None end.

Lemma decode_block_any {E E'} (e : E) (e' : E') bytes n :
  decode_block e bytes = Ok n -> decode_block e' bytes = Ok n.
Proof.
  unfold decode_block. destruct (from_utf8 bytes) as [s|]; simpl; [|done].
  destruct (parse_u64 s); simpl; naive_solver.
Qed.

Section client_facts.
Context {W : Type} `{Cloud W} `{!SerdeJson RecentSegmentPointer}.
Implicit Types (self : KvClient) (w : W).

Lemma get_block_number_inv self key w r w' :
  get_block_number self key w = (r, w') ->
  view w' = view w /\ r <> Panic /\
  (forall o, r = Ok o -> o = stored_number (view w) (kv_format_key self key)).
Proof.
  unfold get_block_number, mbind, prog_bind, pcontext. destruct (kv_get self key w) as [r0 w0] eqn:He.
  destruct (kv_get_inv _ _ _ _ _ He) as (Hv & Hp & Ho). unfold stored_number.
  destruct r0 as [[kv|]|e|]; simpl; [| | |done].
  - rewrite <- (Ho (Some kv) eq_refl). unfold lift. simpl.
    pose proof (decode_block_no_panic IngestionStateClientErr kv.1).
    destruct (decode_block IngestionStateClientErr kv.1) as [n|e|] eqn:Hd; intros [= <- <-]; [|done|done].
    split_and!; [done..|]. intros o [= <-]. by rewrite (decode_block_any _ tt _ _ Hd).
  - rewrite <- (Ho None eq_refl). intros [= <- <-]. naive_solver.
  - intros [= <- <-]. naive_solver.
Qed.

Lemma get_usize_inv self key w r w' : get_usize self key w = (r, w') ->
  view w' = view w /\ r <> Panic /\ (forall o, r = Ok o -> o = stored_number (view w) (kv_format_key self key)).
Proof.
  unfold get_usize. rewrite bind_eq. unfold pcontext. destruct (kv_get self key w) as [r0 w0] eqn:He.
  destruct (kv_get_inv _ _ _ _ _ He) as (Hv & Hp & Ho). unfold stored_number.
  destruct r0 as [[kv|]|e|]; simpl; [| | |done].
  - rewrite <- (Ho (Some kv) eq_refl). simpl. rewrite bind_eq. unfold lift.
    pose proof (decode_block_no_panic OptionsStoreErr kv.1).
    destruct (decode_block OptionsStoreErr kv.1) as [n|e|] eqn:Hd; intros [= <- <-]; [|done|done].
    split_and!; [done..|]. intros o [= <-]. by rewrite (decode_block_any _ tt _ _ Hd).
  - rewrite <- (Ho None eq_refl). intros [= <- <-]. naive_solver.
  - intros [= <- <-]. naive_solver.
Qed.

Lemma put_block_number_inv self key block w r w' :
  put_block_number self key block w = (r, w') ->
  r <> Panic /\
  (kvs_written [TxnPut (kv_format_key self key) (dec block)] (view w) (view w') \/
   (view w' = view w /\ r = Err IngestionStateClientErr)).
Proof.
  unfold put_block_number, pcontext. destruct (kv_put _ _ _ w) as [r0 w0] eqn:He. intros [= <- <-].
  destruct (kv_put_inv _ _ _ _ _ _ He) as (Hp & Hs).
  split; [by destruct r0|]. destruct Hs as [Hw|[Hv ->]]; auto.
Qed.

Lemma get_recent_inv self w r w' :
  get_recent self w = (r, w') ->
  view w' = view w /\
  (r = Ok None -> v_kvs (view w) !! kv_format_key self RECENT_KEY = None) /\
  (forall p, r = Ok (Some p) -> exists kv,
     v_kvs (view w) !! kv_format_key self RECENT_KEY = Some kv /\ json_from_slice kv.1 = Ok p).
Proof.
  unfold get_recent, mbind, prog_bind, pcontext. destruct (kv_get _ _ w) as [r0 w0] eqn:He.
  destruct (kv_get_inv _ _ _ _ _ He) as (Hv & Hp & Ho).
  destruct r0 as [[kv|]|e|]; simpl; [| | |done].
  - unfold lift, pointer_of_bytes. destruct (json_from_slice kv.1) eqn:Hj; simpl; intros [= <- <-];
      (split; [done|]); (split; [done|]); [|done..]. intros p [= <-].
    exists kv. split; [|done]. by rewrite <- (Ho (Some kv) eq_refl).
  - intros [= <- <-]. naive_solver.
  - intros [= <- <-]. naive_solver.
Qed.

Lemma put_recent_inv self pointer w r w' :
  put_recent self pointer w = (r, w') ->
  r <> Panic /\ exists value, json_to_vec pointer = Ok value /\
  (kvs_written [TxnPut (kv_format_key self RECENT_KEY) value;
                TxnDelete (kv_format_key self PENDING_KEY)] (view w) (view w') \/
   (view w' = view w /\ r = Err IngestionStateClientErr)).
Proof.
  destruct (json_to_vec_ok pointer) as [value Hj].
  unfold put_recent, mbind, prog_bind, lift, pointer_to_bytes. rewrite Hj. simpl. unfold pcontext.
  destruct (put_and_delete _ _ _ _ w) as [r0 w0] eqn:He.
  destruct (put_and_delete_inv _ _ _ _ _ _ _ He) as (Hp & Hs).
  destruct r0 as [b|e|]; simpl; intros [= <- <-]; (split; [done|]); exists value; (split; [done|]);
    destruct Hs as [Hw|[Hv Hs]]; auto; naive_solver.
Qed.

Lemma delete_legacy_ingested_inv self w r w' :
  delete_legacy_ingested self w = (r, w') ->
  r <> Panic /\
  (kvs_written [TxnDelete (kv_format_key self LEGACY_INGESTED_KEY)] (view w) (view w') \/
   (view w' = view w /\
    (r = Err IngestionStateClientErr \/ v_kvs (view w) !! kv_format_key self LEGACY_INGESTED_KEY = None))).
Proof.
  unfold delete_legacy_ingested, pcontext. destruct (kv_delete _ _ w) as [r0 w0] eqn:He. intros [= <- <-].
  destruct (kv_delete_inv _ _ _ _ _ He) as (Hp & Hs).
  split; [by destruct r0|]. destruct Hs as [Hw|[Hv [->|Hn]]]; auto.
Qed.

(** ** put_if_higher *)

Lemma put_if_higher_read_inv self key block w r w' :
  put_if_higher_read self key block w = (r, w') ->
  view w' = view w /\ r <> Panic /\
  forall d, r = Ok d ->
    match v_kvs (view w) !! kv_format_key self key with
    | None => d = Some 0
    | Some kv => exists current, decode_block tt kv.1 = Ok current /\
                   d = if block <=? current then None else Some kv.2
    end.
Proof.
  unfold put_if_higher_read, mbind, prog_bind, pcontext. destruct (kv_get _ _ w) as [r0 w0] eqn:He.
  destruct (kv_get_inv _ _ _ _ _ He) as (Hv & Hp & Ho).
  destruct r0 as [[kv|]|e|]; simpl; [| | |done].
  - rewrite <- (Ho (Some kv) eq_refl). unfold lift.
    pose proof (decode_block_no_panic IngestionStateClientErr kv.1).
    destruct (decode_block IngestionStateClientErr kv.1) as [n|e|] eqn:Hd; [|intros [= <- <-]; done|done].
    destruct (block <=? n) eqn:Hle; intros [= <- <-]; (split; [done|]); (split; [done|]);
      intros d [= <-]; exists n; (split; [by eapply decode_block_any|]); by rewrite Hle.
  - rewrite <- (Ho None eq_refl). intros [= <- <-]. naive_solver.
  - intros [= <- <-]. naive_solver.
Qed.

Lemma put_if_higher_write_inv self key block rev w r w' :
  put_if_higher_write self key block rev w = (r, w') ->
  r <> Panic /\
  if mod_revision (v_kvs (view w)) (kv_format_key self key) =? rev
  then r <> Ok false /\
       (kvs_written [TxnPut (kv_format_key self key) (dec block)] (view w) (view w') \/
        (view w' = view w /\ r = Err IngestionStateClientErr))
  else r <> Ok true /\ view w' = view w.
Proof.
  unfold put_if_higher_write, pcontext. destruct (put_if_mod_revision _ _ _ _ w) as [r0 w0] eqn:He.
  intros [= <- <-]. destruct (put_if_mod_revision_inv _ _ _ _ _ _ _ He) as (Hp & Hs).
  split; [by destruct r0|]. destruct (_ =? rev).
  - destruct Hs as [Hf Hs]. split; [destruct r0; simpl; naive_solver|].
    destruct Hs as [Hw|[Hv ->]]; auto.
  - destruct Hs as [Hf Hv]. split; [destruct r0; simpl; naive_solver|done].
Qed.

End client_facts.
