(* ===== verification/StateClientSpec.v ===== *)
(** * The coordination state: properties

    - any number of writers of [put_if_higher], interleaved at every request
      and with requests that fail or are lost, never move the stored block
      backwards, and a writer that returned has its block stored or passed;
    - what the services write is what a watcher decodes;
    - the publication of a recent segment is atomic and removes the pending
      block. *)

From stdpp Require Import relations.
From S2P Require Import Prelude External Text Cloud StateClient StateClientFacts.

(** ** Concurrent writers *)

(** A task in [put_if_higher]: before the read of an iteration, between the
    read and the conditional put, returned, or failed. *)
Inductive writer :=
| Reading (block : Z)
| Writing (block rev : Z)
| Returned (block : Z)
| Failed (block : Z).

Definition writer_block (p : writer) : Z :=
  match p with Reading b | Writing b _ | Returned b | Failed b => b end.

Section writers.
Context {W : Type} `{Cloud W} `{!SerdeJson RecentSegmentPointer}.
Variable client : KvClient.
Variable key : RString.

Local Abbreviation full := (kv_format_key client key).

(** One request of one writer, or a write to other keys by another program. *)
Inductive writers_step : W * list writer -> W * list writer -> Prop :=
| step_read w w' ps i block d :
    ps !! i = Some (Reading block) ->
    put_if_higher_read client key block w = (Ok d, w') ->
    writers_step (w, ps)
      (w', <[i := match d with None => Returned block | Some rev => Writing block rev end]> ps)
| step_read_failed w w' ps i block e :
    ps !! i = Some (Reading block) ->
    put_if_higher_read client key block w = (Err e, w') ->
    writers_step (w, ps) (w', <[i := Failed block]> ps)
| step_write w w' ps i block rev applied :
    ps !! i = Some (Writing block rev) ->
    put_if_higher_write client key block rev w = (Ok applied, w') ->
    writers_step (w, ps) (w', <[i := if (applied : bool) then Returned block else Reading block]> ps)
| step_write_failed w w' ps i block rev e :
    ps !! i = Some (Writing block rev) ->
    put_if_higher_write client key block rev w = (Err e, w') ->
    writers_step (w, ps) (w', <[i := Failed block]> ps)
| step_other w w' ps :
    v_kvs (view w') !! full = v_kvs (view w) !! full ->
    v_revision (view w) <= v_revision (view w') ->
    writers_step (w, ps) (w', ps).

(** The stored block, or -1. *)
Definition stored (w : W) : Z := default (-1) (stored_number (view w) full).

(** The key holds a number, if anything. *)
Definition holds_number (w : W) : Prop :=
  match v_kvs (view w) !! full with
  | None => True
  | Some kv => exists n, decode_block tt kv.1 = Ok n /\ is_u64 n
  end.

Definition writer_ok (w : W) (p : writer) : Prop :=
  is_u64 (writer_block p) /\
  match p with
  | Writing block rev =>
      rev <= v_revision (view w) /\
      (mod_revision (v_kvs (view w)) full = rev -> stored w < block)
  | Returned block => block <= stored w
  | _ => True
  end.

Definition writers_inv (s : W * list writer) : Prop :=
  holds_number s.1 /\ Forall (writer_ok s.1) s.2.

(** What a request may do to the key. *)
Definition forward (w w' : W) : Prop :=
  holds_number w' /\ stored w <= stored w' /\ v_revision (view w) <= v_revision (view w') /\
  (mod_revision (v_kvs (view w')) full <= v_revision (view w) ->
   mod_revision (v_kvs (view w')) full = mod_revision (v_kvs (view w)) full /\ stored w' = stored w).

Lemma mod_revision_le w : mod_revision (v_kvs (view w)) full <= v_revision (view w).
Proof.
  destruct (view_revisions w) as [H0 Hf]. unfold mod_revision.
  destruct (_ !! full) eqn:Hk; [|done]. apply Hf in Hk. lia.
Qed.

Lemma forward_writer w w' p : forward w w' -> writer_ok w p -> writer_ok w' p.
Proof.
  intros (_ & Hs & Hr & Hm) [Hu Hp]. split; [done|]. pose proof (mod_revision_le w').
  destruct p as [b|b rev|b|b]; [done| |lia|done]. destruct Hp as [Hrev Hlt]. split; [lia|].
  intros Heq. destruct Hm as [Hm1 Hm2]; [lia|]. rewrite Hm2. apply Hlt. congruence.
Qed.

Lemma forward_same w w' :
  holds_number w -> v_kvs (view w') !! full = v_kvs (view w) !! full ->
  v_revision (view w) <= v_revision (view w') -> forward w w'.
Proof.
  intros Hh Hk Hr. unfold forward, holds_number, stored, stored_number, mod_revision in *.
  rewrite Hk. auto with lia.
Qed.

Lemma stored_written w w' block :
  is_u64 block -> kvs_written [TxnPut full (dec block)] (view w) (view w') ->
  stored w' = block /\ holds_number w' /\ v_revision (view w) < v_revision (view w') /\
  mod_revision (v_kvs (view w')) full = v_revision (view w').
Proof.
  intros Hb (rev & Hrev & Heq). unfold stored, stored_number, holds_number, mod_revision. rewrite Heq.
  cbn [set_kvs v_kvs v_revision apply_ops foldl apply_op]. rewrite lookup_insert_eq. simpl.
  rewrite decode_block_dec by done. split_and!; eauto.
Qed.

Lemma write_step w w' r block rev :
  holds_number w -> writer_ok w (Writing block rev) ->
  put_if_higher_write client key block rev w = (r, w') ->
  forward w w' /\ (r = Ok true -> block <= stored w').
Proof.
  intros Hh (Hu & Hrev & Hlt) Hw. destruct (put_if_higher_write_inv _ _ _ _ _ _ _ Hw) as [_ Hs].
  destruct (Z.eqb_spec (mod_revision (v_kvs (view w)) full) rev) as [Heq|].
  - destruct Hs as [_ [Hwr|[Hv ->]]].
    + destruct (stored_written _ _ _ Hu Hwr) as (Hst & Hh' & Hr & Hm). specialize (Hlt Heq).
      simpl in Hst. split; [|intros _; lia]. split_and!; [done|lia|lia|]. lia.
    + split; [|done]. apply forward_same; [done|by rewrite Hv|by rewrite Hv].
  - destruct Hs as [Hf Hv]. split; [|by intros ->]. apply forward_same; [done|by rewrite Hv|by rewrite Hv].
Qed.

Lemma read_step w w' d block :
  holds_number w -> is_u64 block ->
  put_if_higher_read client key block w = (Ok d, w') ->
  forward w w' /\ writer_ok w' (match d with None => Returned block | Some rev => Writing block rev end).
Proof.
  intros Hh Hu Hr. destruct (put_if_higher_read_inv _ _ _ _ _ _ Hr) as (Hv & _ & Hd).
  split; [apply forward_same; [done|by rewrite Hv|by rewrite Hv]|]. specialize (Hd d eq_refl).
  pose proof (mod_revision_le w) as Hm. unfold writer_ok, stored, stored_number, mod_revision in *. rewrite Hv.
  destruct (view_revisions w) as [H0 Hf].
  destruct (v_kvs (view w) !! full) as [kv|] eqn:Hk.
  - destruct Hd as (current & Hcur & ->). cbn [mbind option_bind]. rewrite Hcur.
    destruct (Z.leb_spec block current); simpl; split; [done|lia|done|split; [lia|intros _; lia]].
  - subst d. simpl. unfold is_u64 in Hu. split; [done|]. split; [done|]. intros _. lia.
Qed.

Lemma writers_step_inv s s' :
  writers_inv s -> writers_step s s' -> writers_inv s' /\ stored s.1 <= stored s'.1.
Proof.
  assert (forall w w' ps i p, forward w w' -> Forall (writer_ok w) ps -> writer_ok w' p ->
            writers_inv (w', <[i := p]> ps) /\ stored w <= stored w') as Hgen.
  { intros w w' ps i p Hf Hps Hp. split; [|by apply Hf]. split; [apply Hf|].
    simpl. apply Forall_insert; [|done]. eapply Forall_impl; [done|]. intros q. by apply forward_writer. }
  assert (forall w w' : W, holds_number w -> view w' = view w -> forward w w') as Hsame.
  { intros w w' Hh Hv. apply forward_same; [done|by rewrite Hv|by rewrite Hv]. }
  intros [Hh Hps] Hstep. pose proof Hps as Hall. rewrite Forall_lookup in Hall.
  destruct Hstep as [w w' ps i b d Hi Hr|w w' ps i b e Hi Hr|w w' ps i b rev a Hi Hr|w w' ps i b rev e Hi Hr
    |w w' ps Hk Hrev]; simpl in *.
  - destruct (Hall _ _ Hi) as [Hu _]. destruct (read_step _ _ _ _ Hh Hu Hr). by apply Hgen.
  - destruct (put_if_higher_read_inv _ _ _ _ _ _ Hr) as (Hv & _ & _). destruct (Hall _ _ Hi) as [Hu _].
    apply Hgen; [by apply Hsame|done|by split].
  - destruct (write_step _ _ _ _ _ Hh (Hall _ _ Hi) Hr) as [Hf Ht]. destruct (Hall _ _ Hi) as [Hu _].
    apply Hgen; [done|done|]. destruct a; (split; [done|]); auto.
  - destruct (write_step _ _ _ _ _ Hh (Hall _ _ Hi) Hr) as [Hf Ht]. destruct (Hall _ _ Hi) as [Hu _].
    apply Hgen; [done|done|by split].
  - pose proof (forward_same _ _ Hh Hk Hrev) as Hf. split; [|by apply Hf]. split; [apply Hf|].
    simpl. eapply Forall_impl; [done|]. intros q. by apply forward_writer.
Qed.

Lemma writers_run_inv s s' :
  writers_inv s -> rtc writers_step s s' -> writers_inv s' /\ stored s.1 <= stored s'.1.
Proof.
  intros Hi Hr. induction Hr as [s|s s1 s' Hstep _ IH]; [done|].
  destruct (writers_step_inv _ _ Hi Hstep) as [Hi1 Hle]. destruct (IH Hi1). split; [done|lia].
Qed.

(** (C10) [put_if_higher] never moves a block backwards.  Take any number of
    tasks that store blocks under the same key, interleaved request by request
    with each other and with writes to other keys, where every request may
    fail and a failed conditional put may or may not have been applied.  The
    stored number never decreases, and once a task has returned successfully
    its block is stored or already passed, whatever happens later. *)
Theorem put_if_higher_monotone (w w' : W) (blocks : list Z) (ps : list writer) :
  holds_number w -> Forall is_u64 blocks ->
  rtc writers_step (w, Reading <$> blocks) (w', ps) ->
  stored w <= stored w' /\
  (forall i block, ps !! i = Some (Returned block) -> block <= stored w').
Proof.
  intros Hh Hb Hrun.
  destruct (writers_run_inv (w, Reading <$> blocks) (w', ps)) as [[_ Hps] Hle]; [|done|].
  { split; [done|]. simpl. apply Forall_fmap. eapply Forall_impl; [done|]. intros b Hu. by split. }
  split; [done|]. intros i b Hi. rewrite Forall_lookup in Hps. by destruct (Hps _ _ Hi).
Qed.

End writers.

(** ** What a watcher decodes *)

(** Two suffixes of one string are comparable. *)
Lemma suffix_comparable {A} (a b s : list A) :
  a `suffix_of` s -> b `suffix_of` s -> a `suffix_of` b \/ b `suffix_of` a.
Proof.
  intros [p ->] [q Hq]. destruct (le_lt_dec (length q) (length p)).
  - left. exists (drop (length q) p).
    assert (q = take (length q) p) as Hp.
    { apply (f_equal (take (length q))) in Hq. by rewrite take_app_length, take_app_le in Hq by done. }
    rewrite <- (take_drop (length q) p), <- Hp, <- (assoc_L (++)) in Hq. by apply app_inv_head in Hq.
  - right. exists (drop (length p) q).
    assert (p = take (length p) q) as Hp.
    { apply (f_equal (take (length p))) in Hq. by rewrite take_app_length, take_app_le in Hq by lia. }
    rewrite <- (take_drop (length p) q), <- Hp, <- (assoc_L (++)) in Hq. by apply app_inv_head in Hq.
Qed.

Lemma ends_with_self prefix key : ends_with (prefix ++ key) key = true.
Proof. apply bool_decide_eq_true. by exists prefix. Qed.

Lemma ends_with_other prefix key key' :
  ends_with key key' = false -> ends_with key' key = false -> ends_with (prefix ++ key) key' = false.
Proof.
  unfold ends_with. rewrite !bool_decide_eq_false. intros H1 H2 H3.
  assert (key `suffix_of` prefix ++ key) as H4 by (by exists prefix).
  by destruct (suffix_comparable _ _ _ H3 H4).
Qed.

(** Evaluates the tests of [from_kv] on a key of the client. *)
Ltac eval_from_kv :=
  repeat first
    [ rewrite ends_with_self | rewrite ends_with_other by (vm_compute; reflexivity) ];
  cbn [mbind outcome_bind ok_or].

Section decode.
Context {W : Type} `{Cloud W} `{!SerdeJson RecentSegmentPointer}.
Variable client : KvClient.

Definition update_key (u : IngestionStateUpdate) : RString :=
  match u with
  | StartingBlock _ => STARTING_BLOCK_KEY
  | Finalized _ => FINALIZED_KEY
  | Pending _ => PENDING_KEY
  | Segmented _ => SEGMENTED_KEY
  | Grouped _ => GROUPED_KEY
  | Recent _ => RECENT_KEY
  end.

Definition update_value (u : IngestionStateUpdate) : outcome JsonError (list byte) :=
  match u with
  | StartingBlock n | Finalized n | Segmented n | Grouped n | Pending (Some n) => Ok (dec n)
  | Pending None => Ok []
  | Recent p => json_to_vec p
  end.

Definition update_ok (u : IngestionStateUpdate) : Prop :=
  match u with
  | StartingBlock n | Finalized n | Segmented n | Grouped n | Pending (Some n) => is_u64 n
  | _ => True
  end.

Lemma full_key_utf8 key :
  utf8_valid (kv_prefix client) = true -> utf8_valid key = true ->
  from_utf8 (kv_format_key client key) = Some (kv_prefix client ++ key).
Proof. intros Hp Hk. unfold from_utf8, kv_format_key. by rewrite utf8_app, Hk. Qed.

Lemma from_kv_update u value :
  utf8_valid (kv_prefix client) = true -> update_ok u -> update_value u = Ok value ->
  from_kv (kv_format_key client (update_key u)) value = Ok (Some u).
Proof.
  intros Hp Hu Hv. unfold from_kv.
  rewrite full_key_utf8 by (try done; by destruct u). cbn [ok_or mbind outcome_bind].
  destruct u as [n|n|[n|]|n|n|p]; simpl in Hu, Hv; cbn [update_key]; eval_from_kv;
    try (injection Hv as <-); try (rewrite from_utf8_dec by done; cbn [mbind outcome_bind ok_or]; eval_from_kv;
      by rewrite parse_dec by done).
  - rewrite from_utf8_dec by done. cbn [mbind outcome_bind ok_or]. eval_from_kv. rewrite parse_dec by done.
    pose proof (dec_nonempty n Hu). by destruct (dec n).
  - done.
  - unfold pointer_of_bytes. by rewrite (json_roundtrip _ _ Hv).
Qed.

(** What a service does to publish an update. *)
Definition publish (u : IngestionStateUpdate) : prog W IngestionStateClientError unit :=
  match u with
  | StartingBlock n => put_starting_block client n
  | Finalized n => put_finalized client n
  | Pending (Some n) => put_pending client n
  | Pending None => mret tt
  | Segmented n => _ ← put_segmented 1 client n; mret tt
  | Grouped n => _ ← put_grouped 1 client n; mret tt
  | Recent p => put_recent client p
  end.

(** Whether a stored update reports at least [u]: a segmented or grouped block
    may already have been passed. *)
Definition reports (u u' : IngestionStateUpdate) : Prop :=
  match u, u' with
  | Segmented n, Segmented n' | Grouped n, Grouped n' => n <= n'
  | _, _ => u' = u
  end.

Lemma put_if_higher_once key block w w' :
  holds_number client key w -> is_u64 block ->
  put_if_higher 1 client key block w = (Ok (Some tt), w') ->
  exists n, block <= n /\ is_u64 n /\ stored_number (view w') (kv_format_key client key) = Some n.
Proof.
  intros Hh Hu. cbn [put_if_higher]. unfold mbind, prog_bind.
  destruct (put_if_higher_read client key block w) as [[d|e|] w1] eqn:Hr; [|done|done].
  destruct (read_step _ _ _ _ _ _ Hh Hu Hr) as [Hf Hd].
  destruct d as [rev|].
  - destruct (put_if_higher_write client key block rev w1) as [[b|e|] w2] eqn:Hw; [|done|done].
    destruct b; [|done]. intros [= <-]. exists block. split_and!; [lia|done|].
    destruct (put_if_higher_write_inv _ _ _ _ _ _ _ Hw) as [_ Hs].
    destruct (_ =? rev); [|naive_solver]. destruct Hs as [_ [Hs|[_ ?]]]; [|done].
    destruct (kvs_put_lookup _ _ _ _ Hs) as (r & _ & Hl & _). unfold stored_number. rewrite Hl. simpl.
    by rewrite decode_block_dec.
  - intros [= <-]. destruct Hd as [_ Hd]. simpl in Hd. destruct Hf as (Hn & _).
    unfold stored, holds_number, stored_number in *. unfold is_u64 in Hu.
    destruct (v_kvs (view w1) !! _) as [kv|]; simpl in *; [|lia].
    destruct Hn as (n & Hn & Hun). rewrite Hn in *. simpl in Hd. by exists n.
Qed.

(** Without another writer the first iteration returns. *)
Lemma put_if_higher_alone fuel key block w r w' :
  (0 < fuel)%nat -> put_if_higher fuel client key block w = (r, w') ->
  r <> Ok None /\ put_if_higher 1 client key block w = (r, w').
Proof.
  intros Hf. destruct fuel as [|fuel]; [lia|]. cbn [put_if_higher]. unfold mbind, prog_bind.
  destruct (put_if_higher_read client key block w) as [[d|e|] w1] eqn:Hr; [|naive_solver..].
  destruct d as [rev|]; [|naive_solver].
  destruct (put_if_higher_write client key block rev w1) as [[b|e|] w2] eqn:Hw; [|naive_solver..].
  destruct b; [naive_solver|]. exfalso.
  destruct (put_if_higher_read_inv _ _ _ _ _ _ Hr) as (Hv & _ & Hd). specialize (Hd _ eq_refl).
  destruct (put_if_higher_write_inv _ _ _ _ _ _ _ Hw) as [_ Hs]. rewrite Hv in Hs. unfold mod_revision in Hs.
  destruct (v_kvs (view w) !! _) as [kv|].
  - destruct Hd as (c & _ & Hd). destruct (block <=? c); [done|]. injection Hd as ->.
    rewrite Z.eqb_refl in Hs. naive_solver.
  - injection Hd as ->. rewrite Z.eqb_refl in Hs. naive_solver.
Qed.

Lemma from_kv_number u u' key kv n :
  (u = Segmented /\ key = SEGMENTED_KEY \/ u = Grouped /\ key = GROUPED_KEY) ->
  utf8_valid (kv_prefix client) = true -> u' = u n ->
  decode_block tt (kv : list byte) = Ok n -> from_kv (kv_format_key client key) kv = Ok (Some u').
Proof.
  intros Hk Hp -> Hd. unfold from_kv. unfold decode_block in Hd.
  rewrite full_key_utf8 by (try done; by destruct Hk as [[_ ->]|[_ ->]]). cbn [ok_or mbind outcome_bind].
  destruct (from_utf8 kv) as [s|]; [|done]. cbn [ok_or mbind outcome_bind] in Hd.
  apply ok_or_Ok in Hd.
  destruct Hk as [[-> ->]|[-> ->]]; eval_from_kv; by rewrite Hd.
Qed.

Lemma put_number_decodes u key n w w' :
  utf8_valid (kv_prefix client) = true -> update_ok u -> update_value u = Ok (dec n) -> key = update_key u ->
  put_block_number client key n w = (Ok tt, w') ->
  exists kv, v_kvs (view w') !! kv_format_key client key = Some kv /\
    from_kv (kv_format_key client key) kv.1 = Ok (Some u).
Proof.
  intros Hp Hu Hv -> Hput. destruct (put_block_number_inv _ _ _ _ _ _ Hput) as [_ [Hw|[_ ?]]]; [|done].
  destruct (kvs_put_lookup _ _ _ _ Hw) as (rev & _ & Hl & _). eexists. split; [done|]. simpl.
  by apply from_kv_update.
Qed.

Lemma put_higher_decodes u key n w w' :
  (u = Segmented /\ key = SEGMENTED_KEY \/ u = Grouped /\ key = GROUPED_KEY) ->
  utf8_valid (kv_prefix client) = true -> is_u64 n -> holds_number client key w ->
  (_ ← put_if_higher 1 client key n; mret tt) w = (Ok tt, w') ->
  exists kv m, v_kvs (view w') !! kv_format_key client key = Some kv /\ n <= m /\
    from_kv (kv_format_key client key) kv.1 = Ok (Some (u m)).
Proof.
  intros Hk Hp Hu Hh. unfold mbind, prog_bind.
  destruct (put_if_higher 1 client key n w) as [[r|e|] w1] eqn:Hput; [|done|done]. intros [= ->].
  destruct (put_if_higher_alone 1 _ _ _ _ _ ltac:(lia) Hput) as [Hne _]. destruct r as [[]|]; [|done].
  destruct (put_if_higher_once _ _ _ _ Hh Hu Hput) as (m & Hle & Hum & Hst). unfold stored_number in Hst.
  destruct (v_kvs (view w') !! _) as [kv|]; [|done]. simpl in Hst.
  destruct (decode_block tt kv.1) eqn:Hd; [|done|done]. injection Hst as ->.
  exists kv, m. split_and!; [done|done|]. by eapply from_kv_number.
Qed.

(** What a service publishes is what a watcher decodes.  After a
    successful publication of an update (the starting, finalized, pending,
    segmented or grouped block, or the recent segment) the key of that update,
    with the configured prefix, holds a value that [from_kv] turns back into
    the update; a segmented or grouped block may already have been passed, and
    then the later block is reported. *)
Theorem publication_decodes (u : IngestionStateUpdate) (w w' : W) :
  utf8_valid (kv_prefix client) = true -> update_ok u -> u <> Pending None ->
  holds_number client SEGMENTED_KEY w -> holds_number client GROUPED_KEY w ->
  publish u w = (Ok tt, w') ->
  exists kv u', v_kvs (view w') !! kv_format_key client (update_key u) = Some kv /\
    from_kv (kv_format_key client (update_key u)) kv.1 = Ok (Some u') /\ reports u u'.
Proof.
  intros Hp Hu Hn Hs Hg Hpub. destruct u as [n|n|[n|]|n|n|p]; cbn [publish update_key] in *; [| | |done| | |].
  - destruct (put_number_decodes (StartingBlock n) _ _ _ _ Hp Hu eq_refl eq_refl Hpub) as (kv & ? & ?). by exists kv; eexists.
  - destruct (put_number_decodes (Finalized n) _ _ _ _ Hp Hu eq_refl eq_refl Hpub) as (kv & ? & ?). by exists kv; eexists.
  - destruct (put_number_decodes (Pending (Some n)) _ _ _ _ Hp Hu eq_refl eq_refl Hpub) as (kv & ? & ?). by exists kv; eexists.
  - destruct (put_higher_decodes Segmented _ _ _ _ ltac:(auto) Hp Hu Hs Hpub) as (kv & m & ? & ? & ?). by exists kv; exists (Segmented m).
  - destruct (put_higher_decodes Grouped _ _ _ _ ltac:(auto) Hp Hu Hg Hpub) as (kv & m & ? & ? & ?). by exists kv; exists (Grouped m).
  - destruct (put_recent_inv _ _ _ _ _ Hpub) as [_ (value & Hv & [Hw|[_ ?]])]; [|done].
    destruct (kvs_put_delete_lookup _ _ _ _ _ Hw) as (rev & _ & Hl & _).
    { intros ?%kv_format_key_inj. done. }
    exists (value, rev), (Recent p). split_and!; [done| |done]. by apply (from_kv_update (Recent p)).
Qed.

(** [put_recent] publishes the pointer and removes the pending block in
    one step: if it returns, the pointer is the one read back and there is no
    pending block; if it fails, either that has happened or nothing has; no
    other key is touched in any case. *)
Theorem put_recent_atomic (pointer : RecentSegmentPointer) (w w' : W)
    (r : outcome IngestionStateClientError unit) :
  put_recent client pointer w = (r, w') ->
  (view w' = view w /\ r = Err IngestionStateClientErr \/
   v_kvs (view w') !! kv_format_key client PENDING_KEY = None /\
   (forall r' w'', get_recent client w' = (r', w'') ->
      r' = Ok (Some pointer) \/ exists e, r' = Err e)) /\
  (forall key, key <> RECENT_KEY -> key <> PENDING_KEY ->
     v_kvs (view w') !! kv_format_key client key = v_kvs (view w) !! kv_format_key client key) /\
  v_objects (view w') = v_objects (view w).
Proof.
  intros Hput. destruct (put_recent_inv _ _ _ _ _ Hput) as [_ (value & Hv & [Hw|[Heq Hr]])].
  2: { rewrite Heq. auto. }
  destruct (kvs_put_delete_lookup _ _ _ _ _ Hw) as (rev & _ & Hl & Hd & Ho).
  { intros ?%kv_format_key_inj. done. }
  split_and!; [right; split; [done|]| |by apply (kvs_written_objects _ _ _ Hw)].
  - intros r' w'' Hget. destruct (get_recent_inv _ _ _ _ Hget) as (_ & Hnone & Hsome).
    destruct r' as [[p|]|e|]; [|by rewrite Hnone in Hl|by right; eexists|].
    + destruct (Hsome p eq_refl) as (kv & Hkv & Hj). rewrite Hl in Hkv. injection Hkv as <-.
      simpl in Hj. rewrite (json_roundtrip _ _ Hv) in Hj. injection Hj as ->. by left.
    + exfalso. revert Hget. unfold get_recent, mbind, prog_bind, pcontext.
      destruct (kv_get _ _ w') as [r0 w0] eqn:He. destruct (kv_get_inv _ _ _ _ _ He) as (_ & Hp & Hkv).
      destruct r0 as [[kv|]|e|]; simpl; [|done|done|done].
      specialize (Hkv _ eq_refl). rewrite Hl in Hkv. injection Hkv as ->. unfold lift, pointer_of_bytes.
      simpl. by rewrite (json_roundtrip _ _ Hv).
  - intros key H1 H2. apply Ho; intros ?%kv_format_key_inj; done.
Qed.

End decode.

(** ** Witnesses *)

Module StateClientWitness.
Import ReliableCloud ReferenceJson.

Definition client : KvClient := mkKvClient (normalize_prefix (Some (str "dna"))).

Lemma holds_empty key : holds_number client key world_empty.
Proof.
  unfold holds_number. change (v_kvs (view world_empty)) with (∅ : KeyValues). by rewrite lookup_empty.
Qed.

Lemma u64_blocks : Forall is_u64 [5; 3].
Proof. repeat constructor; unfold U64; lia. Qed.

(** Two tasks store 5 and 3: both read before either writes. *)
Lemma put_if_higher_monotone_witness :
  exists w', rtc (writers_step client SEGMENTED_KEY)
       (world_empty, Reading <$> [5; 3]) (w', [Returned 5; Returned 3]) /\
    stored client SEGMENTED_KEY world_empty <= stored client SEGMENTED_KEY w' /\
    3 <= stored client SEGMENTED_KEY w'.
Proof.
  eassert (rtc (writers_step client SEGMENTED_KEY)
    (world_empty, Reading <$> [5; 3]) (_, [Returned 5; Returned 3])) as Hrun.
  { eapply rtc_l; [by eapply (step_read _ _ _ _ _ 0 5 (Some 0))|].
    eapply rtc_l; [by eapply (step_read _ _ _ _ _ 1 3 (Some 0))|].
    eapply rtc_l; [by eapply (step_write _ _ _ _ _ 0 5 0 true)|].
    eapply rtc_l; [by eapply (step_write _ _ _ _ _ 1 3 0 false)|].
    eapply rtc_l; [by eapply (step_read _ _ _ _ _ 1 3 None)|]. apply rtc_refl. }
  eexists. split; [exact Hrun|].
  destruct (put_if_higher_monotone client SEGMENTED_KEY _ _ [5; 3] _ (holds_empty _)
    u64_blocks Hrun) as [Hle Hret].
  split; [exact Hle|]. by apply (Hret 1%nat).
Defined.

Definition pointer_example : RecentSegmentPointer :=
  mkPointer (str "canon/recent/z-0000000000-0000000007") (str "v1") 0 7.

Lemma publication_decodes_witness :
  exists kv u', v_kvs (view (publish client (Recent pointer_example) world_empty).2) !!
      kv_format_key client RECENT_KEY = Some kv /\
    from_kv (kv_format_key client RECENT_KEY) kv.1 = Ok (Some u') /\
    reports (Recent pointer_example) u'.
Proof.
  apply (publication_decodes client (Recent pointer_example) world_empty); try done.
Defined.

Lemma put_recent_atomic_witness :
  let w' := (put_recent client pointer_example (put_pending client 3 world_empty).2).2 in
  v_kvs (view w') !! kv_format_key client PENDING_KEY = None.
Proof.
  intros w'.
  destruct (put_recent_atomic client pointer_example _ _ _ (surjective_pairing
    (put_recent client pointer_example (put_pending client 3 world_empty).2)))
    as [[[_ He]|[Hp _]] _]; [vm_compute in He; discriminate He|exact Hp].
Defined.

End StateClientWitness.
