(* ===== verification/ObjectStore.v ===== *)
(** * The object store client (common/src/object_store/mod.rs)

    Every object is written with a CRC-32 of its data appended and the whole
    compressed, under the configured prefix; a read decompresses, checks the
    checksum and strips it.  Compression (zstd) and the checksum function are
    parameters. *)

From S2P Require Import Prelude External Text Cloud StateClient.

(** [zstd::stream::copy_encode], [copy_decode] and [crc32fast::hash]. *)
Class Codec := {
  zstd_encode : list byte -> outcome IoError (list byte);
  zstd_decode : list byte -> outcome IoError (list byte);
  crc32 : list byte -> Z;
  zstd_roundtrip : forall data compressed,
    zstd_encode data = Ok compressed -> zstd_decode compressed = Ok data;
  zstd_encode_no_panic : forall data, zstd_encode data <> Panic;
  zstd_decode_no_panic : forall data, zstd_decode data <> Panic;
  crc32_range : forall data, is_u32 (crc32 data) }.

(** [BufMut::put_u32] and [Buf::get_u32]: big-endian. *)
Definition put_u32 (n : Z) : list byte :=
  [Reference.byte_of_Z (n / 2 ^ 24 mod 256); Reference.byte_of_Z (n / 2 ^ 16 mod 256);
   Reference.byte_of_Z (n / 2 ^ 8 mod 256); Reference.byte_of_Z (n mod 256)].

Definition get_u32 (bs : list byte) : Z :=
  foldl (fun v b => 256 * v + byte_val b) 0 (take 4 bs).

Record ObjectStore := mkObjectStore { os_prefix : RString; os_bucket : RString }.

Definition object_store_new (bucket : RString) (prefix : option RString) : ObjectStore :=
  mkObjectStore (normalize_prefix prefix) bucket.

Definition full_key (self : ObjectStore) (path : RString) : RString := os_prefix self ++ path.

Section object_store.
Context `{!Codec} {W : Type} `{Cloud W}.
Implicit Type self : ObjectStore.

(** The data of a stored body, as [get] checks it. *)
Definition open_body (body : list byte) : outcome ObjectStoreError (list byte) :=
  decompressed ← change_context Request (zstd_decode body);
  let len := length decompressed in
  if Nat.ltb len 4 then Panic
  else
    let checksum := get_u32 (drop (len - 4) decompressed) in
    let data := take (len - 4) decompressed in
    if negb (crc32 data =? checksum) then Err ChecksumMismatch else Ok data.

Definition object_get self (path : RString) (version : option ObjectVersion) :
    prog W ObjectStoreError (ObjectVersion * list byte) :=
  let key := full_key self path in
  response ← get_object (os_bucket self) key version;
  body ← lift (open_body response.2);
  mret (response.1, body).

(** The body that [put] stores for some data. *)
Definition seal_body (data : list byte) : outcome ObjectStoreError (list byte) :=
  let checksum := crc32 data in
  change_context Request (zstd_encode (data ++ put_u32 checksum)).

Definition object_put self (path : RString) (body : list byte) (mode : PutMode) :
    prog W ObjectStoreError ObjectVersion :=
  let key := full_key self path in
  compressed ← lift (seal_body body);
  put_object (os_bucket self) key compressed mode.

Definition object_delete self (path : RString) (fullpath : option bool) :
    prog W ObjectStoreError unit :=
  let key := match fullpath with Some true => path | _ => full_key self path end in
  delete_object (os_bucket self) key.

Definition object_list self (prefix : RString) : prog W ObjectStoreError (list RString) :=
  list_objects (os_bucket self) (full_key self prefix).

End object_store.

(** A codec for the witnesses: no compression, a sum of bytes as checksum. *)
Module ReferenceCodec.

#[export] Program Instance reference_codec : Codec := {|
  zstd_encode data := Ok data;
  zstd_decode data := Ok data;
  crc32 data := wrap32 (foldl (fun v b => v + byte_val b) 0 data) |}.
Next Obligation. intros data compressed [= <-]. done. Qed.
Next Obligation. done. Qed.
Next Obligation. done. Qed.
Next Obligation. intros data. apply wrap32_range. Qed.

End ReferenceCodec.
