(* ===== verification/ChainStore.v ===== *)
(** * The chain store (common/src/chain_store.rs)

    Segments of the canonical chain are objects: a full segment under its first
    block number, read through the file cache, and the recent segment as a new
    object for every publication, read through the pointer that names its key
    and version.  The legacy layout has a single mutable recent object. *)

From S2P Require Import Prelude External Text Core Cloud StateClient ObjectStore Chain ChainView.

Record ChainStore := mkChainStore { cs_client : ObjectStore }.

Definition CANONICAL_PREFIX : RString := str "canon".
Definition RECENT_CHAIN_SEGMENT_PREFIX : RString := str "recent".
Definition LEGACY_RECENT_CHAIN_SEGMENT_NAME : RString := str "recent".

Definition chain_format_key (key : RString) : RString := CANONICAL_PREFIX ++ [slash] ++ key.

Definition segment_filename (first_block : Z) : RString := str "z-" ++ dec_pad 10 first_block.

(** [counter] is the value of the process-wide counter before [fetch_add]. *)
Definition recent_snapshot_filename (counter timestamp_ns : Z) (segment : CanonicalChainSegment) :
    RString :=
  let first_block := number (first_block (seg_info segment)) in
  let last_block := number (last_block (seg_info segment)) in
  let counter := counter mod 1000000 in
  RECENT_CHAIN_SEGMENT_PREFIX ++ str "/z-" ++ dec_pad 10 first_block ++ str "-" ++
    dec_pad 10 last_block ++ str "-" ++ dec_pad 20 timestamp_ns ++ str "-" ++ dec_pad 6 counter.

Definition validate_recent_pointer (pointer : RecentSegmentPointer) :
    outcome ChainStoreError unit :=
  let expected_prefix := CANONICAL_PREFIX ++ [slash] ++ RECENT_CHAIN_SEGMENT_PREFIX ++ [slash] in
  if negb (bool_decide (expected_prefix `prefix_of` ptr_key pointer)) then Err ChainStoreErr
  else if bool_decide (ptr_version pointer = []) then Err ChainStoreErr
  else if ptr_last_block pointer <? ptr_first_block pointer then Err ChainStoreErr
  else Ok tt.

Section chain_store.
Context `{!Codec} {W : Type} `{Cloud W} `{!Archive CanonicalChainSegment}.
Implicit Type self : ChainStore.

(** [rkyv::from_bytes]. *)
Definition decode_segment (bytes : list byte) : outcome ChainStoreError CanonicalChainSegment :=
  ok_or ChainStoreErr (from_bytes bytes).

Definition get_as_bytes self (key : RString) (version : option ObjectVersion) :
    prog W ChainStoreError (option (list byte)) := fun w =>
  match object_get (cs_client self) key version w with
  | (Ok response, w') => (Ok (Some response.2), w')
  | (Err NotFound, w') => (Ok None, w')
  | (Err _, w') => (Err ChainStoreErr, w')
  | (Panic, w') => (Panic, w')
  end.

Definition get_by_key self (key : RString) (version : option ObjectVersion) :
    prog W ChainStoreError (option CanonicalChainSegment) :=
  bytes ← get_as_bytes self key version;
  match bytes with
  | None => mret None
  | Some bytes => segment ← lift (decode_segment bytes); mret (Some segment)
  end.

Definition put_impl self (name : RString) (segment : CanonicalChainSegment) (mode : PutMode) :
    prog W ChainStoreError ObjectVersion :=
  let bytes := to_bytes segment in
  pcontext ChainStoreErr (object_put (cs_client self) (chain_format_key name) bytes mode).

Definition get_impl self (name : RString) (version : option ObjectVersion) (skip_cache : bool) :
    prog W ChainStoreError (option CanonicalChainSegment) :=
  let key := chain_format_key name in
  if skip_cache then
    bytes ← get_as_bytes self key version;
    match bytes with
    | None => mret None
    | Some bytes => segment ← lift (decode_segment bytes); mret (Some segment)
    end
  else
    existing ← pcontext ChainStoreErr (cache_get CacheGeneral key);
    match existing with
    | Some existing => segment ← lift (decode_segment existing); mret (Some segment)
    | None =>
        bytes ← get_as_bytes self key version;
        match bytes with
        | None => mret None
        | Some bytes =>
            _ ← modify (cache_insert CacheGeneral key bytes);
            segment ← lift (decode_segment bytes); mret (Some segment)
        end
    end.

Definition chain_store_get self (first_block_number : Z) :
    prog W ChainStoreError (option CanonicalChainSegment) :=
  get_impl self (segment_filename first_block_number) None false.

Definition chain_store_put self (segment : CanonicalChainSegment) :
    prog W ChainStoreError ObjectVersion :=
  put_impl self (segment_filename (number (first_block (seg_info segment)))) segment Overwrite.

Definition put_recent_snapshot self (counter : Z) (segment : CanonicalChainSegment) :
    prog W ChainStoreError RecentSegmentPointer :=
  w ← get_state;
  let name := recent_snapshot_filename counter (now_ns w) segment in
  version ← put_impl self name segment Create;
  mret (mkPointer (chain_format_key name) version
          (number (first_block (seg_info segment))) (number (last_block (seg_info segment)))).

Definition get_recent_snapshot self (pointer : RecentSegmentPointer) :
    prog W ChainStoreError (option CanonicalChainSegment) :=
  _ ← lift (validate_recent_pointer pointer);
  segment ← get_by_key self (ptr_key pointer) (Some (ptr_version pointer));
  match segment with
  | None => mret None
  | Some segment =>
      if negb (number (first_block (seg_info segment)) =? ptr_first_block pointer)
         || negb (number (last_block (seg_info segment)) =? ptr_last_block pointer)
      then fail ChainStoreErr
      else mret (Some segment)
  end.

Definition get_legacy_recent self : prog W ChainStoreError (option CanonicalChainSegment) :=
  get_impl self LEGACY_RECENT_CHAIN_SEGMENT_NAME None true.

Definition delete_legacy_recent self : prog W ChainStoreError unit :=
  pcontext ChainStoreErr
    (object_delete (cs_client self) (chain_format_key LEGACY_RECENT_CHAIN_SEGMENT_NAME) None).

End chain_store.
