(* ===== verification/BlockStore.v ===== *)
(** * The block store (common/src/block_store.rs)

    Blocks, pending blocks, segments and groups are objects under fixed key
    formats.  The writer serialises and uploads, the uncached reader of the
    compaction service downloads, and the reader of the data stream goes
    through the file cache. *)

From S2P Require Import Prelude External Text Core Cloud StateClient ObjectStore Chain Index FragmentAccess.

Definition BLOCK_PREFIX : RString := str "block".
Definition SEGMENT_PREFIX : RString := str "segment".
Definition GROUP_PREFIX : RString := str "group".

(** [impl Display for Hash]. *)
Definition hash_display (h : Hash) : RString :=
  if hash_is_empty h then str "0x0" else str "0x" ++ hex_encode h.

Definition format_block_prefix (block_number : Z) : RString :=
  BLOCK_PREFIX ++ [slash] ++ dec_pad 10 block_number.

Definition format_pending_block_key (block_number generation : Z) : RString :=
  format_block_prefix block_number ++ str "/pending-" ++ dec_pad 4 generation.

Definition format_block_key (cursor : Cursor) : RString :=
  format_block_prefix (number cursor) ++ [slash] ++ hash_display (hash cursor).

Definition format_segment_key (first_block : Cursor) (name : RString) : RString :=
  SEGMENT_PREFIX ++ [slash] ++ dec_pad 10 (number first_block) ++ [slash] ++ name.

Definition format_group_key (first_block : Cursor) : RString :=
  GROUP_PREFIX ++ [slash] ++ dec_pad 10 (number first_block) ++ str "/index".

Record SerializedSegment := mkSerializedSegment { ss_name : RString; ss_data : list byte }.

Inductive BlockStoreError := BlockStoreErr.

Section block_store.
Context `{!Codec} {W : Type} `{Cloud W} `{!BlockArchives}.
Implicit Type client : ObjectStore.

(** ** BlockStoreWriter *)

Definition put_block client (cursor : Cursor) (block : Block) :
    prog W BlockStoreError (Z * ObjectVersion) :=
  let bytes := to_bytes block in
  let size := Z.of_nat (length bytes) in
  version ← pcontext BlockStoreErr (object_put client (format_block_key cursor) bytes Overwrite);
  mret (size, version).

Definition put_pending_block client (block_info : PendingBlockInfo) (block : Block) :
    prog W BlockStoreError (Z * ObjectVersion) :=
  let bytes := to_bytes block in
  let size := Z.of_nat (length bytes) in
  version ← pcontext BlockStoreErr
    (object_put client
       (format_pending_block_key (pbi_number block_info) (pbi_generation block_info)) bytes Overwrite);
  mret (size, version).

(** The loop over the listed objects. *)
Fixpoint delete_all client (object_ids : list RString) : prog W BlockStoreError unit :=
  match object_ids with
  | [] => mret tt
  | object_id :: object_ids =>
      _ ← pcontext BlockStoreErr (object_delete client object_id (Some true));
      delete_all client object_ids
  end.

Definition delete_block_with_prefix client (block_number : Z) : prog W BlockStoreError unit :=
  let prefix := format_block_prefix block_number in
  object_ids ← pcontext BlockStoreErr (object_list client prefix);
  delete_all client object_ids.

Definition put_segment client (first_cursor : Cursor) (segment : SerializedSegment) :
    prog W BlockStoreError ObjectVersion :=
  pcontext BlockStoreErr
    (object_put client (format_segment_key first_cursor (ss_name segment)) (ss_data segment) Overwrite).

Definition put_group client (first_cursor : Cursor) (group : SegmentGroup) :
    prog W BlockStoreError (Z * ObjectVersion) :=
  let bytes := to_bytes group in
  let size := Z.of_nat (length bytes) in
  version ← pcontext BlockStoreErr (object_put client (format_group_key first_cursor) bytes Overwrite);
  mret (size, version).

(** ** UncachedBlockStoreReader *)

Definition uncached_get client (key : RString) : prog W BlockStoreError (list byte) :=
  response ← pcontext BlockStoreErr (object_get client key None);
  mret response.2.

Definition uncached_get_block client (cursor : Cursor) : prog W BlockStoreError (list byte) :=
  uncached_get client (format_block_key cursor).

Definition get_block_and_cursor client (cursor : Cursor) :
    prog W BlockStoreError (Cursor * list byte) :=
  bytes ← uncached_get client (format_block_key cursor);
  mret (cursor, bytes).

Definition uncached_get_segment client (first_cursor : Cursor) (name : RString) :
    prog W BlockStoreError (list byte) :=
  uncached_get client (format_segment_key first_cursor name).

Definition uncached_get_index_segment client (first_cursor : Cursor) :=
  uncached_get_segment client first_cursor (str "index").

Definition get_index_segment_and_cursor client (first_cursor : Cursor) :
    prog W BlockStoreError (Cursor * list byte) :=
  segment ← uncached_get_segment client first_cursor (str "index");
  mret (first_cursor, segment).

Definition uncached_get_group client (cursor : Cursor) : prog W BlockStoreError (list byte) :=
  uncached_get client (format_group_key cursor).

(** ** BlockStoreReader *)

(** The fetch that a miss starts. *)
Definition fetch_object client (key : RString) : prog W ObjectStoreError (list byte) :=
  response ← object_get client key None;
  mret response.2.

Definition reader_get_block client (cursor : Cursor) : prog W FoyerError (list byte) :=
  let key := format_block_key cursor in
  get_or_fetch CacheGeneral key (fetch_object client key).

Definition reader_get_pending_block client (cursor : Cursor) (generation : Z) :
    prog W FoyerError (list byte) :=
  let key := format_pending_block_key (number cursor) generation in
  get_or_fetch CacheGeneral key (fetch_object client key).

Definition reader_get_segment client (first_cursor : Cursor) (name : RString) :
    prog W FoyerError (list byte) :=
  let key := format_segment_key first_cursor name in
  get_or_fetch CacheGeneral key (fetch_object client key).

Definition reader_get_index_segment client (first_cursor : Cursor) :=
  reader_get_segment client first_cursor (str "index").

Definition reader_get_group client (cursor : Cursor) : prog W FoyerError (list byte) :=
  let key := format_group_key cursor in
  get_or_fetch CacheIndex key (fetch_object client key).

End block_store.
