(* ===== verification/StoreFacts.v ===== *)
(** * Facts about the stores

    The data an object holds, the effect of the requests of the object store on
    it, and the injectivity of the keys. *)

From S2P Require Import Prelude External Text Core Cloud StateClient ObjectStore Chain ChainView ChainStore.
From S2P Require Import Index FragmentAccess BlockStore.

(** ** Bodies *)

Lemma get_put_u32 n : is_u32 n -> get_u32 (put_u32 n) = n.
Proof.
  unfold is_u32, U32. intros Hn. unfold get_u32, put_u32. cbn [take foldl].
  rewrite !Reference.byte_val_of_Z by (apply Z.mod_pos_bound; lia).
  replace (n / 2 ^ 16) with (n / 2 ^ 8 / 2 ^ 8) by (rewrite Z.div_div by lia; f_equal; lia).
  replace (n / 2 ^ 24) with (n / 2 ^ 8 / 2 ^ 8 / 2 ^ 8) by (rewrite !Z.div_div by lia; f_equal; lia).
  change 256 with (2 ^ 8).
  pose proof (Z.div_mod n (2 ^ 8)). pose proof (Z.div_mod (n / 2 ^ 8) (2 ^ 8)).
  pose proof (Z.div_mod (n / 2 ^ 8 / 2 ^ 8) (2 ^ 8)).
  rewrite (Z.mod_small (n / 2 ^ 8 / 2 ^ 8 / 2 ^ 8)).
  2: { rewrite !Z.div_div by lia. split; [apply Z.div_pos; lia|apply Z.div_lt_upper_bound; lia]. }
  lia.
Qed.

Section object_facts.
Context `{!Codec}.

Lemma open_seal data body : seal_body data = Ok body -> open_body body = Ok data.
Proof.
  unfold seal_body, open_body. intros Hs%change_context_Ok. rewrite (zstd_roundtrip _ _ Hs).
  cbn [change_context mbind outcome_bind]. rewrite length_app. cbn [length put_u32].
  replace (length data + 4 - 4)%nat with (length data) by lia.
  rewrite (proj2 (Nat.ltb_ge _ _)) by lia. rewrite drop_app_length, take_app_length.
  rewrite get_put_u32 by apply crc32_range. by rewrite Z.eqb_refl.
Qed.

(** The version and the data of the object at a path. *)
Definition object_at (os : ObjectStore) (v : CloudView) (path : RString) :
    option (ObjectVersion * list byte) :=
  o ← v_objects v !! (os_bucket os, full_key os path);
  match open_body o.2 with Ok data => Some (o.1, data) | _ => None end.

(** There is no object at a path. *)
Definition no_object (os : ObjectStore) (v : CloudView) (path : RString) : Prop :=
  v_objects v !! (os_bucket os, full_key os path) = None.

Lemma full_key_inj os a b : full_key os a = full_key os b -> a = b.
Proof. apply app_inv_head. Qed.

(** The write of some data at a path. *)
Definition data_written (os : ObjectStore) (path : RString) (version : ObjectVersion)
    (data : list byte) (v v' : CloudView) : Prop :=
  exists raw, open_body raw = Ok data /\
    object_written (os_bucket os, full_key os path) raw version v v'.

Lemma data_written_at os path version data v v' :
  data_written os path version data v v' ->
  object_at os v' path = Some (version, data) /\ version <> [] /\
  (forall path', path' <> path -> object_at os v' path' = object_at os v path') /\
  (forall path', path' <> path -> no_object os v path' -> no_object os v' path').
Proof.
  intros (raw & Hraw & Hver & ->). unfold object_at, no_object.
  cbn [set_objects v_objects]. rewrite lookup_insert_eq. simpl. rewrite Hraw. split_and!; [done|done| |].
  - intros path' Hne. rewrite lookup_insert_ne; [done|]. intros [= ?%full_key_inj]. done.
  - intros path' Hne. rewrite lookup_insert_ne; [done|]. intros [= ?%full_key_inj]. done.
Qed.

Lemma data_written_kvs os path version data v v' :
  data_written os path version data v v' -> v_kvs v' = v_kvs v /\ v_cached v' = v_cached v.
Proof. intros (raw & _ & _ & ->). done. Qed.

Context {W : Type} `{Cloud W}.
Implicit Types (os : ObjectStore) (w : W).

Lemma object_put_inv os path data mode w r w' :
  object_put os path data mode w = (r, w') ->
  r <> Panic /\
  ((view w' = view w /\ exists e, r = Err e) \/
   exists version, put_allowed mode (v_objects (view w) !! (os_bucket os, full_key os path)) /\
     data_written os path version data (view w) (view w') /\
     (forall version', r = Ok version' -> version' = version)).
Proof.
  unfold object_put, mbind, prog_bind, lift. destruct (seal_body data) as [raw|e|] eqn:Hs.
  - intros Hp. pose proof (put_object_spec _ _ _ _ _ _ _ Hp) as Hspec. apply open_seal in Hs.
    destruct r as [version|e|]; [| |done]; (split; [done|]).
    + destruct Hspec as [Ha Hw]. right. exists version. split_and!; [done|by exists raw|naive_solver].
    + destruct Hspec as [Hv|(Ha & version & Hw)]; [left; eauto|]. right. exists version.
      split_and!; [done|by exists raw|done].
  - intros [= <- <-]. split; [done|]. left. eauto.
  - exfalso. unfold seal_body in Hs. apply change_context_Panic in Hs.
    by apply zstd_encode_no_panic in Hs.
Qed.

Lemma object_get_inv os path version w r w' :
  object_get os path version w = (r, w') ->
  view w' = view w /\
  (forall o, r = Ok o -> object_at os (view w) path = Some o /\
                         (forall v, version = Some v -> o.1 = v)) /\
  (r = Err NotFound -> no_object os (view w) path) /\
  (is_Some (object_at os (view w) path) -> r <> Panic).
Proof.
  unfold object_get, mbind, prog_bind, lift.
  destruct (get_object _ _ version w) as [r0 w0] eqn:Hg.
  destruct (get_object_spec _ _ _ _ _ _ Hg) as (Hv & Hp & Ho & Hn).
  destruct r0 as [[ver raw]|e|]; [| |done].
  - destruct (Ho _ eq_refl) as [Hl Hver]. cbn [fst snd] in *. unfold object_at, no_object. rewrite Hl.
    cbn [mbind option_bind snd fst]. destruct (open_body raw) as [data|e|] eqn:Hb; intros [= <- <-].
    + split_and!; [done|naive_solver|done|done].
    + split_and!; [done|done| |intros [? ?]; done]. intros [= ->]. exfalso. revert Hb. unfold open_body.
      destruct (zstd_decode raw); simpl; [|done|done]. destruct (Nat.ltb _ 4); [done|].
      by destruct (negb _).
    + split_and!; [done|done|done|intros [? ?]; done].
  - intros [= <- <-]. split_and!; [done|done|naive_solver|done].
Qed.

Lemma object_delete_inv os path full w r w' :
  object_delete os path full w = (r, w') ->
  r <> Panic /\
  (object_deleted (os_bucket os, match full with Some true => path | _ => full_key os path end)
     (view w) (view w') \/
   (view w' = view w /\ exists e, r = Err e)).
Proof. apply delete_object_spec. Qed.

Lemma object_list_inv os prefix w r w' :
  object_list os prefix w = (r, w') ->
  view w' = view w /\ r <> Panic /\
  (forall keys key, r = Ok keys -> key ∈ keys -> full_key os prefix `prefix_of` key).
Proof.
  intros Hl. destruct (list_objects_spec _ _ _ _ _ Hl) as (Hv & Hp & Hk).
  split_and!; [done|done|]. intros keys key Hr Hin. by apply (Hk keys).
Qed.

End object_facts.

(** ** Keys *)

(** The keys under which the program stores objects. *)
Inductive store_key :=
| KBlock (cursor : Cursor)
| KPending (block_number generation : Z)
| KSegment (first_block : Z) (name : RString)
| KGroup (first_block : Z)
| KChain (first_block : Z)
| KRecent (counter timestamp_ns : Z) (segment : CanonicalChainSegment)
| KLegacyRecent.

Definition render (k : store_key) : RString :=
  match k with
  | KBlock c => format_block_key c
  | KPending n g => format_pending_block_key n g
  | KSegment n name => format_segment_key (new_finalized n) name
  | KGroup n => format_group_key (new_finalized n)
  | KChain n => chain_format_key (segment_filename n)
  | KRecent counter ts seg => chain_format_key (recent_snapshot_filename counter ts seg)
  | KLegacyRecent => chain_format_key LEGACY_RECENT_CHAIN_SEGMENT_NAME
  end.

Definition key_ok (k : store_key) : Prop :=
  match k with
  | KBlock c => is_u64 (number c)
  | KPending n g => is_u64 n /\ is_u64 g
  | KSegment n _ | KGroup n | KChain n => is_u64 n
  | KRecent _ _ _ | KLegacyRecent => True
  end.

(** The key of a snapshot says its range. *)
Definition same_key (a b : store_key) : Prop :=
  match a, b with
  | KRecent c1 t1 s1, KRecent c2 t2 s2 =>
      recent_snapshot_filename c1 t1 s1 = recent_snapshot_filename c2 t2 s2
  | _, _ => a = b
  end.

Lemma hash_display_inj a b : hash_display a = hash_display b -> a = b.
Proof.
  unfold hash_display. destruct a as [|x a], b as [|y b]; cbn [hash_is_empty]; [done| | |].
  - intros Heq. apply (f_equal length) in Heq. rewrite length_app, hex_encode_length in Heq.
    simpl in Heq. lia.
  - intros Heq. apply (f_equal length) in Heq. rewrite length_app, hex_encode_length in Heq.
    simpl in Heq. lia.
  - intros Heq%app_inv_head. by apply hex_encode_inj.
Qed.

Lemma number_then_slash (a b : Z) x y :
  is_u64 a -> is_u64 b -> dec_pad 10 a ++ slash :: x = dec_pad 10 b ++ slash :: y -> a = b /\ x = y.
Proof.
  intros Ha Hb Heq. apply split_slash in Heq as [Hd Hx];
    [|by apply digits_no_slash, dec_pad_digits..]. split; [|done]. by apply (dec_pad_inj 10).
Qed.

(** Normalises a key to its separators. *)
Ltac open_key :=
  unfold render, format_block_key, format_pending_block_key, format_block_prefix,
    format_segment_key, format_group_key, chain_format_key, segment_filename,
    recent_snapshot_filename, CANONICAL_PREFIX, LEGACY_RECENT_CHAIN_SEGMENT_NAME,
    BLOCK_PREFIX, SEGMENT_PREFIX, GROUP_PREFIX, RECENT_CHAIN_SEGMENT_PREFIX in *;
  cbn -[dec_pad hash_display] in *.

Lemma hash_display_head h : exists s, hash_display h = x30 :: s.
Proof. unfold hash_display. destruct (hash_is_empty h); by eexists. Qed.

(** Different things have different keys. *)
Lemma render_inj a b : key_ok a -> key_ok b -> render a = render b -> same_key a b.
Proof.
  intros Ha Hb Heq.
  destruct a as [c|n g|n nm|n|n|k t s|], b as [c'|n' g'|n' nm'|n'|n'|k' t' s'|]; simpl in Ha, Hb;
    open_key; try discriminate Heq; try done; injection Heq as Heq; try change x2f with slash in Heq.
  - apply number_then_slash in Heq as [Hn Hh]; [|done..]. apply hash_display_inj in Hh.
    destruct c, c'; simpl in *. by subst.
  - destruct (hash_display_head (hash c)) as [s Hs]. rewrite Hs in Heq.
    apply number_then_slash in Heq as [_ Hh]; [discriminate Hh|tauto..].
  - destruct (hash_display_head (hash c')) as [s Hs]. rewrite Hs in Heq.
    apply number_then_slash in Heq as [_ Hh]; [discriminate Hh|tauto..].
  - apply number_then_slash in Heq as [-> Hg]; [|tauto..]. injection Hg as Hg.
    apply dec_pad_inj in Hg; [|tauto..]. by subst.
  - apply number_then_slash in Heq as [-> ->]; done.
  - apply number_then_slash in Heq as [-> _]; done.
  - apply dec_pad_inj in Heq; [|done..]. by subst.
  - by rewrite Heq.
Qed.
