(* ===== verification/StoreSpec.v ===== *)
(** * The stores: properties

    - an object that was put is read back, with its version, whatever it
      contains, by every read whose request is answered;
    - different things are stored under different keys;
    - the chain store, through the cache, returns the segment that was put or
      reports that a request failed: a client of the view over it is given the
      canonical chain, cut short only by a request that failed. *)

From S2P Require Import Prelude External Text Core Cloud StateClient ObjectStore Chain ChainView ChainStore.
From S2P Require Import Index FragmentAccess BlockStore StoreFacts ChainFacts ChainSpec ChainViewFacts ChainViewSpec.

(** ** Objects *)

(** (C32) What is put in the object store is what a read returns: after a
    successful [put], a [get] of the path (with no version, or with the
    version that [put] returned) sends one request for the object, and if the
    request is answered it returns exactly the data and the version that were
    put; no check of the client refuses the object and the checksum
    arithmetic does not abort.  If the request fails, [get] fails with the
    error of the request, which is not that the object is missing. *)
Theorem object_roundtrip `{!Codec} {W} `{Cloud W} (os : ObjectStore) (path : RString)
    (data : list byte) (mode : PutMode) (w w1 : W) (version : ObjectVersion)
    (asked : option ObjectVersion) :
  object_put os path data mode w = (Ok version, w1) ->
  asked = None \/ asked = Some version ->
  match get_object (os_bucket os) (full_key os path) asked w1 with
  | (Ok _, w2) => object_get os path asked w1 = (Ok (version, data), w2)
  | (Err e, w2) => object_get os path asked w1 = (Err e, w2) /\ e <> NotFound
  | (Panic, _) => False
  end.
Proof.
  intros Hp Ha.
  destruct (object_put_inv _ _ _ _ _ _ _ Hp) as [_ [[_ [e ?]]|(version' & _ & Hw & Hr)]]; [done|].
  destruct (data_written_at _ _ _ _ _ _ Hw) as (Hat & _ & _ & _). rewrite <- (Hr _ eq_refl) in Hat.
  unfold object_get, mbind, prog_bind, lift. unfold object_at in Hat.
  destruct (get_object _ _ asked w1) as [r w2] eqn:Hg.
  destruct (get_object_spec _ _ _ _ _ _ Hg) as (_ & Hpan & Ho & Hn). destruct r as [o|e|]; [| |done].
  - destruct (Ho o eq_refl) as [Hl _]. rewrite Hl in Hat. simpl in Hat.
    destruct (open_body o.2) as [d|e|]; [|done|done]. by injection Hat as -> ->.
  - split; [done|]. intros ->. by rewrite (Hn eq_refl) in Hat.
Qed.

(** No two things share an object: for blocks (by number and hash),
    pending blocks (by number and generation), segments (by first block and
    fragment name), groups, chain segments, recent snapshots and the legacy
    recent segment, equal keys mean the same thing, for all block numbers and
    generations. *)
Theorem store_keys_distinct (a b : store_key) :
  key_ok a -> key_ok b -> render a = render b -> same_key a b.
Proof. apply render_inj. Qed.

(** ** The chain store *)

Section chain_store.
Context `{!Codec} {W : Type} `{Cloud W} `{!Archive CanonicalChainSegment}.
Variable cs : ChainStore.

Definition chain_path (k : Z) : RString := chain_format_key (segment_filename k).

Lemma chain_path_inj a b : is_u64 a -> is_u64 b -> chain_path a = chain_path b -> a = b.
Proof.
  intros Ha Hb Heq. assert (same_key (KChain a) (KChain b)) as Hs by (by apply render_inj).
  by injection Hs.
Qed.

(** The segment stored under a first block. *)
Definition segment_at (v : CloudView) (k : Z) : option CanonicalChainSegment :=
  o ← object_at (cs_client cs) v (chain_path k); from_bytes o.2.

(** The cache holds what the store holds, and what the store holds are
    segments. *)
Record chain_ok (v : CloudView) : Prop := {
  chain_cached : forall k bytes, is_u64 k ->
    v_cached v !! (CacheGeneral, chain_path k) = Some bytes ->
    exists version, object_at (cs_client cs) v (chain_path k) = Some (version, bytes);
  chain_decodes : forall k, is_u64 k ->
    no_object (cs_client cs) v (chain_path k) \/ is_Some (segment_at v k) }.

Lemma no_object_at v k : no_object (cs_client cs) v (chain_path k) -> segment_at v k = None.
Proof. unfold no_object, segment_at, object_at. by intros ->. Qed.

Lemma get_as_bytes_inv key version (w : W) r w' :
  get_as_bytes cs key version w = (r, w') ->
  view w' = view w /\
  (r = Ok None -> no_object (cs_client cs) (view w) key) /\
  (forall bytes, r = Ok (Some bytes) ->
     exists ver, object_at (cs_client cs) (view w) key = Some (ver, bytes) /\
       forall v, version = Some v -> ver = v).
Proof.
  unfold get_as_bytes. destruct (object_get _ _ _ w) as [r0 w0] eqn:Hg.
  destruct (object_get_inv _ _ _ _ _ _ Hg) as (Hv & Ho & Hn & _).
  destruct r0 as [[ver bytes]|e|].
  - intros [= <- <-]. destruct (Ho _ eq_refl) as [Hat Hver]. split_and!; [done|done|].
    intros bytes' [= <-]. eauto.
  - destruct e; intros [= <- <-]; naive_solver.
  - intros [= <- <-]. naive_solver.
Qed.

Lemma chain_ok_cached v k bytes version :
  chain_ok v -> is_u64 k -> object_at (cs_client cs) v (chain_path k) = Some (version, bytes) ->
  chain_ok (set_cached (<[(CacheGeneral, chain_path k) := bytes]> (v_cached v)) v).
Proof.
  intros [Hc Hd] Hk Hat. split; [|done]. intros k' bytes' Hk'. cbn [set_cached v_cached].
  destruct (decide (k' = k)) as [->|Hne].
  - rewrite lookup_insert_eq. intros [= <-]. by exists version.
  - rewrite lookup_insert_ne; [by apply Hc|]. intros [= ?%dec_pad_inj]; done.
Qed.

(** A read returns the stored segment and keeps the cache in agreement. *)
Lemma chain_store_get_inv k (w : W) r w' :
  chain_ok (view w) -> is_u64 k -> chain_store_get cs k w = (r, w') ->
  chain_ok (view w') /\ v_kvs (view w') = v_kvs (view w) /\
  v_objects (view w') = v_objects (view w) /\
  (forall o, r = Ok o -> o = segment_at (view w) k).
Proof.
  intros Hok Hk. unfold chain_store_get, get_impl. fold (chain_path k).
  unfold mbind, prog_bind, pcontext. destruct (cache_get _ _ w) as [r0 w0] eqn:Hg.
  destruct (cache_get_spec _ _ _ _ _ Hg) as (Hv & Hp & Hval).
  destruct r0 as [[bytes|]|e|]; simpl; [| |intros [= <- <-]; rewrite Hv; naive_solver|done].
  - destruct (chain_cached _ Hok k bytes Hk (Hval _ eq_refl)) as [ver Hat].
    unfold lift, decode_segment, segment_at. rewrite Hat. simpl.
    destruct (from_bytes bytes); simpl; intros [= <- <-]; rewrite Hv; naive_solver.
  - destruct (get_as_bytes cs (chain_path k) None w0) as [r1 w1] eqn:Hb.
    destruct (get_as_bytes_inv _ _ _ _ _ Hb) as (Hv1 & Hnone & Hsome). rewrite Hv in *.
    destruct r1 as [[bytes|]|e|].
    + destruct (Hsome _ eq_refl) as (ver & Hat & _). cbn [modify]. unfold lift, decode_segment, segment_at.
      rewrite Hat. simpl. pose proof (cache_insert_spec CacheGeneral (chain_path k) bytes w1) as Hins.
      rewrite Hv1 in Hins. pose proof (chain_ok_cached _ _ _ _ Hok Hk Hat) as Hok'. rewrite <- Hins in Hok'.
      destruct (from_bytes bytes); simpl; intros [= <- <-]; (split; [done|]); rewrite Hins; naive_solver.
    + intros [= <- <-]. rewrite Hv1. split_and!; [done..|]. intros o [= <-].
      by rewrite no_object_at by auto.
    + intros [= <- <-]. rewrite Hv1. naive_solver.
    + intros [= <- <-]. rewrite Hv1. naive_solver.
Qed.

(** A put under a free key. *)
Lemma chain_store_put_inv seg (w : W) r w' :
  let first := number (first_block (seg_info seg)) in
  chain_ok (view w) -> is_u64 first -> segment_at (view w) first = None ->
  chain_store_put cs seg w = (r, w') ->
  chain_ok (view w') /\
  ((view w' = view w /\ exists e, r = Err e) \/
   forall k, is_u64 k ->
     segment_at (view w') k = if decide (k = first) then Some seg else segment_at (view w) k).
Proof.
  intros first Hok Hf Hnone. unfold chain_store_put, put_impl, pcontext. fold first. fold (chain_path first).
  destruct (object_put _ _ _ _ w) as [r0 w0] eqn:Hp. intros [= <- <-].
  destruct (object_put_inv _ _ _ _ _ _ _ Hp) as [Hpan [[Hv [e ->]]|(version & _ & Hw & Hr)]].
  { rewrite Hv. split; [done|]. left. simpl. eauto. }
  destruct (data_written_at _ _ _ _ _ _ Hw) as (Hat & _ & Hoth & Hno).
  destruct (data_written_kvs _ _ _ _ _ _ Hw) as [_ Hcache].
  assert (forall k, is_u64 k ->
     segment_at (view w0) k = if decide (k = first) then Some seg else segment_at (view w) k) as Hseg.
  { intros k Hk. unfold segment_at. case_decide as Hd.
    - subst k. rewrite Hat. simpl. apply from_to_bytes.
    - rewrite Hoth; [done|]. intros ?%chain_path_inj; done. }
  split; [|by right]. split.
  - intros k bytes Hk Hc. rewrite Hcache in Hc. destruct (chain_cached _ Hok k bytes Hk Hc) as [ver Hk'].
    destruct (decide (k = first)) as [->|Hne].
    + exfalso. destruct (chain_decodes _ Hok first Hf) as [Hn|[s Hs]]; [|by rewrite Hnone in Hs].
      unfold no_object in Hn. unfold object_at in Hk'. by rewrite Hn in Hk'.
    + exists ver. rewrite Hoth; [done|]. intros ?%chain_path_inj; done.
  - intros k Hk. destruct (decide (k = first)) as [->|Hne].
    + right. rewrite Hseg by done. rewrite decide_True by done. eauto.
    + destruct (chain_decodes _ Hok k Hk) as [Hn|Hs].
      * left. apply Hno; [|done]. intros ?%chain_path_inj; done.
      * right. rewrite Hseg by done. by rewrite decide_False.
Qed.

(** The chain store keeps what is put in it, through the cache and with
    requests that may fail: after a successful put of a segment whose first
    block has no segment yet, every later read that succeeds, of any first
    block and after any number of other reads, returns the segment that was
    put, respectively what was stored before. *)
Theorem chain_store_faithful (seg : CanonicalChainSegment) (w w1 : W) (version : ObjectVersion)
    (reads : list Z) (k : Z) (w2 : W) r :
  let first := number (first_block (seg_info seg)) in
  chain_ok (view w) -> is_u64 first -> segment_at (view w) first = None ->
  chain_store_put cs seg w = (Ok version, w1) ->
  Forall is_u64 reads -> is_u64 k ->
  chain_store_get cs k (foldl (fun w n => (chain_store_get cs n w).2) w1 reads) = (Ok r, w2) ->
  r = if decide (k = first) then Some seg else segment_at (view w) k.
Proof.
  intros first Hok Hf Hnone Hput Hreads Hk Hget.
  destruct (chain_store_put_inv _ _ _ _ Hok Hf Hnone Hput) as [Hok1 [[_ [e ?]]|Hseg]]; [done|].
  rewrite <- Hseg by done.
  assert (forall w0, chain_ok (view w0) ->
    chain_ok (view (foldl (fun w n => (chain_store_get cs n w).2) w0 reads)) /\
    v_objects (view (foldl (fun w n => (chain_store_get cs n w).2) w0 reads)) = v_objects (view w0)) as Hrun.
  { clear -Hreads. induction Hreads as [|n reads Hn _ IH]; intros w0 Hok0; [done|]. simpl.
    destruct (chain_store_get cs n w0) as [r0 w3] eqn:Hg.
    destruct (chain_store_get_inv _ _ _ _ Hok0 Hn Hg) as (Hok3 & _ & Hob & _). simpl.
    destruct (IH w3 Hok3) as [H1 H2]. by rewrite H2. }
  destruct (Hrun w1 Hok1) as [Hok2 Hobj].
  destruct (chain_store_get_inv _ _ _ _ Hok2 Hk Hget) as (_ & _ & _ & Hr).
  rewrite (Hr _ eq_refl). unfold segment_at, object_at. by rewrite Hobj.
Qed.

(** ** The interface of the chain view *)

#[local] Instance chain_store_ops : ChainStoreOps W := {|
  store_get w k := (chain_store_get cs k w).1;
  store_put w seg :=
    match chain_store_put cs seg w with
    | (Ok _, w') => Ok w'
    | (Err e, _) => Err e
    | (Panic, _) => Panic
    end |}.

Lemma chain_object_decodes v k :
  chain_ok v -> is_u64 k ->
  match object_at (cs_client cs) v (chain_path k) with
  | Some (_, bytes) => exists s, from_bytes bytes = Some s /\ segment_at v k = Some s
  | None => no_object (cs_client cs) v (chain_path k) /\ segment_at v k = None
  end.
Proof.
  intros Hok Hk. pose proof (chain_decodes _ Hok k Hk) as Hd. unfold segment_at in *.
  destruct (object_at _ v _) as [[ver bytes]|] eqn:Hat; simpl in *.
  - destruct Hd as [Hn|[s Hs]]; [|by exists s]. unfold no_object in Hn. unfold object_at in Hat.
    by rewrite Hn in Hat.
  - destruct Hd as [Hn|[s Hs]]; done.
Qed.

(** A read of a chain segment in which a request failed: the one to the
    cache, or, when the segment is not cached, the one to the object store. *)
Definition read_failed (w : W) (k : Z) : Prop :=
  (exists e w', cache_get CacheGeneral (chain_path k) w = (Err e, w')) \/
  (exists w0 e w', cache_get CacheGeneral (chain_path k) w = (Ok None, w0) /\
     get_object (os_bucket (cs_client cs)) (full_key (cs_client cs) (chain_path k)) None w0 = (Err e, w') /\
     e <> NotFound).

Lemma get_as_bytes_at k (w : W) :
  chain_ok (view w) -> is_u64 k ->
  (get_as_bytes cs (chain_path k) None w).1 =
    Ok (snd <$> object_at (cs_client cs) (view w) (chain_path k)) \/
  ((exists e, (get_as_bytes cs (chain_path k) None w).1 = Err e) /\
   exists e w', get_object (os_bucket (cs_client cs)) (full_key (cs_client cs) (chain_path k)) None w =
     (Err e, w') /\ e <> NotFound).
Proof.
  intros Hok Hk. pose proof (chain_object_decodes _ k Hok Hk) as Hd.
  unfold get_as_bytes, object_get, mbind, prog_bind, lift. unfold no_object, object_at in *.
  destruct (get_object _ _ None w) as [r w1] eqn:Hg.
  destruct (get_object_spec _ _ _ _ _ _ Hg) as (_ & Hpan & Ho & Hn). destruct r as [o|e|]; [| |done].
  - destruct (Ho o eq_refl) as [Hl _]. rewrite Hl in *. simpl in *.
    destruct (open_body o.2); simpl; [by left|naive_solver|naive_solver].
  - destruct (decide (e = NotFound)) as [->|Hne]; [left; by rewrite (Hn eq_refl)|].
    right. split; [destruct e; simpl; eauto; done|]. by exists e, w1.
Qed.

(** A read of the chain store returns what is stored, or a request failed. *)
Lemma store_get_cases (w : W) k :
  chain_ok (view w) -> is_u64 k ->
  store_get w k = Ok (segment_at (view w) k) \/
  ((exists e, store_get w k = Err e) /\ read_failed w k).
Proof.
  intros Hok Hk. cbn [store_get chain_store_ops]. unfold chain_store_get, get_impl. fold (chain_path k).
  unfold mbind, prog_bind, pcontext, read_failed.
  destruct (cache_get CacheGeneral (chain_path k) w) as [r0 w0] eqn:Hc.
  destruct (cache_get_spec _ _ _ _ _ Hc) as (Hv & Hp & Hval).
  pose proof (chain_object_decodes _ k Hok Hk) as Hd. rewrite <- Hv in Hok.
  pose proof (get_as_bytes_at k w0 Hok Hk) as Hb. rewrite Hv in *.
  destruct r0 as [[bytes|]|e|]; simpl; [| |right; split; [by eexists|left; by eexists _, _]|done].
  - left. destruct (chain_cached _ Hok k bytes Hk (Hval _ eq_refl)) as [ver Hat]. rewrite Hat in Hd.
    destruct Hd as (s & Hs & ->). unfold lift, decode_segment. by rewrite Hs.
  - destruct (get_as_bytes cs (chain_path k) None w0) as [r1 w1]. simpl in Hb.
    destruct Hb as [->|((e & ->) & e' & w' & Hg & Hne)].
    + left. destruct (object_at _ _ _) as [[ver bytes]|]; simpl.
      * destruct Hd as (s & Hs & ->). unfold lift, decode_segment. by rewrite Hs.
      * by destruct Hd as [_ ->].
    + right. split; [by eexists|]. right. by exists w0, e', w'.
Qed.

(** The store without failing reads: what is stored, whether or not a request
    for it would be answered.  Puts are those of the chain store. *)
#[local] Definition stored_ops : ChainStoreOps W := {|
  store_get w k := Ok (segment_at (view w) k);
  store_put w seg := store_put w seg |}.

(** What is stored obeys the laws the chain view relies on. *)
#[local] Obligation Tactic := idtac.

#[local] Program Definition stored_laws : @ChainStoreLaws W stored_ops :=
  @Build_ChainStoreLaws W stored_ops (fun w => chain_ok (view w)) _ _ _.
Next Obligation.
  intros st st' seg Hok Hf [= Hnone]. cbn [store_put stored_ops chain_store_ops].
  destruct (chain_store_put cs seg st) as [[v|e|] w'] eqn:Hp; [|done|done].
  intros [= ->]. by destruct (chain_store_put_inv _ _ _ _ Hok Hf Hnone Hp).
Qed.
Next Obligation.
  intros st st' seg Hok Hf [= Hnone]. cbn [store_get store_put stored_ops chain_store_ops].
  destruct (chain_store_put cs seg st) as [[v|e|] w'] eqn:Hp; [|done|done].
  intros [= ->]. destruct (chain_store_put_inv _ _ _ _ Hok Hf Hnone Hp) as [Hok' [[_ [e ?]]|Hs]]; [done|].
  by rewrite Hs, decide_True by done.
Qed.
Next Obligation.
  intros st st' seg k Hok Hf Hk [= Hnone] Hne. cbn [store_get store_put stored_ops chain_store_ops].
  destruct (chain_store_put cs seg st) as [[v|e|] w'] eqn:Hp; [|done|done].
  intros [= ->]. destruct (chain_store_put_inv _ _ _ _ Hok Hf Hnone Hp) as [Hok' [[_ [e ?]]|Hs]]; [done|].
  by rewrite Hs, decide_False by done.
Qed.

(** A query of the view gives the answer of the store without failing reads,
    or fails because a read failed. *)
Definition answers_or_fails {A} (w : W) (real stored : outcome ChainViewError A) : Prop :=
  real = stored \/
  ((exists e, real = Err e) /\ exists k, is_u64 k /\ read_failed w k).

Lemma answers_bind {A B} (w : W) (p q : outcome ChainViewError A) (f g : A -> outcome ChainViewError B) :
  answers_or_fails w p q -> (forall a, answers_or_fails w (f a) (g a)) ->
  answers_or_fails w (p ≫= f) (q ≫= g).
Proof.
  intros [->|[[e ->] Hk]] Hf; [|by right; split; [by exists e|]].
  destruct q as [a|e|]; [apply Hf|by left..].
Qed.

Lemma answers_refl {A} (w : W) (p : outcome ChainViewError A) : answers_or_fails w p p.
Proof. by left. Qed.

Lemma segment_answers (self : FullCanonicalChain W) n :
  chain_ok (view (fc_store self)) ->
  answers_or_fails (fc_store self) (get_chain_segment self n) (@get_chain_segment W stored_ops self n).
Proof.
  intros Hok. unfold get_chain_segment. destruct (_ <=? n); [apply answers_refl|].
  unfold chain_segment_start, div64.
  destruct (_ =? 0); [apply answers_refl|]. cbn [mbind outcome_bind].
  set (start := add64 _ _). assert (is_u64 start) as Hk by apply wrap64_range.
  apply answers_bind; [|intros a; apply answers_refl].
  destruct (store_get_cases _ start Hok Hk) as [->|[[e ->] Hr]]; [by left|].
  right. split; [by eexists|]. by exists start.
Qed.

Lemma next_cursor_answers (self : FullCanonicalChain W) cursor :
  chain_ok (view (fc_store self)) ->
  answers_or_fails (fc_store self) (get_next_cursor self cursor) (@get_next_cursor W stored_ops self cursor).
Proof.
  intros Hok. pose proof (fun n => segment_answers self n Hok) as Hseg.
  assert (forall n, answers_or_fails (fc_store self) (get_canonical_impl self n)
    (@get_canonical_impl W stored_ops self n)) as Hcan.
  { intros n. apply answers_bind; [apply Hseg|intros a; apply answers_refl]. }
  destruct cursor as [c|]; cbn [get_next_cursor]; [|apply answers_bind; [done|intros a; apply answers_refl]].
  apply answers_bind; [done|]. intros seg. apply answers_bind; [apply answers_refl|].
  intros [| |]; try apply answers_refl. destruct (_ =? _); [apply answers_refl|].
  apply answers_bind; [done|]. intros a. apply answers_refl.
Qed.

(** Two worlds that store the same segments: those a read leads to, and those
    in which other requests succeed. *)
Definition stores_same (w w' : W) : Prop :=
  chain_ok (view w') /\ forall k, is_u64 k -> segment_at (view w') k = segment_at (view w) k.

Lemma archived_stores_same size (w w' : W) b B :
  0 < size -> stores_same w w' ->
  @archived_building W stored_ops stored_laws size w b B ->
  @archived_building W stored_ops stored_laws size w' b B.
Proof.
  intros Hs [Hok Heq] Ha. pose proof (wf_range _ (ab_whole _ _ _ _ Ha)).
  pose proof (wf_range _ (ab_wf _ _ _ _ Ha)). pose proof (wf_last _ (ab_wf _ _ _ _ Ha)).
  destruct Ha as [_ Hb HB Hl Hf Hag Hst Hfr]. constructor; try done.
  - intros i Hi Hlt. destruct (Hst i Hi Hlt) as (bi & Hg & Hrest). exists bi. split; [|done].
    cbn [store_get stored_ops] in *. rewrite Heq; [done|]. unfold is_u64. nia.
  - intros k Hk. cbn [store_get stored_ops] in *. rewrite Heq; [by apply Hfr|]. unfold is_u64. lia.
Qed.

(** A client that asks for the next cursor until it is told to wait, or until
    a request fails; each of its requests is served in a world of its own. *)
Fixpoint follow (size : Z) (b B : building) (ws : list W) (cursor : option Cursor) :
    list Cursor * outcome ChainViewError bool :=
  match ws with
  | [] => ([], Ok false)
  | w :: ws =>
      match get_next_cursor (split_view size w b B) cursor with
      | Ok (NextContinue c _) =>
          let rest := follow size b B ws (Some c) in (c :: rest.1, rest.2)
      | Ok AtHead => ([], Ok true)
      | Ok (Invalidate _) => ([], Err ChainViewErr)
      | Err e => ([], Err e)
      | Panic => ([], Panic)
      end
  end.

(** All of [chain] and then the head, or a part of it and a failed read. *)
Definition followed (ws : list W) (chain : list Cursor) (r : list Cursor * outcome ChainViewError bool) :
    Prop :=
  (r.1 = chain /\ r.2 = Ok true) \/
  (r.1 `prefix_of` chain /\ (exists e, r.2 = Err e) /\
   exists w k, w ∈ ws /\ is_u64 k /\ read_failed w k).

Section following.
Variables (size : Z) (w : W) (b B : building).
Hypothesis size_pos : 0 < size.
Hypothesis is_archived : @archived_building W stored_ops stored_laws size w b B.

Lemma followed_failed ws chain w' e k :
  w' ∈ ws -> is_u64 k -> read_failed w' k -> followed ws chain ([], Err e).
Proof. intros Hw Hk Hr. right. split; [apply prefix_nil|]. split; [by eexists|]. by exists w', k. Qed.

Lemma followed_cons w' ws chain c rest :
  followed ws chain rest -> followed (w' :: ws) (c :: chain) (c :: rest.1, rest.2).
Proof.
  intros [[-> ->]|(Hp & He & w0 & k & Hin & Hk)]; [by left|].
  right. split; [by apply prefix_cons|]. split; [done|]. exists w0, k. by rewrite elem_of_cons; eauto.
Qed.

Lemma follow_above ws n h :
  Forall (stores_same w) ws -> block_at B n = Some h -> last_number B - n < Z.of_nat (length ws) ->
  followed ws (blocks_above B n) (follow size b B ws (Some (mkCursor n h))).
Proof using All.
  pose proof (ab_whole _ _ _ _ is_archived) as HB. intros Hws. revert n h.
  induction Hws as [|w' ws Hw' _ IH]; intros n h Hh Hf; pose proof (block_at_range _ _ _ HB Hh);
    cbn [length follow] in *; [lia|].
  pose proof (archived_stores_same _ _ _ _ _ size_pos Hw' is_archived) as Ha.
  destruct (next_cursor_answers (split_view size w' b B) (Some (mkCursor n h)) (proj1 Hw'))
    as [->|[[e ->] (k & Hk & Hr)]]; [|by apply (followed_failed _ _ w' _ k); [left|..]].
  pose proof (split_next_above _ _ _ _ size_pos Ha n h Hh) as Hnext.
  destruct (Z.eqb_spec n (last_number B)) as [->|Hne].
  { rewrite Hnext. left. by rewrite blocks_above_last. }
  destruct Hnext as (h' & is_head & Hh' & ->).
  rewrite (blocks_above_step B n h') by (done || lia). apply followed_cons. apply IH; [done|lia].
Qed.

Lemma follow_all ws :
  Forall (stores_same w) ws -> (length (chain_of B) < length ws)%nat ->
  followed ws (chain_of B) (follow size b B ws None).
Proof using All.
  pose proof (ab_whole _ _ _ _ is_archived) as HB. pose proof (wf_range _ HB). pose proof (wf_len _ HB).
  pose proof (block_at_first B HB) as Hh. intros Hws.
  unfold chain_of, cursors_from at 1. rewrite length_fmap, length_enumerate_from. intros Hf.
  destruct Hws as [|w' ws Hw' Hws]; cbn [length follow] in *; [lia|].
  pose proof (archived_stores_same _ _ _ _ _ size_pos Hw' is_archived) as Ha.
  destruct (next_cursor_answers (split_view size w' b B) None (proj1 Hw'))
    as [->|[[e ->] (k & Hk & Hr)]]; [|by apply (followed_failed _ _ w' _ k); [left|..]].
  rewrite (split_next_first _ _ _ _ size_pos Ha _ Hh). fold (chain_of B).
  rewrite (chain_of_above B _ HB Hh). apply followed_cons. apply follow_above; [done|done|lia].
Qed.

End following.

(** (C11) The view over the real chain store gives every client the canonical
    chain: whatever blocks, reorgs and restarts the ingestion service saw, with
    the full segments uploaded to the object store and read back through the
    cache, a client that follows [get_next_cursor] receives the whole chain in
    order and then is told it is at the head, unless a request to the cache or
    to the object store failed, and then what it received before the error is
    the beginning of the chain.  Every request of the client may be served in
    another world, as long as the stored segments are the same.  The chain is
    the one after the operations that succeeded (an operation that fails, an
    upload included, counts as not done). *)
Theorem uploaded_chain_walk (size : Z) (w0 w : W) (ops : list builder_op) (b B : building) (ws : list W) :
  0 < size -> chain_ok (view w0) ->
  (forall k, is_u64 k -> segment_at (view w0) k = None) ->
  Forall valid_op ops ->
  archive_after size w0 ops = mkArchive w (Building b) (Building B) ->
  Forall (stores_same w) ws -> (length (chain_of B) < length ws)%nat ->
  followed ws (chain_of B) (follow size b B ws None).
Proof.
  intros Hs Hok Hnone Hv Ha Hws Hf. apply (follow_all size w b B Hs); [|done|done].
  apply (@archive_after_archived W stored_ops stored_laws size w0 ops); [done| |done|done].
  split; [done|]. intros k Hk. cbn [store_get stored_ops]. by rewrite Hnone.
Qed.

End chain_store.

(** ** Witnesses *)

Module StoreWitness.
Import ReliableCloud ReferenceCodec.

#[local] Instance segment_info_countable : Countable CanonicalChainSegmentInfo.
Proof.
  refine (inj_countable' (fun i => (first_block i, last_block i)) (fun p => mkSegmentInfo p.1 p.2) _).
  by intros [].
Defined.

#[local] Instance canonical_block_countable : Countable CanonicalBlock.
Proof.
  refine (inj_countable' (fun b => (cb_hash b, cb_reorgs b)) (fun p => mkCanonicalBlock p.1 p.2) _).
  by intros [].
Defined.

#[local] Instance extra_reorg_countable : Countable ExtraReorg.
Proof.
  refine (inj_countable' (fun b => (er_block_number b, er_reorgs b)) (fun p => mkExtraReorg p.1 p.2) _).
  by intros [].
Defined.

#[export] Instance chain_segment_countable : Countable CanonicalChainSegment.
Proof.
  refine (inj_countable'
    (fun s => (seg_previous_segment s, seg_info s, seg_canonical s, seg_extra_reorgs s))
    (fun p => mkSegment p.1.1.1 p.1.1.2 p.1.2 p.2) _).
  by intros [].
Defined.

#[export] Instance chain_segment_archive : Archive CanonicalChainSegment := Reference.archive.

Definition os_example : ObjectStore := object_store_new (str "bucket") (Some (str "dna")).
Definition cs_example : ChainStore := mkChainStore os_example.

Lemma object_roundtrip_witness :
  exists v w1 w2, object_put os_example (str "block/1") [x2a; x2b] Overwrite world_empty = (Ok v, w1) /\
    object_get os_example (str "block/1") (Some v) w1 = (Ok (v, [x2a; x2b]), w2).
Proof.
  eexists _, _, _. split; [reflexivity|].
  exact (object_roundtrip os_example (str "block/1") [x2a; x2b] Overwrite world_empty _ _
    (Some _) eq_refl (or_intror eq_refl)).
Defined.

Lemma store_keys_distinct_witness :
  same_key (KPending 7 3) (KPending 7 3).
Proof. apply store_keys_distinct; [done|done|reflexivity]. Defined.

Lemma chain_ok_empty : chain_ok cs_example (view world_empty).
Proof.
  split; [|intros k _; left; apply lookup_empty].
  intros k bytes _ Hc. change (v_cached (view world_empty)) with (∅ : gmap (CacheName * list byte) (list byte)) in Hc.
  by rewrite lookup_empty in Hc.
Qed.

Lemma segment_at_empty k : segment_at cs_example (view world_empty) k = None.
Proof. apply no_object_at. apply lookup_empty. Qed.

Definition seg_example : CanonicalChainSegment := segment_of example_b.

(** A segment is put and read twice: the second read comes from the cache. *)
Lemma chain_store_faithful_witness :
  (chain_store_get cs_example 12 (chain_store_get cs_example 12
     (chain_store_put cs_example seg_example world_empty).2).2).1 = Ok (Some seg_example).
Proof.
  assert (is_ok (chain_store_put cs_example seg_example world_empty).1 = true) as Hok1
    by (vm_compute; reflexivity).
  assert (is_ok (chain_store_get cs_example 12 (chain_store_get cs_example 12
     (chain_store_put cs_example seg_example world_empty).2).2).1 = true) as Hok2 by (vm_compute; reflexivity).
  destruct (chain_store_put cs_example seg_example world_empty) as [[v|e|] w1] eqn:Hp; [|done|done].
  cbn [snd] in *.
  destruct (chain_store_get cs_example 12 (chain_store_get cs_example 12 w1).2) as [[r|e|] w2] eqn:Hg; [|done|done].
  simpl. f_equal.
  refine (chain_store_faithful cs_example seg_example world_empty w1 v [12] 12 w2 r chain_ok_empty _
    (segment_at_empty _) Hp _ _ Hg); [by vm_compute|by repeat constructor|by vm_compute].
Defined.

(** Four blocks, of which the first two were uploaded. *)
Definition archive_example : archive (S := World) :=
  archive_after (H := chain_store_ops cs_example) 2 world_empty example_history.

Lemma stored_example : stores_same cs_example (ar_store archive_example) (ar_store archive_example).
Proof.
  split; [|done].
  assert (archive_after (H := chain_store_ops cs_example) 2 world_empty example_history =
    mkArchive (ar_store archive_example) (Building (get_building (ar_builder archive_example)))
      (Building (get_building (ar_whole archive_example)))) as Heq.
  { change (archive_after _ _ _) with archive_example.
    assert (ar_builder archive_example = Building (get_building (ar_builder archive_example))) as <-
      by (vm_compute; reflexivity).
    assert (ar_whole archive_example = Building (get_building (ar_whole archive_example))) as <-
      by (vm_compute; reflexivity). by destruct archive_example. }
  refine (@ab_ok World (stored_ops cs_example) (stored_laws cs_example) 2 _ _ _ (@archive_after_archived World (stored_ops cs_example) (stored_laws cs_example) 2
    world_empty example_history _ _ _ eq_refl _ example_history_valid Heq)).
  split; [exact chain_ok_empty|]. intros k _. cbn [store_get stored_ops]. by rewrite segment_at_empty.
Qed.

Lemma uploaded_chain_walk_witness :
  (follow cs_example 2 (get_building (ar_builder archive_example)) (get_building (ar_whole archive_example))
     (repeat (ar_store archive_example) 5) None).1 =
  [mkCursor 10 [x0a]; mkCursor 11 [x0b]; mkCursor 12 [x0c]; mkCursor 13 [xdd]].
Proof.
  assert (ar_builder archive_example = Building (get_building (ar_builder archive_example))) as H1
    by (vm_compute; reflexivity).
  assert (ar_whole archive_example = Building (get_building (ar_whole archive_example))) as H2
    by (vm_compute; reflexivity).
  assert (chain_of (get_building (ar_whole archive_example)) =
    [mkCursor 10 [x0a]; mkCursor 11 [x0b]; mkCursor 12 [x0c]; mkCursor 13 [xdd]]) as H3
    by (vm_compute; reflexivity).
  assert (archive_after (H := chain_store_ops cs_example) 2 world_empty example_history =
    mkArchive (ar_store archive_example) (Building (get_building (ar_builder archive_example)))
      (Building (get_building (ar_whole archive_example)))) as H4
    by (rewrite <- H1, <- H2; unfold archive_example; by destruct (archive_after _ _ _)).
  assert (length (chain_of (get_building (ar_whole archive_example))) <
    length (repeat (ar_store archive_example) 5))%nat as H5.
  { rewrite H3. apply (le_n 5). }
  assert (Forall (stores_same cs_example (ar_store archive_example)) (repeat (ar_store archive_example) 5)) as H6
    by (do 5 (apply Forall_cons; split; [exact stored_example|]); apply Forall_nil; exact I).
  destruct (uploaded_chain_walk cs_example 2 world_empty (ar_store archive_example) example_history
    (get_building (ar_builder archive_example)) (get_building (ar_whole archive_example))
    (repeat (ar_store archive_example) 5) eq_refl chain_ok_empty (fun k _ => segment_at_empty k)
    example_history_valid H4 H6 H5) as [[-> _]|(_ & _ & w & k & _ & _ & Hfail)].
  - exact H3.
  - exfalso. destruct Hfail as [(e & w' & Hc)|(w1 & e & w' & _ & Hg & Hne)].
    + discriminate Hc.
    + revert Hg. cbn [get_object reliable_cloud]. unfold reliable_get_object.
      destruct (v_objects _ !! _) as [o|]; [discriminate|]. intros [= <- _]. by apply Hne.
Defined.

End StoreWitness.
