(* ===== verification/Compaction.v ===== *)
(** * Builders of segments and groups (common/src/compaction/segment_builder.rs
    and group_builder.rs)

    A segment holds, for consecutive blocks, the fragments of one kind: one
    serialised segment for the indexes, the joins, the headers and each body
    fragment.  A group holds, for consecutive segments, which blocks have a key
    in one of their indexes. *)

From S2P Require Import Prelude External Text Core Index FragmentAccess BlockStore.

Inductive CompactionError := CompactionErr.

Definition INDEX_FRAGMENT_NAME : RString := str "index".
Definition JOIN_FRAGMENT_NAME : RString := str "join".
Definition HEADER_FRAGMENT_NAME : RString := str "header".

(** ** SegmentBuilder *)

Record SegmentBuilder := mkSegmentBuilder {
  expected_fragment_count : option Z;
  sbd_first_block : option Cursor;
  sbd_headers : list (FragmentData HeaderFragment);
  sbd_indexes : list (FragmentData IndexGroupFragment);
  sbd_joins : list (FragmentData JoinGroupFragment);
  sbd_body : gmap Z (RString * list (FragmentData BodyFragment)) }.

Definition segment_builder_default : SegmentBuilder := mkSegmentBuilder None None [] [] [] ∅.

Definition start_new_segment (self : SegmentBuilder) (first_block : Cursor) :
    outcome CompactionError SegmentBuilder :=
  match sbd_first_block self with
  | Some _ => Err CompactionErr
  | None =>
      Ok (mkSegmentBuilder (expected_fragment_count self) (Some first_block) (sbd_headers self)
            (sbd_indexes self) (sbd_joins self) (sbd_body self))
  end.

Definition block_count (self : SegmentBuilder) : Z := Z.of_nat (length (sbd_headers self)).

(** One iteration of the loop over the body of a block. *)
Definition add_body_fragment (cursor : Cursor)
    (body : gmap Z (RString * list (FragmentData BodyFragment))) (fragment : BodyFragment) :
    gmap Z (RString * list (FragmentData BodyFragment)) :=
  let fragment_id := bf_fragment_id fragment in
  let name := str (bf_name fragment) in
  let data := mkFragmentData cursor fragment in
  match body !! fragment_id with
  | Some existing => <[fragment_id := (existing.1, existing.2 ++ [data])]> body
  | None => <[fragment_id := (name, [data])]> body
  end.

Section builders.
Context `{!Roaring, !BlockArchives, !HashOrder Z}.

Definition add_block (self : SegmentBuilder) (cursor : Cursor) (bytes : list byte) :
    outcome CompactionError SegmentBuilder :=
  block ← ok_or CompactionErr (from_bytes (A := Block) bytes);
  let count := Z.of_nat (length (blk_body block)) in
  if match expected_fragment_count self with
     | Some expected_count => negb (count =? expected_count)
     | None => false
     end
  then Err CompactionErr
  else
    Ok (mkSegmentBuilder
          (Some (default count (expected_fragment_count self)))
          (sbd_first_block self)
          (sbd_headers self ++ [mkFragmentData cursor (blk_header block)])
          (sbd_indexes self ++ [mkFragmentData cursor (blk_index block)])
          (sbd_joins self ++ [mkFragmentData cursor (blk_join block)])
          (foldl (add_body_fragment cursor) (sbd_body self) (blk_body block))).

(** The values of the body table, in the order in which it is visited. *)
Definition body_values (body : gmap Z (RString * list (FragmentData BodyFragment))) :
    list (RString * list (FragmentData BodyFragment)) :=
  omap (fun fragment_id => body !! fragment_id) (hash_iter [] (dom body)).

(** One iteration of the loop over the body fragments. *)
Definition body_segment (first_block : Cursor) (expected : Z)
    (entry : RString * list (FragmentData BodyFragment)) :
    outcome CompactionError SerializedSegment :=
  if negb (Z.of_nat (length entry.2) =? expected) then Err CompactionErr
  else Ok (mkSerializedSegment entry.1 (to_bytes (mkSegmentOf first_block entry.2))).

(** [segment_data]: the serialised segments, and the builder reset except for
    the expected number of fragments. *)
Definition builder_segment_data (self : SegmentBuilder) :
    outcome CompactionError (list SerializedSegment * SegmentBuilder) :=
  match sbd_first_block self with
  | None => Err CompactionErr
  | Some first_block =>
      let count := Z.of_nat (length (sbd_headers self)) in
      if negb (Z.of_nat (length (sbd_indexes self)) =? count) then Err CompactionErr
      else if negb (Z.of_nat (length (sbd_joins self)) =? count) then Err CompactionErr
      else
        let index := mkSerializedSegment INDEX_FRAGMENT_NAME
          (to_bytes (mkSegmentOf first_block (sbd_indexes self))) in
        let join := mkSerializedSegment JOIN_FRAGMENT_NAME
          (to_bytes (mkSegmentOf first_block (sbd_joins self))) in
        let header := mkSerializedSegment HEADER_FRAGMENT_NAME
          (to_bytes (mkSegmentOf first_block (sbd_headers self))) in
        body ← omapM (body_segment first_block count) (body_values (sbd_body self));
        Ok ([index; join; header] ++ body,
            mkSegmentBuilder (expected_fragment_count self) None [] [] [] ∅)
  end.

(** ** SegmentGroupBuilder *)

Record SegmentGroupBuilder := mkGroupBuilder {
  gb_segment_size : Z;
  gb_segment_count : Z;
  block_range : option (Cursor * Z);
  block_indexes : gmap Z (gmap Z BitmapIndexBuilder) }.

Definition group_builder_new (segment_size : Z) : SegmentGroupBuilder :=
  mkGroupBuilder segment_size 0 None ∅.

(** The three nested loops over the indexes of a block. *)
Definition add_index (block_number : Z) (m : gmap Z BitmapIndexBuilder) (index : FragmentIndex) :
    gmap Z BitmapIndexBuilder :=
  let block_index := default ∅ (m !! fi_index_id index) in
  let block_index :=
    match fi_index index with
    | BitmapIdx bitmap_index =>
        foldl (fun bi key => bitmap_insert bi key block_number) block_index (bx_keys bitmap_index)
    | EmptyIdx => block_index
    end in
  <[fi_index_id index := block_index]> m.

Definition add_index_fragment (block_number : Z) (m : gmap Z (gmap Z BitmapIndexBuilder))
    (index_fragment : IndexFragment) : gmap Z (gmap Z BitmapIndexBuilder) :=
  <[if_fragment_id index_fragment :=
      foldl (add_index block_number) (default ∅ (m !! if_fragment_id index_fragment))
        (if_indexes index_fragment)]> m.

Definition add_block_data (m : gmap Z (gmap Z BitmapIndexBuilder))
    (block_data : FragmentData IndexGroupFragment) : gmap Z (gmap Z BitmapIndexBuilder) :=
  let block_number := wrap32 (number (fd_cursor block_data)) in
  foldl (add_index_fragment block_number) m (ig_indexes (fd_data block_data)).

Definition add_segment (self : SegmentGroupBuilder) (segment : Segment IndexGroupFragment) :
    SegmentGroupBuilder :=
  let segment_cursor := sg_first_block segment in
  let segment_end := sub64 (add64 (number segment_cursor) (gb_segment_size self)) 1 in
  mkGroupBuilder (gb_segment_size self) (add64 (gb_segment_count self) 1)
    (match block_range self with
     | None => Some (segment_cursor, segment_end)
     | Some (first_block, _) => Some (first_block, segment_end)
     end)
    (foldl add_block_data (block_indexes self) (sg_data segment)).

Definition build_index (entry : Z * BitmapIndexBuilder) : outcome CompactionError FragmentIndex :=
  index ← change_context CompactionErr (bitmap_build entry.2);
  Ok (mkFragmentIndex entry.1 (BitmapIdx index)).

Definition build_index_fragment (range_start range_len : Z)
    (entry : Z * gmap Z BitmapIndexBuilder) : outcome CompactionError IndexFragment :=
  fragment_indexes ← omapM build_index (btree_iter entry.2);
  Ok (mkIndexFragment entry.1 range_start range_len fragment_indexes).

(** [build]; the indexes come out of a [BTreeMap] sorted by fragment id, so the
    final stable sort by that id leaves them as they are. *)
Definition group_build (self : SegmentGroupBuilder) : outcome CompactionError SegmentGroup :=
  match block_range self with
  | None => Err CompactionErr
  | Some (first_block, last_block) =>
      let range_start := wrap32 (number first_block) in
      let range_len := wrap32 (add64 (sub64 last_block (number first_block)) 1) in
      indexes ← omapM (build_index_fragment range_start range_len) (btree_iter (block_indexes self));
      Ok (mkSegmentGroup first_block (mkIndexGroup indexes))
  end.

End builders.
