(* ===== verification/CompactionFacts.v ===== *)
(** * Facts about segments and groups

    What a filtered block depends on, what the segment builder collects, and
    which blocks a group index selects. *)

From S2P Require Import Prelude External Text Core Index IndexSpec Query QuerySpec Encoding FragmentAccess.
From S2P Require Import FilterBlock BlockStore Compaction.

(** ** What filtering reads *)

Section filter_ext.
Context `{!Roaring, !Prost, !HashOrder Z, !BlockArchives}.
Implicit Types (a b : FragmentAccess) (bf : BlockFilter).

(** A fragment that a block filter selects rows of, or joins to. *)
Definition touched a bf (fid : Z) : Prop :=
  exists entry f indexes rows,
    entry ∈ block_filter_iter bf /\ f ∈ entry.2 /\
    get_index_fragment a entry.1 = Ok indexes /\ filter_rows f indexes = Ok rows /\ rows <> ∅ /\
    (fid = entry.1 \/ fid ∈ joins f).

Definition matches_touched a bf (m : Matches) : Prop :=
  (forall fid, is_Some (fragment_matches m !! fid) -> touched a bf fid) /\
  (forall s t, is_Some (join_matches m !! (s, t)) -> touched a bf t).

Lemma fold_joins_keys (fid : Z) (id : Z) (rows : gset Z) js targets s t :
  is_Some (foldl (fun (js : gmap (Z * Z) FilterMatch) target =>
      <[(fid, target) := add_match (default ∅ (js !! (fid, target))) id rows]> js) js targets !! (s, t)) ->
  is_Some (js !! (s, t)) \/ t ∈ targets.
Proof.
  revert js. induction targets as [|x targets IH]; intros js; simpl; [auto|].
  intros [Hs|Ht]%IH; [|set_solver].
  destruct (decide ((fid, x) = (s, t))) as [[= -> ->]|Hne]; [set_solver|].
  rewrite lookup_insert_ne in Hs by done. auto.
Qed.

Lemma match_iter_rows_empty (m : FilterMatch) id : add_match m id ∅ = m.
Proof. unfold add_match, bitmap_iter. by rewrite elements_empty. Qed.

Lemma match_fragments_touched a bf m :
  ofold (match_fragment a) (mkMatches ∅ ∅) (block_filter_iter bf) = Ok m -> matches_touched a bf m.
Proof.
  apply ofold_Ok_inv.
  { split; [intros fid Hs|intros s t Hs]; simpl in Hs; rewrite lookup_empty in Hs; by destruct Hs. }
  intros entry acc acc' Hin [Hf Hj] Hm. unfold match_fragment in Hm.
  apply bind_Ok in Hm as (indexes & Hidx%change_context_Ok & Hm).
  apply bind_Ok in Hm as (r & Hr & Hm).
  assert ((r.1 <> ∅ -> touched a bf entry.1) /\
          (forall s t, is_Some (r.2 !! (s, t)) -> touched a bf t)) as [Ha1 Ha2].
  { revert Hr. apply (ofold_Ok_inv (fun r : FilterMatch * gmap (Z * Z) FilterMatch =>
      (r.1 <> ∅ -> touched a bf entry.1) /\
      (forall s t, is_Some (r.2 !! (s, t)) -> touched a bf t))); [split; [done|exact Hj]|].
    intros f r0 r1 Hf0 [Hr1 Hr2] Hmf. unfold match_filter in Hmf.
    apply bind_Ok in Hmf as (rows & Hrows%change_context_Ok & Hmf).
    case_bool_decide as Hempty; injection Hmf as <-; simpl.
    - subst rows. rewrite match_iter_rows_empty. by split.
    - assert (forall fid, fid = entry.1 \/ fid ∈ joins f -> touched a bf fid) as Ht.
      { intros fid Hfid. by exists entry, f, indexes, rows. }
      split; [intros _; by apply Ht; left|]. intros s t Hs. apply fold_joins_keys in Hs as [Hs|Hs]; eauto. }
  destruct (match_is_empty r.1) eqn:He; injection Hm as <-; (split; [|exact Ha2]); simpl; [exact Hf|].
  intros fid Hs. destruct (decide (fid = entry.1)) as [->|Hne].
  - apply Ha1. unfold match_is_empty in He. by apply bool_decide_eq_false in He.
  - apply Hf. by rewrite lookup_insert_ne in Hs.
Qed.

Lemma follow_joins_touched a bf m matches :
  matches_touched a bf m ->
  ofold (follow_join a) (fragment_matches m) (btree_iter (join_matches m)) = Ok matches ->
  forall fid, is_Some (matches !! fid) -> touched a bf fid.
Proof.
  intros [Hf Hj]. apply (ofold_Ok_inv (fun ms : gmap Z FilterMatch =>
    forall fid, is_Some (ms !! fid) -> touched a bf fid)); [done|].
  intros [[s t] fm] ms ms' Hin Hms Hfj. unfold follow_join in Hfj.
  apply bind_Ok in Hfj as (jf & _ & Hfj). apply bind_Ok in Hfj as (j & _ & Hfj).
  apply bind_Ok in Hfj as (tm & _ & [= <-]). intros fid Hs.
  destruct (decide (fid = t)) as [->|Hne].
  - apply elem_of_btree_iter in Hin. apply (Hj s). by eexists.
  - apply Hms. by rewrite lookup_insert_ne in Hs.
Qed.

(** Two accesses that agree on the indexes, the joins, the header and the
    bodies of the touched fragments give the same filtered block. *)
Lemma filter_one_ext a b names is_live bf :
  (forall fid, get_index_fragment a fid = get_index_fragment b fid) ->
  (forall fid, get_join_fragment a fid = get_join_fragment b fid) ->
  get_header_fragment a = get_header_fragment b ->
  (forall fid, touched a bf fid -> is_Some (names !! fid) ->
     get_body_fragment a fid = get_body_fragment b fid) ->
  filter_one a names is_live bf = filter_one b names is_live bf.
Proof.
  intros Hi Hj Hh Hb. unfold filter_one.
  rewrite (ofold_ext (match_fragment a) (match_fragment b)).
  2: { intros entry acc _. unfold match_fragment. by rewrite Hi. }
  destruct (ofold (match_fragment b) _ _) as [m| |] eqn:Hm; cbn [mbind outcome_bind]; [|done|done].
  assert (matches_touched a bf m) as Ht.
  { apply match_fragments_touched. rewrite <- Hm. apply ofold_ext.
    intros entry acc _. unfold match_fragment. by rewrite Hi. }
  assert (ofold (follow_join a) (fragment_matches m) (btree_iter (join_matches m)) =
          ofold (follow_join b) (fragment_matches m) (btree_iter (join_matches m))) as Hfj.
  { apply ofold_ext. intros [[s t] fm] acc _. unfold follow_join. by rewrite Hj. }
  rewrite <- Hfj. destruct (ofold (follow_join a) _ _) as [matches| |] eqn:Hms; cbn [mbind outcome_bind]; [|done|done].
  rewrite Hh. destruct (if should_send_header bf matches is_live then _ else _) as [h| |];
    cbn [mbind outcome_bind]; [|done|done].
  rewrite (omapM_ext (matched_fragment a names) (matched_fragment b names)); [done|].
  intros [fid fm] Hin. unfold matched_fragment. cbn [fst snd]. destruct (names !! fid) as [name|] eqn:Hn; [|done].
  cbn [ok_or mbind outcome_bind]. rewrite Hb; [done| |by eexists].
  apply (follow_joins_touched a bf m matches Ht Hms). apply elem_of_btree_iter in Hin. by eexists.
Qed.

Lemma filter_fragment_ext bfs names a b is_live :
  (forall fid, get_index_fragment a fid = get_index_fragment b fid) ->
  (forall fid, get_join_fragment a fid = get_join_fragment b fid) ->
  get_header_fragment a = get_header_fragment b ->
  (forall bf fid, bf ∈ bfs -> touched a bf fid -> is_Some (names !! fid) ->
     get_body_fragment a fid = get_body_fragment b fid) ->
  filter_fragment bfs names a is_live = filter_fragment bfs names b is_live.
Proof.
  intros Hi Hj Hh Hb. unfold filter_fragment. apply ofold_ext. intros bf acc Hin.
  by rewrite (filter_one_ext a b names is_live bf Hi Hj Hh (fun fid => Hb bf fid Hin)).
Qed.

End filter_ext.

(** ** What a segment holds *)

Definition reserved (fid : Z) : Prop :=
  fid = INDEX_FRAGMENT_ID \/ fid = JOIN_FRAGMENT_ID \/ fid = HEADER_FRAGMENT_ID.

(** The names under which fragments are stored. *)
Record names_ok (names : gmap Z string) : Prop := {
  no_index : str <$> names !! INDEX_FRAGMENT_ID = Some INDEX_FRAGMENT_NAME;
  no_join : str <$> names !! JOIN_FRAGMENT_ID = Some JOIN_FRAGMENT_NAME;
  no_header : str <$> names !! HEADER_FRAGMENT_ID = Some HEADER_FRAGMENT_NAME;
  no_inj : forall a b s, names !! a = Some s -> names !! b = Some s -> a = b }.

(** A block of a network: one fragment for each name, with that name. *)
Record block_ok (names : gmap Z string) (blk : Block) : Prop := {
  bo_ids : NoDup (bf_fragment_id <$> blk_body blk);
  bo_names : forall f, f ∈ blk_body blk ->
    names !! bf_fragment_id f = Some (bf_name f) /\ ~ reserved (bf_fragment_id f);
  bo_all : forall fid, is_Some (names !! fid) -> ~ reserved fid ->
    fid ∈ bf_fragment_id <$> blk_body blk }.

Lemma str_inj a b : str a = str b -> a = b.
Proof.
  intros Heq. apply (f_equal String.string_of_list_byte) in Heq. unfold str in Heq.
  by rewrite !String.string_of_list_byte_of_string in Heq.
Qed.

Lemma block_ok_count names b1 b2 :
  block_ok names b1 -> block_ok names b2 -> length (blk_body b1) = length (blk_body b2).
Proof.
  assert (forall x y, block_ok names x -> block_ok names y ->
    forall fid, fid ∈ bf_fragment_id <$> blk_body x -> fid ∈ bf_fragment_id <$> blk_body y) as Hsub.
  { intros x y Hx Hy fid (f & -> & Hf)%list_elem_of_fmap. destruct (bo_names _ _ Hx f Hf) as [Hn Hr].
    apply (bo_all _ _ Hy); [by eexists|done]. }
  intros H1 H2. rewrite <- (length_fmap bf_fragment_id (blk_body b1)), <- (length_fmap bf_fragment_id (blk_body b2)).
  apply Permutation_length, NoDup_Permutation; [apply H1|apply H2|].
  intros fid. split; by apply Hsub.
Qed.

(** The fragment of a block with an id. *)
Definition body_fragment (blk : Block) (fid : Z) : option BodyFragment :=
  find_first (fun f => bf_fragment_id f =? fid) (blk_body blk).

Lemma filter_id_singleton (fs : list BodyFragment) fid f :
  NoDup (bf_fragment_id <$> fs) -> f ∈ fs -> bf_fragment_id f = fid ->
  filter (fun f => bf_fragment_id f = fid) fs = [f] /\
  find_first (fun f => bf_fragment_id f =? fid) fs = Some f.
Proof.
  intros Hnd Hin <-. induction fs as [|g fs IH]; [by apply not_elem_of_nil in Hin|].
  rewrite fmap_cons in Hnd. apply NoDup_cons in Hnd as [Hg Hnd].
  unfold find_first in *. apply elem_of_cons in Hin as [->|Hin].
  - rewrite filter_cons_True by done. split.
    + f_equal. apply elem_of_nil_inv. intros x [Heq Hx]%list_elem_of_filter. apply Hg.
      rewrite <- Heq. by apply list_elem_of_fmap_2.
    + cbn [list_find]. rewrite decide_True by (by apply Z.eqb_refl). done.
  - assert (bf_fragment_id g <> bf_fragment_id f) as Hne.
    { intros Heq. apply Hg. rewrite Heq. by apply list_elem_of_fmap_2. }
    rewrite filter_cons_False by done. destruct (IH Hnd Hin) as [H1 H2]. split; [done|].
    cbn [list_find]. rewrite decide_False by (rewrite Z.eqb_eq; done).
    destruct (list_find _ fs) as [[i x]|]; [|done]. done.
Qed.

Lemma block_ok_fragment names blk fid :
  block_ok names blk -> is_Some (names !! fid) -> ~ reserved fid ->
  exists f, body_fragment blk fid = Some f /\
    filter (fun f => bf_fragment_id f = fid) (blk_body blk) = [f] /\ names !! fid = Some (bf_name f).
Proof.
  intros Hok Hn Hr. destruct (proj1 (list_elem_of_fmap _ _ _) (bo_all _ _ Hok fid Hn Hr)) as (f & -> & Hf).
  destruct (filter_id_singleton _ _ f (bo_ids _ _ Hok) Hf eq_refl) as [H1 H2].
  exists f. split_and!; [done|done|]. by apply Hok.
Qed.

(** All the fragments with an id of some blocks. *)
Definition fragments_of (fid : Z) (blocks : list (Cursor * Block)) : list (FragmentData BodyFragment) :=
  blocks ≫= fun p =>
    mkFragmentData p.1 <$> filter (fun f => bf_fragment_id f = fid) (blk_body p.2).

Definition body_entry (ds : list (FragmentData BodyFragment)) :
    option (RString * list (FragmentData BodyFragment)) :=
  match ds with [] => None | d :: _ => Some (str (bf_name (fd_data d)), ds) end.

Lemma add_body_fragments cursor (body : gmap Z _) fs fid ds :
  body !! fid = body_entry ds ->
  foldl (add_body_fragment cursor) body fs !! fid =
  body_entry (ds ++ (mkFragmentData cursor <$> filter (fun f => bf_fragment_id f = fid) fs)).
Proof.
  revert body ds. induction fs as [|f fs IH]; intros body ds Hb; simpl; [by rewrite app_nil_r|].
  rewrite filter_cons. case_decide as Hf.
  - rewrite (IH _ (ds ++ [mkFragmentData cursor f])); [by rewrite <- (assoc_L (++))|].
    unfold add_body_fragment. rewrite Hf, Hb. destruct ds; simpl; by rewrite lookup_insert_eq.
  - apply IH. unfold add_body_fragment.
    destruct (body !! bf_fragment_id f); by rewrite lookup_insert_ne.
Qed.

Section segment_builder.
Context `{!Roaring, !BlockArchives, !HashOrder Z}.

Definition add_blocks (self : SegmentBuilder) (blocks : list (Cursor * Block)) :
    outcome CompactionError SegmentBuilder :=
  ofold (fun self p => add_block self p.1 (to_bytes p.2)) self blocks.

Record builder_holds (first : Cursor) (blocks : list (Cursor * Block)) (self : SegmentBuilder) : Prop := {
  bh_count : forall p, p ∈ blocks -> expected_fragment_count self = Some (Z.of_nat (length (blk_body p.2)));
  bh_none : blocks = [] -> expected_fragment_count self = None;
  bh_first : sbd_first_block self = Some first;
  bh_headers : sbd_headers self = (fun p => mkFragmentData p.1 (blk_header p.2)) <$> blocks;
  bh_indexes : sbd_indexes self = (fun p => mkFragmentData p.1 (blk_index p.2)) <$> blocks;
  bh_joins : sbd_joins self = (fun p => mkFragmentData p.1 (blk_join p.2)) <$> blocks;
  bh_body : forall fid, sbd_body self !! fid = body_entry (fragments_of fid blocks) }.

Lemma add_blocks_holds names first blocks self :
  start_new_segment segment_builder_default first = Ok self ->
  Forall (fun p : Cursor * Block => block_ok names p.2) blocks ->
  exists self', add_blocks self blocks = Ok self' /\ builder_holds first blocks self'.
Proof.
  intros [= <-] Hok. unfold add_blocks. apply ofold_inv.
  { constructor; simpl; try done. intros p Hp. by apply elem_of_nil in Hp. }
  intros pre [c blk] post b Hsplit Hb. unfold add_block. simpl. rewrite from_to_bytes. cbn [ok_or mbind outcome_bind].
  rewrite Forall_forall in Hok.
  assert (match expected_fragment_count b with
     | Some expected_count => negb (Z.of_nat (length (blk_body blk)) =? expected_count)
     | None => false end = false /\
     default (Z.of_nat (length (blk_body blk))) (expected_fragment_count b) = Z.of_nat (length (blk_body blk)) /\
     forall p, p ∈ pre -> length (blk_body p.2) = length (blk_body blk)) as (-> & -> & Hlen).
  { destruct pre as [|p0 pre]; 
    [rewrite (bh_none _ _ _ Hb eq_refl); split_and!; [done|done|]; by intros p ?%elem_of_nil|].
    assert (forall p, p ∈ p0 :: pre -> length (blk_body p.2) = length (blk_body blk)) as Hl.
    { intros p Hp. apply (block_ok_count names); [apply Hok; set_solver|apply (Hok (c, blk)); set_solver]. }
    rewrite (bh_count _ _ _ Hb p0) by set_solver. rewrite Hl by set_solver. by rewrite Z.eqb_refl. }
  eexists. split; [done|]. constructor; simpl.
  - intros p [Hp|Hp]%elem_of_app; [by rewrite Hlen|]. apply list_elem_of_singleton in Hp as ->. done.
  - intros ?%app_eq_nil. naive_solver.
  - apply Hb.
  - by rewrite (bh_headers _ _ _ Hb), fmap_app.
  - by rewrite (bh_indexes _ _ _ Hb), fmap_app.
  - by rewrite (bh_joins _ _ _ Hb), fmap_app.
  - intros fid. rewrite (add_body_fragments c _ _ fid (fragments_of fid pre)) by apply Hb.
    f_equal. unfold fragments_of. rewrite bind_app. simpl. by rewrite app_nil_r.
Qed.

Lemma fragments_of_lookup names fid blocks :
  Forall (fun p : Cursor * Block => block_ok names p.2) blocks ->
  is_Some (names !! fid) -> ~ reserved fid ->
  length (fragments_of fid blocks) = length blocks /\
  forall i p, blocks !! i = Some p ->
    exists f, body_fragment p.2 fid = Some f /\ fragments_of fid blocks !! i = Some (mkFragmentData p.1 f).
Proof.
  intros Hok Hn Hr. induction Hok as [|[c blk] blocks Hb _ [IHl IH]]; [done|].
  destruct (block_ok_fragment _ _ _ Hb Hn Hr) as (f & Hf & Hs & _). unfold fragments_of in *. simpl in *.
  rewrite Hs. simpl. split; [f_equal; exact IHl|]. intros [|i] p Hi; simplify_eq/=; [by exists f|by apply IH].
Qed.

Lemma fragments_of_empty fid blocks :
  (forall p, p ∈ blocks -> body_fragment p.2 fid = None) -> fragments_of fid blocks = [].
Proof.
  intros Hn. apply elem_of_nil_inv. intros d Hd. unfold fragments_of in Hd.
  apply list_elem_of_bind in Hd as (p & Hd & Hp). apply list_elem_of_fmap in Hd as (f & -> & Hf).
  apply list_elem_of_filter in Hf as [Hid Hf]. specialize (Hn p Hp). unfold body_fragment, find_first in Hn.
  destruct (list_find _ (blk_body p.2)) as [[i x]|] eqn:Hl; [done|].
  apply list_find_None in Hl. rewrite Forall_forall in Hl. apply (Hl f Hf). by apply Z.eqb_eq.
Qed.

(** The bytes of the segment of a fragment. *)
Definition segment_bytes (first : Cursor) (blocks : list (Cursor * Block)) (fid : Z) : list byte :=
  if decide (fid = INDEX_FRAGMENT_ID)
  then to_bytes (mkSegmentOf first ((fun p => mkFragmentData p.1 (blk_index p.2)) <$> blocks))
  else if decide (fid = JOIN_FRAGMENT_ID)
  then to_bytes (mkSegmentOf first ((fun p => mkFragmentData p.1 (blk_join p.2)) <$> blocks))
  else if decide (fid = HEADER_FRAGMENT_ID)
  then to_bytes (mkSegmentOf first ((fun p => mkFragmentData p.1 (blk_header p.2)) <$> blocks))
  else to_bytes (mkSegmentOf first (fragments_of fid blocks)).

Lemma elem_of_body_values body entry :
  entry ∈ body_values body <-> exists fid, body !! fid = Some entry.
Proof.
  unfold body_values. rewrite list_elem_of_omap. split.
  - intros (fid & _ & Hb). by exists fid.
  - intros (fid & Hb). exists fid. split; [|done]. apply elem_of_hash_iter, elem_of_dom. by eexists.
Qed.

(** The entry of the body table for an id: the fragments of the blocks. *)
Lemma body_entry_ok names first blocks self fid entry :
  Forall (fun p : Cursor * Block => block_ok names p.2) blocks ->
  builder_holds first blocks self -> sbd_body self !! fid = Some entry ->
  exists name, names !! fid = Some name /\ ~ reserved fid /\
    entry = (str name, fragments_of fid blocks) /\ length (fragments_of fid blocks) = length blocks.
Proof.
  intros Hok Hb He. rewrite (bh_body _ _ _ Hb) in He.
  destruct (fragments_of fid blocks) as [|d ds] eqn:Hf; [done|]. injection He as <-.
  assert (d ∈ fragments_of fid blocks) as Hd by (rewrite Hf; set_solver).
  unfold fragments_of in Hd. apply list_elem_of_bind in Hd as (p & Hd & Hp).
  apply list_elem_of_fmap in Hd as (f & -> & Hff). apply list_elem_of_filter in Hff as [<- Hff].
  pose proof Hok as Hall. rewrite Forall_forall in Hall. destruct (bo_names _ _ (Hall p Hp) f Hff) as [Hn Hr].
  exists (bf_name f). split_and!; [done|done|done|]. rewrite <- Hf.
  apply (fragments_of_lookup names); [done|by eexists|done].
Qed.

Lemma segment_data_files names first blocks self :
  names_ok names -> Forall (fun p : Cursor * Block => block_ok names p.2) blocks ->
  builder_holds first blocks self ->
  exists segs self', builder_segment_data self = Ok (segs, self') /\
    (forall fid name bytes, names !! fid = Some name -> mkSerializedSegment (str name) bytes ∈ segs ->
       bytes = segment_bytes first blocks fid) /\
    (forall fid name, blocks <> [] -> names !! fid = Some name ->
       mkSerializedSegment (str name) (segment_bytes first blocks fid) ∈ segs).
Proof.
  intros Hno Hok Hb. unfold builder_segment_data.
  rewrite (bh_first _ _ _ Hb), (bh_headers _ _ _ Hb), (bh_indexes _ _ _ Hb), (bh_joins _ _ _ Hb).
  rewrite !length_fmap, Z.eqb_refl. simpl negb. cbv iota.
  rewrite (omapM_ok _ (fun entry => mkSerializedSegment entry.1 (to_bytes (mkSegmentOf first entry.2)))).
  2: { intros entry (fid & He)%elem_of_body_values.
       destruct (body_entry_ok _ _ _ _ _ _ Hok Hb He) as (name & _ & _ & -> & Hl).
       unfold body_segment. simpl. by rewrite Hl, Z.eqb_refl. }
  eexists _, _. split; [reflexivity|].
  assert (forall fid name, names !! fid = Some name ->
    (str name = INDEX_FRAGMENT_NAME -> fid = INDEX_FRAGMENT_ID) /\
    (str name = JOIN_FRAGMENT_NAME -> fid = JOIN_FRAGMENT_ID) /\
    (str name = HEADER_FRAGMENT_NAME -> fid = HEADER_FRAGMENT_ID)) as Hname.
  { intros fid name Hn.
    assert (forall id n, str <$> names !! id = Some n -> str name = n -> fid = id) as Hid.
    { intros id n Hs Heq. destruct (names !! id) as [n'|] eqn:Hn'; [|done]. simpl in Hs. injection Hs as Hs.
      apply (no_inj _ Hno _ _ name); [done|]. rewrite Hn'. f_equal. apply str_inj. congruence. }
    split_and!; apply Hid; apply Hno. }
  split.
  - intros fid name bytes Hn. cbn [app]. rewrite !elem_of_cons, list_elem_of_fmap. simpl. unfold segment_bytes.
    intros [Heq|[Heq|[Heq|(entry & Heq & (fid' & He)%elem_of_body_values)]]];
      injection Heq as Heq1 Heq2; rewrite Heq2.
    + by rewrite decide_True by (by apply (Hname fid name)).
    + rewrite decide_False; [|intros ->; pose proof (no_index _ Hno) as Hi; rewrite Hn in Hi; simpl in Hi;
        rewrite Heq1 in Hi; discriminate Hi].
      by rewrite decide_True by (by apply (Hname fid name)).
    + assert (fid = HEADER_FRAGMENT_ID) as -> by (by apply (Hname fid name)). done.
    + destruct (body_entry_ok _ _ _ _ _ _ Hok Hb He) as (name' & Hn' & Hr & -> & _). simpl in *.
      apply str_inj in Heq1 as ->. assert (fid = fid') as -> by (by apply (no_inj _ Hno _ _ name')).
      rewrite !decide_False; [done|unfold reserved in Hr; tauto..].
  - intros fid name Hne Hn. cbn [app]. rewrite !elem_of_cons, list_elem_of_fmap. unfold segment_bytes.
    destruct (decide (fid = INDEX_FRAGMENT_ID)) as [->|H1].
    { left. pose proof (no_index _ Hno) as Hi. rewrite Hn in Hi. simpl in Hi. by injection Hi as ->. }
    destruct (decide (fid = JOIN_FRAGMENT_ID)) as [->|H2].
    { right. left. pose proof (no_join _ Hno) as Hi. rewrite Hn in Hi. simpl in Hi. by injection Hi as ->. }
    destruct (decide (fid = HEADER_FRAGMENT_ID)) as [->|H3].
    { right. right. left. pose proof (no_header _ Hno) as Hi. rewrite Hn in Hi. simpl in Hi. by injection Hi as ->. }
    right. right. right. exists (str name, fragments_of fid blocks). split; [done|].
    apply elem_of_body_values. exists fid. rewrite (bh_body _ _ _ Hb).
    assert (~ reserved fid) as Hr by (unfold reserved; tauto).
    destruct (fragments_of_lookup names fid blocks Hok) as [Hl Hlk]; [by eexists|done|].
    destruct blocks as [|p blocks]; [done|]. destruct (Hlk 0%nat p eq_refl) as (f & Hf & Hl0).
    destruct (fragments_of fid (p :: blocks)) as [|d ds]; [done|]. simpl in Hl0. injection Hl0 as ->. simpl.
    do 3 f_equal. rewrite Forall_forall in Hok. destruct (block_ok_fragment names p.2 fid) as (f' & Hf' & _ & Hn');
      [apply Hok; set_solver|by eexists|done|]. rewrite Hf in Hf'. injection Hf' as <-.
    rewrite Hn in Hn'. by injection Hn' as <-.
Qed.

End segment_builder.
