(* ===== verification/GroupFacts.v ===== *)
(** * Facts about groups

    The maps that the group builder folds over the blocks, flattened: the
    index of a group is the bitmap index of all the (key, block number) pairs
    of its blocks. *)

From S2P Require Import Prelude External Text Core Index IndexSpec Query QuerySpec FragmentAccess.
From S2P Require Import BlockStore Compaction.

(** ** Folds that update one entry *)

Section upsert.
Context {K : Type} `{Countable K} {A V : Type}.
Variables (key_of : A -> K) (d : V) (upd : V -> A -> V).

Definition upsert (m : gmap K V) (x : A) : gmap K V :=
  <[key_of x := upd (default d (m !! key_of x)) x]> m.

Lemma foldl_upsert m l k :
  foldl upsert m l !! k =
  match filter (fun x => key_of x = k) l with
  | [] => m !! k
  | l' => Some (foldl upd (default d (m !! k)) l')
  end.
Proof.
  revert m. induction l as [|x l IH]; intros m; [done|]. cbn [foldl]. rewrite IH, filter_cons.
  case_decide as Hk.
  - subst k. unfold upsert. rewrite lookup_insert_eq. cbn [default foldl]. destruct (filter _ l); done.
  - unfold upsert. by rewrite lookup_insert_ne.
Qed.

End upsert.

Lemma foldl_bind {A B C} (f : C -> B -> C) (g : A -> list B) c l :
  foldl f c (l ≫= g) = foldl (fun c x => foldl f c (g x)) c l.
Proof.
  revert c. induction l as [|x l IH]; intros c; [done|].
  change ((x :: l) ≫= g) with (g x ++ (l ≫= g)). rewrite foldl_app. apply IH.
Qed.

Lemma foldl_fmap {A B C} (f : C -> B -> C) (g : A -> B) c l :
  foldl f c (g <$> l) = foldl (fun c x => f c (g x)) c l.
Proof. revert c. induction l as [|x l IH]; intros c; [done|]. apply IH. Qed.

Lemma foldl_ext_list {A C} (f g : C -> A -> C) c l :
  (forall c x, f c x = g c x) -> foldl f c l = foldl g c l.
Proof. intros Heq. revert c. induction l as [|x l IH]; intros c; simpl; [done|]. by rewrite Heq. Qed.

(** ** The flat form of the block indexes *)

(** The index fragments of some blocks with the block number. *)
Definition flat_fragments (data : list (FragmentData IndexGroupFragment)) : list (Z * IndexFragment) :=
  data ≫= fun d => pair (wrap32 (number (fd_cursor d))) <$> ig_indexes (fd_data d).

Definition flat_indexes (fs : list (Z * IndexFragment)) : list (Z * FragmentIndex) :=
  fs ≫= fun p => pair p.1 <$> if_indexes p.2.

Definition index_keys (fi : FragmentIndex) : list ScalarValue :=
  match fi_index fi with BitmapIdx bx => bx_keys bx | EmptyIdx => [] end.

Definition flat_keys (is_ : list (Z * FragmentIndex)) : list (ScalarValue * Z) :=
  is_ ≫= fun p => (fun k => (k, p.1)) <$> index_keys p.2.

Lemma elem_of_flat_fragments data n f :
  (n, f) ∈ flat_fragments data <->
  exists d, d ∈ data /\ n = wrap32 (number (fd_cursor d)) /\ f ∈ ig_indexes (fd_data d).
Proof.
  unfold flat_fragments. rewrite list_elem_of_bind. split.
  - intros (d & (f' & [= -> ->] & Hf)%list_elem_of_fmap & Hd). by exists d.
  - intros (d & Hd & -> & Hf). exists d. split; [|done]. by apply list_elem_of_fmap_2.
Qed.

Lemma elem_of_flat_indexes fs n fi :
  (n, fi) ∈ flat_indexes fs <-> exists f, (n, f) ∈ fs /\ fi ∈ if_indexes f.
Proof.
  unfold flat_indexes. rewrite list_elem_of_bind. split.
  - intros ([n' f] & (fi' & [= -> ->] & Hf)%list_elem_of_fmap & Hd). by exists f.
  - intros (f & Hd & Hf). exists (n, f). split; [|done]. simpl. by apply list_elem_of_fmap_2.
Qed.

Lemma elem_of_flat_keys is_ k n :
  (k, n) ∈ flat_keys is_ <-> exists fi, (n, fi) ∈ is_ /\ k ∈ index_keys fi.
Proof.
  unfold flat_keys. rewrite list_elem_of_bind. split.
  - intros ([n' fi] & (k' & [= -> ->] & Hf)%list_elem_of_fmap & Hd). by exists fi.
  - intros (fi & Hd & Hf). exists (n, fi). split; [|done]. simpl. apply list_elem_of_fmap. by exists k.
Qed.

Section flat.
Context `{!Roaring, !BlockArchives, !HashOrder Z}.

(** The indexes of one fragment, and the rows of one index. *)
Definition fragment_group (fs : list (Z * IndexFragment)) : gmap Z BitmapIndexBuilder :=
  foldl (fun m p => foldl (add_index p.1) m (if_indexes p.2)) ∅ fs.

Lemma blocks_lookup data fid :
  foldl add_block_data ∅ data !! fid =
  match filter (fun p : Z * IndexFragment => if_fragment_id p.2 = fid) (flat_fragments data) with
  | [] => None
  | fs => Some (fragment_group fs)
  end.
Proof.
  rewrite (foldl_ext_list _ (fun m d => foldl (upsert (fun p : Z * IndexFragment => if_fragment_id p.2) ∅
      (fun m p => foldl (add_index p.1) m (if_indexes p.2))) m
      (pair (wrap32 (number (fd_cursor d))) <$> ig_indexes (fd_data d)))).
  2: { intros m d. unfold add_block_data. rewrite foldl_fmap. done. }
  rewrite <- foldl_bind. fold (flat_fragments data). rewrite foldl_upsert, lookup_empty. done.
Qed.

Lemma add_index_rows n m0 fis :
  foldl (add_index n) m0 fis =
  foldl (upsert (fun p : Z * FragmentIndex => fi_index_id p.2) ∅
    (fun b p => foldl (fun m e => bitmap_insert m e.1 e.2) b ((fun k => (k, p.1)) <$> index_keys p.2)))
    m0 (pair n <$> fis).
Proof.
  rewrite foldl_fmap. apply foldl_ext_list. intros m fi. unfold add_index, upsert, index_keys. simpl.
  f_equal. rewrite foldl_fmap. by destruct (fi_index fi).
Qed.

Lemma fragment_group_lookup fs iid :
  fragment_group fs !! iid =
  match filter (fun p : Z * FragmentIndex => fi_index_id p.2 = iid) (flat_indexes fs) with
  | [] => None
  | is_ => Some (bitmap_of_rows (flat_keys is_))
  end.
Proof.
  unfold fragment_group.
  rewrite (foldl_ext_list _ _ _ _ (fun m p => add_index_rows p.1 m (if_indexes p.2))).
  rewrite <- foldl_bind. fold (flat_indexes fs). rewrite foldl_upsert, lookup_empty. cbn [default].
  destruct (filter _ (flat_indexes fs)) as [|p is_]; [done|]. f_equal. unfold bitmap_of_rows, flat_keys.
  by rewrite foldl_bind.
Qed.

End flat.

(** ** Contiguous keys *)

Lemma seqZ_sorted a n : StronglySorted Z.le (seqZ a n).
Proof.
  assert (forall m a, StronglySorted Z.le (seqZ a (Z.of_nat m))) as Hm.
  { intros m. induction m as [|m IH]; intros b; [constructor|].
    rewrite Nat2Z.inj_succ, seqZ_cons by lia. constructor.
    - replace (Z.pred (Z.succ (Z.of_nat m))) with (Z.of_nat m) by lia. apply IH.
    - apply Forall_forall. intros x Hx%elem_of_seqZ. lia. }
  destruct (decide (0 <= n)); [|rewrite seqZ_nil by lia; constructor].
  rewrite <- (Z2Nat.id n) by lia. apply Hm.
Qed.

(** A map whose keys are [0 .. n - 1] is visited in that order. *)
Lemma btree_iter_contiguous {V} (m : gmap Z V) (n : nat) :
  (forall k, is_Some (m !! k) <-> 0 <= k < Z.of_nat n) ->
  length (btree_iter m) = n /\
  forall i v, btree_iter m !! i = Some v <-> m !! Z.of_nat i = Some v.2 /\ v.1 = Z.of_nat i.
Proof.
  intros Hdom.
  assert (btree_keys m = seqZ 0 (Z.of_nat n)) as Hkeys.
  { apply (StronglySorted_unique Z.le).
    - unfold btree_keys. pose proof (btree_iter_sorted m) as Hs. induction Hs as [|x l Hs IH Hx]; [constructor|].
      simpl. constructor; [done|]. apply Forall_fmap. eapply Forall_impl; [exact Hx|].
      intros y. unfold key_le. simpl. apply Z.leb_le.
    - apply seqZ_sorted.
    - apply NoDup_Permutation; [apply NoDup_btree_keys|apply NoDup_seqZ|].
      intros k. rewrite elem_of_btree_keys, elem_of_seqZ, Hdom. lia. }
  assert (length (btree_iter m) = n) as Hlen.
  { unfold btree_keys in Hkeys. apply (f_equal length) in Hkeys.
    rewrite length_fmap, length_seqZ in Hkeys. lia. }
  split; [done|]. intros i [k v]. simpl. split.
  - intros Hi. assert (btree_keys m !! i = Some k) as Hk by (unfold btree_keys; by rewrite list_lookup_fmap, Hi).
    apply list_elem_of_lookup_2, elem_of_btree_iter in Hi as Hm.
    rewrite Hkeys, lookup_seqZ in Hk. destruct Hk as [-> _]. rewrite Z.add_0_l in *. done.
  - intros [Hm ->]. assert (0 <= Z.of_nat i < Z.of_nat n) as Hi by (apply Hdom; by eexists).
    destruct (lookup_lt_is_Some_2 (btree_iter m) i) as [[k' v'] Hkv]; [lia|].
    assert (btree_keys m !! i = Some k') as Hk by (unfold btree_keys; by rewrite list_lookup_fmap, Hkv).
    pose proof Hkv as Hm'. apply list_elem_of_lookup_2, elem_of_btree_iter in Hm'.
    rewrite Hkeys, lookup_seqZ in Hk. destruct Hk as [Hk _]. assert (k' = Z.of_nat i) as -> by lia.
    rewrite Hkv. cbn [snd] in Hm. rewrite Hm in Hm'. by injection Hm' as <-.
Qed.

(** ** Building a group *)

(** All the blocks of some segments. *)
Definition all_data (segs : list (Segment IndexGroupFragment)) : list (FragmentData IndexGroupFragment) :=
  segs ≫= sg_data.

(** Segments of consecutive blocks of one network: the indexes of a fragment
    are numbered by position, and the keys of an index have one variant. *)
Record groupable (size : Z) (segs : list (Segment IndexGroupFragment)) : Prop := {
  ga_size : 0 < size;
  ga_blocks : forall first last, head segs = Some first -> list.last segs = Some last ->
    0 <= number (sg_first_block first) <= number (sg_first_block last) /\
    number (sg_first_block last) + size < U32 /\
    forall d, d ∈ all_data segs ->
      number (sg_first_block first) <= number (fd_cursor d) < number (sg_first_block last) + size;
  ga_layout : forall d f i fi, d ∈ all_data segs -> f ∈ ig_indexes (fd_data d) ->
    if_indexes f !! i = Some fi -> fi_index_id fi = Z.of_nat i /\ fi_index fi <> EmptyIdx;
  ga_variant : forall d d' f f' fi fi' k k', d ∈ all_data segs -> d' ∈ all_data segs ->
    f ∈ ig_indexes (fd_data d) -> f' ∈ ig_indexes (fd_data d') -> if_fragment_id f = if_fragment_id f' ->
    fi ∈ if_indexes f -> fi' ∈ if_indexes f' -> fi_index_id fi = fi_index_id fi' ->
    k ∈ index_keys fi -> k' ∈ index_keys fi' -> scalar_rank k = scalar_rank k' }.

Section build.
Context `{!Roaring, !BlockArchives, !HashOrder Z}.

Lemma add_segments_blocks segs self :
  block_indexes (foldl add_segment self segs) = foldl add_block_data (block_indexes self) (all_data segs).
Proof.
  revert self. induction segs as [|s segs IH]; intros self; [done|]. cbn [foldl]. rewrite IH.
  unfold all_data. change ((s :: segs) ≫= sg_data) with (sg_data s ++ (segs ≫= sg_data)).
  by rewrite foldl_app.
Qed.

Lemma add_segments_range segs self :
  gb_segment_size (foldl add_segment self segs) = gb_segment_size self /\
  block_range (foldl add_segment self segs) =
  match list.last segs with
  | None => block_range self
  | Some last =>
      let stop := sub64 (add64 (number (sg_first_block last)) (gb_segment_size self)) 1 in
      match block_range self, head segs with
      | Some (first, _), _ => Some (first, stop)
      | None, Some s => Some (sg_first_block s, stop)
      | None, None => None
      end
  end.
Proof.
  revert self. induction segs as [|s segs IH]; intros self; [done|]. cbn [foldl].
  destruct (IH (add_segment self s)) as [Hs Hr]. rewrite Hs, Hr. split; [done|].
  cbn [add_segment block_range gb_segment_size head].
  destruct segs as [|s' segs].
  - cbn [list.last]. by destruct (block_range self) as [[? ?]|].
  - change (list.last (s :: s' :: segs)) with (list.last (s' :: segs)).
    destruct (list.last (s' :: segs)) eqn:Hl; [|by apply last_None in Hl].
    by destruct (block_range self) as [[? ?]|].
Qed.

(** The rows of an index of the group: the (key, block) pairs. *)
Definition index_rows (segs : list (Segment IndexGroupFragment)) (fid iid : Z) : list (ScalarValue * Z) :=
  flat_keys (filter (fun p : Z * FragmentIndex => fi_index_id p.2 = iid)
    (flat_indexes (filter (fun p : Z * IndexFragment => if_fragment_id p.2 = fid)
      (flat_fragments (all_data segs))))).

Lemma elem_of_index_rows segs fid iid k n :
  (k, n) ∈ index_rows segs fid iid <->
  exists d f fi, d ∈ all_data segs /\ n = wrap32 (number (fd_cursor d)) /\ f ∈ ig_indexes (fd_data d) /\
    if_fragment_id f = fid /\ fi ∈ if_indexes f /\ fi_index_id fi = iid /\ k ∈ index_keys fi.
Proof.
  unfold index_rows. rewrite elem_of_flat_keys. split.
  - intros (fi & [Hi Hfi]%list_elem_of_filter & Hk). apply elem_of_flat_indexes in Hfi as (f & Hf & Hfi).
    apply list_elem_of_filter in Hf as [Hid Hf]. apply elem_of_flat_fragments in Hf as (d & Hd & -> & Hf).
    by exists d, f, fi.
  - intros (d & f & fi & Hd & -> & Hf & Hid & Hfi & Hi & Hk). exists fi. split; [|done].
    apply list_elem_of_filter. split; [done|]. apply elem_of_flat_indexes. exists f. split; [|done].
    apply list_elem_of_filter. split; [done|]. apply elem_of_flat_fragments. by exists d.
Qed.

Lemma index_rows_same_variant size segs fid iid : groupable size segs -> same_variant (index_rows segs fid iid).
Proof.
  intros Hg [k n] [k' n'] (d & f & fi & ? & ? & ? & ? & ? & ? & ?)%elem_of_index_rows
    (d' & f' & fi' & ? & ? & ? & ? & ? & ? & ?)%elem_of_index_rows. simpl.
  apply (ga_variant _ _ Hg d d' f f' fi fi'); congruence.
Qed.

(** The indexes of a fragment of the group have the numbers that the blocks
    use, in order. *)
Lemma fragment_group_ids size segs fid :
  groupable size segs ->
  let fs := filter (fun p : Z * IndexFragment => if_fragment_id p.2 = fid) (flat_fragments (all_data segs)) in
  exists n : nat,
    (forall k, is_Some (fragment_group fs !! k) <-> 0 <= k < Z.of_nat n) /\
    (forall p, p ∈ fs -> (length (if_indexes p.2) <= n)%nat).
Proof.
  intros Hg fs.
  assert (forall p, p ∈ fs -> forall i fi, if_indexes p.2 !! i = Some fi -> fi_index_id fi = Z.of_nat i) as Hlay.
  { intros [b f] [_ Hf]%list_elem_of_filter i fi Hi. apply elem_of_flat_fragments in Hf as (d & Hd & _ & Hf).
    by apply (ga_layout _ _ Hg d f). }
  exists (foldr Nat.max 0%nat ((fun p : Z * IndexFragment => length (if_indexes p.2)) <$> fs)).
  assert (forall k, is_Some (fragment_group fs !! k) <->
            exists p, p ∈ fs /\ 0 <= k < Z.of_nat (length (if_indexes p.2))) as Hk.
  { intros k. rewrite fragment_group_lookup.
    transitivity (exists q, q ∈ filter (fun p : Z * FragmentIndex => fi_index_id p.2 = k) (flat_indexes fs)).
    { destruct (filter _ (flat_indexes fs)) as [|q l].
      - split; [by intros []|]. by intros (q & ?%elem_of_nil).
      - split; [intros _; exists q; set_solver|intros _; by eexists]. }
    split.
    - intros ([b fi] & [Hid Hfi]%list_elem_of_filter). apply elem_of_flat_indexes in Hfi as (f & Hf & Hfi).
      exists (b, f). split; [done|]. apply list_elem_of_lookup in Hfi as [i Hi]. simpl in Hid.
      rewrite <- Hid, (Hlay _ Hf i fi Hi). apply lookup_lt_Some in Hi. simpl. lia.
    - intros ([b f] & Hf & Hr). simpl in Hr. destruct (lookup_lt_is_Some_2 (if_indexes f) (Z.to_nat k)) as [fi Hfi]; [lia|].
      exists (b, fi). apply list_elem_of_filter. simpl. split; [rewrite (Hlay _ Hf _ _ Hfi); lia|].
      apply elem_of_flat_indexes. exists f. split; [done|]. by apply list_elem_of_lookup_2 in Hfi. }
  split.
  - intros k. rewrite Hk. clear. induction fs as [|p fs IH].
    + split; [by intros (p & ?%elem_of_nil & _)|simpl; lia].
    + rewrite fmap_cons. cbn [foldr]. split.
      * intros (q & [->|Hq]%elem_of_cons & Hr); [lia|]. assert (0 <= k < Z.of_nat (foldr Nat.max 0%nat
          ((fun p : Z * IndexFragment => length (if_indexes p.2)) <$> fs))) by (apply IH; eauto). lia.
      * intros Hr. destruct (decide (k < Z.of_nat (length (if_indexes p.2)))) as [|Hge].
        { exists p. split; [set_solver|lia]. }
        destruct (proj2 IH) as (q & Hq & Hqr); [lia|]. exists q. split; [set_solver|done].
  - clear. induction fs as [|p fs IH]; intros q; [by intros ?%elem_of_nil|].
    rewrite fmap_cons. cbn [foldr]. intros [->|Hq]%elem_of_cons; [lia|]. specialize (IH q Hq). lia.
Qed.

Lemma find_first_unique {A} (key_of : A -> Z) (l : list A) x :
  NoDup (key_of <$> l) -> x ∈ l -> find_first (fun y => key_of y =? key_of x) l = Some x.
Proof.
  intros Hnd Hin. unfold find_first. induction l as [|y l IH]; [by apply elem_of_nil in Hin|].
  rewrite fmap_cons in Hnd. apply NoDup_cons in Hnd as [Hy Hnd].
  apply elem_of_cons in Hin as [->|Hin]; cbn [list_find].
  - rewrite decide_True by (by apply Z.eqb_refl). done.
  - rewrite decide_False.
    + specialize (IH Hnd Hin). by destruct (list_find _ l) as [[i z]|].
    + rewrite Z.eqb_eq. intros Heq. apply Hy. rewrite Heq. by apply list_elem_of_fmap_2.
Qed.

Lemma bitmap_build_ok (m : BitmapIndexBuilder) : exists idx, bitmap_build m = Ok idx.
Proof.
  destruct (bitmap_build_fold (btree_iter m) (mkBitmapIndex [] [])) as (vs & Hf & _). by eexists.
Qed.

(** The fragment of the group with an id. *)
Lemma build_fragment_ok size segs fid inner start len :
  groupable size segs -> foldl add_block_data ∅ (all_data segs) !! fid = Some inner ->
  exists idxs n,
    build_index_fragment start len (fid, inner) = Ok (mkIndexFragment fid start len idxs) /\
    indexes_model ((fun i => Some (index_rows segs fid (Z.of_nat i))) <$> seq 0 n) idxs /\
    (forall d f, d ∈ all_data segs -> f ∈ ig_indexes (fd_data d) -> if_fragment_id f = fid ->
       (length (if_indexes f) <= n)%nat).
Proof.
  intros Hg Hin. destruct (fragment_group_ids size segs fid Hg) as (n & Hdom & Hlen).
  rewrite blocks_lookup in Hin. set (fs := filter _ (flat_fragments (all_data segs))) in *.
  assert (inner = fragment_group fs) as -> by (destruct fs; [done|by injection Hin]).
  destruct (btree_iter_contiguous _ _ Hdom) as [Hl Hlk].
  assert (forall e, e ∈ btree_iter (fragment_group fs) ->
    exists idx, build_index e = Ok (mkFragmentIndex e.1 (BitmapIdx idx)) /\ bitmap_build e.2 = Ok idx /\
      e.2 = bitmap_of_rows (index_rows segs fid e.1)) as Hbuild.
  { intros [iid b] He. apply elem_of_btree_iter in He. rewrite fragment_group_lookup in He. simpl.
    destruct (bitmap_build_ok b) as [idx Hidx]. exists idx. unfold build_index. simpl. rewrite Hidx.
    split_and!; [done|done|]. unfold index_rows. fold fs.
    destruct (filter _ (flat_indexes fs)); [done|]. by injection He as <-. }
  assert (exists idxs, omapM build_index (btree_iter (fragment_group fs)) = Ok idxs /\
    Forall2 (fun e fi => exists idx, fi_index fi = BitmapIdx idx /\ bitmap_build e.2 = Ok idx /\
      e.2 = bitmap_of_rows (index_rows segs fid e.1)) (btree_iter (fragment_group fs)) idxs) as (idxs & Hm & HF2).
  { clear -Hbuild. induction (btree_iter (fragment_group fs)) as [|e l IH]; [by exists []|].
    destruct (Hbuild e ltac:(set_solver)) as (idx & Hb & Hi & He).
    destruct IH as (idxs & Hm & HF2); [intros e' He'; apply Hbuild; set_solver|].
    simpl. rewrite Hb. simpl. rewrite Hm. simpl. eexists. split; [done|]. constructor; [by exists idx|done]. }
  exists idxs, n. split; [unfold build_index_fragment; simpl; by rewrite Hm|]. split.
  - unfold indexes_model. apply Forall2_lookup. intros i. rewrite list_lookup_fmap.
    pose proof (Forall2_length _ _ _ HF2) as Hl2. rewrite Hl in Hl2.
    destruct (decide (i < n)%nat) as [Hi|Hi].
    + rewrite lookup_seq_lt by done. cbn [fmap option_fmap option_map].
      destruct (lookup_lt_is_Some_2 (btree_iter (fragment_group fs)) i) as [e He]; [lia|].
      destruct (Forall2_lookup_l _ _ _ _ _ HF2 He) as (fi & Hfi & idx & Hx & Hb & Heq).
      rewrite Hfi. constructor. rewrite Hx. apply Hlk in He as [_ He]. rewrite He in Heq. cbn [Nat.add] in *.
      split; [by apply (index_rows_same_variant size)|]. by rewrite <- Heq.
    + rewrite lookup_seq_ge by lia. rewrite (lookup_ge_None_2 idxs) by lia. constructor.
  - intros d f Hd Hf Hid. apply (Hlen (wrap32 (number (fd_cursor d)), f)). apply list_elem_of_filter.
    split; [done|]. apply elem_of_flat_fragments. by exists d.
Qed.

(** What a group holds. *)
Lemma group_build_ok size segs first last_ :
  groupable size segs -> head segs = Some first -> list.last segs = Some last_ ->
  exists group, group_build (foldl add_segment (group_builder_new size) segs) = Ok group /\
    gr_first_block group = sg_first_block first /\
    forall d f, d ∈ all_data segs -> f ∈ ig_indexes (fd_data d) ->
      exists gf n, find_first (fun g => if_fragment_id g =? if_fragment_id f) (ig_indexes (gr_index group)) = Some gf /\
        if_range_start gf = number (sg_first_block first) /\
        if_range_len gf = number (sg_first_block last_) + size - number (sg_first_block first) /\
        indexes_model ((fun i => Some (index_rows segs (if_fragment_id f) (Z.of_nat i))) <$> seq 0 n) (if_indexes gf) /\
        (length (if_indexes f) <= n)%nat.
Proof.
  intros Hg Hh Hl. destruct (ga_blocks _ _ Hg _ _ Hh Hl) as (Hnum & Hbound & _). pose proof (ga_size _ _ Hg).
  destruct (add_segments_range segs (group_builder_new size)) as [_ Hr]. rewrite Hl, Hh in Hr.
  cbn [group_builder_new block_range gb_segment_size] in Hr.
  assert (U32 < U64) by done. rewrite add64_id, sub64_id in Hr by lia. unfold group_build. rewrite Hr.
  rewrite (wrap32_id (number (sg_first_block first))) by (unfold is_u32; lia).
  rewrite sub64_id, add64_id by lia. rewrite wrap32_id by (unfold is_u32; lia).
  set (start := number (sg_first_block first)). set (len := _ - start + 1).
  rewrite add_segments_blocks. cbn [group_builder_new block_indexes].
  set (m := foldl add_block_data ∅ (all_data segs)).
  assert (forall fid inner, m !! fid = Some inner ->
    exists gf, build_index_fragment start len (fid, inner) = Ok gf /\ if_fragment_id gf = fid) as Hbuild.
  { intros fid inner Hin. destruct (build_fragment_ok size segs fid inner start len Hg Hin) as (idxs & n & Hb & _).
    eexists. split; [exact Hb|done]. }
  assert (exists gfs, omapM (build_index_fragment start len) (btree_iter m) = Ok gfs /\
    Forall2 (fun e gf => build_index_fragment start len e = Ok gf /\ if_fragment_id gf = e.1) (btree_iter m) gfs)
    as (gfs & Hm & HF2).
  { assert (forall e, e ∈ btree_iter m -> m !! e.1 = Some e.2) as Hsub.
    { intros [k v]. by rewrite elem_of_btree_iter. }
    induction (btree_iter m) as [|[k v] l IH]; [by exists []|].
    destruct (Hbuild k v) as (gf & Hb & Hid); [apply (Hsub (k, v)); set_solver|].
    destruct IH as (gfs & Hm & HF2); [intros e He; apply Hsub; set_solver|].
    simpl. rewrite Hb. simpl. rewrite Hm. simpl. eexists. split; [done|]. constructor; done. }
  rewrite Hm. eexists. split; [reflexivity|]. split; [done|]. intros d f Hd Hf. cbn [gr_index ig_indexes].
  assert (exists inner, m !! if_fragment_id f = Some inner) as [inner Hin].
  { subst m. rewrite blocks_lookup.
    destruct (filter _ (flat_fragments (all_data segs))) as [|p l] eqn:Hfil; [|by eexists].
    exfalso. assert ((wrap32 (number (fd_cursor d)), f) ∈ ([] : list (Z * IndexFragment))) as []%elem_of_nil.
    rewrite <- Hfil. apply list_elem_of_filter. split; [done|]. apply elem_of_flat_fragments. by exists d. }
  destruct (build_fragment_ok size segs _ inner start len Hg Hin) as (idxs & n & Hb & Hmod & Hn).
  exists (mkIndexFragment (if_fragment_id f) start len idxs), n. split_and!; [|done|simpl; lia|done|by apply (Hn d)].
  apply (find_first_unique if_fragment_id gfs (mkIndexFragment (if_fragment_id f) start len idxs)).
  - replace (if_fragment_id <$> gfs) with (btree_keys m); [apply NoDup_btree_keys|]. unfold btree_keys.
    clear -HF2. induction HF2 as [|e gf l gfs [_ He] _ IH]; [done|]. by rewrite !fmap_cons, He, IH.
  - apply elem_of_btree_iter, list_elem_of_lookup in Hin as [i Hi].
    destruct (Forall2_lookup_l _ _ _ _ _ HF2 Hi) as (gf & Hgf & Hb' & _). rewrite Hb in Hb'. injection Hb' as <-.
    by eapply list_elem_of_lookup_2.
Qed.

(** A row that a filter selects has the keys of all its conditions. *)
Lemma filter_rows_keys flt f rows :
  filter_rows flt f = Ok rows -> rows <> ∅ ->
  Forall (fun c => exists fi, if_indexes f !! Z.to_nat (index_id c) = Some fi /\
            (fi_index fi = EmptyIdx \/ key c ∈ index_keys fi)) (conditions flt).
Proof.
  unfold filter_rows. generalize (bitmap_range (if_range_start f) (add32 (if_range_start f) (if_range_len f))).
  induction (conditions flt) as [|c cs IH]; intros acc Hf Hne; [constructor|]. cbn [filter_conditions] in Hf.
  apply bind_Ok in Hf as (fi & Hfi%ok_or_Ok & Hf). destruct (fi_index fi) as [bx|] eqn:Hx.
  - apply bind_Ok in Hf as (found & Hget & Hf). destruct found as [bm|]; [|injection Hf as <-; done].
    constructor; [|by eapply IH]. exists fi. split; [done|]. right. unfold index_keys. rewrite Hx.
    unfold bitmap_get in Hget. destruct (binary_search_by _ _) as [pos|] eqn:Hs; [|done].
    apply binary_search_sound in Hs as (x & Hxp & Heq%cmp_scalar_eq). subst x. by eapply list_elem_of_lookup_2.
  - constructor; [|by eapply IH]. exists fi. auto.
Qed.

End build.
