(* ===== verification/CompactionSpec.v ===== *)
(** * Segments and groups: properties

    - a block read from the segments of its fragments is filtered as the block
      itself: compaction is invisible to clients;
    - the index of a group selects every block in which a filter has a match:
      no matching block is skipped. *)

From S2P Require Import Prelude External Text Core Index IndexSpec Query QuerySpec Encoding FragmentAccess.
From S2P Require Import FilterBlock FilterOrder FilterBlockSpec BlockStore Compaction CompactionFacts GroupFacts.

Section segments.
Context `{!Roaring, !Prost, !HashOrder Z, !BlockArchives}.

(** The serialised segments of some blocks. *)
Definition compact_blocks (first : Cursor) (blocks : list (Cursor * Block)) :
    outcome CompactionError (list SerializedSegment) :=
  builder ← start_new_segment segment_builder_default first;
  builder ← add_blocks builder blocks;
  r ← builder_segment_data builder;
  Ok r.1.

(** The files of an access are the segments of that name, and the indexes, the
    joins and the headers are among them. *)
Definition reads (segs : list SerializedSegment) (names : gmap Z string) (access : SegmentAccess) : Prop :=
  (forall fid bytes, sa_fragments access !! fid = Some bytes ->
     exists name, names !! fid = Some name /\ mkSerializedSegment (str name) bytes ∈ segs) /\
  (forall fid, reserved fid -> is_Some (sa_fragments access !! fid)).

Lemma segment_data_eq {T} `{!Archive (Segment T)} first (data : list (FragmentData T)) access fid i d :
  sa_fragments access !! fid = Some (to_bytes (mkSegmentOf first data)) -> data !! i = Some d ->
  segment_data (mkSegmentBlock (Z.of_nat i) access) fid = Ok (fd_data d).
Proof.
  intros Hf Hd. unfold segment_data. cbn [sb_segment sb_offset]. rewrite Hf. cbn [ok_or mbind outcome_bind].
  rewrite access_to_bytes. cbn [mbind outcome_bind sg_data].
  assert ((index_vec data (Z.of_nat i) : outcome FragmentAccessError _) = Ok d) as ->; [|done].
  apply index_vec_Ok. split; [lia|]. by rewrite Nat2Z.id.
Qed.

Lemma segment_block_agree names first blocks access i c blk :
  Forall (fun p : Cursor * Block => block_ok names p.2) blocks ->
  (forall fid bytes, sa_fragments access !! fid = Some bytes ->
     is_Some (names !! fid) /\ bytes = segment_bytes first blocks fid) ->
  (forall fid, reserved fid -> is_Some (sa_fragments access !! fid)) ->
  blocks !! i = Some (c, blk) ->
  let a := AccessSegment (mkSegmentBlock (Z.of_nat i) access) in
  let b := AccessBlock (to_bytes blk) in
  (forall fid, get_index_fragment a fid = get_index_fragment b fid) /\
  (forall fid, get_join_fragment a fid = get_join_fragment b fid) /\
  get_header_fragment a = get_header_fragment b /\
  (forall fid, is_Some (sa_fragments access !! fid) -> ~ reserved fid ->
     get_body_fragment a fid = get_body_fragment b fid).
Proof.
  intros Hok Hfiles Hres Hi a b. subst a b.
  assert (forall fid, reserved fid -> sa_fragments access !! fid = Some (segment_bytes first blocks fid)) as Hr.
  { intros fid Hfid. destruct (Hres fid Hfid) as [bytes Hb]. rewrite Hb. f_equal. by apply Hfiles. }
  split_and!.
  - intros fid. rewrite block_index_eq. cbn [get_index_fragment]. unfold segment_get_index_fragment.
    rewrite (segment_data_eq first ((fun p => mkFragmentData p.1 (blk_index p.2)) <$> blocks) access _ i
      (mkFragmentData c (blk_index blk))); [done|by rewrite Hr by (by left)|].
    by rewrite list_lookup_fmap, Hi.
  - intros fid. rewrite block_join_eq. cbn [get_join_fragment]. unfold segment_get_join_fragment.
    rewrite (segment_data_eq first ((fun p => mkFragmentData p.1 (blk_join p.2)) <$> blocks) access _ i
      (mkFragmentData c (blk_join blk))); [done|by rewrite Hr by (right; by left)|].
    by rewrite list_lookup_fmap, Hi.
  - rewrite block_header_eq. cbn [get_header_fragment]. unfold segment_get_header_fragment.
    rewrite (segment_data_eq first ((fun p => mkFragmentData p.1 (blk_header p.2)) <$> blocks) access _ i
      (mkFragmentData c (blk_header blk))); [done|by rewrite Hr by (right; by right)|].
    by rewrite list_lookup_fmap, Hi.
  - intros fid [bytes Hb] Hnr. destruct (Hfiles _ _ Hb) as [Hn ->].
    destruct (fragments_of_lookup names fid blocks Hok Hn Hnr) as [_ Hlk].
    destruct (Hlk i _ Hi) as (f & Hf & Hl). rewrite block_body_eq. cbn [snd] in Hf. unfold body_fragment in Hf.
    rewrite Hf. cbn [get_body_fragment]. unfold segment_get_body_fragment.
    rewrite (segment_data_eq first (fragments_of fid blocks) access fid i (mkFragmentData c f)); [done| |done].
    rewrite Hb. unfold segment_bytes. unfold reserved in Hnr. by rewrite !decide_False by tauto.
Qed.

(** A block read from the segments of its fragments is filtered as the block. *)
Lemma segment_filter_eq names first blocks access i c blk bfs is_live :
  Forall (fun p : Cursor * Block => block_ok names p.2) blocks ->
  (forall fid bytes, sa_fragments access !! fid = Some bytes ->
     is_Some (names !! fid) /\ bytes = segment_bytes first blocks fid) ->
  (forall fid, reserved fid -> is_Some (sa_fragments access !! fid)) ->
  blocks !! i = Some (c, blk) ->
  (forall bf fid, bf ∈ bfs -> touched (AccessBlock (to_bytes blk)) bf fid ->
     ~ reserved fid /\ is_Some (sa_fragments access !! fid)) ->
  filter_fragment bfs names (AccessSegment (mkSegmentBlock (Z.of_nat i) access)) is_live =
  filter_fragment bfs names (AccessBlock (to_bytes blk)) is_live.
Proof.
  intros Hok Hfiles Hres Hi Hneed.
  destruct (segment_block_agree names first blocks access i c blk Hok) as (Ha1 & Ha2 & Ha3 & Ha4); [done..|].
  apply filter_fragment_ext; [done|done|done|]. intros bf fid Hbf Ht Hn.
  destruct (Hneed bf fid Hbf) as [Hnr Hs]; [|by apply Ha4].
  destruct Ht as (entry & f & indexes & rows & He & Hf & Hidx & Hrest). exists entry, f, indexes, rows.
  by rewrite <- Ha1.
Qed.

End segments.

Section transparency.
Context `{!Roaring, !Prost, !HashOrder Z, !BlockArchives}.

(** (C4) Compaction is invisible: take blocks of one network (each with one
    body fragment per fragment name, under pairwise different names).  The
    segment builder accepts them, and a block read from the segments it
    produced is filtered as the block's own object, for any filters, as long as
    the fragments that the filters select rows of or join to were fetched: both
    reads fail alike, or give as many messages with the same items in the same
    order and the same bytes, but for the order of the filter ids of an item, which
    is that of a hash table and can differ between two reads. *)
Theorem segment_transparent (names : gmap Z string) (first : Cursor) (blocks : list (Cursor * Block)) :
  names_ok names -> Forall (fun p => block_ok names p.2) blocks ->
  exists segs, compact_blocks first blocks = Ok segs /\
    (forall fid name, blocks <> [] -> names !! fid = Some name -> exists bytes,
       mkSerializedSegment (str name) bytes ∈ segs) /\
    forall (order1 order2 : HashOrder Z) access i c blk bfs is_live,
      reads segs names access -> blocks !! i = Some (c, blk) ->
      (forall bf fid, bf ∈ bfs -> touched (AccessBlock (to_bytes blk)) bf fid ->
         ~ reserved fid /\ is_Some (sa_fragments access !! fid)) ->
      outcome_rel same_answer
        (filter_fragment (HashOrder0 := order1) bfs names (AccessSegment (mkSegmentBlock (Z.of_nat i) access)) is_live)
        (filter_fragment (HashOrder0 := order2) bfs names (AccessBlock (to_bytes blk)) is_live).
Proof.
  intros Hno Hok. unfold compact_blocks. cbn [start_new_segment segment_builder_default sbd_first_block].
  destruct (add_blocks_holds names first blocks _ eq_refl Hok) as (self & Hadd & Hb).
  destruct (segment_data_files names first blocks self Hno Hok Hb) as (segs & self' & Hdata & Hfiles & Hall).
  cbn [mbind outcome_bind]. cbn [expected_fragment_count sbd_headers sbd_indexes sbd_joins sbd_body] in Hadd.
  rewrite Hadd. cbn [mbind outcome_bind]. rewrite Hdata. exists segs. split; [done|].
  split; [intros fid name Hne Hn; eexists; by apply Hall|].
  intros order1 order2 access i c blk bfs is_live [Hread Hres] Hi Hneed.
  rewrite (segment_filter_eq (HashOrder0 := order1) names first blocks access i c blk); [apply filter_fragment_order|done| |done|done|done].
  intros fid bytes Hf. destruct (Hread _ _ Hf) as (name & Hn & Hin). split; [by eexists|]. by apply (Hfiles fid name).
Qed.

End transparency.

Section groups.
Context `{!Roaring, !BlockArchives, !HashOrder Z}.

(** The group of some segments selects the blocks in which a filter matches. *)
Lemma group_covers size segs :
  segs <> [] -> groupable size segs ->
  exists group, group_build (foldl add_segment (group_builder_new size) segs) = Ok group /\
    forall d f flt rows,
      d ∈ all_data segs -> f ∈ ig_indexes (fd_data d) -> filter_rows flt f = Ok rows -> rows <> ∅ ->
      exists gf grows,
        find_first (fun g => if_fragment_id g =? if_fragment_id f) (ig_indexes (gr_index group)) = Some gf /\
        filter_rows flt gf = Ok grows /\ number (fd_cursor d) ∈ grows.
Proof.
  intros Hne Hg. destruct (head segs) as [first|] eqn:Hh; [|by destruct segs].
  destruct (list.last segs) as [last_|] eqn:Hl; [|by apply last_None in Hl].
  destruct (group_build_ok size segs first last_ Hg Hh Hl) as (group & Hbuild & _ & Hgf).
  exists group. split; [done|]. intros d f flt rows Hall Hf Hrows Hnonempty.
  destruct (ga_blocks _ _ Hg _ _ Hh Hl) as (Hnum & Hbound & Hrange). specialize (Hrange d Hall).
  destruct (Hgf d f Hall Hf) as (gf & n & Hfind & Hstart & Hlen & Hmodel & Hn).
  pose proof (filter_rows_keys _ _ _ Hrows Hnonempty) as Hkeys. rewrite Forall_forall in Hkeys.
  assert (wrap32 (number (fd_cursor d)) = number (fd_cursor d)) as Hwrap by (apply wrap32_id; unfold is_u32; lia).
  assert (forall c, c ∈ conditions flt ->
    satisfies ((fun i => Some (index_rows segs (if_fragment_id f) (Z.of_nat i))) <$> seq 0 n) (number (fd_cursor d)) c /\
    valid_condition ((fun i => Some (index_rows segs (if_fragment_id f) (Z.of_nat i))) <$> seq 0 n) c) as Hsat.
  { intros c Hc. destruct (Hkeys c Hc) as (fi & Hfi & Hk).
    destruct (ga_layout _ _ Hg d f _ fi Hall Hf Hfi) as [Hid Hempty]. destruct Hk as [Hk|Hk]; [done|].
    pose proof (lookup_lt_Some _ _ _ Hfi) as Hlt. unfold satisfies, valid_condition.
    rewrite list_lookup_fmap, lookup_seq_lt by lia. cbn [fmap option_fmap option_map Nat.add].
    split; [|by eexists]. apply elem_of_index_rows. exists d, f, fi.
    split_and!; [done|by rewrite Hwrap|done|done|by eapply list_elem_of_lookup_2|done|done]. }
  destruct (filter_rows_spec _ flt gf Hmodel) as (grows & Hgrows & Hin); [|lia|lia|lia|].
  { apply Forall_forall. intros c Hc. by apply Hsat. }
  exists gf, grows. split_and!; [done|done|]. apply Hin. split; [lia|]. apply Forall_forall. intros c Hc. by apply Hsat.
Qed.

(** (C30) The index of a group loses no block: for segments of consecutive
    blocks of one network the group builder returns a group, and whenever a
    filter selects some row of a fragment in one of the blocks, the group has
    an index for that fragment and the same filter, applied to it, selects that
    block's number. *)
Theorem group_prefilter_complete (size : Z) (segs : list (Segment IndexGroupFragment)) :
  segs <> [] -> groupable size segs ->
  exists group, group_build (foldl add_segment (group_builder_new size) segs) = Ok group /\
    forall s d f flt rows,
      s ∈ segs -> d ∈ sg_data s -> f ∈ ig_indexes (fd_data d) ->
      filter_rows flt f = Ok rows -> rows <> ∅ ->
      exists gf grows,
        find_first (fun g => if_fragment_id g =? if_fragment_id f) (ig_indexes (gr_index group)) = Some gf /\
        filter_rows flt gf = Ok grows /\ number (fd_cursor d) ∈ grows.
Proof.
  intros Hne Hg. destruct (group_covers size segs Hne Hg) as (group & Hbuild & Hcov). exists group.
  split; [done|]. intros s d f flt rows Hs Hd. apply Hcov. apply list_elem_of_bind. by exists s.
Qed.

End groups.

(** ** Witnesses *)

Module CompactionWitness.
Import External.Reference ReferenceArchives.

Definition names : gmap Z string :=
  {[0 := "index"; 255 := "join"; 1 := "header"; 2 := "transaction"; 3 := "event"]}.

Lemma names_cases fid name :
  names !! fid = Some name ->
  (fid, name) ∈ [(0, "index"); (255, "join"); (1, "header"); (2, "transaction"); (3, "event")].
Proof.
  intros Hn. apply elem_of_map_to_list in Hn. revert Hn.
  replace (map_to_list names) with
    [(255, "join"); (3, "event"); (2, "transaction"); (1, "header"); (0, "index")] by (vm_compute; reflexivity).
  set_solver.
Qed.

Lemma names_example_ok : names_ok names.
Proof.
  constructor; [vm_compute; reflexivity..|]. intros a b s Ha%names_cases Hb%names_cases.
  set_unfold in Ha. set_unfold in Hb. naive_solver.
Qed.

Lemma block_example_ok : block_ok names example_block_data.
Proof.
  constructor.
  - change (NoDup [2; 3]). repeat constructor; set_solver.
  - intros f Hf. cbn in Hf. set_unfold in Hf.
    destruct Hf as [->|[->|[]]]; (split; [vm_compute; reflexivity|]); by intros [|[|]].
  - intros fid [name Hn%names_cases] Hr. set_unfold in Hn. unfold reserved in Hr. cbn. set_unfold. naive_solver.
Qed.

Definition blocks_example : list (Cursor * Block) :=
  [(mkCursor 10 [x0a], example_block_data); (mkCursor 11 [x0b], example_block_data)].

(** The access that fetched every fragment. *)
Definition access_of (segs : list SerializedSegment) : SegmentAccess :=
  mkSegmentAccess 10 (bitmap_range 10 12)
    (omap (fun name => ss_data <$> find_first (fun s => bool_decide (ss_name s = str name)) segs) names).

Lemma access_reads segs :
  (forall fid name, names !! fid = Some name -> exists bytes, mkSerializedSegment (str name) bytes ∈ segs) ->
  reads segs names (access_of segs) /\ forall fid, is_Some (names !! fid) -> is_Some (sa_fragments (access_of segs) !! fid).
Proof.
  intros Hall. cbn [access_of sa_fragments]. unfold reads. cbn [access_of sa_fragments].
  assert (forall fid, is_Some (names !! fid) ->
    is_Some (omap (fun name => ss_data <$> find_first (fun s => bool_decide (ss_name s = str name)) segs) names !! fid)) as Hs.
  { intros fid [name Hn]. rewrite lookup_omap, Hn. cbn [mbind option_bind]. destruct (Hall fid name Hn) as [bytes Hb].
    unfold find_first. destruct (list_find _ segs) as [[i x]|] eqn:Hf; [by eexists|].
    apply list_find_None in Hf. rewrite Forall_forall in Hf. exfalso. apply (Hf _ Hb). by apply bool_decide_eq_true. }
  split; [|done]. split.
  - intros fid bytes Hf. rewrite lookup_omap in Hf. destruct (names !! fid) as [name|]; [|done].
    cbn [mbind option_bind] in Hf. exists name. split; [done|]. unfold find_first in Hf.
    destruct (list_find _ segs) as [[i x]|] eqn:Hx; [|done]. simpl in Hf. injection Hf as <-.
    apply list_find_Some in Hx as (Hi & Hp & _). apply bool_decide_eq_true in Hp.
    apply list_elem_of_lookup_2 in Hi. destruct x. simpl in *. by subst.
  - intros fid Hr. apply Hs. destruct Hr as [->|[->| ->]]; vm_compute; by eexists.
Qed.

(** Another order of the tables. *)
Definition reversed_order : HashOrder Z :=
  {| hash_iter _ s := reverse (elements s); hash_iter_perm _ s := reverse_Permutation (elements s) |}.

Lemma segment_transparent_witness :
  exists segs access, compact_blocks (mkCursor 10 [x0a]) blocks_example = Ok segs /\
    outcome_rel same_answer
      (filter_fragment (HashOrder0 := reversed_order) [example_request] names (AccessSegment (mkSegmentBlock 1 access)) false)
      (filter_fragment [example_request] names (AccessBlock (to_bytes example_block_data)) false).
Proof.
  destruct (segment_transparent names (mkCursor 10 [x0a]) blocks_example names_example_ok) as (segs & Hc & Hall & Heq).
  { apply Forall_cons. split; [exact block_example_ok|]. apply Forall_cons. split; [exact block_example_ok|]. by apply Forall_nil. }
  destruct (access_reads segs) as [Hr Hs]. { intros fid name. by apply Hall. }
  exists segs, (access_of segs). split; [exact Hc|].
  apply (Heq reversed_order _ (access_of segs) 1%nat (mkCursor 11 [x0b])); [exact Hr|reflexivity|].
  intros bf fid ->%list_elem_of_singleton (entry & f & indexes & rows & He & Hf & _ & _ & _ & Hfid).
  assert (block_filter_iter example_request = [(2, [mkFilter 1 2 [mkCondition 0 (Uint32 7)] [3]])]) as Hi
    by (vm_compute; reflexivity).
  rewrite Hi in He. apply list_elem_of_singleton in He as ->. apply list_elem_of_singleton in Hf as ->.
  assert (fid = 2 \/ fid = 3) as Hf23.
  { cbn in Hfid. destruct Hfid as [->|Hj]; [by left|]. right. by apply list_elem_of_singleton in Hj. }
  split; [unfold reserved, INDEX_FRAGMENT_ID, JOIN_FRAGMENT_ID, HEADER_FRAGMENT_ID; lia|].
  apply Hs. destruct Hf23 as [-> | ->]; vm_compute; by eexists.
Defined.

(** The two blocks in one segment of a group. *)
Definition index_segment : Segment IndexGroupFragment :=
  mkSegmentOf (mkCursor 10 [x0a])
    [mkFragmentData (mkCursor 10 [x0a]) (blk_index example_block_data);
     mkFragmentData (mkCursor 11 [x0b]) (blk_index example_block_data)].

Lemma groupable_example : groupable 2 [index_segment].
Proof.
  assert (forall d, d ∈ all_data [index_segment] ->
    fd_data d = blk_index example_block_data /\ 10 <= number (fd_cursor d) < 12) as Hd.
  { intros d (s & Hd & ->%list_elem_of_singleton)%list_elem_of_bind. cbn [index_segment sg_data] in Hd.
    apply elem_of_cons in Hd as [-> | ->%list_elem_of_singleton]; done. }
  assert (forall d f, d ∈ all_data [index_segment] -> f ∈ ig_indexes (fd_data d) ->
    f = mkIndexFragment 2 0 2 [mkFragmentIndex 0 (BitmapIdx example_bitmap)] \/ f = mkIndexFragment 3 0 3 []) as Hf.
  { intros d f [-> _]%Hd Hf. cbn [example_block_data blk_index ig_indexes] in Hf.
    apply elem_of_cons in Hf as [-> | ->%list_elem_of_singleton]; auto. }
  assert (forall k, k ∈ bx_keys example_bitmap -> scalar_rank k = 5) as Hk.
  { intros k Hk. replace (bx_keys example_bitmap) with [Uint32 7; Uint32 8] in Hk by (vm_compute; reflexivity).
    apply elem_of_cons in Hk as [-> | ->%list_elem_of_singleton]; done. }
  constructor.
  - lia.
  - intros first last_ [= <-] [= <-]. split; [done|]. split; [done|]. intros d [_ Hn]%Hd. exact Hn.
  - intros d f i fi Hin Hfin Hi. destruct (Hf d f Hin Hfin) as [-> | ->]; [|done].
    destruct i as [|i]; [|done]. by injection Hi as <-.
  - intros d d' f f' fi fi' k k' H1 H2 H3 H4 _ H5 H6 _ H7 H8.
    destruct (Hf d f H1 H3) as [-> | ->]; [|by apply elem_of_nil in H5].
    destruct (Hf d' f' H2 H4) as [-> | ->]; [|by apply elem_of_nil in H6].
    apply list_elem_of_singleton in H5 as ->. apply list_elem_of_singleton in H6 as ->.
    by rewrite (Hk k H7), (Hk k' H8).
Qed.

Lemma group_prefilter_complete_witness :
  exists group gf grows,
    group_build (foldl add_segment (group_builder_new 2) [index_segment]) = Ok group /\
    find_first (fun g => if_fragment_id g =? 2) (ig_indexes (gr_index group)) = Some gf /\
    filter_rows (mkFilter 1 2 [mkCondition 0 (Uint32 7)] [3]) gf = Ok grows /\ 11 ∈ grows.
Proof.
  destruct (group_prefilter_complete 2 [index_segment] ltac:(discriminate) groupable_example) as (group & Hb & Hg).
  set (f := mkIndexFragment 2 0 2 [mkFragmentIndex 0 (BitmapIdx example_bitmap)]).
  destruct (Hg index_segment (mkFragmentData (mkCursor 11 [x0b]) (blk_index example_block_data)) f
    (mkFilter 1 2 [mkCondition 0 (Uint32 7)] [3]) {[0]}) as (gf & grows & H1 & H2 & H3).
  - by apply list_elem_of_singleton.
  - right. left.
  - left.
  - vm_compute. reflexivity.
  - discriminate.
  - exists group, gf, grows. split; [exact Hb|]. split; [exact H1|]. split; [exact H2|exact H3].
Defined.

End CompactionWitness.
