(* ===== verification/CompactionService.v ===== *)
(** * The compaction services (common/src/compaction/segment.rs, group.rs,
    prune.rs, service.rs and mod.rs)

    Three loops run side by side.  The segment service turns finalized blocks
    into segments and publishes the segmented block, the group service turns
    segments into groups and publishes the grouped block, and the prune service
    deletes the objects of the blocks up to the grouped block.

    The chain view they read is the interface [ChainViewOps]; a queued download
    is performed when its result is taken from the queue. *)

From S2P Require Import Prelude External Text Core Cloud StateClient ObjectStore Chain ChainView.
From S2P Require Import Index FragmentAccess BlockStore Compaction.

(** ** The chain view as the services use it *)

Class ChainViewOps (W : Type) := {
  view_next_cursor : option Cursor -> prog W ChainViewError NextCursor;
  view_starting_cursor : prog W ChainViewError Cursor;
  view_segmented_cursor : prog W ChainViewError (option Cursor);
  view_grouped_cursor : prog W ChainViewError (option Cursor);
  view_head : prog W ChainViewError Cursor;
  view_finalized_cursor : prog W ChainViewError Cursor }.

(** [for _ in 0..n]. *)
Fixpoint repeatM {S E A} (n : nat) (f : A -> prog S E A) (a : A) : prog S E A :=
  match n with
  | O => mret a
  | S n => a ← f a; repeatM n f a
  end.

(** A loop over a list for its effects. *)
Fixpoint forM_ {S E A} (f : A -> prog S E unit) (l : list A) : prog S E unit :=
  match l with
  | [] => mret tt
  | x :: l => _ ← f x; forM_ f l
  end.

Definition MAX_BUFFERED_BLOCKS : Z := 128.
Definition MAX_BUFFERED_SEGMENTS : Z := 128.

(** ** Segments *)

(** What [compact_segment] keeps: the builder, the queue of downloads, the next
    block to queue and the last block that was added. *)
Record compact_state := mkCompact {
  co_builder : SegmentBuilder;
  co_queue : list Cursor;
  co_current : Cursor;
  co_last : Cursor }.

Inductive SegmentTick := SegmentCompacted | WaitFinalized | WaitHead.
Inductive GroupTick := GroupCompacted | WaitSegmented.

Section services.
Context `{!Codec} {W : Type} `{Cloud W} `{!ChainViewOps W}.
Context `{!Roaring, !BlockArchives, !HashOrder Z}.
Variable client : ObjectStore.
Variable state_client : KvClient.
Variable cancelled : W -> bool.

(** Queues the current block and asks for the next one. *)
Definition push_block (st : compact_state) : prog W CompactionError compact_state :=
  next ← pcontext CompactionErr (view_next_cursor (Some (co_current st)));
  match next with
  | NextContinue next_cursor _ =>
      mret (mkCompact (co_builder st) (co_queue st ++ [co_current st]) next_cursor (co_last st))
  | _ => fail CompactionErr
  end.

(** Takes a download from the queue and adds the block. *)
Definition pop_block (st : compact_state) : prog W CompactionError (compact_state * Cursor) :=
  match co_queue st with
  | [] => fail CompactionErr
  | cursor :: queue =>
      r ← pcontext CompactionErr (get_block_and_cursor client cursor);
      builder ← lift (add_block (co_builder st) r.1 r.2);
      mret (mkCompact builder queue (co_current st) (co_last st), r.1)
  end.

(** The body of the second loop. *)
Definition pop_and_push (st : compact_state) : prog W CompactionError compact_state :=
  p ← pop_block st;
  push_block (mkCompact (co_builder p.1) (co_queue p.1) (co_current p.1) p.2).

(** The body of the third loop. *)
Definition pop_and_check (first : Cursor) (st : compact_state) :
    prog W CompactionError compact_state :=
  p ← pop_block st;
  if negb (bool_decide (p.2 = first)) && negb (number p.2 =? add64 (number (co_last p.1)) 1)
  then fail CompactionErr
  else mret (mkCompact (co_builder p.1) (co_queue p.1) (co_current p.1) p.2).

Definition compact_segment (fuel : nat) (segment_size : Z) (first_block_in_segment : Cursor) :
    prog W CompactionError (option unit) :=
  builder ← lift (start_new_segment segment_builder_default first_block_in_segment);
  let buffered_queue_size := Z.min segment_size MAX_BUFFERED_BLOCKS in
  let st := mkCompact builder [] first_block_in_segment first_block_in_segment in
  st ← repeatM (Z.to_nat buffered_queue_size) push_block st;
  st ← repeatM (Z.to_nat (segment_size - buffered_queue_size)) pop_and_push st;
  st ← repeatM (Z.to_nat buffered_queue_size) (pop_and_check first_block_in_segment) st;
  if negb (block_count (co_builder st) =? segment_size) then fail CompactionErr
  else
    data ← lift (builder_segment_data (co_builder st));
    _ ← forM_ (fun segment =>
          _ ← pcontext CompactionErr (put_segment client first_block_in_segment segment);
          mret tt) data.1;
    pcontext CompactionErr (put_segmented fuel state_client (number (co_last st))).

(** One iteration of [SegmentService::start]. *)
Definition segment_tick (fuel : nat) (segment_size : Z) : prog W CompactionError SegmentTick :=
  segmented ← pcontext CompactionErr view_segmented_cursor;
  first_block_in_segment ←
    match segmented with
    | Some cursor =>
        next ← pcontext CompactionErr (view_next_cursor (Some cursor));
        match next with
        | NextContinue cursor _ => mret cursor
        | _ => fail CompactionErr
        end
    | None => pcontext CompactionErr view_starting_cursor
    end;
  head ← pcontext CompactionErr view_head;
  finalized ← pcontext CompactionErr view_finalized_cursor;
  let latest_available := Z.min (number finalized) (number head) in
  if add64 (number first_block_in_segment) segment_size <=? latest_available then
    _ ← compact_segment fuel segment_size first_block_in_segment;
    mret SegmentCompacted
  else if number finalized <? number head then mret WaitFinalized else mret WaitHead.

(** ** Groups *)

Record group_state := mkGroupState { gs_builder : SegmentGroupBuilder; gs_queue : list Cursor }.

(** Queues the [i]-th segment of the group. *)
Definition push_segment (first : Cursor) (segment_size i : Z) (st : group_state) : group_state :=
  let segment_start := add64 (number first) (mul64 i segment_size) in
  mkGroupState (gs_builder st) (gs_queue st ++ [new_finalized segment_start]).

Definition pop_segment (st : group_state) : prog W CompactionError group_state :=
  match gs_queue st with
  | [] => fail CompactionErr
  | cursor :: queue =>
      r ← pcontext CompactionErr (get_index_segment_and_cursor client cursor);
      segment ← lift (ok_or CompactionErr (from_bytes (A := Segment IndexGroupFragment) r.2));
      mret (mkGroupState (add_segment (gs_builder st) segment) queue)
  end.

(** The loop over [i in buffered_queue_size..group_size]. *)
Fixpoint pop_and_push_segments (first : Cursor) (segment_size : Z) (is_ : list Z) (st : group_state) :
    prog W CompactionError group_state :=
  match is_ with
  | [] => mret st
  | i :: is_ =>
      st ← pop_segment st;
      pop_and_push_segments first segment_size is_ (push_segment first segment_size i st)
  end.

Definition compact_group (fuel : nat) (segment_size group_size : Z) (first_block_in_group : Cursor)
    (blocks_in_group : Z) : prog W CompactionError (option unit) :=
  let buffered_queue_size := Z.min group_size MAX_BUFFERED_SEGMENTS in
  let st :=
    foldl (fun st i => push_segment first_block_in_group segment_size i st)
      (mkGroupState (group_builder_new segment_size) []) (seqZ 0 buffered_queue_size) in
  st ← pop_and_push_segments first_block_in_group segment_size
         (seqZ buffered_queue_size (group_size - buffered_queue_size)) st;
  st ← repeatM (Z.to_nat buffered_queue_size) pop_segment st;
  if negb (gb_segment_count (gs_builder st) =? group_size) then fail CompactionErr
  else
    group ← lift (group_build (gs_builder st));
    let last_block_in_group := sub64 (add64 (number first_block_in_group) blocks_in_group) 1 in
    _ ← pcontext CompactionErr (put_group client first_block_in_group group);
    pcontext CompactionErr (put_grouped fuel state_client last_block_in_group).

(** One iteration of [SegmentGroupService::start]. *)
Definition group_tick (fuel : nat) (segment_size group_size : Z) : prog W CompactionError GroupTick :=
  let blocks_in_group := mul64 group_size segment_size in
  grouped ← pcontext CompactionErr view_grouped_cursor;
  first_block_in_group ←
    match grouped with
    | Some cursor =>
        next ← pcontext CompactionErr (view_next_cursor (Some cursor));
        match next with
        | NextContinue cursor _ => mret cursor
        | _ => fail CompactionErr
        end
    | None => pcontext CompactionErr view_starting_cursor
    end;
  segmented ← pcontext CompactionErr view_segmented_cursor;
  match segmented with
  | None => mret WaitSegmented
  | Some segmented =>
      if add64 (number first_block_in_group) blocks_in_group <=? number segmented then
        _ ← compact_group fuel segment_size group_size first_block_in_group blocks_in_group;
        mret GroupCompacted
      else mret WaitSegmented
  end.

(** ** Pruning *)

(** The inner [for] loop: [inr] when the service was cancelled. *)
Fixpoint prune_blocks (n : nat) (grouped current : Z) : prog W CompactionError (Z + unit) :=
  match n with
  | O => mret (inl current)
  | S n =>
      w ← get_state;
      if cancelled w then mret (inr tt)
      else if grouped <? current then mret (inl current)
      else
        _ ← pcontext CompactionErr (delete_block_with_prefix client current);
        prune_blocks n grouped (add64 current 1)
  end.

(** The outer [while] loop; [None] when the fuel runs out. *)
Fixpoint prune_while (fuel : nat) (segment_size grouped current : Z) :
    prog W CompactionError (option unit) :=
  match fuel with
  | O => mret None
  | S fuel =>
      if current <? grouped then
        r ← prune_blocks (Z.to_nat segment_size) grouped current;
        match r with
        | inr _ => mret (Some tt)
        | inl current =>
            let last_pruned_block := sub64 current 1 in
            _ ← pcontext CompactionErr (put_pruned state_client last_pruned_block);
            prune_while fuel segment_size grouped current
        end
      else mret (Some tt)
  end.

Definition prune_loop (fuel : nat) (segment_size : Z) : prog W CompactionError (option unit) :=
  grouped ← pcontext CompactionErr (get_grouped state_client);
  match grouped with
  | None => mret (Some tt)
  | Some grouped =>
      pruned ← pcontext CompactionErr (get_pruned state_client);
      starting_block ←
        match pruned with
        | Some pruned_block => mret pruned_block
        | None => genesis ← pcontext CompactionErr view_starting_cursor; mret (number genesis)
        end;
      prune_while fuel segment_size grouped starting_block
  end.

(** ** Options *)

(** The checks of [compaction_service_loop] before the service starts: a stored
    size must be the configured one, a missing one is stored. *)
Definition check_option (get : prog W OptionsStoreError (option Z))
    (set : Z -> prog W OptionsStoreError unit) (size : Z) : prog W CompactionError unit :=
  stored ← pcontext CompactionErr get;
  match stored with
  | Some stored => if negb (stored =? size) then fail CompactionErr else mret tt
  | None => pcontext CompactionErr (set size)
  end.

Definition compaction_options (segment_size group_size : Z) : prog W CompactionError unit :=
  _ ← check_option (get_segment_size state_client) (set_segment_size state_client) segment_size;
  check_option (get_group_size state_client) (set_group_size state_client) group_size.

End services.
