(* ===== verification/CompactionServiceFacts.v ===== *)
(** * Facts about the compaction services

    What a service leaves unchanged, whatever requests fail, and the loops that
    fill a segment. *)

From S2P Require Import Prelude External Text Core Cloud StateClient StateClientFacts ObjectStore Chain ChainView.
From S2P Require Import ChainStore Index FragmentAccess BlockStore StoreFacts Compaction CompactionFacts CompactionSpec CompactionService.

(** ** What a program leaves unchanged *)

Section preserves.
Context {W : Type} `{Cloud W}.

(** Every run, also one that fails, relates the worlds before and after. *)
Definition preserves {E A} (R : relation CloudView) (m : prog W E A) : Prop :=
  forall w r w', m w = (r, w') -> R (view w) (view w').

Context (R : relation CloudView) `{!PreOrder R}.

Lemma preserves_ret {E A} (a : A) : preserves (E := E) R (mret a).
Proof. by intros w r w' [= <- <-]. Qed.

Lemma preserves_fail {E A} (e : E) : preserves (A := A) R (fail e).
Proof. by intros w r w' [= <- <-]. Qed.

Lemma preserves_lift {E A} (o : outcome E A) : preserves R (lift o).
Proof. by intros w r w' [= <- <-]. Qed.

Lemma preserves_pcontext {E E' A} (e : E') (m : prog W E A) :
  preserves R m -> preserves R (pcontext e m).
Proof.
  intros Hm w r w'. unfold pcontext. destruct (m w) as [r0 w0] eqn:Hr. intros [= <- <-]. by eapply Hm.
Qed.

Lemma preserves_bind {E A B} (m : prog W E A) (f : A -> prog W E B) :
  preserves R m -> (forall a, preserves R (f a)) -> preserves R (mbind f m).
Proof.
  intros Hm Hf w r w'. unfold mbind, prog_bind. destruct (m w) as [[a|e|] w1] eqn:Hr.
  - intros Hr'. transitivity (view w1); [by eapply Hm|by eapply Hf].
  - intros [= <- <-]. by eapply Hm.
  - intros [= <- <-]. by eapply Hm.
Qed.

Lemma preserves_get {E} : preserves (E := E) R get_state.
Proof. by intros w r w' [= <- <-]. Qed.

Lemma preserves_weaken {E A} (R' : relation CloudView) (m : prog W E A) :
  (forall v v', R v v' -> R' v v') -> preserves R m -> preserves R' m.
Proof. intros HR Hm w r w' Hr. eapply HR, Hm, Hr. Qed.

Lemma preserves_repeatM {E A} n (f : A -> prog W E A) a :
  (forall a, preserves R (f a)) -> preserves R (repeatM n f a).
Proof.
  intros Hf. revert a. induction n as [|n IH]; intros a; cbn [repeatM]; [apply preserves_ret|].
  by apply preserves_bind.
Qed.

Lemma preserves_forM {E A} (f : A -> prog W E unit) l :
  (forall a, preserves R (f a)) -> preserves R (forM_ f l).
Proof.
  intros Hf. induction l as [|x l IH]; cbn [forM_]; [apply preserves_ret|]. by apply preserves_bind.
Qed.

End preserves.

(** The stored data is the same; the caches may differ. *)
Definition same_data (v v' : CloudView) : Prop :=
  v_kvs v' = v_kvs v /\ v_objects v' = v_objects v.

#[export] Instance same_data_preorder : PreOrder same_data.
Proof. split; [by split|]. intros a b c [H1 H2] [H3 H4]. split; congruence. Qed.

(** What the chain view promises to the services: its queries store nothing,
    and the block after a block has the next number. *)
Class ChainViewLaws (W : Type) `{Cloud W} `{!ChainViewOps W} := {
  view_next_reads : forall c, preserves same_data (view_next_cursor c);
  view_starting_reads : preserves same_data view_starting_cursor;
  view_segmented_reads : preserves same_data view_segmented_cursor;
  view_grouped_reads : preserves same_data view_grouped_cursor;
  view_head_reads : preserves same_data view_head;
  view_finalized_reads : preserves same_data view_finalized_cursor;
  view_next_number : forall c w next is_head w',
    view_next_cursor (Some c) w = (Ok (NextContinue next is_head), w') ->
    number next = add64 (number c) 1;
  view_starting_number : forall w c w',
    view_starting_cursor w = (Ok c, w') -> is_u64 (number c) }.

(** The chain view of chain_view/view.rs keeps the promise.  [current] reads
    the state that the other tasks update. *)
Section implementation.
Context {W S : Type} `{Cloud W} `{!ChainStoreOps S}.
Variable current : W -> ChainViewInner S.

Definition view_query {A} (f : ChainViewInner S -> outcome ChainViewError A) :
    prog W ChainViewError A := fun w => (f (current w), w).

Definition chain_view_ops : ChainViewOps W := {|
  view_next_cursor c := view_query (fun self => get_next_cursor (cv_canonical self) c);
  view_starting_cursor := view_query get_starting_cursor;
  view_segmented_cursor := view_query get_segmented_cursor;
  view_grouped_cursor := view_query get_grouped_cursor;
  view_head := view_query (fun self => get_head (cv_canonical self));
  view_finalized_cursor := view_query get_finalized_cursor |}.

Lemma canonical_number segment n c : canonical segment n = Ok c -> number c = n.
Proof.
  unfold canonical. destruct (n <? _); [done|]. destruct (_ <? n); [done|]. intros Hc. by invert_ok.
Qed.

Lemma next_cursor_number (self : FullCanonicalChain S) c next is_head :
  get_next_cursor self (Some c) = Ok (NextContinue next is_head) -> number next = add64 (number c) 1.
Proof.
  cbn [get_next_cursor]. intros Hn. invert_ok. destruct x0; [|done|done].
  destruct (_ =? _); [done|]. invert_ok. unfold get_canonical_impl in *. invert_ok.
  by eapply canonical_number.
Qed.

Lemma query_reads {A} (f : ChainViewInner S -> outcome ChainViewError A) :
  preserves same_data (view_query f).
Proof. by intros w r w' [= <- <-]. Qed.

Lemma starting_cursor_number (self : ChainViewInner S) c :
  get_starting_cursor self = Ok c -> number c = starting_block (cv_canonical self).
Proof.
  unfold get_starting_cursor, cursor_or_finalized. intros Hc. invert_ok.
  destruct x as [c1|c1|c1]; invert_ok; [done|done|]. unfold get_canonical in *.
  destruct (_ <? _); [done|]. destruct (_ <? _); invert_ok; [done|]. unfold get_canonical_impl in *.
  invert_ok. by eapply canonical_number.
Qed.

Lemma chain_view_laws :
  (forall w, is_u64 (starting_block (cv_canonical (current w)))) -> @ChainViewLaws W _ chain_view_ops.
Proof.
  intros Hu. constructor; [intros; apply query_reads..| |].
  - intros c w next is_head w' [= Hn _]. by apply next_cursor_number in Hn.
  - intros w c w' [= Hc _]. rewrite (starting_cursor_number _ _ Hc). apply Hu.
Qed.

End implementation.

(** ** Numbers read back *)

Lemma dec_value_nonneg s : forallb is_digit s = true -> 0 <= dec_value s.
Proof.
  induction s as [|b s IH] using rev_ind; [done|].
  rewrite forallb_app, andb_true_iff. intros [Hs Hb]. rewrite dec_value_app. cbn [forallb] in Hb.
  rewrite andb_true_r in Hb. unfold is_digit in Hb. apply andb_true_iff in Hb as [Hb _]. apply Z.leb_le in Hb.
  specialize (IH Hs). unfold dec_value at 2. cbn [foldl length]. lia.
Qed.

Lemma parse_u64_range s n : parse_u64 s = Some n -> is_u64 n.
Proof.
  unfold parse_u64. set (digits := match s with [] => _ | _ => _ end). clearbody digits.
  destruct digits as [|b digits]; [done|]. destruct (forallb is_digit _) eqn:Hd; [|done].
  destruct (Z.ltb_spec (dec_value (b :: digits)) U64); [|done]. intros [= <-].
  apply dec_value_nonneg in Hd. by split.
Qed.

Lemma stored_number_range v key n : stored_number v key = Some n -> is_u64 n.
Proof.
  unfold stored_number, decode_block. destruct (v_kvs v !! key) as [kv|]; simpl; [|done].
  destruct (from_utf8 kv.1); simpl; [|done]. destruct (parse_u64 _) eqn:Hp; simpl; [|done].
  intros [= <-]. by eapply parse_u64_range.
Qed.

(** ** Pruning *)

(** A key under the prefix of a block in a range. *)
Definition prunable (client : ObjectStore) (lo hi : Z) (key : RString) : Prop :=
  exists n, lo <= n <= hi /\ full_key client (format_block_prefix n) `prefix_of` key.

(** Only prunable objects were deleted and only one key was written. *)
Record pruned_only (client : ObjectStore) (state : KvClient) (lo hi : Z) (v v' : CloudView) : Prop := {
  po_kvs : forall key, key <> kv_format_key state PRUNED_KEY -> v_kvs v' !! key = v_kvs v !! key;
  po_objects : forall key, ~ prunable client lo hi key ->
    v_objects v' !! (os_bucket client, key) = v_objects v !! (os_bucket client, key);
  po_bucket : forall bucket key, bucket <> os_bucket client ->
    v_objects v' !! (bucket, key) = v_objects v !! (bucket, key) }.

#[export] Instance pruned_only_preorder client state lo hi : PreOrder (pruned_only client state lo hi).
Proof.
  split; [by intros v; split|]. intros a b c [Ha1 Ha2 Ha3] [Hb1 Hb2 Hb3]. split; intros.
  - by rewrite Hb1, Ha1.
  - by rewrite Hb2, Ha2.
  - by rewrite Hb3, Ha3.
Qed.

Lemma pruned_only_same client state lo hi v v' : same_data v v' -> pruned_only client state lo hi v v'.
Proof. intros [Hk Ho]. split; intros; by rewrite ?Hk, ?Ho. Qed.

Section prune.
Context `{!Codec} {W : Type} `{Cloud W} `{!ChainViewOps W} `{!BlockArchives}.
Variables (client : ObjectStore) (state : KvClient) (cancelled : W -> bool).
Variables (lo hi : Z).

Abbreviation frame := (pruned_only client state lo hi).

Lemma delete_all_frame keys :
  Forall (prunable client lo hi) keys -> preserves frame (delete_all client keys).
Proof.
  induction 1 as [|key keys Hk _ IH]; cbn [delete_all]; [by apply preserves_ret; apply _|].
  apply preserves_bind; [apply _| |done]. apply preserves_pcontext. intros w r w' Hd.
  destruct (object_delete_inv _ _ _ _ _ _ Hd) as [_ [Hdel|[Hv _]]].
  - rewrite Hdel. split; [done| |]; cbn [set_objects v_objects].
    + intros key' Hn. rewrite lookup_delete_ne; [done|]. intros [= ->]. done.
    + intros bucket key' Hn. rewrite lookup_delete_ne; [done|]. intros [= <- _]. done.
  - by rewrite Hv.
Qed.

Lemma delete_block_frame n :
  lo <= n <= hi -> preserves frame (delete_block_with_prefix client n).
Proof.
  intros Hn w r w'. unfold delete_block_with_prefix, mbind, prog_bind, pcontext.
  destruct (object_list client _ w) as [[ids|e|] w1] eqn:Hl;
    destruct (object_list_inv _ _ _ _ _ Hl) as (Hv & _ & Hk); simpl.
  - rewrite <- Hv. apply delete_all_frame. apply Forall_forall. intros key Hin. exists n.
    split; [done|]. by apply (Hk ids).
  - intros [= <- <-]. by rewrite Hv.
  - intros [= <- <-]. by rewrite Hv.
Qed.

Lemma put_pruned_frame n : preserves frame (put_pruned state n).
Proof.
  intros w r w' Hp. destruct (put_block_number_inv _ _ _ _ _ _ Hp) as [_ [Hw|[Hv _]]]; [|by rewrite Hv].
  destruct (kvs_put_lookup _ _ _ _ Hw) as (_ & _ & _ & Hk).
  destruct (kvs_written_objects _ _ _ Hw) as [Ho _]. split; intros; [by apply Hk|by rewrite Ho..].
Qed.

Lemma prune_blocks_frame n current :
  0 <= lo -> hi + 1 < U64 -> lo <= current ->
  preserves frame (prune_blocks client cancelled n hi current) /\
  forall w c w', prune_blocks client cancelled n hi current w = (Ok (inl c), w') ->
    current <= c /\ (c <= hi + 1 \/ c = current) /\ ((0 < n)%nat -> current <= hi -> current < c).
Proof.
  intros Hz Hhi. revert current. induction n as [|n IH]; intros current Hlo; cbn [prune_blocks].
  { split; [apply preserves_ret; apply _|]. intros w c w' [= <- <-]. lia. }
  split.
  - apply preserves_bind; [apply _|apply preserves_get; apply _|]. intros w.
    destruct (cancelled w); [apply preserves_ret; apply _|].
    destruct (Z.ltb_spec hi current); [apply preserves_ret; apply _|].
    apply preserves_bind; [apply _|apply preserves_pcontext, delete_block_frame; lia|]. intros _.
    rewrite add64_id by lia. apply IH. lia.
  - intros w c w'. unfold mbind, prog_bind, get_state. destruct (cancelled w); [done|].
    destruct (Z.ltb_spec hi current); [intros [= <- <-]; lia|].
    destruct (pcontext _ _ w) as [[u|e|] w1]; [|done|done]. rewrite add64_id by lia. intros Hp.
    apply IH in Hp; lia.
Qed.

(** The outer loop: the frame, and that enough fuel ends it. *)
Lemma prune_while_frame fuel size current :
  0 <= lo -> hi + 1 < U64 -> 0 < size -> lo <= current ->
  preserves frame (prune_while client state cancelled fuel size hi current) /\
  forall w r w', prune_while client state cancelled fuel size hi current w = (r, w') ->
    (Z.to_nat (hi - current) < fuel)%nat -> r <> Ok None.
Proof.
  intros Hz Hhi Hs. revert current. induction fuel as [|fuel IH]; intros current Hlo; cbn [prune_while].
  { split; [apply preserves_ret; apply _|]. intros. lia. }
  destruct (Z.ltb_spec current hi) as [Hc|Hc].
  2: { split; [apply preserves_ret; apply _|]. by intros w r w' [= <- <-]. }
  destruct (prune_blocks_frame (Z.to_nat size) current Hz Hhi Hlo) as [Hf Hp]. split.
  - intros w r w'. unfold mbind at 1, prog_bind at 1.
    destruct (prune_blocks _ _ _ _ _ w) as [[[c|[]]|e|] w1] eqn:Hr;
      pose proof (Hf _ _ _ Hr) as Hf1; [|by intros [= <- <-]..].
    destruct (Hp _ _ _ Hr) as (Hc1 & _ & _). intros Hrest. etrans; [done|]. revert Hrest.
    apply preserves_bind; [apply _|apply preserves_pcontext, put_pruned_frame|]. intros _. apply IH. lia.
  - intros w r w'. unfold mbind, prog_bind. destruct (prune_blocks _ _ _ _ _ w) as [[[c|[]]|e|] w1] eqn:Hr;
      [|by intros [= <- <-]..]. destruct (Hp _ _ _ Hr) as (Hc1 & Hc2 & Hc3).
    destruct (pcontext _ _ w1) as [[u|e|] w2]; [|by intros [= <- <-]..]. intros Hw Hfuel.
    eapply IH; [|exact Hw|]; lia.
Qed.

End prune.

(** ** Loops *)

Section loops.
Context {St E A : Type}.

Lemma triple_repeatM (I : nat -> A -> St -> Prop) (R : St -> Prop) (f : A -> prog St E A) n k a :
  (forall i a, (k <= i < k + n)%nat -> triple (I i a) (f a) (I (S i)) R) ->
  triple (I k a) (repeatM n f a) (I (k + n)%nat) R.
Proof.
  revert k a. induction n as [|n IH]; intros k a Hf; cbn [repeatM].
  { rewrite Nat.add_0_r. by intros s Hs. }
  eapply triple_bind; [apply Hf; lia|]. intros a'. replace (k + S n)%nat with (S k + n)%nat by lia.
  apply IH. intros i a0 Hi. apply Hf. lia.
Qed.

Lemma triple_forM (I : list A -> St -> Prop) (R : St -> Prop) (f : A -> prog St E unit) l :
  (forall pre x post, l = pre ++ x :: post -> triple (I pre) (f x) (fun _ => I (pre ++ [x])) R) ->
  triple (I []) (forM_ f l) (fun _ => I l) R.
Proof.
  intros Hf.
  assert (forall post pre, l = pre ++ post -> triple (I pre) (forM_ f post) (fun _ => I l) R) as Hgen.
  { induction post as [|x post IH]; intros pre Hl; cbn [forM_].
    - rewrite app_nil_r in Hl. subst l. by intros s Hs.
    - eapply triple_bind; [by apply (Hf pre x post)|]. intros []. apply IH. subst l. by rewrite <- (assoc_L (++)). }
  by apply (Hgen l []).
Qed.

End loops.

(** ** Publishing progress *)

Section progress.
Context {W : Type} `{Cloud W} `{!SerdeJson RecentSegmentPointer}.

(** What [put_if_higher] did: nothing else changed, the key holds what it held
    or the block, and on success a number that is at least the block. *)
Record progress_made (client : KvClient) (key : RString) (block : Z) (ok : Prop) (v v' : CloudView) : Prop := {
  pm_objects : v_objects v' = v_objects v;
  pm_other : forall k, k <> kv_format_key client key -> v_kvs v' !! k = v_kvs v !! k;
  pm_key : v_kvs v' !! kv_format_key client key = v_kvs v !! kv_format_key client key \/
           stored_number v' (kv_format_key client key) = Some block;
  pm_higher : forall old, stored_number v (kv_format_key client key) = Some old ->
    exists n, old <= n /\ stored_number v' (kv_format_key client key) = Some n;
  pm_ok : ok -> exists n, block <= n /\ stored_number v' (kv_format_key client key) = Some n }.

Lemma progress_same client key block (ok : Prop) v :
  (ok -> exists n, block <= n /\ stored_number v (kv_format_key client key) = Some n) ->
  progress_made client key block ok v v.
Proof. intros Hok. split; auto. intros old Ho. exists old. split; [lia|done]. Qed.

(** The conditional put, after a read that found a smaller number. *)
Lemma progress_written client key block (ok : Prop) v v' :
  is_u64 block -> (forall old, stored_number v (kv_format_key client key) = Some old -> old <= block) ->
  kvs_written [TxnPut (kv_format_key client key) (dec block)] v v' -> progress_made client key block ok v v'.
Proof.
  intros Hu Hold Hk. destruct (kvs_put_lookup _ _ _ _ Hk) as (rv & _ & Hl & Ho).
  destruct (kvs_written_objects _ _ _ Hk) as [Hobj _].
  assert (stored_number v' (kv_format_key client key) = Some block) as Hst.
  { unfold stored_number. rewrite Hl. simpl. by rewrite decode_block_dec. }
  split; [done|done|by right|intros old Ho'; exists block; auto|]. intros _. exists block. split; [lia|done].
Qed.

Lemma put_if_higher_progress fuel client key block w r w' :
  is_u64 block -> put_if_higher fuel client key block w = (r, w') ->
  progress_made client key block (r = Ok (Some tt)) (view w) (view w').
Proof.
  intros Hu. revert w. induction fuel as [|fuel IH]; intros w; cbn [put_if_higher].
  { intros [= <- <-]. by apply progress_same. }
  unfold mbind, prog_bind.
  destruct (put_if_higher_read client key block w) as [[d|e|] w1] eqn:Hr;
    destruct (put_if_higher_read_inv _ _ _ _ _ _ Hr) as (Hv & _ & Hd);
    [|intros [= <- <-]; rewrite Hv; by apply progress_same..].
  rewrite <- Hv. specialize (Hd d eq_refl). rewrite <- Hv in Hd. destruct d as [rev|].
  - assert (forall old, stored_number (view w1) (kv_format_key client key) = Some old -> old <= block) as Hold.
    { unfold stored_number. destruct (v_kvs (view w1) !! _) as [kv|]; [|done]. destruct Hd as (c & Hc & Hle). simpl.
      rewrite Hc. intros old [= <-]. destruct (Z.leb_spec block c); [done|lia]. }
    destruct (put_if_higher_write client key block rev w1) as [[b|e|] w2] eqn:Hw;
      destruct (put_if_higher_write_inv _ _ _ _ _ _ _ Hw) as [Hnp Hs]; [| |done].
    + destruct (_ =? rev).
      * destruct b; [|naive_solver]. destruct Hs as [_ [Hk|[_ ?]]]; [|done]. intros [= <- <-]. by apply progress_written.
      * destruct b; [naive_solver|]. destruct Hs as [_ Hv2]. rewrite <- Hv2. apply IH.
    + intros [= <- <-]. destruct (_ =? rev).
      * destruct Hs as [_ [Hk|[Hv2 _]]]; [by apply progress_written|rewrite Hv2; by apply progress_same].
      * destruct Hs as [_ Hv2]. rewrite Hv2. by apply progress_same.
  - intros [= <- <-]. apply progress_same. intros _. unfold stored_number.
    destruct (v_kvs (view w1) !! _) as [kv|]; [|done]. destruct Hd as (c & Hc & Hle). simpl. rewrite Hc.
    exists c. destruct (Z.leb_spec block c); [auto with lia|done].
Qed.

End progress.

(** ** Filling a segment *)

Lemma ofold_app {E A B} (f : B -> A -> outcome E B) l1 l2 b :
  ofold f b (l1 ++ l2) = (b' ← ofold f b l1; ofold f b' l2).
Proof.
  revert b. induction l1 as [|x l1 IH]; intros b; simpl; [done|].
  destruct (f b x); simpl; [apply IH|done|done].
Qed.

Section segment.
Context `{!Codec} {W : Type} `{Cloud W} `{!ChainViewOps W, !ChainViewLaws W}.
Context `{!Roaring, !BlockArchives, !HashOrder Z}.
Variables (client : ObjectStore) (first : Cursor) (size : Z) (w0 : W).
Hypothesis first_range : is_u64 (number first).
Hypothesis size_range : 0 < size /\ number first + size < U64.

(** A block whose object is stored. *)
Definition stored_block (v : CloudView) (p : Cursor * Block) : Prop :=
  exists version bytes, object_at client v (format_block_key p.1) = Some (version, bytes) /\
    from_bytes (A := Block) bytes = Some p.2.

(** [d] blocks were added, [q] are queued; they are consecutive. *)
Record filling (d q : nat) (st : compact_state) (w : W) : Prop := {
  fl_same : same_data (view w0) (view w);
  fl_blocks : exists blocks : list (Cursor * Block),
    length blocks = d /\ length (co_queue st) = q /\
    (forall i c, (blocks.*1 ++ co_queue st ++ [co_current st]) !! i = Some c ->
       number c = number first + Z.of_nat i) /\
    head (blocks.*1 ++ co_queue st ++ [co_current st]) = Some first /\
    Forall (stored_block (view w0)) blocks /\
    co_last st = default first (last blocks.*1) /\
    (b ← start_new_segment segment_builder_default first; add_blocks b blocks) = Ok (co_builder st) }.

Abbreviation unchanged := (fun w => same_data (view w0) (view w)).

Lemma push_block_filling d q st :
  (d + q < Z.to_nat size)%nat ->
  triple (filling d q st) (push_block st) (filling d (S q)) unchanged.
Proof.
  intros Hdq w [Hsame (blocks & Hd & Hq & Hnum & Hhd & Hst & Hlast & Hb)].
  unfold push_block, mbind, prog_bind, pcontext.
  destruct (view_next_cursor _ w) as [[n|e|] w1] eqn:Hn;
    pose proof (view_next_reads _ _ _ _ Hn) as Hs1; assert (same_data (view w0) (view w1)) by (by etrans);
    [|done|done]. destruct n as [next h|t|]; [|done|done]. simpl.
  split; [done|]. exists blocks. cbn [co_queue co_current co_builder co_last].
  rewrite length_app. cbn [length]. split_and!; [done|lia| | |done|done|done].
  - intros i c. rewrite <- (assoc_L (++)), (assoc_L (++) (co_queue st)), (assoc_L (++)), lookup_snoc_Some.
    intros [[_ Hl]|[Hi ->]]; [by apply Hnum|]. rewrite (view_next_number _ _ _ _ _ Hn).
    rewrite !length_app, length_fmap in Hi. cbn [length] in Hi.
    assert (number (co_current st) = number first + Z.of_nat (d + q)) as Hc.
    { apply Hnum. rewrite (assoc_L (++)). apply list_lookup_middle. rewrite length_app, length_fmap. lia. }
    rewrite Hc. unfold is_u64 in *. rewrite add64_id by lia. lia.
  - rewrite <- (assoc_L (++)). destruct (blocks.*1); [|done]. simpl in *. by destruct (co_queue st).
Qed.

Lemma add_blocks_snoc b blocks c blk bytes b1 b2 :
  add_blocks b blocks = Ok b1 -> from_bytes (A := Block) bytes = Some blk ->
  add_block b1 c bytes = Ok b2 -> add_blocks b (blocks ++ [(c, blk)]) = Ok b2.
Proof.
  intros Hb Hf Ha. unfold add_blocks in *. rewrite ofold_app, Hb. cbn [mbind outcome_bind ofold fst snd].
  assert (add_block b1 c (to_bytes blk) = Ok b2) as Heq.
  { rewrite <- Ha. unfold add_block. by rewrite from_to_bytes, Hf. }
  by rewrite Heq.
Qed.

(** What a pop leaves: the block it returned is the last one. *)
Lemma pop_block_filling d q st :
  triple (filling d (S q) st) (pop_block client st)
    (fun p w => filling (S d) q (mkCompact (co_builder p.1) (co_queue p.1) (co_current p.1) p.2) w /\
                (number p.2 = number first + Z.of_nat d) /\ (d = 0%nat -> p.2 = first) /\
                co_last p.1 = co_last st) unchanged.
Proof.
  intros w [Hsame (blocks & Hd & Hq & Hnum & Hhd & Hst & Hlast & Hb)].
  unfold pop_block. destruct (co_queue st) as [|c queue] eqn:Hqueue; [done|].
  unfold get_block_and_cursor, uncached_get, mbind, prog_bind, pcontext, lift.
  destruct (object_get client _ None w) as [[[ver bytes]|e|] w1] eqn:Hg;
    destruct (object_get_inv _ _ _ _ _ _ Hg) as (Hv & Ho & _); cbn [change_context fst snd mret prog_ret];
    [|by rewrite Hv..].
  destruct (add_block (co_builder st) c bytes) as [b2|e|] eqn:Ha; [|by rewrite Hv..]. simpl.
  destruct (Ho _ eq_refl) as [Hat _].
  assert (exists blk, from_bytes (A := Block) bytes = Some blk) as [blk Hblk].
  { unfold add_block in Ha. destruct (from_bytes bytes) as [blk|]; [by exists blk|done]. }
  assert (number c = number first + Z.of_nat d) as Hc.
  { apply Hnum. apply list_lookup_middle. by rewrite length_fmap. }
  split_and!; [|done| |done].
  - split; [by rewrite Hv|]. exists (blocks ++ [(c, blk)]). cbn [co_queue co_current co_builder co_last].
    rewrite fmap_app, length_app, <- (assoc_L (++)). cbn [length fmap list_fmap fst].
    split_and!; [lia|by injection Hq|done|done| | |].
    + apply Forall_app. split; [done|]. apply Forall_singleton. exists ver, bytes. cbn [fst snd].
      split; [|done]. rewrite <- Hat. unfold object_at. by destruct Hsame as [_ ->].
    + by rewrite last_snoc.
    + apply bind_Ok in Hb as (b & -> & Hb). cbn [mbind outcome_bind]. by eapply add_blocks_snoc.
  - intros ->. apply length_zero_iff_nil in Hd. subst blocks. by injection Hhd.
Qed.

Lemma pop_and_push_filling d q st :
  (d + S q < Z.to_nat size)%nat ->
  triple (filling d (S q) st) (pop_and_push client st) (filling (S d) (S q)) unchanged.
Proof.
  intros Hdq. eapply triple_bind; [apply pop_block_filling|]. intros [st' c]. simpl.
  eapply triple_weaken; [apply (push_block_filling (S d) q); lia|by intros s [Hf _]|done|done].
Qed.

(** The check of the third loop always passes. *)
Lemma pop_and_check_filling d q st :
  (d < Z.to_nat size)%nat ->
  triple (filling d (S q) st) (pop_and_check client first st) (filling (S d) q) unchanged.
Proof.
  intros Hd w Hf.
  assert (d <> 0%nat -> number (co_last st) = number first + Z.of_nat (d - 1)) as Hlast.
  { destruct Hf as [_ (blocks & Hlen & _ & Hnum & _ & _ & -> & _)]. intros Hne.
    destruct (last blocks.*1) as [c|] eqn:Hl; cbn [default].
    - rewrite last_lookup, length_fmap, Hlen, <- Nat.sub_1_r in Hl. by apply Hnum, lookup_app_l_Some.
    - apply last_None, fmap_nil_inv in Hl. by subst blocks. }
  revert Hf. generalize w. apply (triple_bind _ _ _ _ _ _ (pop_block_filling d q st)). intros [st' c] w1. simpl.
  intros (Hf & Hc & Hfirst & Hl). rewrite Hl. destruct (decide (d = 0%nat)) as [H0'|Hne].
  - rewrite bool_decide_true by auto. exact Hf.
  - rewrite (Hlast Hne), Hc. unfold is_u64 in *. rewrite add64_id by lia.
    rewrite (proj2 (Z.eqb_eq _ _)) by lia. rewrite andb_false_r. exact Hf.
Qed.

(** The third loop. *)
Lemma drain_filling q d st :
  (d + q = Z.to_nat size)%nat ->
  triple (filling d q st) (repeatM q (pop_and_check client first) st) (filling (Z.to_nat size) 0) unchanged.
Proof.
  revert d st. induction q as [|q IH]; intros d st Hdq; cbn [repeatM].
  { rewrite Nat.add_0_r in Hdq. subst d. by intros w Hf. }
  eapply triple_bind; [apply pop_and_check_filling; lia|]. intros st'. apply IH. lia.
Qed.

(** The objects other than the segments of the first block, and every key
    other than the segmented block, are as before. *)
Record segment_frame (state : KvClient) (v v' : CloudView) : Prop := {
  sf_objects : forall at_, (forall name, at_ <> (os_bucket client, full_key client (format_segment_key first name))) ->
    v_objects v' !! at_ = v_objects v !! at_;
  sf_kvs : forall key, key <> kv_format_key state SEGMENTED_KEY -> v_kvs v' !! key = v_kvs v !! key }.

(** The last segment of each name is stored. *)
Definition uploaded (segs : list SerializedSegment) (v : CloudView) : Prop :=
  forall s, s ∈ segs -> exists s' version, s' ∈ segs /\ ss_name s' = ss_name s /\
    object_at client v (format_segment_key first (ss_name s)) = Some (version, ss_data s').

Lemma format_segment_key_inj a b : format_segment_key first a = format_segment_key first b -> a = b.
Proof. unfold format_segment_key. rewrite !(assoc_L (++)). apply app_inv_head. Qed.

Lemma put_segment_uploaded state pre s :
  triple (fun w => segment_frame state (view w0) (view w) /\ v_kvs (view w) = v_kvs (view w0) /\ uploaded pre (view w))
    (put_segment client first s)
    (fun _ w => segment_frame state (view w0) (view w) /\ v_kvs (view w) = v_kvs (view w0) /\ uploaded (pre ++ [s]) (view w))
    (fun w => segment_frame state (view w0) (view w) /\ v_kvs (view w) = v_kvs (view w0)).
Proof.
  intros w (Hf & Hk & Hu). unfold put_segment, pcontext.
  destruct (object_put _ _ _ _ w) as [r w1] eqn:Hp.
  destruct (object_put_inv _ _ _ _ _ _ _ Hp) as [Hnp [[Hv [e ->]]|(version & _ & Hw & Hver)]].
  { simpl. by rewrite Hv. }
  assert (segment_frame state (view w0) (view w1) /\ v_kvs (view w1) = v_kvs (view w0)) as [Hf1 Hk1].
  { destruct (data_written_kvs _ _ _ _ _ _ Hw) as [Hkv _]. rewrite Hkv. split; [|done].
    destruct Hf as [Hf1 Hf2]. split; [|intros; rewrite Hkv; auto]. intros at_ Hat. rewrite <- (Hf1 at_) by done.
    destruct Hw as (raw & _ & _ & ->). cbn [set_objects v_objects]. by rewrite lookup_insert_ne. }
  destruct r as [ver|e|]; simpl; [|done|done]. split_and!; [done|done|].
  destruct (data_written_at _ _ _ _ _ _ Hw) as (Hat & _ & Ho & _).
  intros s1 Hs1. destruct (decide (ss_name s1 = ss_name s)) as [Heq|Hne].
  - exists s, version. rewrite Heq. split_and!; [set_solver|done|done].
  - apply elem_of_app in Hs1 as [Hs1|Hs1]; [|by apply list_elem_of_singleton in Hs1 as ->].
    destruct (Hu s1 Hs1) as (s' & version' & Hin & Hn & Ho'). exists s', version'.
    split_and!; [set_solver|done|]. rewrite Ho; [done|]. by intros ?%format_segment_key_inj.
Qed.

(** What a run of [compact_segment] leaves. *)
Definition published (state : KvClient) (v : CloudView) : Prop :=
  exists blocks segs, length blocks = Z.to_nat size /\
    (forall i c, blocks.*1 !! i = Some c -> number c = number first + Z.of_nat i) /\
    Forall (stored_block (view w0)) blocks /\
    compact_blocks first blocks = Ok segs /\ uploaded segs v /\
    exists n, number first + size - 1 <= n /\ stored_number v (kv_format_key state SEGMENTED_KEY) = Some n.

(** The segmented block is the old one unless the segment is published. *)
Definition compacted (state : KvClient) (v : CloudView) : Prop :=
  segment_frame state (view w0) v /\
  (v_kvs v !! kv_format_key state SEGMENTED_KEY = v_kvs (view w0) !! kv_format_key state SEGMENTED_KEY \/
   published state v).

Lemma same_data_compacted state w : unchanged w -> compacted state (view w).
Proof. intros [Hk Ho]. split; [split; intros; by rewrite ?Hk, ?Ho|]. left. by rewrite Hk. Qed.

Lemma filling_start st :
  start_new_segment segment_builder_default first = Ok (co_builder st) ->
  co_queue st = [] -> co_current st = first -> co_last st = first -> filling 0 0 st w0.
Proof.
  intros Hb Hq Hc Hl. split; [done|]. exists []. rewrite Hq, Hc, Hl, Hb.
  split_and!; try done. intros [|i] c; simpl; [intros [= <-]; lia|done].
Qed.

Lemma filling_done st w :
  filling (Z.to_nat size) 0 st w -> exists blocks, length blocks = Z.to_nat size /\
    (forall i c, blocks.*1 !! i = Some c -> number c = number first + Z.of_nat i) /\
    Forall (stored_block (view w0)) blocks /\
    (b ← start_new_segment segment_builder_default first; add_blocks b blocks) = Ok (co_builder st) /\
    number (co_last st) = number first + size - 1.
Proof.
  intros [_ (blocks & Hd & Hq & Hnum & _ & Hst & Hlast & Hb)]. exists blocks.
  assert (forall i c, blocks.*1 !! i = Some c -> number c = number first + Z.of_nat i) as Hn.
  { intros i c Hi. apply Hnum. by apply lookup_app_l_Some. }
  split_and!; [done|done|done|done|]. rewrite Hlast. destruct (last blocks.*1) as [c|] eqn:Hl; simpl.
  - rewrite last_lookup, length_fmap, Hd in Hl. rewrite (Hn _ _ Hl). lia.
  - apply last_None, fmap_nil_inv in Hl. subst blocks. simpl in Hd. lia.
Qed.

Lemma uploads_triple state segs :
  triple unchanged
    (forM_ (fun s => _ ← pcontext CompactionErr (put_segment client first s); mret tt) segs)
    (fun _ w => segment_frame state (view w0) (view w) /\ v_kvs (view w) = v_kvs (view w0) /\ uploaded segs (view w))
    (fun w => segment_frame state (view w0) (view w) /\ v_kvs (view w) = v_kvs (view w0)).
Proof.
  eapply triple_weaken;
    [apply (triple_forM (fun pre w => segment_frame state (view w0) (view w) /\
              v_kvs (view w) = v_kvs (view w0) /\ uploaded pre (view w))
            (fun w => segment_frame state (view w0) (view w) /\ v_kvs (view w) = v_kvs (view w0)))
    | |by intros a s Hs|by intros s Hs].
  - intros pre s post _. eapply triple_bind; [apply triple_pcontext, put_segment_uploaded|].
    by intros _ w Hw.
  - intros w [Hk Ho]. split_and!; [split; intros; by rewrite ?Hk, ?Ho|done|]. by intros s ?%elem_of_nil.
Qed.

(** The uploads and the publication, once the builder is full. *)
Lemma upload_compacted fuel state st w r w' :
  filling (Z.to_nat size) 0 st w ->
  (data ← lift (builder_segment_data (co_builder st));
   _ ← forM_ (fun segment =>
         _ ← pcontext CompactionErr (put_segment client first segment); mret tt) data.1;
   pcontext CompactionErr (put_segmented fuel state (number (co_last st)))) w = (r, w') ->
  compacted state (view w') /\ (r = Ok (Some tt) -> published state (view w')).
Proof.
  intros Hf. destruct (filling_done _ _ Hf) as (blocks & Hlen & Hnum & Hst & Hb & Hlast).
  pose proof (fl_same _ _ _ _ Hf) as Hsame. unfold mbind at 1, prog_bind at 1, lift.
  destruct (builder_segment_data (co_builder st)) as [[segs self']|e|] eqn:Hdata;
    [|intros [= <- <-]; split; [by apply same_data_compacted|done]..].
  cbn [fst]. unfold mbind at 1, prog_bind at 1.
  pose proof (uploads_triple state segs w Hsame) as Hup.
  destruct (forM_ _ segs w) as [[[]|e|] w1];
    [|intros [= <- <-]; destruct Hup as [Hu Hk]; split; [split; [done|left; by rewrite Hk]|done]..].
  destruct Hup as (Hframe & Hk1 & Hup). unfold pcontext, put_segmented.
  destruct (put_if_higher fuel state SEGMENTED_KEY _ w1) as [r2 w2] eqn:Hp.
  assert (is_u64 (number (co_last st))) as Hu by (rewrite Hlast; unfold is_u64 in *; lia).
  destruct (put_if_higher_progress _ _ _ _ _ _ _ Hu Hp) as [Hobj Hother Hkey _ Hok].
  rewrite Hlast in Hkey, Hok. intros [= <- <-].
  assert (forall n, number first + size - 1 <= n ->
    stored_number (view w2) (kv_format_key state SEGMENTED_KEY) = Some n -> published state (view w2)) as Hpub.
  { intros n Hn Hs. exists blocks, segs. split_and!; [done|done|done| | |by exists n].
    - unfold compact_blocks. destruct (start_new_segment _ _) as [b|e|]; [|done|done].
      cbn [mbind outcome_bind] in *. rewrite Hb. cbn [mbind outcome_bind]. by rewrite Hdata.
    - intros s Hs'. destruct (Hup s Hs') as (s' & ver & Hin & Hname & Hat). exists s', ver.
      split_and!; [done|done|]. unfold object_at. by rewrite Hobj. }
  split.
  - split.
    + destruct Hframe as [Hf1 Hf2]. split; intros; [rewrite Hobj; by apply Hf1|].
      rewrite Hother by done. by apply Hf2.
    + destruct Hkey as [Hkey|Hkey]; [left; by rewrite Hkey, Hk1|right]. by apply (Hpub _ (Z.le_refl _)).
  - intros Hr. destruct r2 as [o|e|]; simpl in Hr; [|done|done]. injection Hr as ->.
    destruct (Hok eq_refl) as (n & Hn & Hs). by apply (Hpub n).
Qed.

(** A run of [compact_segment]. *)
Lemma compact_segment_compacted fuel state r w' :
  compact_segment client state fuel size first w0 = (r, w') ->
  compacted state (view w') /\ (r = Ok (Some tt) -> published state (view w')).
Proof.
  unfold compact_segment. set (b := Z.min size MAX_BUFFERED_BLOCKS).
  assert (0 < b <= size) as Hb by (unfold b, MAX_BUFFERED_BLOCKS; lia).
  cbn [start_new_segment segment_builder_default sbd_first_block]. set (builder := mkSegmentBuilder _ _ _ _ _ _).
  set (st0 := mkCompact builder [] first first).
  pose proof (filling_start st0 eq_refl eq_refl eq_refl eq_refl) as H0'.
  pose proof (triple_repeatM (fun i => filling 0 i) unchanged push_block (Z.to_nat b) 0 st0
    (fun i a Hi => push_block_filling 0 i a ltac:(lia)) w0 H0') as Hl1.
  unfold mbind at 1, prog_bind at 1, lift. cbn [mret outcome_ret].
  unfold mbind at 1, prog_bind at 1.
  change (mkCompact builder [] first first) with st0.
  destruct (repeatM _ push_block st0 w0) as [[st1|e|] w1];
    [|intros [= <- <-]; split; [by apply same_data_compacted|done]..].
  rewrite Nat.add_0_l in Hl1.
  assert (exists q, Z.to_nat b = S q) as [q Hq] by (exists (Z.to_nat (b - 1)); lia). rewrite Hq in Hl1.
  pose proof (triple_repeatM (fun i => filling i (S q)) unchanged (pop_and_push client) (Z.to_nat (size - b)) 0 st1
    (fun i a Hi => pop_and_push_filling i q a ltac:(lia)) w1 Hl1) as Hl2.
  unfold mbind at 1, prog_bind at 1.
  destruct (repeatM _ (pop_and_push client) st1 w1) as [[st2|e|] w2];
    [|intros [= <- <-]; split; [by apply same_data_compacted|done]..].
  rewrite Nat.add_0_l in Hl2.
  pose proof (drain_filling (S q) (Z.to_nat (size - b)) st2 ltac:(lia) w2 Hl2) as Hl3.
  unfold mbind at 1, prog_bind at 1. rewrite Hq.
  destruct (repeatM (S q) (pop_and_check client first) st2 w2) as [[st3|e|] w3];
    [|intros [= <- <-]; split; [by apply same_data_compacted|done]..].
  destruct (negb _); [intros [= <- <-]; split; [by eapply same_data_compacted, fl_same|done]|].
  by apply upload_compacted.
Qed.

End segment.

(** ** Filling a group *)

Section group.
Context `{!Codec} {W : Type} `{Cloud W} `{!Roaring, !BlockArchives, !HashOrder Z}.
Variables (client : ObjectStore) (first : Cursor) (size : Z) (w0 : W).

(** The first block of the [i]-th segment of the group. *)
Definition segment_first (i : Z) : Cursor := new_finalized (add64 (number first) (mul64 i size)).

(** The index segment that is stored for it. *)
Definition stored_index (v : CloudView) (i : nat) (segment : Segment IndexGroupFragment) : Prop :=
  exists version bytes,
    object_at client v (format_segment_key (segment_first (Z.of_nat i)) (str "index")) = Some (version, bytes) /\
    from_bytes (A := Segment IndexGroupFragment) bytes = Some segment.

(** [d] segments were added, [q] are queued. *)
Record grouping (d q : nat) (st : group_state) (w : W) : Prop := {
  gp_same : same_data (view w0) (view w);
  gp_queue : gs_queue st = segment_first <$> seqZ (Z.of_nat d) (Z.of_nat q);
  gp_segments : exists segs, length segs = d /\
    gs_builder st = foldl add_segment (group_builder_new size) segs /\
    forall i s, segs !! i = Some s -> stored_index (view w0) i s }.

Abbreviation unchanged_g := (fun w => same_data (view w0) (view w)).

Lemma seqZ_snoc m n : 0 <= n -> seqZ m (n + 1) = seqZ m n ++ [m + n].
Proof. intros Hn. by rewrite seqZ_app by lia. Qed.

Lemma push_segments q st :
  gs_queue st = [] ->
  foldl (fun st i => push_segment first size i st) st (seqZ 0 (Z.of_nat q)) =
  mkGroupState (gs_builder st) (segment_first <$> seqZ 0 (Z.of_nat q)).
Proof.
  intros Hq. induction q as [|q IH]; [by destruct st; simpl in *; subst|].
  rewrite Nat2Z.inj_succ, <- Z.add_1_r, seqZ_snoc, foldl_snoc, IH, fmap_app by lia. done.
Qed.

Lemma push_grouping d q st w i :
  i = Z.of_nat d + Z.of_nat q -> grouping d q st w -> grouping d (S q) (push_segment first size i st) w.
Proof.
  intros -> [Hs Hq Hseg]. split; [done| |done]. cbn [push_segment gs_queue gs_builder].
  by rewrite Hq, Nat2Z.inj_succ, <- Z.add_1_r, seqZ_snoc, fmap_app by lia.
Qed.

Lemma pop_grouping d q st :
  triple (grouping d (S q) st) (pop_segment client st) (grouping (S d) q) unchanged_g.
Proof.
  intros w [Hs Hq (segs & Hlen & Hb & Hst)]. unfold pop_segment.
  rewrite seqZ_cons in Hq by lia. cbn [fmap list_fmap] in Hq. rewrite Hq.
  unfold get_index_segment_and_cursor, uncached_get_segment, uncached_get, mbind, prog_bind, pcontext, lift.
  destruct (object_get client _ None w) as [[[ver bytes]|e|] w1] eqn:Hg;
    destruct (object_get_inv _ _ _ _ _ _ Hg) as (Hv & Ho & _); cbn [change_context fst snd mret prog_ret];
    [|by rewrite Hv..].
  destruct (from_bytes bytes) as [s|] eqn:Hf; simpl; [|by rewrite Hv].
  destruct (Ho _ eq_refl) as [Hat _]. split; [by rewrite Hv| |].
  - cbn [gs_queue]. f_equal. f_equal; lia.
  - exists (segs ++ [s]). rewrite length_app, foldl_snoc, <- Hb. cbn [length gs_builder].
    split_and!; [lia|done|]. intros i s' [Hi|[-> <-]]%lookup_snoc_Some; [apply Hst, Hi|].
    exists ver, bytes. split; [|done]. rewrite Hlen, <- Hat. unfold object_at. by destruct Hs as [_ ->].
Qed.

Lemma pop_and_push_grouping q is_ d st :
  is_ = seqZ (Z.of_nat d + Z.of_nat (S q)) (Z.of_nat (length is_)) ->
  triple (grouping d (S q) st) (pop_and_push_segments client first size is_ st)
    (grouping (d + length is_) (S q)) unchanged_g.
Proof.
  revert d st. induction is_ as [|i is_ IH]; intros d st His; cbn [pop_and_push_segments length].
  { rewrite Nat.add_0_r. by intros w Hw. }
  cbn [length] in His. rewrite seqZ_cons in His by lia. injection His as Hi His.
  eapply triple_bind; [apply pop_grouping|]. intros st'. rewrite <- Nat.add_succ_comm.
  eapply triple_weaken; [apply (IH (S d))| |done|done].
  - rewrite His at 1. f_equal; lia.
  - intros w Hw. apply push_grouping; [lia|done].
Qed.

Lemma drain_grouping q d st :
  triple (grouping d q st) (repeatM q (pop_segment client) st) (grouping (d + q) 0) unchanged_g.
Proof.
  revert d st. induction q as [|q IH]; intros d st; cbn [repeatM].
  { rewrite Nat.add_0_r. by intros w Hf. }
  eapply triple_bind; [apply pop_grouping|]. intros st'. rewrite <- Nat.add_succ_comm. apply IH.
Qed.

(** The objects other than the group, and every key other than the grouped
    block, are as before. *)
Record group_frame (state : KvClient) (v v' : CloudView) : Prop := {
  gf_objects : forall at_, at_ <> (os_bucket client, full_key client (format_group_key first)) ->
    v_objects v' !! at_ = v_objects v !! at_;
  gf_kvs : forall key, key <> kv_format_key state GROUPED_KEY -> v_kvs v' !! key = v_kvs v !! key }.

(** The group of the stored index segments is stored, and the grouped block is
    at least its last block. *)
Definition group_published (state : KvClient) (group_size blocks : Z) (v : CloudView) : Prop :=
  exists segs group version, length segs = Z.to_nat group_size /\
    (forall i s, segs !! i = Some s -> stored_index (view w0) i s) /\
    group_build (foldl add_segment (group_builder_new size) segs) = Ok group /\
    object_at client v (format_group_key first) = Some (version, to_bytes group) /\
    exists n, sub64 (add64 (number first) blocks) 1 <= n /\
      stored_number v (kv_format_key state GROUPED_KEY) = Some n.

Definition group_compacted (state : KvClient) (group_size blocks : Z) (v : CloudView) : Prop :=
  group_frame state (view w0) v /\
  (v_kvs v !! kv_format_key state GROUPED_KEY = v_kvs (view w0) !! kv_format_key state GROUPED_KEY \/
   group_published state group_size blocks v).

Lemma same_data_grouped state group_size blocks w : unchanged_g w -> group_compacted state group_size blocks (view w).
Proof. intros [Hk Ho]. split; [split; intros; by rewrite ?Hk, ?Ho|]. left. by rewrite Hk. Qed.

(** The upload and the publication. *)
Lemma put_group_compacted fuel state group_size blocks st w r w' :
  grouping (Z.to_nat group_size) 0 st w ->
  (group ← lift (group_build (gs_builder st));
   _ ← pcontext CompactionErr (put_group client first group);
   pcontext CompactionErr (put_grouped fuel state (sub64 (add64 (number first) blocks) 1))) w = (r, w') ->
  group_compacted state group_size blocks (view w') /\
  (r = Ok (Some tt) -> group_published state group_size blocks (view w')).
Proof.
  intros [Hsame _ (segs & Hlen & Hb & Hst)]. unfold mbind at 1, prog_bind at 1, lift.
  destruct (group_build (gs_builder st)) as [group|e|] eqn:Hg;
    [|intros [= <- <-]; split; [by apply same_data_grouped|done]..].
  unfold mbind at 1, prog_bind at 1, pcontext, put_group, mbind at 1, prog_bind at 1, pcontext.
  destruct (object_put _ _ _ _ w) as [r1 w1] eqn:Hp.
  destruct (object_put_inv _ _ _ _ _ _ _ Hp) as [Hnp [[Hv [e ->]]|(version & _ & Hw & Hver)]].
  { intros [= <- <-]. rewrite Hv. split; [by apply same_data_grouped|done]. }
  destruct (data_written_kvs _ _ _ _ _ _ Hw) as [Hkv _].
  destruct (data_written_at _ _ _ _ _ _ Hw) as (Hat & _ & _ & _).
  destruct Hsame as [Hk0 Ho0].
  assert (group_frame state (view w0) (view w1)) as Hframe.
  { split; [|intros; by rewrite Hkv, Hk0]. intros at_ Hne. rewrite <- Ho0.
    destruct Hw as (raw & _ & _ & ->). cbn [set_objects v_objects]. by rewrite lookup_insert_ne. }
  destruct r1 as [ver|e|]; cbn [change_context fst snd mret prog_ret];
    [|intros [= <- <-]; split; [split; [done|left; by rewrite Hkv, Hk0]|done]..].
  unfold put_grouped. destruct (put_if_higher fuel state GROUPED_KEY _ w1) as [r2 w2] eqn:Hpg.
  destruct (put_if_higher_progress _ _ _ _ _ _ _ (wrap64_range _) Hpg) as [Hobj Hother Hkey _ Hok].
  intros [= <- <-].
  assert (forall n, sub64 (add64 (number first) blocks) 1 <= n ->
    stored_number (view w2) (kv_format_key state GROUPED_KEY) = Some n ->
    group_published state group_size blocks (view w2)) as Hpub.
  { intros n Hn Hs. exists segs, group, version. rewrite <- Hb. split_and!; [done|done|done| |by exists n].
    unfold object_at. rewrite Hobj. exact Hat. }
  split.
  - split.
    + destruct Hframe as [Hf1 Hf2]. split; intros; [rewrite Hobj; by apply Hf1|].
      rewrite Hother by done. by apply Hf2.
    + destruct Hkey as [Hkey|Hkey]; [left; by rewrite Hkey, Hkv, Hk0|right]. by apply (Hpub _ (Z.le_refl _)).
  - intros Hr. destruct r2 as [o|e|]; simpl in Hr; [|done|done]. injection Hr as ->.
    destruct (Hok eq_refl) as (n & Hn & Hs). by apply (Hpub n).
Qed.

(** A run of [compact_group]. *)
Lemma compact_group_compacted fuel state group_size blocks r w' :
  0 < group_size ->
  compact_group client state fuel size group_size first blocks w0 = (r, w') ->
  group_compacted state group_size blocks (view w') /\
  (r = Ok (Some tt) -> group_published state group_size blocks (view w')).
Proof.
  intros Hgs. unfold compact_group. set (b := Z.min group_size MAX_BUFFERED_SEGMENTS).
  assert (0 < b <= group_size) as Hb by (unfold b, MAX_BUFFERED_SEGMENTS; lia).
  assert (exists q, b = Z.of_nat (S q)) as [q Hq] by (exists (Z.to_nat (b - 1)); lia).
  rewrite Hq, push_segments by done. cbn [gs_builder]. set (st0 := mkGroupState _ _).
  assert (grouping 0 (S q) st0 w0) as Hst0.
  { split; [done|done|]. exists []. split_and!; done. }
  unfold mbind at 1, prog_bind at 1.
  set (is_ := seqZ (Z.of_nat (S q)) (group_size - Z.of_nat (S q))).
  assert (length is_ = Z.to_nat (group_size - b)) as Hlen by (unfold is_; rewrite length_seqZ; lia).
  pose proof (pop_and_push_grouping q is_ 0 st0 ltac:(rewrite Hlen; unfold is_; f_equal; lia) w0 Hst0) as Hl1.
  destruct (pop_and_push_segments _ _ _ is_ st0 w0) as [[st1|e|] w1];
    [|intros [= <- <-]; split; [by apply same_data_grouped|done]..].
  unfold mbind at 1, prog_bind at 1. rewrite Nat2Z.id.
  pose proof (drain_grouping (S q) _ st1 w1 Hl1) as Hl2.
  destruct (repeatM (S q) (pop_segment client) st1 w1) as [[st2|e|] w2];
    [|intros [= <- <-]; split; [by apply same_data_grouped|done]..].
  destruct (negb _); [intros [= <- <-]; split; [by eapply same_data_grouped, gp_same|done]|].
  apply put_group_compacted. replace (Z.to_nat group_size) with (0 + length is_ + S q)%nat by lia. done.
Qed.

End group.

(** ** Prefixes *)

(** The prefix of a block is a prefix of the keys of that block only, as long
    as block numbers have at most ten digits. *)
Lemma prefix_number a b s :
  is_u64 a -> is_u64 b -> b < 10 ^ 10 -> dec_pad 10 a `prefix_of` dec_pad 10 b ++ slash :: s -> a = b.
Proof.
  intros Ha Hb Hlt [k Heq].
  pose proof (dec_pad_length 10 b Hb Hlt ltac:(lia)) as Hlb.
  assert (10 <= length (dec_pad 10 a))%nat as Hla.
  { unfold dec_pad. rewrite length_app, length_replicate. lia. }
  apply (dec_pad_inj 10); [done|done|].
  destruct (decide (length (dec_pad 10 a) = 10%nat)) as [He|Hne].
  - apply (f_equal (take 10)) in Heq. rewrite take_app_le, take_ge in Heq by lia.
    rewrite Heq, take_app_le, take_ge by lia. done.
  - exfalso. assert (slash ∈ dec_pad 10 a) as Hs; [|by apply (digits_no_slash _ (dec_pad_digits 10 a Ha))].
    apply list_elem_of_lookup. exists 10%nat. rewrite <- (lookup_app_l _ k) by lia. rewrite <- Heq.
    apply list_lookup_middle. lia.
Qed.

(** The keys that the deletion of the blocks up to the grouped one touches: the number
    of a block is written with at least ten digits and nothing after it, so that the
    prefix of a block is also one of the blocks whose longer number starts with it. *)
Definition prefixed (grouped n : Z) : Prop :=
  exists m, 0 <= m <= grouped /\ dec_pad 10 m `prefix_of` dec_pad 10 n.

(** What pruning may delete: the blocks and pending blocks up to the grouped block, and
    those from 10^10 on whose number starts with the ten digits of one of them. *)
Definition may_prune (grouped : Z) (k : store_key) : Prop :=
  match k with
  | KBlock c => prefixed grouped (number c)
  | KPending n _ => prefixed grouped n
  | _ => False
  end.

(** For numbers of at most ten digits these are the blocks up to the grouped one. *)
Lemma prefixed_small grouped n : is_u64 n -> n < 10 ^ 10 -> grouped < U64 -> prefixed grouped n <-> n <= grouped.
Proof.
  intros Hu Hn Hg. split.
  - intros (m & Hm & Hp). assert (m = n); [|lia].
    apply (prefix_number m n []); [unfold is_u64; lia|done|done|]. by apply prefix_app_r.
  - intros Hle. exists n. unfold is_u64 in Hu. split; [lia|done].
Qed.

(** Digits that start a number and a slash start the number. *)
Lemma prefix_digits a n s : is_u64 a -> dec_pad 10 a `prefix_of` dec_pad 10 n ++ slash :: s -> dec_pad 10 a `prefix_of` dec_pad 10 n.
Proof.
  intros Ha Hp. pose proof (digits_no_slash _ (dec_pad_digits 10 a Ha)) as Hno.
  destruct (prefix_weak_total (dec_pad 10 a) (dec_pad 10 n) (dec_pad 10 n ++ slash :: s) Hp) as [Hle|[k Hk]];
    [by apply prefix_app_r|done|].
  rewrite Hk in Hp |- *. apply prefix_app_inv in Hp. destruct k as [|x k]; [by rewrite app_nil_r|].
  apply prefix_cons_inv_1 in Hp as ->. exfalso. apply Hno. rewrite Hk. set_solver.
Qed.

Lemma not_prunable client grouped k :
  key_ok k -> ~ may_prune grouped k -> grouped < U64 -> ~ prunable client 0 grouped (full_key client (render k)).
Proof.
  intros Hk Hm Hg (n & Hn & [s Hpre]). unfold full_key in Hpre. rewrite <- (assoc_L (++)) in Hpre.
  apply app_inv_head in Hpre. assert (is_u64 n) as Hun by (unfold is_u64; lia).
  destruct k as [c|m g|m nm|m|m|c t sg|]; simpl in Hk, Hm; open_key; try discriminate Hpre;
    injection Hpre as Hpre.
  - apply Hm. exists n. split; [lia|]. eapply prefix_digits; [done|by exists s].
  - apply Hm. exists n. split; [lia|]. eapply prefix_digits; [done|by exists s].
Qed.

Section prune_run.
Context {W : Type} `{Cloud W} `{!ChainViewOps W, !ChainViewLaws W}.

(** A run of the prune loop. *)
Lemma prune_loop_frame (client : ObjectStore) (state : KvClient) (cancelled : W -> bool)
    (fuel : nat) (segment_size : Z) (w : W) r w' :
  0 < segment_size ->
  prune_loop client state cancelled fuel segment_size w = (r, w') ->
  match stored_number (view w) (kv_format_key state GROUPED_KEY) with
  | None => same_data (view w) (view w')
  | Some grouped =>
      grouped + 1 < U64 ->
      pruned_only client state 0 grouped (view w) (view w') /\
      ((Z.to_nat grouped < fuel)%nat -> r <> Ok None)
  end.
Proof.
  intros Hs. unfold prune_loop. unfold mbind at 1, prog_bind at 1, pcontext at 1.
  destruct (get_grouped state w) as [g w1] eqn:Hg.
  destruct (get_block_number_inv _ _ _ _ _ Hg) as (Hv1 & Hnp1 & Hg1).
  destruct (stored_number (view w) (kv_format_key state GROUPED_KEY)) as [grouped|] eqn:Hst.
  2: { destruct g as [o|e|]; simpl; [rewrite (Hg1 o eq_refl); cbn|..]; intros [= <- <-]; by rewrite Hv1. }
  intros Hrun Hu. apply stored_number_range in Hst as Hgu. unfold is_u64 in Hgu.
  destruct g as [o|e|]; simpl in Hrun; [|injection Hrun as <- <-; rewrite Hv1; by split|done].
  rewrite (Hg1 o eq_refl) in Hrun. cbv iota in Hrun. revert Hrun.
  unfold mbind at 1, prog_bind at 1, pcontext at 1.
  destruct (get_pruned state w1) as [p w2] eqn:Hp.
  destruct (get_block_number_inv _ _ _ _ _ Hp) as (Hv2 & Hnp2 & Hp1).
  destruct p as [p|e|]; simpl; [|intros [= <- <-]; rewrite Hv2, Hv1; by split|done].
  unfold mbind at 1, prog_bind at 1.
  assert (forall start w3, same_data (view w2) (view w3) -> is_u64 start ->
    prune_while client state cancelled fuel segment_size grouped start w3 = (r, w') ->
    pruned_only client state 0 grouped (view w) (view w') /\ ((Z.to_nat grouped < fuel)%nat -> r <> Ok None)) as Hgo.
  { intros start w3 Hsame Hstart Hw. unfold is_u64 in Hstart.
    destruct (prune_while_frame client state cancelled 0 grouped fuel segment_size start) as [Hf Ht]; [lia..|].
    split; [|intros Hfuel; apply (Ht _ _ _ Hw); lia]. rewrite <- Hv1, <- Hv2.
    etrans; [by apply pruned_only_same|by eapply Hf]. }
  destruct p as [p|].
  - cbn [mret prog_ret]. apply Hgo; [done|]. eapply stored_number_range. by rewrite <- (Hp1 _ eq_refl).
  - unfold mbind at 1, prog_bind at 1, pcontext. destruct (view_starting_cursor w2) as [[c|e|] w3] eqn:Hc;
      pose proof (view_starting_reads _ _ _ Hc) as Hr; simpl.
    + apply Hgo; [done|]. by eapply view_starting_number.
    + intros [= <- <-]. split; [|done]. rewrite <- Hv1, <- Hv2. by apply pruned_only_same.
    + intros [= <- <-]. split; [|done]. rewrite <- Hv1, <- Hv2. by apply pruned_only_same.
Qed.

End prune_run.
