(* ===== verification/CompactionServiceSpec.v ===== *)
(** * The compaction services: properties

    - a segment is published only when it is complete: the segmented block
      moves after every fragment of the consecutive blocks is stored;
    - pruning deletes nothing but blocks up to the grouped block (and those from
      10^10 on whose number starts with their digits), and ends. *)

From S2P Require Import Prelude External Text Core Cloud StateClient StateClientFacts ObjectStore Chain ChainView.
From S2P Require Import ChainStore Index FragmentAccess BlockStore StoreFacts Compaction CompactionFacts CompactionSpec.
From S2P Require Import CompactionService CompactionServiceFacts ChainViewSpec FilterBlockSpec.

Section prune.
Context {W : Type} `{Cloud W} `{!ChainViewOps W, !ChainViewLaws W}.

(** (C9) What pruning deletes.  Whatever requests fail and whenever the service is
    cancelled, a run of the loop leaves every segment, group, chain segment and
    snapshot and every key but the pruned block as they are, and of the blocks and
    pending blocks it deletes only those up to the stored grouped block; without a
    grouped block it changes nothing.  For block numbers from 10^10 on this is not so:
    such a block is deleted with the block whose ten digits its number starts with, and
    only then.  With enough fuel (the number of blocks to prune) the loop ends. *)
Theorem prune_safe (client : ObjectStore) (state : KvClient) (cancelled : W -> bool)
    (fuel : nat) (segment_size : Z) (w : W) r w' :
  0 < segment_size ->
  prune_loop client state cancelled fuel segment_size w = (r, w') ->
  match stored_number (view w) (kv_format_key state GROUPED_KEY) with
  | None => same_data (view w) (view w')
  | Some grouped =>
      grouped + 1 < U64 ->
      (forall key, key <> kv_format_key state PRUNED_KEY ->
         v_kvs (view w') !! key = v_kvs (view w) !! key) /\
      (forall k, key_ok k -> ~ may_prune grouped k ->
         v_objects (view w') !! (os_bucket client, full_key client (render k)) =
         v_objects (view w) !! (os_bucket client, full_key client (render k))) /\
      (forall n, is_u64 n -> n < 10 ^ 10 -> prefixed grouped n <-> n <= grouped) /\
      ((Z.to_nat grouped < fuel)%nat -> r <> Ok None)
  end.
Proof.
  intros Hs Hrun. pose proof (prune_loop_frame client state cancelled fuel segment_size w r w' Hs Hrun) as Hp.
  destruct (stored_number _ _) as [grouped|] eqn:Hst; [|done]. intros Hu. destruct (Hp Hu) as [[Hk Ho _] Hf].
  apply stored_number_range in Hst. unfold is_u64 in Hst.
  split_and!; [done| |intros n Hn Hlt; apply prefixed_small; (done || lia)|done].
  intros k Hkk Hm. apply Ho. apply not_prunable; [done|done|lia].
Qed.

End prune.

Section segments.
Context `{!Codec} {W : Type} `{Cloud W} `{!ChainViewOps W, !ChainViewLaws W}.
Context `{!Roaring, !BlockArchives, !HashOrder Z}.

(** The segment that starts at a block is complete: there are consecutive
    blocks, stored before, and for every fragment name the stored segment holds
    the fragments of these blocks. *)
Definition segment_complete (client : ObjectStore) (names : gmap Z string) (first : Cursor) (size : Z)
    (v0 v : CloudView) : Prop :=
  exists blocks : list (Cursor * Block), length blocks = Z.to_nat size /\
    (forall i c, blocks.*1 !! i = Some c -> number c = number first + Z.of_nat i) /\
    Forall (stored_block client v0) blocks /\
    (forall fid name, names !! fid = Some name -> exists version,
       object_at client v (format_segment_key first (str name)) =
         Some (version, segment_bytes first blocks fid)).

Lemma published_complete client names first size w0 state v :
  0 < size -> names_ok names ->
  (forall p, stored_block client (view w0) p -> block_ok names p.2) ->
  published client first size w0 state v ->
  segment_complete client names first size (view w0) v /\
  exists n, number first + size - 1 <= n /\ stored_number v (kv_format_key state SEGMENTED_KEY) = Some n.
Proof.
  intros Hsize Hno Hblocks (blocks & segs & Hlen & Hnum & Hst & Hc & Hup & Hn). split; [|done].
  exists blocks. split_and!; [done|done|done|]. intros fid name Hname.
  assert (Forall (fun p : Cursor * Block => block_ok names p.2) blocks) as Hok by (by eapply Forall_impl).
  unfold compact_blocks in Hc. cbn [start_new_segment segment_builder_default sbd_first_block mbind outcome_bind] in Hc.
  destruct (add_blocks_holds names first blocks _ eq_refl Hok) as (self & Hadd & Hb).
  destruct (segment_data_files names first blocks self Hno Hok Hb) as (segs' & self' & Hdata & Hfiles & Hall).
  cbn in Hadd, Hc. rewrite Hadd in Hc. cbn in Hc. rewrite Hdata in Hc. injection Hc as <-.
  assert (blocks <> []) as Hne by (intros ->; simpl in Hlen; lia).
  destruct (Hup _ (Hall fid name Hne Hname)) as (s' & version & Hin & Hs' & Hat). cbn [ss_name] in *.
  exists version. rewrite Hat. do 2 f_equal. apply (Hfiles fid name); [done|]. rewrite <- Hs'. by destruct s'.
Qed.

(** (C5) A segment is published only when it is complete.  Take a store whose
    blocks are of one network.  However a run of [compact_segment] ends, the
    only objects it wrote are segments of the given first block and the only
    key is the segmented block, which is the old one unless every fragment of
    the [size] consecutive blocks has been stored; and if the run succeeds this
    is the case and the segmented block is the last of these blocks or a later
    one. *)
Theorem compact_segment_safe (client : ObjectStore) (state : KvClient) (names : gmap Z string)
    (fuel : nat) (size : Z) (first : Cursor) (w : W) r w' :
  is_u64 (number first) -> 0 < size /\ number first + size < U64 ->
  names_ok names -> (forall p, stored_block client (view w) p -> block_ok names p.2) ->
  compact_segment client state fuel size first w = (r, w') ->
  let segmented := kv_format_key state SEGMENTED_KEY in
  let complete := segment_complete client names first size (view w) (view w') /\
    exists n, number first + size - 1 <= n /\ stored_number (view w') segmented = Some n in
  segment_frame client first state (view w) (view w') /\
  (v_kvs (view w') !! segmented = v_kvs (view w) !! segmented \/ complete) /\
  (r = Ok (Some tt) -> complete).
Proof.
  intros Hf Hs Hno Hblocks Hrun segmented complete.
  destruct (compact_segment_compacted client first size w Hf Hs fuel state r w' Hrun) as [[Hframe Hkey] Hok].
  assert (published client first size w state (view w') -> complete) as Hpub.
  { apply published_complete; [apply Hs|done|done]. }
  split_and!; [done|naive_solver|naive_solver].
Qed.

End segments.

Section groups.
Context `{!Codec} {W : Type} `{Cloud W} `{!Roaring, !BlockArchives, !HashOrder Z}.

(** (C31) A group is published only when it is stored.  However a run of
    [compact_group] ends, the only object it wrote is the group of the given
    first block and the only key is the grouped block, which is the old one
    unless the object holds the group built from the [group_size] index
    segments that were stored at the expected first blocks; and if the run
    succeeds this is the case and the grouped block is the last block of the
    group or a later one. *)
Theorem compact_group_safe (client : ObjectStore) (state : KvClient) (fuel : nat)
    (size group_size blocks : Z) (first : Cursor) (w : W) r w' :
  0 < group_size ->
  compact_group client state fuel size group_size first blocks w = (r, w') ->
  let grouped := kv_format_key state GROUPED_KEY in
  let complete := group_published client first size w state group_size blocks (view w') in
  group_frame client first state (view w) (view w') /\
  (v_kvs (view w') !! grouped = v_kvs (view w) !! grouped \/ complete) /\
  (r = Ok (Some tt) -> complete).
Proof.
  intros Hg Hrun grouped complete.
  destruct (compact_group_compacted client first size w fuel state group_size blocks r w' Hg Hrun) as [[Hf Hk] Hok].
  by split_and!.
Qed.

End groups.

(** ** Witnesses *)

Module CompactionServiceWitness.
Import External.Reference ReferenceArchives ReliableCloud ReferenceCodec CompactionWitness.

Definition os_example : ObjectStore := object_store_new (str "bucket") (Some (str "dna")).
Definition kv_example : KvClient := mkKvClient (normalize_prefix (Some (str "dna"))).

#[local] Instance view_example : ChainViewOps World := chain_view_ops (fun _ => example_view).
#[local] Instance view_example_laws : ChainViewLaws World.
Proof. apply chain_view_laws. intros w. vm_compute. split; [discriminate|reflexivity]. Defined.

Definition stored1 : World := (put_block os_example (mkCursor 10 [x0a]) example_block_data world_empty).2.
Definition stored2 : World := (put_block os_example (mkCursor 11 [x0b]) example_block_data stored1).2.

Lemma put_block_all names c blk (w w' : World) :
  (forall p, stored_block os_example (view w) p -> block_ok names p.2) -> block_ok names blk ->
  w' = (put_block os_example c blk w).2 ->
  forall p, stored_block os_example (view w') p -> block_ok names p.2.
Proof.
  intros Hw Hb -> [c' blk'] (ver & bytes & Hat & Hf). unfold put_block, mbind, prog_bind, pcontext in Hat.
  destruct (object_put _ _ _ _ w) as [r w1] eqn:Hp. cbn [snd fst] in *.
  assert (object_at os_example (view w1) (format_block_key c') = Some (ver, bytes)) as Hat1 by (by destruct r).
  destruct (object_put_inv _ _ _ _ _ _ _ Hp) as [_ [[Hv _]|(v & _ & Hwr & _)]].
  - rewrite Hv in Hat1. apply (Hw (c', blk')). by exists ver, bytes.
  - destruct (data_written_at _ _ _ _ _ _ Hwr) as (Hnew & _ & Hold & _).
    destruct (decide (format_block_key c' = format_block_key c)) as [Heq|Hne].
    + rewrite Heq, Hnew in Hat1. injection Hat1 as _ <-.
      pose proof (eq_trans (eq_sym (from_to_bytes blk)) Hf) as [= <-]. done.
    + rewrite Hold in Hat1 by done. apply (Hw (c', blk')). by exists ver, bytes.
Qed.

Lemma stored2_ok p : stored_block os_example (view stored2) p -> block_ok names p.2.
Proof.
  eapply put_block_all; [|exact block_example_ok|reflexivity].
  eapply put_block_all; [|exact block_example_ok|reflexivity].
  intros p' (ver & bytes & Hat & _). exfalso. revert Hat. unfold object_at.
  change (v_objects (view world_empty)) with (∅ : Objects). by rewrite lookup_empty.
Qed.

(** The segment of the blocks 10 and 11. *)
Definition compact_example :=
  compact_segment os_example kv_example 1 2 (mkCursor 10 [x0a]) stored2.

Lemma compact_segment_safe_witness :
  segment_complete os_example names (mkCursor 10 [x0a]) 2 (view stored2) (view compact_example.2) /\
  exists n, 11 <= n /\
    stored_number (view compact_example.2) (kv_format_key kv_example SEGMENTED_KEY) = Some n.
Proof.
  assert (compact_example.1 = Ok (Some tt)) as Hok by (vm_compute; reflexivity).
  assert (0 < 2 /\ number (mkCursor 10 [x0a]) + 2 < U64) as Hs by (vm_compute; split; reflexivity).
  assert (is_u64 (number (mkCursor 10 [x0a]))) as Hu by (vm_compute; split; [discriminate|reflexivity]).
  exact (proj2 (proj2 (compact_segment_safe os_example kv_example names 1 2 (mkCursor 10 [x0a]) stored2 _ _
    Hu Hs names_example_ok stored2_ok (surjective_pairing _))) Hok).
Defined.

(** The group of the one segment. *)
Definition group_example :=
  compact_group os_example kv_example 1 2 1 (new_finalized 10) 2 compact_example.2.

Lemma compact_group_safe_witness :
  group_published os_example (new_finalized 10) 2 compact_example.2 kv_example 1 2 (view group_example.2).
Proof.
  assert (group_example.1 = Ok (Some tt)) as Hok by (vm_compute; reflexivity).
  exact (proj2 (proj2 (compact_group_safe os_example kv_example 1 2 1 2 (new_finalized 10) compact_example.2 _ _
    eq_refl (surjective_pairing _))) Hok).
Defined.

(** Pruning the blocks 10 and 11 keeps the segment. *)
Definition prune_example :=
  prune_loop os_example kv_example (fun _ : World => false) 20 2 group_example.2.

Lemma prune_safe_witness :
  prune_example.1 <> Ok None /\
  v_objects (view prune_example.2) !! (str "bucket", full_key os_example (render (KSegment 10 (str "index")))) =
  v_objects (view group_example.2) !! (str "bucket", full_key os_example (render (KSegment 10 (str "index")))).
Proof.
  assert (0 < 2) as H2 by reflexivity.
  pose proof (prune_safe os_example kv_example (fun _ : World => false) 20 2 group_example.2 _ _
    H2 (surjective_pairing _)) as Hp.
  assert (stored_number (view group_example.2) (kv_format_key kv_example GROUPED_KEY) = Some 11) as Hg
    by (vm_compute; reflexivity).
  rewrite Hg in Hp. destruct Hp as (_ & Ho & _ & Ht); [reflexivity|].
  split; [apply Ht; vm_compute; lia|]. apply Ho; [vm_compute; split; [discriminate|reflexivity]|]. intros [].
Defined.

End CompactionServiceWitness.
