(* ===== verification/Ingestion.v ===== *)
(** * The ingestion service (common/src/ingestion/service.rs, error.rs and mod.rs)

    The service follows the head of the network.  It keeps the canonical chain
    builder and a queue of tasks that download and upload blocks; a task runs
    by itself once it is queued, and the results are taken in the order of the
    queue.  Every change of the chain is published: a new snapshot of the recent
    segment is stored and the pointer to it is replaced.  When the network
    changed its mind, the service goes back to the last block that both agree
    on.

    The node is the interface [BlockIngestion].  Timers only decide which event
    comes next, so an event is an argument of a tick.  A task in the queue is
    either running or done with a result; a task that is no longer in the queue
    runs on, detached, since dropping the handle of a spawned task does not stop
    it. *)

From S2P Require Import Prelude External Text Core Cloud StateClient ObjectStore Chain ChainView ChainStore.
From S2P Require Import Index FragmentAccess BlockStore.

Inductive IngestionError :=
| BlockNotFound | RpcRequest | CanonicalChainStoreRequest | BlockStoreRequest | StateClientRequest
| LockKeepAlive | Options | BadHash | Model | Indexing.

Definition is_block_not_found (e : IngestionError) : bool :=
  match e with BlockNotFound => true | _ => false end.

(** The node, as the service uses it. *)
Class BlockIngestion (W : Type) := {
  supports_pending : bool;
  rpc_head_cursor : prog W IngestionError Cursor;
  rpc_finalized_cursor : prog W IngestionError Cursor;
  rpc_block_info : Z -> prog W IngestionError BlockInfo;
  rpc_ingest_block : Z -> prog W IngestionError (BlockInfo * Block);
  rpc_ingest_pending : Cursor -> Z -> prog W IngestionError (option (PendingBlockInfo * Block)) }.

Inductive IngestionTask :=
| TaskMain (block_info : BlockInfo)
| TaskPending (block_info : option PendingBlockInfo).

(** What a spawned task was asked to do. *)
Inductive TaskRequest :=
| IngestBlock (block_number : Z)
| IngestPending (last_ingested : Cursor) (generation : Z).

Inductive task_slot :=
| Running (request : TaskRequest)
| Finished (request : TaskRequest) (result : outcome IngestionError IngestionTask).

Record IngestionServiceOptions := mkIngestionOptions {
  max_concurrent_tasks : Z;
  opt_chain_segment_size : Z;
  chain_segment_upload_offset_size : Z;
  override_starting_block : option Z }.

Record PendingBlockState := mkPending { pb_queued : bool; pb_generation : Z }.

Definition pending_default : PendingBlockState := mkPending false 0.

Record IngestState := mkIngest {
  in_finalized : Cursor;
  in_head : Cursor;
  in_last_ingested : Cursor;
  in_queued_block_number : Z;
  in_pending : PendingBlockState }.

Record RecoverState := mkRecover {
  rc_finalized : Cursor;
  rc_existing_head : Cursor;
  rc_last_ingested : Cursor }.

Inductive IngestionState :=
| Ingest (state : IngestState)
| Recover (state : RecoverState).

Inductive IngestionStartAction :=
| ActionResume (cursor : Cursor)
| ActionStart (block_number : Z)
| ActionRecover (cursor : Cursor).

(** The fields of [IngestionService] that change, with the world, the counter
    of the snapshots (a static of chain_store.rs) and the detached tasks. *)
Record Service (W : Type) := mkService {
  sv_world : W;
  sv_counter : Z;
  sv_builder : CanonicalChainBuilder;
  sv_queue : list task_slot;
  sv_detached : list TaskRequest }.

Arguments mkService {W} _ _ _ _ _.
Arguments sv_world {W} _.
Arguments sv_counter {W} _.
Arguments sv_builder {W} _.
Arguments sv_queue {W} _.
Arguments sv_detached {W} _.

Section service.
Context `{!Codec} {W : Type} `{Cloud W} `{!BlockIngestion W}.
Context `{!SerdeJson RecentSegmentPointer, !Archive CanonicalChainSegment, !BlockArchives}.
Variables (block_store : ObjectStore) (state_client : KvClient) (chain_store : ChainStore).
Variable options : IngestionServiceOptions.
Variable cancelled : W -> bool.

Abbreviation handler A := (prog (Service W) IngestionError A).

Definition on_world {A} (m : prog W IngestionError A) : handler A :=
  zoom sv_world
    (fun w s => mkService w (sv_counter s) (sv_builder s) (sv_queue s) (sv_detached s)) m.

Definition set_builder (b : CanonicalChainBuilder) : handler unit :=
  modify (fun s => mkService (sv_world s) (sv_counter s) b (sv_queue s) (sv_detached s)).

Definition set_queue (queue : list task_slot) : handler unit :=
  modify (fun s => mkService (sv_world s) (sv_counter s) (sv_builder s) queue (sv_detached s)).

(** ** Tasks *)

(** [IngestionInner::ingest_block_by_number]. *)
Definition ingest_block_by_number (block_number : Z) : prog W IngestionError BlockInfo :=
  r ← rpc_ingest_block block_number;
  if negb (Z.of_nat (length (ig_indexes (blk_index r.2))) =? Z.of_nat (length (blk_body r.2)))
  then fail Model
  else
    let block_cursor := block_cursor r.1 in
    _ ← pcontext BlockStoreRequest (put_block block_store block_cursor r.2);
    mret r.1.

(** [IngestionInner::ingest_pending_block]. *)
Definition ingest_pending_block (parent : Cursor) (generation : Z) :
    prog W IngestionError (option PendingBlockInfo) :=
  r ← rpc_ingest_pending parent generation;
  match r with
  | None => mret None
  | Some (block_info, block) =>
      if negb (Z.of_nat (length (ig_indexes (blk_index block))) =? Z.of_nat (length (blk_body block)))
      then fail Model
      else
        _ ← pcontext BlockStoreRequest (put_pending_block block_store block_info block);
        mret (Some block_info)
  end.

(** The body of a spawned task. *)
Definition run_request (request : TaskRequest) : prog W IngestionError IngestionTask :=
  match request with
  | IngestBlock block_number =>
      block_info ← ingest_block_by_number block_number; mret (TaskMain block_info)
  | IngestPending last_ingested generation =>
      block_info ← ingest_pending_block last_ingested generation; mret (TaskPending block_info)
  end.

Definition slot_request (slot : task_slot) : list TaskRequest :=
  match slot with Running request => [request] | Finished _ _ => [] end.

(** [task_queue_clear]: the handles are dropped, the tasks run on. *)
Definition task_queue_clear : handler unit :=
  modify (fun s => mkService (sv_world s) (sv_counter s) (sv_builder s) []
                     (sv_detached s ++ (sv_queue s ≫= slot_request))).

Definition can_push_task (s : Service W) : bool :=
  Z.of_nat (length (sv_queue s)) <? max_concurrent_tasks options.

Definition push_task (request : TaskRequest) : handler unit :=
  modify (fun s => mkService (sv_world s) (sv_counter s) (sv_builder s)
                     (sv_queue s ++ [Running request]) (sv_detached s)).

Definition push_ingest_block_by_number (block_number : Z) := push_task (IngestBlock block_number).

Definition push_ingest_pending_block (last_ingested : Cursor) (generation : Z) :=
  push_task (IngestPending last_ingested generation).

(** The loop [while self.can_push_task()]: every iteration takes a free place in
    the queue, so their number is enough fuel. *)
Fixpoint push_tasks (fuel : nat) (head_number block_number : Z) : handler Z :=
  match fuel with
  | O => mret block_number
  | S fuel =>
      s ← get_state;
      if can_push_task s then
        if head_number <? add64 block_number 1 then mret block_number
        else
          _ ← push_ingest_block_by_number (add64 block_number 1);
          push_tasks fuel head_number (add64 block_number 1)
      else mret block_number
  end.

Definition push_loop (head_number block_number : Z) : handler Z :=
  s ← get_state;
  push_tasks (Z.to_nat (max_concurrent_tasks options - Z.of_nat (length (sv_queue s))))
    head_number block_number.

(** ** Publication *)

Definition publish_recent_segment (segment : CanonicalChainSegment) : handler unit :=
  s ← get_state;
  _ ← modify (fun s => mkService (sv_world s) (add64 (sv_counter s) 1) (sv_builder s)
                         (sv_queue s) (sv_detached s));
  pointer ← on_world (pcontext CanonicalChainStoreRequest
              (put_recent_snapshot chain_store (sv_counter s) segment));
  on_world (pcontext StateClientRequest (put_recent state_client pointer)).

(** [self.chain_builder.current_segment()] followed by its publication. *)
Definition publish_current : handler unit :=
  s ← get_state;
  current_segment ← lift (change_context Model (current_segment (sv_builder s)));
  publish_recent_segment current_segment.

(** The two deletions are best-effort. *)
Definition migrate_legacy_recent_segment : handler (option CanonicalChainSegment) :=
  legacy_segment ← on_world (pcontext CanonicalChainStoreRequest (get_legacy_recent chain_store));
  match legacy_segment with
  | None => mret None
  | Some segment =>
      _ ← publish_recent_segment segment;
      _ ← on_world (try (delete_legacy_recent chain_store));
      _ ← on_world (try (delete_legacy_ingested state_client));
      mret (Some segment)
  end.

(** ** Starting *)

(** The snapshot that the pointer names, if any. *)
Definition read_recent_segment : handler (option CanonicalChainSegment) :=
  pointer ← on_world (pcontext StateClientRequest (get_recent state_client));
  match pointer with
  | Some pointer =>
      on_world (pcontext CanonicalChainStoreRequest (get_recent_snapshot chain_store pointer))
  | None => mret None
  end.

Definition get_starting_cursor : handler IngestionStartAction :=
  recent_segment ← read_recent_segment;
  existing_chain_segment ←
    match recent_segment with
    | Some segment => mret (Some segment)
    | None => migrate_legacy_recent_segment
    end;
  match existing_chain_segment with
  | Some segment =>
      builder ← lift (change_context Model (restore_from_segment segment));
      _ ← set_builder builder;
      info ← lift (ok_or Model (builder_info builder));
      r ← try (on_world (rpc_block_info (number (last_block info))));
      match r with
      | Ok block_info =>
          if negb (bool_decide (last_block info = block_cursor block_info))
          then mret (ActionRecover (last_block info))
          else mret (ActionResume (block_cursor block_info))
      | Err err =>
          if is_block_not_found err then mret (ActionRecover (last_block info)) else fail RpcRequest
      | Panic => lift Panic
      end
  | None =>
      let starting_block := default 0 (override_starting_block options) in
      _ ← on_world (pcontext StateClientRequest (put_starting_block state_client starting_block));
      mret (ActionStart starting_block)
  end.

(** The state in which ingestion goes on after a block. *)
Definition ingest_from (finalized head starting_cursor : Cursor) : IngestState :=
  mkIngest finalized head starting_cursor (number starting_cursor) pending_default.

Definition initialize : handler IngestionState :=
  head ← on_world rpc_head_cursor;
  finalized ← on_world rpc_finalized_cursor;
  _ ← on_world (pcontext StateClientRequest (put_finalized state_client (number finalized)));
  action ← get_starting_cursor;
  match action with
  | ActionRecover last_ingested => mret (Recover (mkRecover finalized head last_ingested))
  | ActionStart starting_block =>
      block_info ← on_world (ingest_block_by_number starting_block);
      s ← get_state;
      builder ← lift (change_context Model (grow (sv_builder s) block_info));
      _ ← set_builder builder;
      _ ← publish_current;
      mret (Ingest (ingest_from finalized head (block_cursor block_info)))
  | ActionResume starting_cursor => mret (Ingest (ingest_from finalized head starting_cursor))
  end.

(** ** Ticks *)

Definition set_head (head : Cursor) (queued : Z) (state : IngestState) : IngestState :=
  mkIngest (in_finalized state) head (in_last_ingested state) queued (in_pending state).

Definition set_finalized (finalized : Cursor) (state : IngestState) : IngestState :=
  mkIngest finalized (in_head state) (in_last_ingested state) (in_queued_block_number state)
    (in_pending state).

Definition set_pending (pending : PendingBlockState) (state : IngestState) : IngestState :=
  mkIngest (in_finalized state) (in_head state) (in_last_ingested state)
    (in_queued_block_number state) pending.

Definition recover_from (state : IngestState) : IngestionState :=
  Recover (mkRecover (in_finalized state) (in_head state) (in_last_ingested state)).

Definition tick_refresh_finalized (state : IngestState) : handler IngestionState :=
  finalized ← on_world (pcontext RpcRequest rpc_finalized_cursor);
  if number finalized <? number (in_finalized state) then fail Model
  else if bool_decide (in_finalized state = finalized) then mret (Ingest state)
  else
    _ ← on_world (pcontext StateClientRequest (put_finalized state_client (number finalized)));
    mret (Ingest (set_finalized finalized state)).

Definition tick_refresh_head (state : IngestState) (head : Cursor) : handler IngestionState :=
  if bool_decide (in_head state = head) then mret (Ingest state)
  else if (number head <=? number (in_last_ingested state)) &&
          ((number head <? number (in_head state)) ||
           ((number (in_head state) =? number head) &&
            negb (bool_decide (hash (in_head state) = hash head))))
  then mret (recover_from state)
  else
    block_number ← push_loop (number head) (in_queued_block_number state);
    mret (Ingest (set_head head block_number state)).

Definition tick_refresh_pending (state : IngestState) : handler IngestionState :=
  if pb_queued (in_pending state) then mret (Ingest state)
  else if negb (bool_decide (in_head state = in_last_ingested state)) then mret (Ingest state)
  else
    _ ← push_ingest_pending_block (in_last_ingested state) (add64 (pb_generation (in_pending state)) 1);
    mret (Ingest (set_pending (mkPending true (pb_generation (in_pending state))) state)).

(** The part of [tick_with_task_result] for a block that extends the chain: the
    new last ingested block. *)
Definition ingest_main (state : IngestState) (block_info : BlockInfo) : handler Cursor :=
  let upload := number (in_finalized state) <=? bi_number block_info in
  s ← get_state;
  builder ← lift (change_context Model (grow (sv_builder s) block_info));
  _ ← set_builder builder;
  upload ←
    (if add64 (opt_chain_segment_size options) (chain_segment_upload_offset_size options)
          <=? segment_size builder
     then
       r ← lift (change_context Model (take_segment builder (opt_chain_segment_size options)));
       _ ← set_builder r.2;
       _ ← on_world (pcontext CanonicalChainStoreRequest (chain_store_put chain_store r.1));
       mret true
     else mret upload);
  _ ← (if (upload : bool) then publish_current else mret tt);
  mret (block_cursor block_info).

(** The queue is filled up and the pending state is reset. *)
Definition ingest_next (state : IngestState) (last_ingested : Cursor) : handler IngestionState :=
  block_number ← push_loop (number (in_head state)) (in_queued_block_number state);
  mret (Ingest (mkIngest (in_finalized state) (in_head state) last_ingested block_number pending_default)).

(** [None] is an empty queue; a panic of a task is a [JoinError]. *)
Definition tick_with_task_result (state : IngestState)
    (join_result : option (outcome IngestionError IngestionTask)) : handler IngestionState :=
  match join_result with
  | None => ingest_next state (in_last_ingested state)
  | Some Panic => fail RpcRequest
  | Some (Err err) => if is_block_not_found err then mret (recover_from state) else fail RpcRequest
  | Some (Ok (TaskPending None)) =>
      mret (Ingest (set_pending (mkPending false (pb_generation (in_pending state))) state))
  | Some (Ok (TaskPending (Some block_info))) =>
      _ ← on_world (pcontext StateClientRequest (put_pending state_client (pbi_generation block_info)));
      mret (Ingest (set_pending (mkPending false (pbi_generation block_info)) state))
  | Some (Ok (TaskMain block_info)) =>
      s ← get_state;
      if negb (can_grow (sv_builder s) block_info) then mret (recover_from state)
      else
        last_ingested ← ingest_main state block_info;
        ingest_next state last_ingested
  end.

(** The loop of [tick_recover]: [Some None] when the service was cancelled,
    [None] when the fuel runs out. *)
Fixpoint recover_loop (fuel : nat) (canonical_chain : CanonicalChainSegment) (candidate : Cursor) :
    handler (option (option Cursor)) :=
  match fuel with
  | O => mret None
  | S fuel =>
      s ← get_state;
      if cancelled (sv_world s) then mret (Some None)
      else
        r ← try (on_world (rpc_block_info (number candidate)));
        found ← lift
          match r with
          | Ok remote => Ok (bool_decide (block_cursor remote = candidate))
          | Err err => if is_block_not_found err then Ok false else Err RpcRequest
          | Panic => Panic
          end;
        if (found : bool) then mret (Some (Some candidate))
        else if number candidate =? 0 then fail Model
        else
          parent ← lift (change_context Model (canonical canonical_chain (sub64 (number candidate) 1)));
          recover_loop fuel canonical_chain parent
  end.

Definition tick_recover (fuel : nat) (state : RecoverState) : handler (option IngestionState) :=
  s ← get_state;
  canonical_chain ← lift (change_context Model (current_segment (sv_builder s)));
  last_ingested ← lift (change_context Model (canonical canonical_chain (number (rc_last_ingested state))));
  if negb (bool_decide (last_ingested = rc_last_ingested state)) then fail Model
  else
    r ← recover_loop fuel canonical_chain (rc_last_ingested state);
    match r with
    | None => mret None
    | Some None => mret (Some (Recover state))
    | Some (Some new_head) =>
        _ ← task_queue_clear;
        s ← get_state;
        shrunk ← lift (change_context Model (shrink (sv_builder s) new_head));
        _ ← set_builder shrunk.2;
        _ ← publish_current;
        mret (Some (Ingest (ingest_from (rc_finalized state) (rc_existing_head state) new_head)))
    end.

(** ** The loop of the service *)

(** The branches of the [select!] of [tick_ingest].  The stream of new heads
    yields a head, an error or its end. *)
Inductive IngestEvent :=
| EventNewHead (result : option (outcome IngestionError Cursor))
| EventRefreshFinalized
| EventRefreshPending
| EventRefreshHead
| EventTask.

(** The guards of the branches. *)
Definition event_enabled (state : IngestState) (s : Service W) (event : IngestEvent) : bool :=
  match event with
  | EventRefreshPending => bool_decide (in_head state = in_last_ingested state) && supports_pending
  | EventTask => match sv_queue s with Finished _ _ :: _ => true | _ => false end
  | _ => true
  end.

(** The result of the first task of the queue. *)
Definition task_queue_next : handler (option (outcome IngestionError IngestionTask)) :=
  s ← get_state;
  match sv_queue s with
  | Finished _ r :: queue => _ ← set_queue queue; mret (Some r)
  | _ => mret None
  end.

Definition tick_ingest (state : IngestState) (event : IngestEvent) : handler IngestionState :=
  match event with
  | EventNewHead (Some (Ok head)) => tick_refresh_head state head
  | EventNewHead _ => mret (Ingest state)
  | EventRefreshFinalized => tick_refresh_finalized state
  | EventRefreshPending => tick_refresh_pending state
  | EventRefreshHead =>
      head ← on_world (pcontext RpcRequest rpc_head_cursor);
      tick_refresh_head state head
  | EventTask =>
      join_result ← task_queue_next;
      tick_with_task_result state join_result
  end.

(** The check of [ingestion_service_loop] before the service starts. *)
Definition ingestion_options : prog W IngestionError unit :=
  stored ← pcontext Options (get_chain_segment_size state_client);
  match stored with
  | Some stored => if negb (stored =? opt_chain_segment_size options) then fail Options else mret tt
  | None => pcontext Options (set_chain_segment_size state_client (opt_chain_segment_size options))
  end.

(** A new service: [IngestionService::new]. *)
Definition service_new (w : W) (counter : Z) (detached : list TaskRequest) : Service W :=
  mkService w counter Empty [] detached.

End service.
