(* ===== verification/IngestionFacts.v ===== *)
(** * Facts about the ingestion service

    What the stored data must look like for a reader ([world_ok]), the changes
    that keep it ([grows]), and that every request of the service is such a
    change, except the publication of a new pointer. *)

From S2P Require Import Prelude External Text Core Cloud StateClient StateClientFacts ObjectStore Chain ChainFacts ChainView ChainStore.
From S2P Require Import Index FragmentAccess BlockStore StoreFacts Compaction CompactionService CompactionServiceFacts Ingestion.

(** ** The stored data *)

Section world.
Context `{!Codec} `{!SerdeJson RecentSegmentPointer, !Archive CanonicalChainSegment}.
Variables (os : ObjectStore) (kv : KvClient).

Definition legacy_path : RString := render KLegacyRecent.
Definition snapshot_path (path : RString) : Prop :=
  exists counter ts segment, path = render (KRecent counter ts segment).

(** The stored grouped block, up to which blocks may have been pruned. *)
Definition grouped_of (v : CloudView) : Z :=
  default (-1) (stored_number v (kv_format_key kv GROUPED_KEY)).

(** A block above the grouped block has an object.  Keys are only told apart by
    their prefix up to ten digits. *)
Definition block_stored (v : CloudView) (c : Cursor) : Prop :=
  grouped_of v < number c < 10 ^ 10 -> is_Some (object_at os v (format_block_key c)).

Definition blocks_stored (v : CloudView) (b : building) : Prop :=
  forall n h, block_at b n = Some h -> block_stored v (mkCursor n h).

(** A well-formed segment whose blocks are stored. *)
Definition segment_stored (v : CloudView) (segment : CanonicalChainSegment) : Prop :=
  exists b, wf_building b /\ segment = segment_of b /\ blocks_stored v b.

(** A pointer to a stored snapshot. *)
Record pointer_ok (v : CloudView) (p : RecentSegmentPointer) (segment : CanonicalChainSegment) : Prop := {
  po_path : snapshot_path (ptr_key p);
  po_valid : validate_recent_pointer p = Ok tt;
  po_object : object_at os v (ptr_key p) = Some (ptr_version p, to_bytes segment);
  po_first : ptr_first_block p = number (first_block (seg_info segment));
  po_last : ptr_last_block p = number (last_block (seg_info segment));
  po_segment : segment_stored v segment }.

(** The segment that the pointer names. *)
Definition published_segment (v : CloudView) (segment : CanonicalChainSegment) : Prop :=
  exists e p, v_kvs v !! kv_format_key kv RECENT_KEY = Some e /\ json_from_slice e.1 = Ok p /\
    pointer_ok v p segment.

Record world_ok (v : CloudView) : Prop := {
  wo_recent : forall e, v_kvs v !! kv_format_key kv RECENT_KEY = Some e ->
    exists p segment, json_from_slice e.1 = Ok p /\ pointer_ok v p segment;
  wo_legacy : forall o, object_at os v legacy_path = Some o ->
    exists segment, o.2 = to_bytes segment /\ segment_stored v segment }.

(** ** The changes that keep it *)

(** Nothing that a reader may need is lost. *)
Record extends (v v' : CloudView) : Prop := {
  gr_grouped : grouped_of v <= grouped_of v';
  gr_blocks : forall c, is_u64 (number c) -> grouped_of v' < number c < 10 ^ 10 ->
    is_Some (object_at os v (format_block_key c)) -> is_Some (object_at os v' (format_block_key c));
  gr_snapshots : forall path o, snapshot_path path -> object_at os v path = Some o -> object_at os v' path = Some o;
  gr_legacy : forall o, object_at os v' legacy_path = Some o -> object_at os v legacy_path = Some o }.

(** And the pointer is the same. *)
Definition grows (v v' : CloudView) : Prop :=
  extends v v' /\ v_kvs v' !! kv_format_key kv RECENT_KEY = v_kvs v !! kv_format_key kv RECENT_KEY.

#[export] Instance extends_preorder : PreOrder extends.
Proof.
  split; [by intros v; split|]. intros a b c [Ha2 Ha3 Ha4 Ha5] [Hb2 Hb3 Hb4 Hb5]. split.
  - lia.
  - intros k Hu Hk Hs. apply Hb3; [done|done|]. apply Ha3; [done|lia|done].
  - auto.
  - auto.
Qed.

#[export] Instance grows_preorder : PreOrder grows.
Proof.
  split; [by intros v; split|]. intros a b c [Ha1 Ha2] [Hb1 Hb2]. split; [by etrans|congruence].
Qed.

Lemma grows_same v v' : same_data v v' -> grows v v'.
Proof.
  intros [Hk Ho]. assert (grouped_of v' = grouped_of v) as Hg by (unfold grouped_of, stored_number; by rewrite Hk).
  assert (forall path, object_at os v' path = object_at os v path) as Hp by (intros; unfold object_at; by rewrite Ho).
  split; [|by rewrite Hk]. split; intros; rewrite ?Hk, ?Hg, ?Hp in *; auto; lia.
Qed.

Lemma block_stored_extends v v' c :
  extends v v' -> is_u64 (number c) -> block_stored v c -> block_stored v' c.
Proof.
  intros Hg Hu Hb Hn. apply (gr_blocks _ _ Hg); [done|done|]. apply Hb. pose proof (gr_grouped _ _ Hg). lia.
Qed.

Lemma blocks_stored_extends v v' b :
  extends v v' -> wf_building b -> blocks_stored v b -> blocks_stored v' b.
Proof.
  intros Hg Hwf Hb n h Hn. pose proof (block_at_range _ _ _ Hwf Hn). pose proof (wf_last _ Hwf).
  pose proof (wf_first _ Hwf). eapply block_stored_extends; [done| |by apply Hb]. unfold is_u64. simpl. lia.
Qed.

Lemma segment_stored_extends v v' segment :
  extends v v' -> segment_stored v segment -> segment_stored v' segment.
Proof.
  intros Hg (b & Hwf & -> & Hb). exists b. split_and!; [done|done|]. by eapply blocks_stored_extends.
Qed.

Lemma pointer_ok_extends v v' p segment : extends v v' -> pointer_ok v p segment -> pointer_ok v' p segment.
Proof.
  intros Hg [H1 H2 H3 H4 H5 H6]. split; [done|done| |done|done|by eapply segment_stored_extends].
  by apply (gr_snapshots _ _ Hg).
Qed.

Lemma world_ok_grows v v' : grows v v' -> world_ok v -> world_ok v'.
Proof.
  intros [Hg Hrec] [Hr Hl]. split.
  - intros e He. rewrite Hrec in He. destruct (Hr e He) as (p & segment & Hj & Hp).
    exists p, segment. split; [done|]. by eapply pointer_ok_extends.
  - intros o Ho. apply (gr_legacy _ _ Hg) in Ho. destruct (Hl o Ho) as (segment & Hs & Hseg).
    exists segment. split; [done|]. by eapply segment_stored_extends.
Qed.

(** ** Writes that grow *)

Lemma same_key_recent counter ts segment k :
  same_key (KRecent counter ts segment) k -> exists c t s, k = KRecent c t s.
Proof. destruct k; simpl; try done. eauto. Qed.

(** The write of an object under a key of the store that is not a snapshot that
    existed before and not the legacy segment. *)
Lemma grows_object k version data v v' :
  key_ok k -> k <> KLegacyRecent ->
  (forall c t s, k = KRecent c t s -> no_object os v (render k)) ->
  data_written os (render k) version data v v' -> grows v v'.
Proof.
  intros Hk Hl Hnew Hw. destruct (data_written_at _ _ _ _ _ _ Hw) as (Hat & _ & Ho & _).
  destruct (data_written_kvs _ _ _ _ _ _ Hw) as [Hkv _].
  assert (grouped_of v' = grouped_of v) as Hg by (unfold grouped_of, stored_number; by rewrite Hkv).
  split; [|by rewrite Hkv]. split; [rewrite Hg; lia| | |].
  - intros c Hu Hn Hs. destruct (decide (format_block_key c = render k)) as [->|Hne]; [by rewrite Hat|].
    by rewrite Ho.
  - intros path o (c & t & s & ->) Hp. destruct (decide (render (KRecent c t s) = render k)) as [Heq|Hne].
    + exfalso. pose proof (render_inj (KRecent c t s) k I Hk Heq) as (c' & t' & s' & ->)%same_key_recent.
      specialize (Hnew _ _ _ eq_refl). rewrite Heq in Hp. unfold object_at in Hp. by rewrite Hnew in Hp.
    + by rewrite Ho.
  - intros o. unfold legacy_path. rewrite Ho; [done|]. intros Heq.
    by apply (render_inj KLegacyRecent k I Hk) in Heq; destruct k.
Qed.

(** A write of keys other than the pointer and the grouped block. *)
Lemma grows_kvs ops v v' :
  (forall op, op ∈ ops -> forall key, key = kv_format_key kv RECENT_KEY \/ key = kv_format_key kv GROUPED_KEY ->
     match op with TxnPut k _ => k <> key | TxnDelete k => k <> key end) ->
  kvs_written ops v v' -> grows v v'.
Proof.
  intros Hops (rev & _ & ->).
  assert (forall key, key = kv_format_key kv RECENT_KEY \/ key = kv_format_key kv GROUPED_KEY ->
    apply_ops rev ops (v_kvs v) !! key = v_kvs v !! key) as Hkeep.
  { intros key Hkey. unfold apply_ops. generalize (v_kvs v). induction ops as [|op ops IH]; intros kvs; [done|].
    simpl. rewrite IH; [|set_solver]. specialize (Hops op ltac:(left) key Hkey).
    destruct op; simpl; [by rewrite lookup_insert_ne|by rewrite lookup_delete_ne]. }
  split; [|apply Hkeep; by left]. split.
  - unfold grouped_of, stored_number. cbn [set_kvs v_kvs]. rewrite Hkeep by (by right). lia.
  - done.
  - done.
  - done.
Qed.

Context {W : Type} `{Cloud W}.

Lemma kv_put_grows key value :
  key <> RECENT_KEY -> key <> GROUPED_KEY -> preserves (W := W) grows (kv_put kv key value).
Proof.
  intros Hr Hg w r w' Hp. destruct (kv_put_inv _ _ _ _ _ _ Hp) as [_ [Hw|[Hv _]]]; [|by rewrite Hv].
  eapply grows_kvs; [|done]. intros op ->%list_elem_of_singleton k [-> | ->] ?%kv_format_key_inj; done.
Qed.

Lemma put_block_number_grows key n :
  key <> RECENT_KEY -> key <> GROUPED_KEY -> preserves (W := W) grows (put_block_number kv key n).
Proof. intros Hr Hg. apply preserves_pcontext. by apply kv_put_grows. Qed.

Lemma object_put_grows k data mode :
  key_ok k -> k <> KLegacyRecent -> (mode = Create \/ forall c t s, k <> KRecent c t s) ->
  preserves (W := W) grows (object_put os (render k) data mode).
Proof.
  intros Hk Hl Hm w r w' Hp.
  destruct (object_put_inv _ _ _ _ _ _ _ Hp) as [_ [[Hv _]|(version & Ha & Hw & _)]]; [by rewrite Hv|].
  eapply (grows_object k); [done|done| |done]. intros c t s ->. destruct Hm as [->|Hm]; [done|]. by destruct (Hm c t s).
Qed.

Lemma put_block_grows `{!BlockArchives} c blk :
  is_u64 (number c) -> preserves (W := W) grows (put_block os c blk).
Proof.
  intros Hu. unfold put_block. apply preserves_bind; [apply _| |intros; apply preserves_ret, _].
  apply preserves_pcontext. apply (object_put_grows (KBlock c)); [done|done|by right].
Qed.

Lemma chain_store_put_grows segment :
  is_u64 (number (first_block (seg_info segment))) ->
  preserves (W := W) grows (chain_store_put (mkChainStore os) segment).
Proof.
  intros Hu. apply preserves_pcontext.
  apply (object_put_grows (KChain (number (first_block (seg_info segment))))); [done|done|by right].
Qed.

(** ** The snapshot and the pointer *)

Lemma put_recent_snapshot_ok counter segment w r w' :
  put_recent_snapshot (mkChainStore os) counter segment w = (r, w') ->
  grows (view w) (view w') /\
  forall p, r = Ok p -> segment_stored (view w) segment -> pointer_ok (view w') p segment.
Proof.
  unfold put_recent_snapshot, get_state, mbind, prog_bind, put_impl, pcontext.
  set (name := recent_snapshot_filename counter (now_ns w) segment).
  destruct (object_put (cs_client (mkChainStore os)) (chain_format_key name) (to_bytes segment) Create w)
    as [r0 w0] eqn:Hp. cbn [cs_client] in Hp.
  pose proof (object_put_grows (KRecent counter (now_ns w) segment) (to_bytes segment) Create I
    ltac:(done) ltac:(by left) _ _ _ Hp) as Hg.
  destruct (object_put_inv _ _ _ _ _ _ _ Hp) as [Hnp Hinv].
  destruct r0 as [version|e|]; simpl; intros [= <- <-]; (split; [done|]); intros p Hr Hseg; [|done|done].
  injection Hr as <-. destruct Hinv as [[_ [e ?]]|(version' & _ & Hw & Hver)]; [done|].
  destruct (data_written_at _ _ _ _ _ _ Hw) as (Hat & Hne & _). rewrite <- (Hver version eq_refl) in *.
  split; cbn [ptr_key ptr_version ptr_first_block ptr_last_block]; [by exists counter, (now_ns w), segment| |done|done|done|].
  - destruct Hseg as (b & Hwf & -> & _). unfold validate_recent_pointer.
    cbn [ptr_key ptr_version ptr_first_block ptr_last_block]. rewrite bool_decide_true.
    2: { unfold chain_format_key, name, recent_snapshot_filename. apply prefix_app, prefix_app, prefix_app. by eexists. }
    rewrite bool_decide_false by done. cbn [segment_of seg_info negb].
    pose proof (wf_range _ Hwf) as Hr'. unfold first_number, last_number in Hr'.
    by rewrite (proj2 (Z.ltb_ge _ _)) by lia.
  - eapply segment_stored_extends; [apply Hg|done].
Qed.

(** The publication of a good pointer. *)
Lemma put_recent_ok p segment w r w' :
  put_recent kv p w = (r, w') ->
  extends (view w) (view w') /\
  (pointer_ok (view w) p segment -> world_ok (view w) ->
   world_ok (view w') /\ (r = Ok tt -> published_segment (view w') segment)).
Proof.
  intros Hp. destruct (put_recent_inv _ _ _ _ _ Hp) as [_ (value & Hj & [Hw|[Hv Hr]])]; [|by rewrite Hv, Hr].
  assert (extends (view w) (view w')) as Hext.
  { destruct Hw as (rev & _ & ->). split; [|done..]. unfold grouped_of, stored_number. cbn [set_kvs v_kvs apply_ops foldl apply_op].
    rewrite lookup_delete_ne, lookup_insert_ne by (intros ?%kv_format_key_inj; done). lia. }
  split; [done|]. intros Hok [Hr Hl].
  destruct (kvs_put_delete_lookup _ _ _ _ _ Hw) as (rev & _ & Hk & _); [by intros ?%kv_format_key_inj|].
  split; [|intros _; exists (value, rev), p; split_and!; [done|by apply json_roundtrip|by eapply pointer_ok_extends]].
  split.
  - intros e He. rewrite Hk in He. injection He as <-. exists p, segment.
    split; [by apply json_roundtrip|]. by eapply pointer_ok_extends.
  - intros o Ho. apply (gr_legacy _ _ Hext) in Ho. destruct (Hl o Ho) as (s & Hs & Hst). exists s.
    split; [done|]. by eapply segment_stored_extends.
Qed.

(** Reading the snapshot. *)
Lemma get_as_bytes_ok path version w r w' :
  get_as_bytes (mkChainStore os) path version w = (r, w') ->
  view w' = view w /\
  forall bytes, r = Ok (Some bytes) -> exists v, object_at os (view w) path = Some (v, bytes).
Proof.
  unfold get_as_bytes. cbn [cs_client]. destruct (object_get os path version w) as [r0 w0] eqn:Hg.
  destruct (object_get_inv _ _ _ _ _ _ Hg) as (Hv & Ho & _).
  destruct r0 as [[v body]|e|]; [|destruct e|]; intros [= <- <-]; (split; [done|]); intros bytes [= <-].
  exists v. by apply Ho.
Qed.

Lemma get_recent_snapshot_ok p segment w r w' :
  pointer_ok (view w) p segment ->
  get_recent_snapshot (mkChainStore os) p w = (r, w') ->
  view w' = view w /\ forall s, r = Ok (Some s) -> s = segment.
Proof.
  intros Hp. unfold get_recent_snapshot, get_by_key, mbind, prog_bind, lift. rewrite (po_valid _ _ _ Hp).
  destruct (get_as_bytes _ _ _ w) as [r0 w0] eqn:Hg. destruct (get_as_bytes_ok _ _ _ _ _ Hg) as [Hv Hb].
  destruct r0 as [[bytes|]|e|]; [|by intros [= <- <-]..].
  destruct (Hb bytes eq_refl) as [v Hat]. rewrite (po_object _ _ _ Hp) in Hat. injection Hat as _ <-.
  unfold decode_segment. rewrite from_to_bytes. simpl.
  rewrite <- (po_first _ _ _ Hp), <- (po_last _ _ _ Hp), !Z.eqb_refl. intros [= <- <-].
  split; [done|]. by intros s [= <-].
Qed.

Lemma get_legacy_recent_ok w r w' :
  world_ok (view w) -> get_legacy_recent (mkChainStore os) w = (r, w') ->
  view w' = view w /\ forall s, r = Ok (Some s) -> segment_stored (view w) s.
Proof.
  intros Hw. unfold get_legacy_recent, get_impl, mbind, prog_bind, lift.
  destruct (get_as_bytes _ _ _ w) as [r0 w0] eqn:Hg. destruct (get_as_bytes_ok _ _ _ _ _ Hg) as [Hv Hb].
  destruct r0 as [[bytes|]|e|]; [|by intros [= <- <-]..].
  destruct (Hb bytes eq_refl) as [v Hat]. destruct (wo_legacy _ Hw _ Hat) as (segment & Hs & Hst).
  cbn [snd] in Hs. subst bytes. unfold decode_segment. rewrite from_to_bytes. cbn [ok_or].
  intros [= <- <-]. split; [done|]. by intros s [= <-].
Qed.

Lemma delete_legacy_recent_grows : preserves (W := W) grows (delete_legacy_recent (mkChainStore os)).
Proof.
  apply preserves_pcontext. intros w r w' Hd. cbn [cs_client] in Hd.
  destruct (object_delete_inv _ _ _ _ _ _ Hd) as [_ [Hdel|[Hv _]]]; [|by rewrite Hv].
  assert (forall path, path <> legacy_path -> object_at os (view w') path = object_at os (view w) path) as Hat.
  { intros path Hne. unfold object_at. rewrite Hdel. cbn [set_objects v_objects].
    rewrite lookup_delete_ne; [done|]. intros [= Heq%full_key_inj]. by rewrite <- Heq in Hne. }
  assert (v_kvs (view w') = v_kvs (view w)) as Hkv by (by rewrite Hdel).
  assert (grouped_of (view w') = grouped_of (view w)) as Hg by (unfold grouped_of, stored_number; by rewrite Hkv).
  split; [|by rewrite Hkv]. split; [lia| | |].
  - intros c Hu _ Hs. rewrite Hat; [done|]. intros Heq. by apply (render_inj (KBlock c) KLegacyRecent Hu I) in Heq.
  - intros path o (c & t & s & ->) Ho. rewrite Hat; [done|]. intros Heq.
    by apply (render_inj (KRecent c t s) KLegacyRecent I I) in Heq.
  - intros o Ho. exfalso. revert Ho. unfold object_at. rewrite Hdel. cbn [set_objects v_objects].
    unfold legacy_path. by rewrite lookup_delete_eq.
Qed.

Lemma delete_legacy_ingested_grows : preserves (W := W) grows (delete_legacy_ingested kv).
Proof.
  intros w r w' Hd. destruct (delete_legacy_ingested_inv _ _ _ _ Hd) as [_ [Hw|[Hv _]]]; [|by rewrite Hv].
  eapply grows_kvs; [|done]. intros op ->%list_elem_of_singleton k [-> | ->] ?%kv_format_key_inj; done.
Qed.

End world.
