(* ===== verification/IngestionSystem.v ===== *)
(** * The ingestion service as a system

    The service runs next to its tasks and to the other services.  A step of the
    system is a tick of the service, the end of a task, a change made by another
    service, a crash, or a start.  The invariant: the stored data is good at all
    times, the builder holds a well-formed chain whose blocks are stored, the
    last ingested block is the head of the builder, and the queue asks for the
    blocks after it, in order and without a gap. *)

From S2P Require Import Prelude External Text Core Cloud StateClient StateClientFacts ObjectStore Chain ChainFacts ChainView ChainStore.
From S2P Require Import Index FragmentAccess BlockStore StoreFacts Compaction CompactionService CompactionServiceFacts Ingestion IngestionFacts.

(** What the node promises: requests store nothing, blocks have a hash and a
    successor number, numbers fit. *)
Class BlockIngestionLaws (W : Type) `{Cloud W} `{!BlockIngestion W} := {
  rpc_head_reads : preserves same_data rpc_head_cursor;
  rpc_finalized_reads : preserves same_data rpc_finalized_cursor;
  rpc_block_info_reads : forall n, preserves same_data (rpc_block_info n);
  rpc_ingest_block_reads : forall n, preserves same_data (rpc_ingest_block n);
  rpc_ingest_pending_reads : forall c g, preserves same_data (rpc_ingest_pending c g);
  rpc_head_range : forall w c w', rpc_head_cursor w = (Ok c, w') -> 0 <= number c /\ number c + 1 < U64;
  rpc_block_valid : forall n w info blk w',
    rpc_ingest_block n w = (Ok (info, blk), w') -> valid_block info;
  rpc_pending_range : forall c g w info blk w',
    is_u64 g -> rpc_ingest_pending c g w = (Ok (Some (info, blk)), w') ->
    is_u64 (pbi_number info) /\ is_u64 (pbi_generation info) }.

Section system.
Context `{!Codec} {W : Type} `{Cloud W} `{!BlockIngestion W, !BlockIngestionLaws W}.
Context `{!SerdeJson RecentSegmentPointer, !Archive CanonicalChainSegment, !BlockArchives}.
Variables (os : ObjectStore) (kv : KvClient) (options : IngestionServiceOptions) (cancelled : W -> bool).

Abbreviation cs := (mkChainStore os).
Abbreviation wview s := (view (sv_world s)).

(** ** Tasks *)

Definition slot_task (slot : task_slot) : TaskRequest :=
  match slot with Running request => request | Finished request _ => request end.

(** A finished task returned what it was asked for, and a block it returned is
    stored. *)
Definition slot_ok (v : CloudView) (slot : task_slot) : Prop :=
  match slot with
  | Running _ => True
  | Finished (IngestBlock _) (Ok (TaskMain info)) => valid_block info /\ block_stored os kv v (block_cursor info)
  | Finished (IngestPending _ _) (Ok (TaskPending _)) => True
  | Finished _ (Ok _) => False
  | Finished _ _ => True
  end.

Lemma slot_ok_extends v v' slot : extends os kv v v' -> slot_ok v slot -> slot_ok v' slot.
Proof.
  intros He. destruct slot as [|[n|c g] [[info|p]|e|]]; simpl; try done. intros [Hv Hs]. split; [done|].
  eapply block_stored_extends; [done| |done]. destruct Hv as (? & ? & _). split; simpl; lia.
Qed.

Lemma ingest_block_ok n w r w' :
  ingest_block_by_number os n w = (r, w') ->
  grows os kv (view w) (view w') /\
  forall info, r = Ok info -> valid_block info /\ block_stored os kv (view w') (block_cursor info).
Proof.
  unfold ingest_block_by_number, mbind, prog_bind, pcontext.
  destruct (rpc_ingest_block n w) as [[[info blk]|e|] w1] eqn:Hr;
    pose proof (rpc_ingest_block_reads _ _ _ _ Hr) as Hs; apply (grows_same os kv) in Hs;
    [|intros [= <- <-]; done..].
  cbn [fst snd]. destruct (negb _); [intros [= <- <-]; done|].
  pose proof (rpc_block_valid _ _ _ _ _ Hr) as Hv.
  assert (is_u64 (number (block_cursor info))) as Hu by (destruct Hv as (?&?&?); split; simpl; lia).
  destruct (put_block os (block_cursor info) blk w1) as [r2 w2] eqn:Hp.
  pose proof (put_block_grows os kv _ _ Hu _ _ _ Hp) as Hg.
  destruct r2 as [[size ver]|e|]; simpl; intros [= <- <-]; (split; [by etrans|]); intros i [= <-].
  split; [done|]. intros ?. unfold put_block, mbind, prog_bind, pcontext in Hp.
  destruct (object_put _ _ _ _ w1) as [[v|e|] w3] eqn:Ho; try done. simpl in Hp. injection Hp as _ _ <-.
  destruct (object_put_inv _ _ _ _ _ _ _ Ho) as [_ [[_ [e ?]]|(v' & _ & Hw & _)]]; [done|].
  destruct (data_written_at _ _ _ _ _ _ Hw) as (Hat & _). by rewrite Hat.
Qed.

Lemma ingest_pending_grows c g : is_u64 g -> preserves (grows os kv) (ingest_pending_block os c g).
Proof.
  intros Hgen w r w'. unfold ingest_pending_block, mbind, prog_bind, pcontext.
  destruct (rpc_ingest_pending c g w) as [[[[info blk]|]|e|] w1] eqn:Hr;
    pose proof (rpc_ingest_pending_reads _ _ _ _ _ Hr) as Hs; apply (grows_same os kv) in Hs;
    [|intros [= <- <-]; done..].
  destruct (negb _); [intros [= <- <-]; done|]. pose proof (rpc_pending_range _ _ _ _ _ _ Hgen Hr) as Hu.
  unfold put_pending_block, mbind, prog_bind, pcontext.
  destruct (object_put os (format_pending_block_key _ _) _ _ w1) as [r2 w2] eqn:Hp.
  pose proof (object_put_grows os kv (KPending (pbi_number info) (pbi_generation info)) _ Overwrite Hu
    ltac:(done) ltac:(by right) _ _ _ Hp) as Hg.
  destruct r2; simpl; intros [= <- <-]; by etrans.
Qed.

(** The generation of a request is a [u64]. *)
Definition request_typed (request : TaskRequest) : Prop :=
  match request with IngestBlock _ => True | IngestPending _ generation => is_u64 generation end.

Lemma run_request_ok request w r w' :
  request_typed request -> run_request os request w = (r, w') ->
  grows os kv (view w) (view w') /\ slot_ok (view w') (Finished request r).
Proof.
  destruct request as [n|c g]; simpl; unfold mbind, prog_bind; intros Hgen.
  - destruct (ingest_block_by_number os n w) as [r1 w1] eqn:Hi. destruct (ingest_block_ok _ _ _ _ Hi) as [Hg Hok].
    destruct r1 as [info|e|]; intros [= <- <-]; (split; [done|]); [|done..]. by apply Hok.
  - destruct (ingest_pending_block os c g w) as [r1 w1] eqn:Hi. pose proof (ingest_pending_grows _ _ Hgen _ _ _ Hi).
    by destruct r1; intros [= <- <-].
Qed.

(** ** The state of the service *)

Definition base (s : Service W) : Prop := world_ok os kv (wview s).

(** The builder holds a chain whose blocks are stored. *)
Record active (b : building) (q : list task_slot) (s : Service W) : Prop := {
  ac_base : base s;
  ac_builder : sv_builder s = Building b;
  ac_wf : wf_building b;
  ac_blocks : blocks_stored os kv (wview s) b;
  ac_queue : sv_queue s = q;
  ac_slots : Forall (slot_ok (wview s)) q }.

Record fresh (s : Service W) : Prop := {
  fr_base : base s;
  fr_builder : sv_builder s = Empty;
  fr_queue : sv_queue s = [] }.

(** Predicates that do not mind other changes of the world. *)
Record stable (I : Service W -> Prop) : Prop := {
  st_base : forall s, I s -> base s;
  st_extends : forall s w' c, I s -> extends os kv (wview s) (view w') -> world_ok os kv (view w') ->
    I (mkService w' c (sv_builder s) (sv_queue s) (sv_detached s)) }.

Lemma active_stable b q : stable (active b q).
Proof.
  split; [by intros s []|]. intros s w' c [Ha1 Ha2 Ha3 Ha4 Ha5 Ha6] He Hw. split; try done.
  - by eapply blocks_stored_extends.
  - eapply Forall_impl; [done|]. intros slot. by apply slot_ok_extends.
Qed.

Lemma fresh_stable : stable fresh.
Proof. split; [by intros s []|]. intros s w' c [Ha1 Ha2 Ha3] He Hw. by split. Qed.

Lemma stable_and I J : stable I -> (forall s w' c, J s -> extends os kv (wview s) (view w') ->
    J (mkService w' c (sv_builder s) (sv_queue s) (sv_detached s))) -> stable (fun s => I s /\ J s).
Proof.
  intros [Hb He] HJ. split; [intros s [Hi _]; by apply Hb|]. intros s w' c [Hi Hj] Hext Hw. auto.
Qed.

(** A request that keeps the data, with what its result says. *)
Lemma on_world_spec {A} (I : Service W -> Prop) (m : prog W IngestionError A) (Q : A -> CloudView -> Prop) :
  stable I ->
  (forall w r w', world_ok os kv (view w) -> m w = (r, w') ->
     grows os kv (view w) (view w') /\ forall a, r = Ok a -> Q a (view w')) ->
  triple I (on_world m) (fun a s => I s /\ Q a (wview s)) base.
Proof.
  intros HI Hm s Hs. unfold on_world, zoom. destruct (m (sv_world s)) as [r w'] eqn:Hr.
  pose proof (st_base _ HI _ Hs) as Hb. destruct (Hm _ _ _ Hb Hr) as [Hg HQ].
  assert (world_ok os kv (view w')) as Hw by (by eapply world_ok_grows).
  destruct r as [a|e|]; [|exact Hw..]. split; [|by apply HQ].
  apply (st_extends _ HI); [done|apply Hg|done].
Qed.

Lemma on_world_keeps {A} (I : Service W -> Prop) (m : prog W IngestionError A) :
  stable I -> preserves (grows os kv) m -> triple I (on_world m) (fun _ => I) base.
Proof.
  intros HI Hm. eapply triple_weaken; [apply (on_world_spec I m (fun _ _ => True) HI)|done|by intros a s [? _]|done].
  intros w r w' _ Hr. split; [by eapply Hm|done].
Qed.

(** ** Publication *)

Lemma publish_keeps (I : Service W -> Prop) segment :
  stable I -> (forall s, I s -> segment_stored os kv (wview s) segment) ->
  triple I (publish_recent_segment kv cs segment)
    (fun _ s => I s /\ published_segment os kv (wview s) segment) base.
Proof.
  intros HI Hseg s Hs. unfold publish_recent_segment, get_state, modify, on_world, zoom, pcontext, mbind, prog_bind.
  cbn [sv_world sv_counter sv_builder sv_queue sv_detached].
  destruct (put_recent_snapshot cs (sv_counter s) segment (sv_world s)) as [r1 w1] eqn:H1'.
  destruct (put_recent_snapshot_ok os kv _ _ _ _ _ H1') as [Hg1 Hp1].
  pose proof (st_base _ HI _ Hs) as Hb. assert (world_ok os kv (view w1)) as Hw1 by (by eapply world_ok_grows).
  destruct r1 as [p|e|]; cbn [change_context]; [|exact Hw1..].
  specialize (Hp1 p eq_refl (Hseg s Hs)). cbn [sv_world].
  destruct (put_recent kv p w1) as [r2 w2] eqn:H2'.
  destruct (put_recent_ok os kv p segment _ _ _ H2') as [He2 Hw2].
  destruct (Hw2 Hp1 Hw1) as [Hw3 Hpub]. destruct r2 as [[]|e|]; cbn [change_context]; [|exact Hw3..].
  split; [|by apply Hpub]. apply (st_extends _ HI s); [done| |done]. etrans; [apply Hg1|done].
Qed.

Lemma segment_of_stored b q s : active b q s -> segment_stored os kv (wview s) (segment_of b).
Proof. intros Ha. exists b. split_and!; [apply Ha|done|apply Ha]. Qed.

Lemma publish_current_keeps b q :
  triple (active b q) (publish_current kv cs)
    (fun _ s => active b q s /\ published_segment os kv (wview s) (segment_of b)) base.
Proof.
  intros s Hs. unfold publish_current, get_state, lift, mbind, prog_bind.
  rewrite (ac_builder _ _ _ Hs). cbn [current_segment change_context].
  apply (publish_keeps (active b q) (segment_of b) (active_stable b q) (segment_of_stored b q) s Hs).
Qed.

(** ** Starting *)

Lemma read_recent_spec :
  triple fresh (read_recent_segment kv cs)
    (fun o s => fresh s /\ forall segment, o = Some segment -> segment_stored os kv (wview s) segment) base.
Proof.
  intros s Hs. unfold read_recent_segment, on_world, zoom, pcontext, mbind, prog_bind.
  destruct (get_recent kv (sv_world s)) as [r1 w1] eqn:Hr1.
  destruct (get_recent_inv _ _ _ _ Hr1) as (Hv1 & _ & Hsome). pose proof (fr_base _ Hs) as Hb.
  assert (world_ok os kv (view w1)) as Hw1 by (by rewrite Hv1).
  assert (forall w2, view w2 = view w1 ->
    fresh (mkService w2 (sv_counter s) (sv_builder s) (sv_queue s) (sv_detached s))) as Hf.
  { intros w2 Hv2. destruct Hs as [_ Hb2 Hq]. split; [|done|done]. unfold base. cbn [sv_world]. by rewrite Hv2. }
  destruct r1 as [[p|]|e|]; cbn [change_context sv_world sv_counter sv_builder sv_queue sv_detached];
    [|split; [by apply Hf|done]|exact Hw1..].
  destruct (Hsome p eq_refl) as (e & He & Hj). destruct (wo_recent _ _ _ Hb e He) as (p' & segment & Hj' & Hp).
  rewrite Hj in Hj'. injection Hj' as <-. rewrite <- Hv1 in Hp.
  destruct (get_recent_snapshot cs p w1) as [r2 w2] eqn:Hr2.
  destruct (get_recent_snapshot_ok os kv _ _ _ _ _ Hp Hr2) as [Hv2 Hseg].
  destruct r2 as [o|e'|]; cbn [change_context]; [|unfold base; cbn [sv_world]; by rewrite Hv2..].
  split; [by apply Hf|]. intros segment' ->. rewrite (Hseg segment' eq_refl). cbn [sv_world]. rewrite Hv2.
  apply Hp.
Qed.

Lemma migrate_spec :
  triple fresh (migrate_legacy_recent_segment kv cs)
    (fun o s => fresh s /\ forall segment, o = Some segment -> segment_stored os kv (wview s) segment) base.
Proof.
  eapply triple_bind.
  { apply (on_world_spec fresh _ (fun o v => forall segment, o = Some segment -> segment_stored os kv v segment)
      fresh_stable). intros w r w' Hw. unfold pcontext. destruct (get_legacy_recent cs w) as [r0 w0] eqn:Hr.
    destruct (get_legacy_recent_ok os kv _ _ _ Hw Hr) as [Hv Hs]. intros [= <- <-]. rewrite Hv.
    split; [done|]. intros o. destruct r0; simpl; intros [= <-] segment Hsome. apply Hs. by rewrite Hsome. }
  intros [segment|]; [|apply triple_value; intros s [Hf _]; split; done].
  assert (stable (fun s => fresh s /\ segment_stored os kv (wview s) segment)) as HI.
  { apply stable_and; [apply fresh_stable|]. intros s w' c Hs He. by eapply segment_stored_extends. }
  eapply triple_pre; [|intros s [Hf Hs]; exact (conj Hf (Hs segment eq_refl))].
  eapply triple_bind; [apply publish_keeps; [exact HI|by intros s [_ Hs]]|]. intros ?.
  eapply triple_pre; [|intros s [Hs _]; exact Hs].
  assert (forall A (m : prog W A unit), preserves (grows os kv) m ->
    preserves (grows os kv) (try (E' := IngestionError) m)) as Htry.
  { intros A m Hm w r w'. unfold try. destruct (m w) as [[x|e|] w1] eqn:Hr; intros [= <- <-]; by eapply Hm. }
  eapply triple_bind; [apply on_world_keeps; [exact HI|apply Htry, delete_legacy_recent_grows]|]. intros ?.
  eapply triple_bind; [apply on_world_keeps; [exact HI|apply Htry, delete_legacy_ingested_grows]|]. intros ?.
  apply triple_value. intros s [Hf Hs]. split; [done|]. by intros s' [= <-].
Qed.

(** The chain that a start restores. *)
Definition started (action : IngestionStartAction) (s : Service W) : Prop :=
  match action with
  | ActionStart _ => fresh s
  | ActionResume c | ActionRecover c => exists b, active b [] s /\ c = last_block (info b)
  end.

Lemma restore_active segment (s : Service W) :
  fresh s -> segment_stored os kv (wview s) segment ->
  exists b, restore_from_segment segment = Ok (Building b) /\
    active b [] (mkService (sv_world s) (sv_counter s) (Building b) (sv_queue s) (sv_detached s)).
Proof.
  intros [Hb _ Hq] (b & Hwf & -> & Hs). destruct (restore_ok b Hwf) as (r & Hr & Hrr).
  exists (restored b r). split; [done|]. split; try done. by apply restored_wf.
Qed.

Lemma get_starting_cursor_spec :
  triple fresh (get_starting_cursor kv cs options) started base.
Proof.
  eapply triple_bind; [apply read_recent_spec|]. intros recent.
  eapply triple_bind with (Q := fun o s => fresh s /\
    forall segment, o = Some segment -> segment_stored os kv (wview s) segment).
  { destruct recent as [segment|].
    - apply triple_value. intros s [Hf Hs]. by split.
    - eapply triple_pre; [apply migrate_spec|]. by intros s [Hf _]. }
  intros [segment|].
  - intros s [Hf Hs]. destruct (restore_active segment s Hf (Hs segment eq_refl)) as (b & Hr & Ha).
    unfold mbind at 1, prog_bind at 1, lift at 1. rewrite Hr. cbn [change_context].
    unfold mbind at 1, prog_bind at 1, set_builder, modify. unfold mbind at 1, prog_bind at 1, lift at 1.
    cbn [builder_info ok_or]. unfold mbind at 1, prog_bind at 1, try, on_world, zoom. cbn [sv_world].
    destruct (rpc_block_info _ (sv_world s)) as [r1 w1] eqn:Hr1.
    pose proof (rpc_block_info_reads _ _ _ _ Hr1) as Hsame. apply (grows_same os kv) in Hsame.
    pose proof (world_ok_grows _ _ _ _ Hsame (fr_base _ Hf)) as Hw1.
    pose proof (st_extends _ (active_stable b []) _ w1 (sv_counter s) Ha (proj1 Hsame) Hw1) as Ha1.
    cbn [sv_builder sv_queue sv_detached sv_counter] in *.
    destruct r1 as [info'|e|]; [|destruct (is_block_not_found e)|exact Hw1].
    + case_bool_decide as Hl; simpl; exists b; by rewrite <- ?Hl.
    + by exists b.
    + exact Hw1.
  - eapply triple_pre with (P' := fresh); [|by intros s [Hf _]].
    eapply triple_bind; [apply on_world_keeps; [apply fresh_stable|apply preserves_pcontext, put_block_number_grows; done]|].
    intros ?. by apply triple_value.
Qed.

(** ** Ingestion *)

Definition head_ok (c : Cursor) : Prop := 0 <= number c /\ number c + 1 < U64.

(** The numbers of the blocks that the queue asks for. *)
Definition main_numbers (q : list task_slot) : list Z :=
  omap (fun slot => match slot_task slot with IngestBlock n => Some n | _ => None end) q.

(** The queue asks for the blocks from the one after [last] to [queued]. *)
Definition queue_from (last : Z) (q : list task_slot) (queued : Z) : Prop :=
  main_numbers q = seqZ (last + 1) (queued - last) /\ 0 <= last <= queued /\ queued + 1 < U64.

(** Ingestion goes on from the head of the builder. *)
Record ingesting (st : IngestState) (b : building) (q : list task_slot) (s : Service W) : Prop := {
  ig_active : active b q s;
  ig_last : in_last_ingested st = last_block (info b);
  ig_queue : queue_from (last_number b) q (in_queued_block_number st);
  ig_head : head_ok (in_head st) }.

Record recovering (st : RecoverState) (b : building) (q : list task_slot) (s : Service W) : Prop := {
  rg_active : active b q s;
  rg_last : rc_last_ingested st = last_block (info b);
  rg_head : head_ok (rc_existing_head st) }.

Definition ready (state : IngestionState) (s : Service W) : Prop :=
  match state with
  | Ingest st => exists b q, ingesting st b q s
  | Recover st => exists b q, recovering st b q s
  end.

Lemma ready_base state s : ready state s -> base s.
Proof. destruct state; intros (b & q & []); by eapply ac_base. Qed.

Lemma main_numbers_app q1 q2 : main_numbers (q1 ++ q2) = main_numbers q1 ++ main_numbers q2.
Proof. apply omap_app. Qed.

Lemma main_numbers_cons slot q :
  main_numbers (slot :: q) =
  match slot_task slot with IngestBlock n => n :: main_numbers q | _ => main_numbers q end.
Proof. unfold main_numbers. simpl. by destruct (slot_task slot). Qed.

Lemma queue_from_nil b : wf_building b -> queue_from (last_number b) [] (number (last_block (info b))).
Proof.
  intros Hwf. pose proof (wf_range _ Hwf). pose proof (wf_last _ Hwf). unfold queue_from.
  fold (last_number b). rewrite Z.sub_diag. split; [done|lia].
Qed.

Lemma queue_from_push last q k :
  queue_from last q k -> k + 2 < U64 -> queue_from last (q ++ [Running (IngestBlock (k + 1))]) (k + 1).
Proof.
  intros (Hq & Hl & Hk) Hk2. split; [|lia]. rewrite main_numbers_app, Hq. simpl.
  replace (k + 1 - last) with (k - last + 1) by lia. rewrite seqZ_snoc by lia. do 2 f_equal. lia.
Qed.

Lemma queue_from_pop last slot q k n :
  queue_from last (slot :: q) k -> slot_task slot = IngestBlock n -> n = last + 1 /\ queue_from (last + 1) q k.
Proof.
  intros (Hq & Hl & Hk) Hs. rewrite main_numbers_cons, Hs in Hq.
  destruct (Z.le_gt_cases (k - last) 0) as [Hle|Hlt]; [by rewrite seqZ_nil in Hq|].
  rewrite seqZ_cons in Hq by lia. injection Hq as -> Hq. split; [done|]. split; [|lia].
  rewrite Hq. f_equal; lia.
Qed.

Lemma queue_from_skip last slot q k c g :
  queue_from last (slot :: q) k -> slot_task slot = IngestPending c g -> queue_from last q k.
Proof.
  intros (Hq & Hl & Hk) Hs. split; [|done]. by rewrite main_numbers_cons, Hs in Hq.
Qed.

(** The queue is filled with the next blocks until it is full or the head is
    reached. *)
Lemma push_tasks_spec b q last head_number fuel k :
  head_number + 1 < U64 -> queue_from last q k ->
  (Z.to_nat (max_concurrent_tasks options - Z.of_nat (length q)) <= fuel)%nat ->
  triple (active b q) (push_tasks options fuel head_number k)
    (fun k' s => exists q', active b q' s /\ queue_from last q' k' /\
       (max_concurrent_tasks options <= Z.of_nat (length q') \/ head_number <= k')) base.
Proof.
  intros Hh. revert q k. induction fuel as [|fuel IH]; intros q k Hq Hf s Hs; cbn [push_tasks].
  { exists q. split_and!; [done|done|left; lia]. }
  unfold get_state, mbind at 1, prog_bind at 1. unfold can_push_task. rewrite (ac_queue _ _ _ Hs).
  destruct Hq as (Hq & Hl & Hk). rewrite add64_id by lia.
  destruct (Z.ltb_spec (Z.of_nat (length q)) (max_concurrent_tasks options)).
  2: { exists q. split_and!; [done|done|lia..|by left]. }
  destruct (Z.ltb_spec head_number (k + 1)).
  { exists q. split_and!; [done|done|lia..|right; lia]. }
  unfold push_ingest_block_by_number, push_task, modify, mbind at 1, prog_bind at 1.
  apply (IH (q ++ [Running (IngestBlock (k + 1))])).
  - apply queue_from_push; [done|lia].
  - rewrite length_app. simpl. lia.
  - destruct Hs as [Ha1 Ha2 Ha3 Ha4 Ha5 Ha6]. split; try done; cbn [sv_queue sv_world].
    + by rewrite Ha5.
    + apply Forall_app. split; [done|]. by apply Forall_singleton.
Qed.

Lemma push_loop_spec b q last head_number k :
  head_number + 1 < U64 -> queue_from last q k ->
  triple (active b q) (push_loop options head_number k)
    (fun k' s => exists q', active b q' s /\ queue_from last q' k' /\
       (max_concurrent_tasks options <= Z.of_nat (length q') \/ head_number <= k')) base.
Proof.
  intros Hh Hq s Hs. unfold push_loop, get_state, mbind at 1, prog_bind at 1. rewrite (ac_queue _ _ _ Hs).
  by apply (push_tasks_spec b q last head_number).
Qed.

(** ** The ticks *)

Lemma initialize_spec : triple fresh (initialize os kv cs options) ready base.
Proof.
  eapply triple_bind.
  { apply (on_world_spec fresh _ (fun c _ => head_ok c) fresh_stable). intros w r w' _ Hr.
    split; [eapply grows_same, rpc_head_reads, Hr|]. intros c ->. by eapply rpc_head_range. }
  intros head. eapply triple_pre with (P' := fun s => head_ok head /\ fresh s); [|by intros s []].
  apply triple_pure. intros Hhead.
  eapply triple_bind; [apply on_world_keeps; [apply fresh_stable|]|].
  { intros w r w' Hr. eapply grows_same, rpc_finalized_reads, Hr. }
  intros finalized.
  eapply triple_bind; [apply on_world_keeps; [apply fresh_stable|apply preserves_pcontext, put_block_number_grows; done]|].
  intros ?. eapply triple_bind; [apply get_starting_cursor_spec|].
  intros [c|n|c]; cbn [started].
  - apply triple_exists. intros b. apply triple_value. intros s [Ha ->]. exists b, [].
    split; [done|done|apply queue_from_nil, Ha|done].
  - eapply triple_bind.
    { apply (on_world_spec fresh _ (fun info v => valid_block info /\ block_stored os kv v (block_cursor info)) fresh_stable).
      intros w r w' _ Hr. by apply (ingest_block_ok _ _ _ _ Hr). }
    intros info s (Hf & Hv & Hst). unfold get_state, lift, mbind at 1, prog_bind at 1.
    unfold mbind at 1, prog_bind at 1. rewrite (fr_builder _ Hf). cbn [grow can_grow negb change_context].
    set (b := mkBuilding None _ _ _). unfold mbind at 1, prog_bind at 1, set_builder, modify.
    assert (wf_building b) as Hwf by (exact (grow_wf Empty info (Building b) I Hv eq_refl)).
    set (s1 := mkService _ _ _ _ _).
    assert (active b [] s1) as Ha.
    { split; try done; [apply Hf| |apply Hf]. intros m h Hm.
      assert (m = bi_number info /\ h = bi_hash info) as [-> ->]; [|done].
      apply block_at_range in Hm as Hr; [|done]. unfold b, first_number, last_number in Hr. simpl in Hr.
      assert (m = bi_number info) as -> by lia. split; [done|].
      apply block_at_Some in Hm as [_ Hm]. unfold b, first_number in Hm. simpl in Hm.
      rewrite Z.sub_diag in Hm. by injection Hm. }
    revert s1 Ha. eapply triple_bind; [apply publish_current_keeps|]. intros ?. apply triple_value.
    intros s1 [Ha _]. exists b, []. split; [done|done|by apply queue_from_nil|done].
  - apply triple_exists. intros b. apply triple_value. intros s [Ha ->]. by exists b, [].
Qed.

(** A change of the state that keeps what ingestion relies on. *)
Lemma ingesting_same st st' b q s :
  in_last_ingested st' = in_last_ingested st -> in_queued_block_number st' = in_queued_block_number st ->
  in_head st' = in_head st -> ingesting st b q s -> ready (Ingest st') s.
Proof. intros H1' H2' H3' [Ha Hl Hq Hh]. exists b, q. split; [done|congruence..]. Qed.

Lemma recover_ready st b q s : ingesting st b q s -> ready (recover_from st) s.
Proof. intros [Ha Hl Hq Hh]. by exists b, q. Qed.

Lemma ingesting_stable st b q : stable (ingesting st b q).
Proof.
  split; [intros s Hs; apply (ac_base b q), Hs|]. intros s w' c [Ha Hl Hq Hh] He Hw.
  split; [by apply (st_extends _ (active_stable b q))|done..].
Qed.

Lemma tick_refresh_finalized_spec st b q :
  triple (ingesting st b q) (tick_refresh_finalized kv st) ready base.
Proof.
  eapply triple_bind; [apply on_world_keeps; [apply ingesting_stable|apply preserves_pcontext]|].
  { intros w r w' Hr. eapply grows_same, rpc_finalized_reads, Hr. }
  intros finalized. destruct (_ <? _); [apply triple_fail; intros s Hs; apply (ac_base b q), Hs|].
  case_bool_decide; [apply triple_value; intros s Hs; by exists b, q|].
  eapply triple_bind; [apply on_world_keeps; [apply ingesting_stable|apply preserves_pcontext, put_block_number_grows; done]|].
  intros ?. apply triple_value. intros s Hs. by apply (ingesting_same st _ b q).
Qed.

Lemma tick_refresh_head_spec st b q c :
  head_ok c -> triple (ingesting st b q) (tick_refresh_head options st c) ready base.
Proof.
  intros Hc. unfold tick_refresh_head. case_bool_decide; [apply triple_value; intros s Hs; by exists b, q|].
  destruct (_ && _); [apply triple_value; intros s Hs; by eapply recover_ready|].
  intros s [Ha Hl Hq Hh]. revert s Ha. eapply triple_bind; [apply push_loop_spec; [apply Hc|exact Hq]|].
  intros k. apply triple_value. intros s (q' & Ha & Hq' & _). by exists b, q'.
Qed.

Lemma tick_refresh_pending_spec st b q :
  triple (ingesting st b q) (tick_refresh_pending st) ready base.
Proof.
  unfold tick_refresh_pending. destruct (pb_queued _); [apply triple_value; intros s Hs; by exists b, q|].
  destruct (negb _); [apply triple_value; intros s Hs; by exists b, q|].
  intros s [Ha Hl (Hq & Hr) Hh]. cbn. eexists b, (q ++ [Running _]). split; [|done| |done].
  - destruct Ha as [Ha1 Ha2 Ha3 Ha4 Ha5 Ha6]. split; try done; cbn [sv_queue sv_world].
    + by rewrite Ha5.
    + apply Forall_app. split; [done|]. by apply Forall_singleton.
  - split; [|done]. by rewrite main_numbers_app, app_nil_r.
Qed.

(** Replacing the builder. *)
Lemma set_builder_active b q b' s :
  active b q s -> wf_building b' -> blocks_stored os kv (wview s) b' ->
  active b' q (mkService (sv_world s) (sv_counter s) (Building b') (sv_queue s) (sv_detached s)).
Proof. intros [Ha1 Ha2 Ha3 Ha4 Ha5 Ha6] Hwf Hb. by split. Qed.

Lemma grown_stored v b info :
  wf_building b -> bi_number info = last_number b + 1 ->
  blocks_stored os kv v b -> block_stored os kv v (block_cursor info) -> blocks_stored os kv v (grown b info).
Proof.
  intros Hwf Hn Hb Hi n h Hh. rewrite block_at_grown in Hh by done. case_decide as Hd; [|by apply Hb].
  injection Hh as <-. by subst n.
Qed.

Lemma publish_if b q (upload : bool) :
  triple (active b q) (if upload then publish_current kv cs else mret tt)
    (fun _ s => active b q s /\ (upload = true -> published_segment os kv (wview s) (segment_of b))) base.
Proof.
  destruct upload; [|by apply triple_value]. eapply triple_weaken; [apply publish_current_keeps|done| |done].
  intros ? s [Ha Hp]. by split.
Qed.

(** A block that extends the chain is added; a full segment is taken off. *)
Lemma ingest_main_spec st b q info :
  0 < opt_chain_segment_size options -> valid_block info -> can_grow (Building b) info = true ->
  triple (fun s => active b q s /\ block_stored os kv (wview s) (block_cursor info))
    (ingest_main kv cs options st info)
    (fun c s => exists b', active b' q s /\ c = last_block (Chain.info b') /\ last_number b' = last_number b + 1 /\
       (number (in_finalized st) <= bi_number info -> published_segment os kv (wview s) (segment_of b'))) base.
Proof.
  intros Hsize Hv Hg s [Ha Hst]. unfold ingest_main, get_state, lift, mbind at 1, prog_bind at 1.
  unfold mbind at 1, prog_bind at 1. rewrite (ac_builder _ _ _ Ha).
  assert (grow (Building b) info = Ok (Building (grown b info))) as Hgrow by (by apply grow_building).
  rewrite Hgrow. cbn [change_context]. unfold mbind at 1, prog_bind at 1, set_builder at 1, modify.
  pose proof (grow_wf (Building b) info _ (ac_wf _ _ _ Ha) Hv Hgrow) as Hwf'. cbn [wf_builder] in Hwf'.
  apply can_grow_building in Hg as [Hnum _]; [|apply Ha].
  pose proof (set_builder_active _ _ _ _ Ha Hwf' (grown_stored _ _ _ (ac_wf _ _ _ Ha) Hnum (ac_blocks _ _ _ Ha) Hst)) as Ha1.
  set (s1 := mkService _ _ _ _ _) in *. clearbody s1. clear Ha Hst s. set (b1 := grown b info) in *.
  assert (last_block (Chain.info b1) = block_cursor info /\ last_number b1 = last_number b + 1) as [Hlast Hln] by done.
  revert s1 Ha1.
  eapply triple_bind with (Q := fun (upload : bool) s => exists b', active b' q s /\
    last_block (Chain.info b') = block_cursor info /\
    (number (in_finalized st) <= bi_number info -> upload = true)).
  - destruct (add64 _ _ <=? _).
    2: { apply triple_value. intros s Hs. exists b1. split_and!; [done|done|]. by intros ?%Z.leb_le. }
    intros s Hs. unfold mbind at 1, prog_bind at 1.
    destruct (Z.le_gt_cases (opt_chain_segment_size options) (last_number b1 - first_number b1)) as [Hle|Hgt].
    2: { rewrite take_segment_small by (done || lia). apply (ac_base _ _ _ Hs). }
    destruct (take_segment_ok b1 _ Hwf' Hsize Hle) as (lh & fh & r & Hlh & Hfh & Htake & Hr).
    rewrite Htake. cbn [change_context snd fst]. unfold mbind at 1, prog_bind at 1, set_builder, modify.
    pose proof (taken_wf b1 _ lh fh r Hwf' Hsize Hle Hfh Hr) as Hwf2.
    assert (blocks_stored os kv (wview s) (taken b1 (opt_chain_segment_size options) lh fh r)) as Hst2.
    { intros n h Hh. rewrite block_at_taken in Hh by lia. case_decide; [|done]. by apply (ac_blocks _ _ _ Hs). }
    pose proof (set_builder_active _ _ _ _ Hs Hwf2 Hst2) as Ha2. revert Ha2.
    match goal with |- active _ _ ?s2 -> _ => generalize s2 end.
    eapply triple_bind; [apply on_world_keeps; [apply active_stable|apply preserves_pcontext, chain_store_put_grows]|].
    { cbn [taken_segment seg_info first_block]. fold (first_number b1).
      pose proof (wf_range _ Hwf'). pose proof (wf_last _ Hwf'). unfold is_u64. lia. }
    intros ?. apply triple_value. intros s2 Ha2. by eexists.
  - intros upload. apply triple_exists. intros b2 s2 (Ha2 & Hl2 & Hup). revert s2 Ha2.
    eapply triple_bind; [apply publish_if|]. intros ?. apply triple_value. intros s2 [Ha2 Hpub]. exists b2.
    split_and!; [done|done| |auto]. unfold last_number. rewrite Hl2. done.
Qed.

Lemma ingest_next_spec st b q c :
  head_ok (in_head st) -> c = last_block (info b) ->
  queue_from (last_number b) q (in_queued_block_number st) ->
  triple (active b q) (ingest_next options st c) ready base.
Proof.
  intros Hh -> Hq. eapply triple_bind; [apply push_loop_spec; [apply Hh|exact Hq]|].
  intros k. apply triple_value. intros s (q' & Ha & Hq' & _). by exists b, q'.
Qed.

(** The first task of the queue is done. *)
Lemma task_result_spec st b slot q request r :
  0 < opt_chain_segment_size options ->
  slot = Finished request r -> in_last_ingested st = last_block (info b) -> head_ok (in_head st) ->
  queue_from (last_number b) (slot :: q) (in_queued_block_number st) ->
  triple (fun s => active b q s /\ slot_ok (wview s) slot)
    (tick_with_task_result kv cs options st (Some r)) ready base.
Proof.
  intros Hsize -> Hl Hh Hq.
  assert (forall s, active b q s -> ready (recover_from st) s) as Hrec by (intros s Ha; by exists b, q).
  destruct r as [[info|p]|e|]; cbn [tick_with_task_result].
  - destruct request as [n|c g]; [|intros s [_ []]].
    destruct (queue_from_pop _ _ _ _ n Hq eq_refl) as [_ Hq'].
    intros s (Ha & Hv & Hst). unfold get_state, mbind at 1, prog_bind at 1. rewrite (ac_builder _ _ _ Ha).
    destruct (can_grow (Building b) info) eqn:Hg; cbn [negb]; [|by apply Hrec].
    generalize (conj Ha Hst). generalize s. clear s Ha Hst.
    eapply triple_bind; [by apply (ingest_main_spec st b q info)|]. intros c. apply triple_exists. intros b' s (Ha & -> & Hn & _).
    revert s Ha. apply ingest_next_spec; [done|done|]. by rewrite Hn.
  - destruct request as [n|c g]; [intros s [_ []]|].
    pose proof (queue_from_skip _ _ _ _ c g Hq eq_refl) as Hq'.
    assert (forall pending s, active b q s -> ready (Ingest (set_pending pending st)) s) as Hset.
    { intros pending s Ha. by exists b, q. }
    destruct p as [info|].
    + eapply triple_pre with (P' := active b q); [|by intros s []].
      eapply triple_bind; [apply on_world_keeps; [apply active_stable|apply preserves_pcontext, put_block_number_grows; done]|].
      intros ?. apply triple_value. intros s Ha. by apply Hset.
    + apply triple_value. intros s [Ha _]. by apply Hset.
  - destruct (is_block_not_found e).
    + apply triple_value. intros s [Ha _]. by apply Hrec.
    + apply triple_fail. intros s [Ha _]. apply Ha.
  - apply triple_fail. intros s [Ha _]. apply Ha.
Qed.

(** A head that the stream of new heads yields. *)
Definition event_ok (event : IngestEvent) : Prop :=
  match event with EventNewHead (Some (Ok head)) => head_ok head | _ => True end.

Lemma tick_ingest_spec st event :
  0 < opt_chain_segment_size options -> event_ok event ->
  triple (fun s => ready (Ingest st) s /\ event_enabled st s event = true)
    (tick_ingest kv cs options st event) ready base.
Proof.
  intros Hsize Hev. destruct event as [[[c|e|]|]| | | |]; cbn [tick_ingest].
  2-4: apply triple_value; by intros s [Hr _].
  - intros s ((b & q & Hs) & _). revert s Hs. by apply tick_refresh_head_spec.
  - intros s ((b & q & Hs) & _). revert s Hs. by apply tick_refresh_finalized_spec.
  - intros s ((b & q & Hs) & _). revert s Hs. by apply tick_refresh_pending_spec.
  - intros s ((b & q & Hs) & _). revert s Hs.
    eapply triple_bind.
    { apply (on_world_spec _ _ (fun c _ => head_ok c) (ingesting_stable st b q)). intros w r w' _.
      unfold pcontext. destruct (rpc_head_cursor w) as [r0 w0] eqn:Hr. intros [= <- <-].
      split; [eapply grows_same, rpc_head_reads, Hr|]. intros c Hc. destruct r0; simpl in Hc; [|done|done].
      injection Hc as <-. by eapply rpc_head_range. }
    intros c s [Hs Hc]. revert s Hs. by apply tick_refresh_head_spec.
  - intros s ((b & q & [Ha Hl Hq Hh]) & Hen). cbn [event_enabled] in Hen.
    pose proof Ha as [Ha1 Ha2 Ha3 Ha4 Ha5 Ha6]. rewrite Ha5 in Hen.
    destruct q as [|[|request r] q]; [done|done|].
    unfold task_queue_next, get_state, set_queue, modify. unfold mbind at 1 2, prog_bind at 1 2. rewrite Ha5.
    unfold mbind at 1, prog_bind at 1. cbn [mret prog_ret].
    apply Forall_cons in Ha6 as [Hslot Ha6].
    by apply (task_result_spec st b (Finished request r) q request r).
Qed.

(** ** Recovery *)

Lemma canonical_segment_of b n h :
  wf_building b -> block_at b n = Some h -> canonical (segment_of b) n = Ok (mkCursor n h).
Proof.
  intros Hwf Hh. pose proof (block_at_range _ _ _ Hwf Hh) as Hr. unfold canonical. cbn [segment_of seg_info].
  fold (first_number b) (last_number b). rewrite !(proj2 (Z.ltb_ge _ _)) by lia.
  change (canonical_block b <$> enumerate (blocks b)) with (seg_canonical (segment_of b)).
  by rewrite (segment_index b n h).
Qed.

Lemma canonical_segment_inv b n c :
  wf_building b -> canonical (segment_of b) n = Ok c -> number c = n /\ block_at b n = Some (hash c).
Proof.
  intros Hwf Hc. pose proof (canonical_number _ _ _ Hc) as Hn. split; [done|].
  assert (first_number b <= n <= last_number b) as Hr.
  { revert Hc. unfold canonical. cbn [segment_of seg_info]. fold (first_number b) (last_number b).
    destruct (Z.ltb_spec n (first_number b)); [done|]. destruct (Z.ltb_spec (last_number b) n); [done|]. lia. }
  apply block_at_is_Some in Hr as [h Hh]; [|done]. rewrite (canonical_segment_of b n h) in Hc by done.
  by injection Hc as <-.
Qed.

(** The last ingested block is the canonical one: the check of [tick_recover]
    passes. *)
Lemma recover_check st b q s :
  recovering st b q s ->
  current_segment (sv_builder s) = Ok (segment_of b) /\
  canonical (segment_of b) (number (rc_last_ingested st)) = Ok (rc_last_ingested st).
Proof.
  intros [Ha Hl Hh]. split; [by rewrite (ac_builder _ _ _ Ha)|]. rewrite Hl.
  pose proof (canonical_segment_of b _ _ (ac_wf _ _ _ Ha) (block_at_last b (ac_wf _ _ _ Ha))) as Hc.
  unfold last_number in Hc. rewrite Hc. by destruct (last_block (info b)).
Qed.

(** The node returned the block at some point. *)
Definition confirmed (c : Cursor) : Prop :=
  exists w info w', rpc_block_info (number c) w = (Ok info, w') /\ block_cursor info = c.

Lemma recover_loop_spec (I : Service W -> Prop) b fuel c :
  stable I -> wf_building b -> block_at b (number c) = Some (hash c) ->
  triple I (recover_loop cancelled fuel (segment_of b) c)
    (fun o s => I s /\
       (forall c', o = Some (Some c') -> block_at b (number c') = Some (hash c') /\ confirmed c') /\
       ((Z.to_nat (number c - first_number b) < fuel)%nat -> o <> None)) base.
Proof.
  intros HI Hwf. revert c. induction fuel as [|fuel IH]; intros c Hc s Hs; cbn [recover_loop].
  { split_and!; [done|done|lia]. }
  pose proof (block_at_range _ _ _ Hwf Hc) as Hr.
  unfold get_state, mbind at 1, prog_bind at 1. destruct (cancelled (sv_world s)); [by split_and!|].
  unfold try, on_world, zoom, mbind at 1, prog_bind at 1.
  destruct (rpc_block_info (number c) (sv_world s)) as [r w1] eqn:Hrpc.
  pose proof (rpc_block_info_reads _ _ _ _ Hrpc) as Hsame. apply (grows_same os kv) in Hsame.
  pose proof (world_ok_grows _ _ _ _ Hsame (st_base _ HI _ Hs)) as Hw1.
  pose proof (st_extends _ HI s w1 (sv_counter s) Hs (proj1 Hsame) Hw1) as Hs1.
  set (s1 := mkService w1 _ _ _ _) in *.
  assert (base s1) as Hb1 by exact Hw1. clearbody s1.
  assert (forall found : bool, (found = true -> confirmed c) -> triple I
    (if found then mret (Some (Some c)) else if number c =? 0 then fail Model
     else parent ← lift (change_context Model (canonical (segment_of b) (sub64 (number c) 1)));
          recover_loop cancelled fuel (segment_of b) parent)
    (fun o s => I s /\
       (forall c', o = Some (Some c') -> block_at b (number c') = Some (hash c') /\ confirmed c') /\
       ((Z.to_nat (number c - first_number b) < S fuel)%nat -> o <> None)) base) as Hnext.
  { intros [|] Hfound s2 Hs2; [split_and!; [done|intros c' [= <-]; auto|done]|].
    pose proof (wf_first _ Hwf). pose proof (wf_last _ Hwf).
    destruct (Z.eqb_spec (number c) 0); [apply (st_base _ HI _ Hs2)|]. rewrite sub64_id by lia.
    unfold lift, mbind at 1, prog_bind at 1.
    destruct (canonical (segment_of b) (number c - 1)) as [p|e|] eqn:Hp; cbn [change_context];
      [|apply (st_base _ HI _ Hs2)..].
    destruct (canonical_segment_inv _ _ _ Hwf Hp) as [Hn Hp']. rewrite <- Hn in Hp'.
    specialize (IH p Hp' s2 Hs2). destruct (recover_loop _ _ _ _ s2) as [[o|e|] s3]; [|done|done].
    destruct IH as (Hi & Hsome & Hfuel). split_and!; [done|done|]. intros Hf. apply Hfuel.
    pose proof (block_at_range _ _ _ Hwf Hp'). lia. }
  destruct r as [remote|e|].
  - refine (Hnext _ _ s1 Hs1). intros Hf%bool_decide_eq_true. by exists (sv_world s), remote, w1.
  - destruct (is_block_not_found e); [exact (Hnext false ltac:(done) s1 Hs1)|exact Hb1].
  - exact Hb1.
Qed.

Lemma queue_clear_active b q s :
  active b q s ->
  active b [] (mkService (sv_world s) (sv_counter s) (sv_builder s) []
                 (sv_detached s ++ (sv_queue s ≫= slot_request))).
Proof. intros [Ha1 Ha2 Ha3 Ha4 Ha5 Ha6]. by split. Qed.

Lemma shrunk_stored v b nh r :
  wf_building b -> block_at b (number nh) = Some (hash nh) ->
  blocks_stored os kv v b -> blocks_stored os kv v (shrunk b nh r).
Proof.
  intros Hwf Hnh Hb n h Hh. rewrite block_at_shrunk in Hh by done. case_decide; [|done]. by apply Hb.
Qed.

(** The result of a recovery: the service was cancelled, or goes on from a block
    of the chain that the node confirmed, and the blocks above it are recorded
    as reorged; more fuel than blocks is enough. *)
Definition recovered (b : building) (st : RecoverState) (fuel : nat) (o : option IngestionState) (s : Service W) : Prop :=
  match o with
  | None => (fuel <= Z.to_nat (last_number b - first_number b))%nat
  | Some (Recover st') => st' = st
  | Some (Ingest st') =>
      let new_head := in_last_ingested st' in
      confirmed new_head /\ block_at b (number new_head) = Some (hash new_head) /\
      exists r, sv_builder s = Building (shrunk b new_head r) /\ shrunk_reorgs b new_head r /\
        published_segment os kv (wview s) (segment_of (shrunk b new_head r))
  end.

Lemma tick_recover_spec st fuel b q :
  triple (recovering st b q) (tick_recover kv cs cancelled fuel st)
    (fun o s => recovered b st fuel o s /\ forall state, o = Some state -> ready state s) base.
Proof.
  intros s Hs. destruct (recover_check _ _ _ _ Hs) as [Hseg Hcan]. pose proof Hs as [Ha Hl Hh].
  unfold tick_recover. rewrite (prog_bind_run get_state _ s s s eq_refl).
  rewrite (prog_bind_run _ _ s (segment_of b) s) by (unfold lift; by rewrite Hseg).
  rewrite (prog_bind_run _ _ s (rc_last_ingested st) s) by (unfold lift; by rewrite Hcan).
  rewrite bool_decide_true by done. cbn [negb].
  assert (stable (recovering st b q)) as HI.
  { split; [intros s1 Hs1; apply (ac_base b q), Hs1|]. intros s1 w' c [Ha1 Hl1 Hh1] He Hw.
    split; [by apply (st_extends _ (active_stable b q))|done..]. }
  pose proof (ac_wf _ _ _ Ha) as Hwf.
  assert (block_at b (number (rc_last_ingested st)) = Some (hash (rc_last_ingested st))) as Hlast.
  { rewrite Hl. by apply block_at_last. }
  revert s Hs Ha Hseg. intros s Hs _ _. revert s Hs.
  eapply triple_bind; [by apply (recover_loop_spec _ b fuel (rc_last_ingested st) HI)|].
  intros [[nh|]|].
  - eapply triple_pre with (P' := fun s =>
      (block_at b (number nh) = Some (hash nh) /\ confirmed nh) /\ active b q s);
      [|intros s (Hr & Hnh & _); split; [by apply Hnh|apply Hr]].
    apply triple_pure. intros [Hnh Hconf].
    eapply triple_bind with (Q := fun _ => active b []); [apply triple_modify; intros s; apply queue_clear_active|].
    intros _ s Ha. destruct (shrink_ok b nh Hwf Hnh) as (r & Hshrink & Hrr).
    rewrite (prog_bind_run get_state _ s s s eq_refl).
    rewrite (prog_bind_run _ _ s (blocks_above b (number nh), Building (shrunk b nh r)) s)
      by (unfold lift; by rewrite (ac_builder _ _ _ Ha), Hshrink).
    erewrite prog_bind_run by reflexivity. cbn [snd].
    pose proof (shrunk_wf b nh r Hwf Hnh Hrr) as Hwf'.
    pose proof (set_builder_active _ _ _ _ Ha Hwf' (shrunk_stored _ _ _ r Hwf Hnh (ac_blocks _ _ _ Ha))) as Ha'.
    revert Ha'. match goal with |- active _ _ ?s2 -> _ => generalize s2 end.
    eapply triple_bind; [apply publish_current_keeps|]. intros ?. apply triple_value. intros s2 [Ha2 Hpub].
    split; [|intros state [= <-]; exists (shrunk b nh r), []; split; [done|done|by apply queue_from_nil|done]].
    split_and!; [done|done|]. exists r. split_and!; [apply Ha2|done|done].
  - apply triple_value. intros s (Hr & _ & _). split; [done|]. intros state [= <-]. by exists b, q.
  - apply triple_value. intros s (_ & _ & Hf). split; [|done]. cbn [recovered]. rewrite Hl in Hf. fold (last_number b) in Hf.
    destruct (Nat.le_gt_cases fuel (Z.to_nat (last_number b - first_number b))) as [Hle|Hgt]; [done|].
    by destruct (Hf Hgt).
Qed.

(** ** The system *)

Inductive mode :=
| Stopped
| Active (state : IngestionState).

Abbreviation config := (Service W * mode)%type.

(** The service ends: its builder is gone, its tasks run on. *)
Definition stop (s : Service W) : config :=
  (service_new (sv_world s) (sv_counter s) (sv_detached s ++ (sv_queue s ≫= slot_request)), Stopped).

(** An error ends the service; it is started again later. *)
Definition settle (r : outcome IngestionError IngestionState) (s : Service W) : config :=
  match r with Ok state => (s, Active state) | _ => stop s end.

Inductive system_step : config -> config -> Prop :=
| step_start s r s' :
    initialize os kv cs options s = (r, s') -> system_step (s, Stopped) (settle r s')
| step_tick st event s r s' :
    event_enabled st s event = true -> event_ok event ->
    tick_ingest kv cs options st event s = (r, s') ->
    system_step (s, Active (Ingest st)) (settle r s')
| step_recover st fuel s r s' :
    tick_recover kv cs cancelled fuel st s = (r, s') -> r <> Ok None ->
    system_step (s, Active (Recover st))
      (settle (o ← r; match o with Some state => Ok state | None => Panic end) s')
| step_task s m i request r w' :
    request_typed request -> sv_queue s !! i = Some (Running request) -> run_request os request (sv_world s) = (r, w') ->
    system_step (s, m)
      (mkService w' (sv_counter s) (sv_builder s) (<[i := Finished request r]> (sv_queue s)) (sv_detached s), m)
| step_detached s m i request r w' :
    request_typed request -> sv_detached s !! i = Some request -> run_request os request (sv_world s) = (r, w') ->
    system_step (s, m)
      (mkService w' (sv_counter s) (sv_builder s) (sv_queue s) (delete i (sv_detached s)), m)
| step_environment s m w' :
    grows os kv (wview s) (view w') ->
    system_step (s, m)
      (mkService w' (sv_counter s) (sv_builder s) (sv_queue s) (sv_detached s), m)
| step_stop s m : system_step (s, m) (stop s)
| step_crash s m counter : system_step (s, m) (service_new (sv_world s) counter [], Stopped).

Definition system_inv (c : config) : Prop :=
  match c.2 with Stopped => fresh c.1 | Active state => ready state c.1 end.

Lemma system_inv_base c : system_inv c -> base c.1.
Proof. destruct c as [s [|state]]; simpl; [by intros []|apply ready_base]. Qed.

Lemma new_inv w counter detached : world_ok os kv (view w) -> system_inv (service_new w counter detached, Stopped).
Proof. by split. Qed.

Lemma settle_inv r s :
  match r with Ok state => ready state s | _ => base s end -> system_inv (settle r s).
Proof. destruct r; simpl; [done|intros Hb; by split..]. Qed.

(** The world grows and the queue gets the result of a task. *)
Lemma grow_inv s m w' (q' : list task_slot) detached :
  system_inv (s, m) -> grows os kv (wview s) (view w') ->
  (slot_task <$> q') = (slot_task <$> sv_queue s) ->
  (Forall (slot_ok (view w')) (sv_queue s) -> Forall (slot_ok (view w')) q') ->
  system_inv (mkService w' (sv_counter s) (sv_builder s) q' detached, m).
Proof.
  intros Hi Hg Htasks Hslots. pose proof (world_ok_grows _ _ _ _ Hg (system_inv_base _ Hi)) as Hw.
  assert (forall b q, active b q s ->
    active b q' (mkService w' (sv_counter s) (sv_builder s) q' detached)) as Hact.
  { intros b q Ha. pose proof (st_extends _ (active_stable b q) s w' (sv_counter s) Ha (proj1 Hg) Hw)
      as [Ha1 Ha2 Ha3 Ha4 Ha5 Ha6]. split; try done. apply Hslots. cbn [sv_queue] in Ha5. by rewrite Ha5. }
  assert (main_numbers q' = main_numbers (sv_queue s)) as Hmain.
  { assert (forall q, main_numbers q =
      omap (fun t => match t with IngestBlock n => Some n | _ => None end) (slot_task <$> q)) as Hf.
    { induction q as [|x q IH]; [done|]. rewrite main_numbers_cons, IH, fmap_cons. simpl. by destruct (slot_task x). }
    by rewrite !Hf, Htasks. }
  unfold system_inv in *. destruct m as [|[st|st]]; cbn [fst snd] in *.
  - destruct Hi as [_ Hb Hq]. split; [done|done|]. cbn [sv_queue]. rewrite Hq in Htasks. by apply fmap_nil_inv in Htasks.
  - destruct Hi as (b & q & [Ha Hl Hq Hh]). exists b, q'. split; [by eapply Hact|done| |done].
    unfold queue_from in *. by rewrite Hmain, (ac_queue _ _ _ Ha).
  - destruct Hi as (b & q & [Ha Hl Hh]). exists b, q'. split; [by eapply Hact|done|done].
Qed.

Lemma system_step_inv c c' :
  0 < opt_chain_segment_size options -> system_inv c -> system_step c c' -> system_inv c'.
Proof.
  intros Hsize Hi Hstep. destruct Hstep as [s r s' Hr|st ev s r s' Hen Hev Hr|st fuel s r s' Hr Hne
    |s m i request r w' Ht Hl Hr|s m i request r w' Ht Hl Hr|s m w' Hg|s m|s m counter].
  - apply settle_inv. pose proof (initialize_spec s Hi) as Hs. by rewrite Hr in Hs.
  - apply settle_inv. pose proof (tick_ingest_spec st ev Hsize Hev s (conj Hi Hen)) as Hs. by rewrite Hr in Hs.
  - apply settle_inv. destruct Hi as (b & q & Hi). pose proof (tick_recover_spec st fuel b q s Hi) as Hs.
    rewrite Hr in Hs. destruct r as [[state|]|e|]; [by apply Hs|done..].
  - destruct (run_request_ok _ _ _ _ Ht Hr) as [Hg Hok]. apply grow_inv; [done|done| |].
    + rewrite list_fmap_insert. apply list_insert_id. rewrite list_lookup_fmap, Hl. done.
    + intros Hf. by apply Forall_insert.
  - destruct (run_request_ok _ _ _ _ Ht Hr) as [Hg Hok]. by apply grow_inv.
  - by apply grow_inv.
  - apply new_inv, (system_inv_base _ Hi).
  - apply new_inv, (system_inv_base _ Hi).
Qed.

Lemma system_run_inv c c' :
  0 < opt_chain_segment_size options -> system_inv c -> rtc system_step c c' -> system_inv c'.
Proof. intros Hsize Hi Hr. induction Hr as [|c c1 c' Hs _ IH]; [done|]. apply IH. by eapply system_step_inv. Qed.

End system.
