(* ===== verification/IngestionSpec.v ===== *)
(** * The ingestion service: properties

    - whatever the service, its tasks, the other services and crashes do, the
      published pointer names a stored snapshot of a well-formed chain and the
      blocks of that chain that may not be pruned are stored;
    - blocks are ingested in order, without a gap, and the state of the service
      agrees with the builder;
    - a new block that is not finalized is published before the tick ends;
    - recovery ends, at the last block of the chain that the node agrees on;
    - the compaction services only make changes that ingestion tolerates;
    - the finalized block never goes back. *)

From S2P Require Import Prelude External Text Core Cloud StateClient StateClientFacts ObjectStore Chain ChainFacts ChainView ChainStore.
From S2P Require Import Index FragmentAccess BlockStore StoreFacts Compaction CompactionService CompactionServiceFacts.
From S2P Require Import Ingestion IngestionFacts IngestionSystem StoreSpec ChainViewSpec FilterBlockSpec CompactionServiceSpec.

Section ingestion.
Context `{!Codec} {W : Type} `{Cloud W} `{!BlockIngestion W, !BlockIngestionLaws W}.
Context `{!SerdeJson RecentSegmentPointer, !Archive CanonicalChainSegment, !BlockArchives}.
Variables (os : ObjectStore) (kv : KvClient) (options : IngestionServiceOptions) (cancelled : W -> bool).

Abbreviation wview s := (view (sv_world s)).

(** The states of the system that started in a world. *)
Definition reachable (w0 : W) (c : Service W * mode) : Prop :=
  rtc (system_step os kv options cancelled) (service_new w0 0 [], Stopped) c.

Lemma reachable_inv w0 c :
  0 < opt_chain_segment_size options -> world_ok os kv (view w0) -> reachable w0 c -> system_inv os kv c.
Proof. intros Hs Hw Hr. eapply system_run_inv; [done| |done]. by apply new_inv. Qed.


(** (C13) Blocks are ingested in order.  In every reachable state in which the
    service is active, the builder holds a well-formed chain, the last ingested
    block is its head, and while ingesting the tasks of the queue ask for
    exactly the blocks after the head up to the last queued one, in order.  In
    particular the consistency check of a recovery passes. *)
Theorem ingestion_in_order (w0 : W) (s : Service W) (state : IngestionState) :
  0 < opt_chain_segment_size options -> world_ok os kv (view w0) -> reachable w0 (s, Active state) ->
  exists b, sv_builder s = Building b /\ wf_building b /\
    match state with
    | Ingest st =>
        in_last_ingested st = last_block (info b) /\
        main_numbers (sv_queue s) =
          seqZ (number (in_last_ingested st) + 1) (in_queued_block_number st - number (in_last_ingested st))
    | Recover st =>
        current_segment (sv_builder s) = Ok (segment_of b) /\
        canonical (segment_of b) (number (rc_last_ingested st)) = Ok (rc_last_ingested st)
    end.
Proof.
  intros Hs Hw Hr. pose proof (reachable_inv _ _ Hs Hw Hr) as Hi.
  destruct state as [st|st]; destruct Hi as (b & q & Hi); cbn [fst] in Hi.
  - destruct Hi as [Ha Hl [Hq _] _]. exists b. split_and!; [apply Ha|apply Ha|done|].
    rewrite (ac_queue _ _ _ _ _ Ha), Hl. exact Hq.
  - exists b. pose proof Hi as [Ha _ _]. split_and!; [apply Ha|apply Ha|by eapply recover_check..].
Qed.

(** ** Recovery *)

(** The worlds that the requests of a recovery lead to, and the answers it can
    get. *)
Definition asks (w w' : W) : Prop := exists n r, rpc_block_info n w = (r, w').

Definition answered (w0 : W) (n : Z) (r : outcome IngestionError BlockInfo) : Prop :=
  exists w w', rtc asks w0 w /\ rpc_block_info n w = (r, w').

(** The node returned the block; it returned another block, or none, at its
    number; a request failed. *)
Definition agreed (w0 : W) (c : Cursor) : Prop :=
  exists info, answered w0 (number c) (Ok info) /\ block_cursor info = c.

Definition denied (w0 : W) (c : Cursor) : Prop :=
  exists r, answered w0 (number c) r /\
    match r with
    | Ok info => block_cursor info <> c
    | Err e => is_block_not_found e = true
    | Panic => False
    end.

Definition request_failed (w0 : W) : Prop :=
  exists n r, answered w0 n r /\
    match r with
    | Ok _ => False
    | Err e => is_block_not_found e = false
    | Panic => True
    end.

Lemma answered_step w0 w n r : asks w0 w -> answered w n r -> answered w0 n r.
Proof. intros Ha (w1 & w2 & Hr & Hrpc). exists w1, w2. split; [by eapply rtc_l|done]. Qed.

Lemma agreed_step w0 w c : asks w0 w -> agreed w c -> agreed w0 c.
Proof. intros Ha (info & Hi & Hc). exists info. split; [by eapply answered_step|done]. Qed.

Lemma denied_step w0 w c : asks w0 w -> denied w c -> denied w0 c.
Proof. intros Ha (r & Hi & Hc). exists r. split; [by eapply answered_step|done]. Qed.

Lemma request_failed_step w0 w : asks w0 w -> request_failed w -> request_failed w0.
Proof. intros Ha (n & r & Hi & Hc). exists n, r. split; [by eapply answered_step|done]. Qed.

(** What the search from the candidate [c] downwards found. *)
Definition search_result (b : building) (c : Cursor) (w0 : W)
    (r : outcome IngestionError (option (option Cursor))) (w : W) : Prop :=
  match r with
  | Ok None => True
  | Ok (Some None) => cancelled w = true
  | Ok (Some (Some c')) =>
      block_at b (number c') = Some (hash c') /\ agreed w0 c' /\
      forall n h, number c' < n <= number c -> block_at b n = Some h -> denied w0 (mkCursor n h)
  | _ =>
      request_failed w0 \/
      forall n h, n <= number c -> block_at b n = Some h -> denied w0 (mkCursor n h)
  end.

(** A candidate was denied and the search went on from its parent. *)
Lemma search_step b c c' (w0 w1 w : W) r :
  block_at b (number c) = Some (hash c) -> number c' = number c - 1 ->
  asks w0 w1 -> denied w0 c -> search_result b c' w1 r w -> search_result b c w0 r w.
Proof.
  intros Hc Hn Ha Hd.
  assert (forall n h, n <= number c -> block_at b n = Some h ->
    (n <= number c' -> denied w1 (mkCursor n h)) -> denied w0 (mkCursor n h)) as Hden.
  { intros n h Hle Hh Hlow. destruct (decide (n = number c)) as [->|Hne].
    - rewrite Hc in Hh. injection Hh as <-. by destruct c.
    - apply (denied_step _ w1); [done|]. apply Hlow. lia. }
  destruct r as [[[c2|]|]|e|]; cbn [search_result]; [|done|done| |].
  - intros (Hb & Hag & Hlow). split_and!; [done|by eapply agreed_step|].
    intros n h Hr Hh. apply Hden; [lia|done|]. intros Hle. apply Hlow; [lia|done].
  - intros [Hf|Hlow]; [left; by eapply request_failed_step|right]. intros n h Hle Hh.
    apply Hden; [done|done|]. intros Hle'. by apply Hlow.
  - intros [Hf|Hlow]; [left; by eapply request_failed_step|right]. intros n h Hle Hh.
    apply Hden; [done|done|]. intros Hle'. by apply Hlow.
Qed.

(** The search stopped because there is no parent. *)
Lemma search_bottom b c (w0 w : W) e :
  wf_building b -> block_at b (number c) = Some (hash c) -> number c - 1 < first_number b ->
  denied w0 c -> search_result b c w0 (Err e) w.
Proof.
  intros Hwf Hc Hlt Hd. right. intros n h Hle Hh. pose proof (block_at_range _ _ _ Hwf Hh).
  assert (n = number c) as -> by lia. rewrite Hc in Hh. injection Hh as <-. by destruct c.
Qed.

Lemma canonical_below b n :
  n < first_number b -> exists e, canonical (segment_of b) n = Err e.
Proof.
  intros Hn. unfold canonical. cbn [segment_of seg_info]. fold (first_number b).
  rewrite (proj2 (Z.ltb_lt _ _)) by done. by eexists.
Qed.

Lemma recover_loop_search b fuel c (s s' : Service W) r :
  wf_building b -> block_at b (number c) = Some (hash c) ->
  recover_loop cancelled fuel (segment_of b) c s = (r, s') ->
  sv_builder s' = sv_builder s /\ rtc asks (sv_world s) (sv_world s') /\
  search_result b c (sv_world s) r (sv_world s').
Proof.
  intros Hwf. pose proof (wf_first _ Hwf). pose proof (wf_last _ Hwf). revert c s.
  induction fuel as [|fuel IH]; intros c s Hc; cbn [recover_loop]; [by intros [= <- <-]|].
  pose proof (block_at_range _ _ _ Hwf Hc) as Hrange.
  rewrite (prog_bind_run get_state _ s s s eq_refl).
  destruct (cancelled (sv_world s)) eqn:Hcan; [by intros [= <- <-]|].
  unfold try, on_world, zoom, mbind at 1, prog_bind at 1.
  destruct (rpc_block_info (number c) (sv_world s)) as [r0 w1] eqn:Hrpc.
  assert (asks (sv_world s) w1) as Hask by by exists (number c), r0.
  assert (answered (sv_world s) (number c) r0) as Hans by by exists (sv_world s), w1.
  set (s1 := mkService w1 _ _ _ _).
  assert (rtc asks (sv_world s) (sv_world s1)) as Hrtc by by apply rtc_once.
  assert (denied (sv_world s) c ->
    (if number c =? 0 then fail Model
     else parent ← lift (change_context Model (canonical (segment_of b) (sub64 (number c) 1)));
          recover_loop cancelled fuel (segment_of b) parent) s1 = (r, s') ->
    sv_builder s' = sv_builder s /\ rtc asks (sv_world s) (sv_world s') /\
    search_result b c (sv_world s) r (sv_world s')) as Hnext.
  { intros Hd. destruct (Z.eqb_spec (number c) 0) as [Hz|Hz].
    { intros [= <- <-]. split_and!; [done|done|]. apply search_bottom; try done. lia. }
    rewrite sub64_id by lia. unfold lift, mbind at 1, prog_bind at 1.
    destruct (decide (first_number b <= number c - 1)) as [Hin|Hout].
    - destruct (proj2 (block_at_is_Some b (number c - 1) Hwf)) as [h Hh]; [lia|].
      rewrite (canonical_segment_of b _ h) by done. cbn [change_context]. intros Hrun.
      apply (IH (mkCursor (number c - 1) h)) in Hrun as (Hb & Hr & Hs); [|done].
      split_and!; [done|exact (rtc_l _ _ _ _ Hask Hr)|]. exact (search_step b c (mkCursor (number c - 1) h) _ w1 _ r Hc eq_refl Hask Hd Hs).
    - destruct (canonical_below b (number c - 1)) as [e ->]; [lia|]. cbn [change_context]. intros [= <- <-]. split_and!; [done|done|].
      apply search_bottom; try done. lia. }
  destruct r0 as [remote|e|]; cbn [lift mbind].
  - destruct (decide (block_cursor remote = c)) as [Heq|Hne].
    + unfold lift, mbind, prog_bind. rewrite bool_decide_true by done. intros [= <- <-].
      split_and!; [done|done|]. split_and!; [done|by exists remote|intros; lia].
    + unfold lift, mbind at 1, prog_bind at 1. rewrite bool_decide_false by done. apply Hnext.
      by exists (Ok remote).
  - unfold lift, mbind at 1, prog_bind at 1. destruct (is_block_not_found e) eqn:Hnf.
    + apply Hnext. by exists (Err e).
    + intros [= <- <-]. split_and!; [done|done|]. left. by exists (number c), (Err e).
  - intros [= <- <-]. split_and!; [done|done|]. left. by exists (number c), Panic.
Qed.

(** The outcome of the tick, from that of its search. *)
Lemma tick_recover_search st fuel b q (s s' : Service W) r :
  recovering os kv st b q s ->
  tick_recover kv (mkChainStore os) cancelled fuel st s = (r, s') ->
  match r with
  | Ok None => True
  | Ok (Some (Recover _)) => cancelled (sv_world s') = true /\ sv_builder s' = Building b
  | Ok (Some (Ingest st')) =>
      agreed (sv_world s) (in_last_ingested st') /\
      forall n h, number (in_last_ingested st') < n -> block_at b n = Some h ->
        denied (sv_world s) (mkCursor n h)
  | _ =>
      request_failed (sv_world s) \/
      (forall n h, block_at b n = Some h -> denied (sv_world s) (mkCursor n h)) \/
      (exists s1 r1, publish_current kv (mkChainStore os) s1 = (r1, s') /\ r1 <> Ok tt)
  end.
Proof.
  intros Hs. destruct (recover_check _ _ _ _ _ _ Hs) as [Hseg Hcan]. pose proof Hs as [Ha Hl Hh].
  pose proof (ac_wf _ _ _ _ _ Ha) as Hwf.
  assert (block_at b (number (rc_last_ingested st)) = Some (hash (rc_last_ingested st))) as Hlast.
  { rewrite Hl. by apply block_at_last. }
  assert (forall n h, block_at b n = Some h -> n <= number (rc_last_ingested st)) as Hle.
  { intros n h Hn. rewrite Hl. apply (block_at_range _ _ _ Hwf) in Hn. apply Hn. }
  unfold tick_recover. rewrite (prog_bind_run get_state _ s s s eq_refl).
  rewrite (prog_bind_run _ _ s (segment_of b) s) by (unfold lift; by rewrite Hseg).
  rewrite (prog_bind_run _ _ s (rc_last_ingested st) s) by (unfold lift; by rewrite Hcan).
  rewrite bool_decide_true by done. cbn [negb]. unfold mbind at 1, prog_bind at 1.
  destruct (recover_loop cancelled fuel _ _ s) as [r1 s1] eqn:Hloop.
  destruct (recover_loop_search _ _ _ _ _ _ Hwf Hlast Hloop) as (Hb & _ & Hres).
  rewrite (ac_builder _ _ _ _ _ Ha) in Hb.
  destruct r1 as [[[nh|]|]|e|]; cbn [search_result] in Hres.
  - destruct Hres as (Hnh & Hag & Hden). destruct (shrink_ok b nh Hwf Hnh) as (reorgs & Hshrink & _).
    erewrite prog_bind_run by reflexivity. cbn. erewrite prog_bind_run by reflexivity.
    erewrite prog_bind_run by (unfold lift; cbn; by rewrite Hb, Hshrink).
    erewrite prog_bind_run by reflexivity. unfold mbind at 1, prog_bind at 1.
    destruct (publish_current _ _ _) as [[[]|e|] s2] eqn:Hpub; intros [= <- <-].
    + split; [done|]. intros n h Hlt Hn. apply Hden; [|done]. split; [done|]. by eapply Hle.
    + right. right. by eexists _, _.
    + right. right. by eexists _, _.
  - by intros [= <- <-].
  - by intros [= <- <-].
  - intros [= <- <-]. destruct Hres as [?|Hres]; [by left|right; left]. intros n h Hn. eauto.
  - intros [= <- <-]. destruct Hres as [?|Hres]; [by left|right; left]. intros n h Hn. eauto.
Qed.

(** (C14) Recovery ends at the last block both sides agree on.  In every
    reachable state in which the service recovers, more fuel than the builder
    has blocks is enough.  If the tick stays in recovery then the service has
    been cancelled (and its builder is as it was).  If it goes back to
    ingesting, it goes on from a block of its chain that the node returned,
    the node denied every later block of the chain, those were removed and
    recorded as reorged to it, and this chain is the published one.  If it
    fails, then a request to the node failed, or the node denied all the
    blocks of the builder, or the publication failed. *)
Theorem recovery_ends (w0 : W) (s : Service W) (st : RecoverState) (fuel : nat) r s' :
  0 < opt_chain_segment_size options -> world_ok os kv (view w0) -> reachable w0 (s, Active (Recover st)) ->
  tick_recover kv (mkChainStore os) cancelled fuel st s = (r, s') ->
  exists b, sv_builder s = Building b /\
    match r with
    | Ok None => (fuel < length (blocks b))%nat
    | Ok (Some (Recover st')) =>
        st' = st /\ cancelled (sv_world s') = true /\ sv_builder s' = Building b
    | Ok (Some (Ingest st')) =>
        let new_head := in_last_ingested st' in
        agreed (sv_world s) new_head /\ block_at b (number new_head) = Some (hash new_head) /\
        (forall n h, number new_head < n -> block_at b n = Some h -> denied (sv_world s) (mkCursor n h)) /\
        exists reorgs, sv_builder s' = Building (shrunk b new_head reorgs) /\
          shrunk_reorgs b new_head reorgs /\
          published_segment os kv (wview s') (segment_of (shrunk b new_head reorgs))
    | _ =>
        request_failed (sv_world s) \/
        (forall n h, block_at b n = Some h -> denied (sv_world s) (mkCursor n h)) \/
        (exists s1 r1, publish_current kv (mkChainStore os) s1 = (r1, s') /\ r1 <> Ok tt)
    end.
Proof.
  intros Hs Hw Hr Hrec. destruct (reachable_inv _ _ Hs Hw Hr) as (b & q & Hi). cbn [fst] in Hi.
  pose proof (tick_recover_spec os kv cancelled st fuel b q s Hi) as Hspec. rewrite Hrec in Hspec.
  pose proof (tick_recover_search st fuel b q s s' r Hi Hrec) as Hsearch.
  pose proof (ac_wf _ _ _ _ _ (rg_active _ _ _ _ _ _ Hi)) as Hwf. pose proof (wf_len _ Hwf).
  pose proof (wf_range _ Hwf). exists b. split; [apply Hi|].
  destruct r as [[[st'|st']|]|e|]; [| | |exact Hsearch..].
  - destruct Hspec as [(_ & Hb & Hres) _]. destruct Hsearch as [Hag Hden]. by split_and!.
  - destruct Hspec as [Hst _]. by split.
  - destruct Hspec as [Hn _]. cbn [recovered] in Hn. lia.
Qed.

(** ** Publication of new blocks *)

Lemma push_tasks_frame fuel head_number k (s s' : Service W) r :
  push_tasks options fuel head_number k s = (r, s') ->
  sv_world s' = sv_world s /\ sv_builder s' = sv_builder s.
Proof.
  revert k s. induction fuel as [|fuel IH]; intros k s; cbn [push_tasks]; [by intros [= <- <-]|].
  rewrite (prog_bind_run get_state _ s s s eq_refl).
  destruct (can_push_task options s); [|by intros [= <- <-]]. destruct (_ <? _); [by intros [= <- <-]|].
  erewrite prog_bind_run by reflexivity. intros Hp. by apply IH in Hp.
Qed.

(** (C18) A block is published when it is ingested.  In every reachable state,
    if the first task of the queue returned a block that extends the chain and
    is not below the finalized block, and the tick that takes it succeeds, then
    the block is the new head of the builder and of the service, and the
    published segment is the one of the builder, with this block as its last. *)
Theorem ingested_block_published (w0 : W) (s : Service W) (st : IngestState) request block q b state s' :
  0 < opt_chain_segment_size options -> world_ok os kv (view w0) -> reachable w0 (s, Active (Ingest st)) ->
  sv_queue s = Finished request (Ok (TaskMain block)) :: q -> sv_builder s = Building b ->
  can_grow (Building b) block = true -> number (in_finalized st) <= bi_number block ->
  tick_ingest kv (mkChainStore os) options st EventTask s = (Ok state, s') ->
  exists st' b', state = Ingest st' /\ in_last_ingested st' = block_cursor block /\
    sv_builder s' = Building b' /\ last_block (info b') = block_cursor block /\
    published_segment os kv (wview s') (segment_of b').
Proof.
  intros Hs Hw Hr Hq Hb Hg Hfin. destruct (reachable_inv _ _ Hs Hw Hr) as (b0 & q0 & [Ha Hl Hqf Hh]).
  cbn [fst] in Ha.
  pose proof (ac_builder _ _ _ _ _ Ha) as Hb0. rewrite Hb in Hb0. injection Hb0 as <-.
  pose proof (ac_queue _ _ _ _ _ Ha) as Hq0. rewrite Hq in Hq0. subst q0.
  pose proof Ha as [Ha1 Ha2 Ha3 Ha4 Ha5 Ha6]. apply Forall_cons in Ha6 as [Hslot Ha6].
  destruct request as [n|c g]; [|by destruct Hslot]. destruct Hslot as [Hv Hst]. cbn [tick_ingest].
  set (s1 := mkService (sv_world s) (sv_counter s) (sv_builder s) q (sv_detached s)).
  assert (task_queue_next s = (Ok (Some (Ok (TaskMain block))), s1)) as Hnext.
  { unfold task_queue_next. rewrite (prog_bind_run get_state _ s s s eq_refl). by rewrite Hq. }
  rewrite (prog_bind_run _ _ _ _ _ Hnext). cbn [tick_with_task_result].
  rewrite (prog_bind_run get_state _ s1 s1 s1 eq_refl). change (sv_builder s1) with (sv_builder s). rewrite Hb, Hg.
  cbn [negb]. intros Htick. apply prog_bind_Ok in Htick as (c & s2 & Hmain & Hnxt).
  assert (active os kv b q s1 /\ block_stored os kv (wview s1) (block_cursor block)) as Hpre by done.
  pose proof (ingest_main_spec os kv options st b q block Hs Hv Hg s1 Hpre) as Hspec.
  rewrite Hmain in Hspec. destruct Hspec as (b' & Ha' & -> & Hn & Hpub).
  unfold ingest_next in Hnxt. apply prog_bind_Ok in Hnxt as (k & s3 & Hpush & Hret). injection Hret as <- <-.
  unfold push_loop in Hpush. rewrite (prog_bind_run get_state _ s2 s2 s2 eq_refl) in Hpush.
  apply push_tasks_frame in Hpush as [Hworld Hbuilder].
  assert (last_block (info b') = block_cursor block) as Hlast.
  { revert Hmain. unfold ingest_main. intros Hm. repeat apply prog_bind_Ok in Hm as (? & ? & _ & Hm).
    by injection Hm. }
  eexists _, b'. split_and!; [done|done|by rewrite Hbuilder, (ac_builder _ _ _ _ _ Ha')|done|].
  rewrite Hworld. by apply Hpub.
Qed.

Definition finalized_of (state : IngestionState) : Cursor :=
  match state with Ingest st => in_finalized st | Recover st => rc_finalized st end.

(** If the program returns, the finalized block is not before the one of [st]. *)
Definition post_finalized (st : IngestState) (m : prog (Service W) IngestionError IngestionState) : Prop :=
  forall s state s', m s = (Ok state, s') -> number (in_finalized st) <= number (finalized_of state).

Lemma post_ret st state :
  number (in_finalized st) <= number (finalized_of state) -> post_finalized st (mret state).
Proof. by intros Hf s state' s' [= <- <-]. Qed.

Lemma post_bind {A} st (m : prog (Service W) IngestionError A) f :
  (forall a, post_finalized st (f a)) -> post_finalized st (mbind f m).
Proof. intros Hf s state s' (a & s1 & _ & Hr)%prog_bind_Ok. by eapply Hf. Qed.

Lemma task_result_finalized st r :
  post_finalized st (tick_with_task_result kv (mkChainStore os) options st r).
Proof.
  assert (forall c, post_finalized st (ingest_next options st c)) as Hnext.
  { intros c. apply post_bind. intros k. by apply post_ret. }
  destruct r as [[[block|[p|]]|e|]|]; cbn [tick_with_task_result]; [| | | | |apply Hnext].
  - apply post_bind. intros s0. destruct (negb _); [by apply post_ret|]. apply post_bind. intros c. apply Hnext.
  - apply post_bind. intros ?. by apply post_ret.
  - by apply post_ret.
  - destruct (is_block_not_found e); [by apply post_ret|by intros s state s'].
  - by intros s state s'.
Qed.

(** The finalized block never goes back: a tick of the ingestion state
    that succeeds leaves a state whose finalized block is not before the old
    one. *)
Theorem finalized_monotone (st : IngestState) (event : IngestEvent) (s s' : Service W) state :
  tick_ingest kv (mkChainStore os) options st event s = (Ok state, s') ->
  number (in_finalized st) <= number (finalized_of state).
Proof.
  assert (forall c, post_finalized st (tick_refresh_head options st c)) as Hhead.
  { intros c. unfold tick_refresh_head. case_bool_decide; [by apply post_ret|].
    destruct (_ && _); [by apply post_ret|]. apply post_bind. intros k. by apply post_ret. }
  cut (post_finalized st (tick_ingest kv (mkChainStore os) options st event)); [by intros Hp; apply Hp|].
  destruct event as [[[c|e|]|]| | | |]; cbn [tick_ingest]; try (by apply post_ret); try apply Hhead.
  - apply post_bind. intros f. destruct (Z.ltb_spec (number f) (number (in_finalized st))); [by intros s0 r s1|].
    case_bool_decide; [by apply post_ret|]. apply post_bind. intros ?. apply post_ret. simpl. lia.
  - unfold tick_refresh_pending. destruct (pb_queued _); [by apply post_ret|].
    destruct (negb _); [by apply post_ret|]. apply post_bind. intros ?. by apply post_ret.
  - apply post_bind. intros c. apply Hhead.
  - apply post_bind. intros r. apply task_result_finalized.
Qed.

End ingestion.

(** ** The compaction services are part of the environment *)

Section compaction.
Context `{!Codec} {W : Type} `{Cloud W} `{!ChainViewOps W, !ChainViewLaws W}.
Context `{!Roaring, !BlockArchives, !HashOrder Z}.
Variables (os : ObjectStore) (kv : KvClient).

Abbreviation kept m := (preserves (W := W) (grows os kv) m).

Lemma reads_kept {E A} (m : prog W E A) : preserves same_data m -> kept m.
Proof. apply preserves_weaken, grows_same. Qed.

Lemma object_get_kept path version : kept (object_get os path version).
Proof. intros w r w' Hg. destruct (object_get_inv _ _ _ _ _ _ Hg) as [Hv _]. by rewrite Hv. Qed.

Lemma uncached_get_kept key : kept (uncached_get os key).
Proof.
  apply preserves_bind; [apply _|apply preserves_pcontext, object_get_kept|intros; apply preserves_ret, _].
Qed.

(** [put_if_higher] on the segmented or the grouped block. *)
Lemma put_if_higher_kept fuel key block :
  key = SEGMENTED_KEY \/ key = GROUPED_KEY -> is_u64 block -> kept (put_if_higher fuel kv key block).
Proof.
  intros Hkey Hu w r w' Hp. destruct (put_if_higher_progress _ _ _ _ _ _ _ Hu Hp) as [Hobj Hother _ Hhigh _].
  assert (forall path, object_at os (view w') path = object_at os (view w) path) as Hat.
  { intros path. unfold object_at. by rewrite Hobj. }
  split; [|apply Hother; intros ?%kv_format_key_inj; by destruct Hkey; subst].
  split; [|intros; rewrite Hat; auto..|intros o; by rewrite Hat].
  unfold grouped_of. destruct Hkey as [->| ->].
  - unfold stored_number. rewrite Hother by (intros ?%kv_format_key_inj; done). lia.
  - destruct (stored_number (view w) _) as [old|].
    + destruct (Hhigh old eq_refl) as (n & Hn & ->). exact Hn.
    + simpl. destruct (stored_number (view w') _) eqn:Hs; simpl; [|lia].
      apply stored_number_range in Hs. unfold is_u64 in Hs. lia.
Qed.

Lemma pop_segment_kept st : kept (pop_segment os st).
Proof.
  unfold pop_segment. destruct (gs_queue st) as [|c queue]; [apply preserves_fail, _|].
  apply preserves_bind; [apply _| |].
  { apply preserves_pcontext, preserves_bind; [apply _|apply uncached_get_kept|intros; apply preserves_ret, _]. }
  intros x. apply preserves_bind; [apply _|apply preserves_lift, _|intros; apply preserves_ret, _].
Qed.

Lemma compact_group_kept fuel size group_size first blocks :
  is_u64 (number first) -> kept (compact_group os kv fuel size group_size first blocks).
Proof.
  intros Hu. unfold compact_group. generalize (foldl (fun st i => push_segment first size i st)
    (mkGroupState (group_builder_new size) []) (seqZ 0 (Z.min group_size MAX_BUFFERED_SEGMENTS))). intros st.
  apply preserves_bind; [apply _| |].
  { generalize (seqZ (Z.min group_size MAX_BUFFERED_SEGMENTS) (group_size - Z.min group_size MAX_BUFFERED_SEGMENTS)).
    intros is_. revert st. induction is_ as [|i is_ IH]; intros st; [apply preserves_ret, _|].
    apply preserves_bind; [apply _|apply pop_segment_kept|intros st'; apply IH]. }
  clear st. intros st. apply preserves_bind; [apply _|apply preserves_repeatM; [apply _|apply pop_segment_kept]|].
  clear st. intros st. destruct (negb _); [apply preserves_fail, _|].
  apply preserves_bind; [apply _|apply preserves_lift, _|]. intros group.
  apply preserves_bind; [apply _| |].
  { apply preserves_pcontext. unfold put_group. apply preserves_bind; [apply _| |intros; apply preserves_ret, _].
    apply preserves_pcontext. apply (object_put_grows os kv (KGroup (number first))); [done|done|by right]. }
  intros ?. apply preserves_pcontext, put_if_higher_kept; [by right|apply wrap64_range].
Qed.

Lemma prune_kept cancelled fuel size w r w' :
  0 < size -> grouped_of kv (view w) + 1 < U64 ->
  prune_loop os kv cancelled fuel size w = (r, w') -> grows os kv (view w) (view w').
Proof.
  intros Hs Hu Hp. pose proof (prune_loop_frame os kv cancelled fuel size w r w' Hs Hp) as Hf.
  unfold grouped_of in Hu. destruct (stored_number (view w) (kv_format_key kv GROUPED_KEY)) as [g|] eqn:Hst.
  2: { by apply grows_same. }
  destruct (Hf Hu) as [[Hk Ho _] _]. apply stored_number_range in Hst as Hr. unfold is_u64 in Hr. simpl in Hu.
  assert (forall key, key <> PRUNED_KEY ->
    v_kvs (view w') !! kv_format_key kv key = v_kvs (view w) !! kv_format_key kv key) as Hkv.
  { intros key Hne. apply Hk. by intros ?%kv_format_key_inj. }
  assert (grouped_of kv (view w') = g) as Hg.
  { unfold grouped_of, stored_number in *. rewrite Hkv by done. destruct (v_kvs (view w) !! _); [|done].
    simpl in *. by destruct (decode_block _ _); simplify_eq. }
  assert (forall k, key_ok k -> ~ may_prune g k -> object_at os (view w') (render k) = object_at os (view w) (render k)) as Hat.
  { intros k Hkk Hm. unfold object_at. rewrite Ho; [done|]. apply not_prunable; [done|done|lia]. }
  split; [|by apply Hkv]. split.
  - rewrite Hg. unfold grouped_of. by rewrite Hst.
  - intros c Huc Hn Hsome. rewrite Hg in Hn. change (format_block_key c) with (render (KBlock c)) in *.
    rewrite (Hat (KBlock c)); [done|done|]. simpl. rewrite prefixed_small by (done || lia). lia.
  - intros path o (c & t & sg & ->) Hsome. rewrite (Hat (KRecent c t sg)); [done|done|by intros []].
  - intros o. unfold legacy_path. rewrite (Hat KLegacyRecent); [done|done|by intros []].
Qed.

Lemma compact_segment_kept fuel size first w r w' :
  is_u64 (number first) -> 0 < size /\ number first + size < U64 ->
  compact_segment os kv fuel size first w = (r, w') -> grows os kv (view w) (view w').
Proof.
  intros Hu Hs Hrun. destruct (compact_segment_compacted os first size w Hu Hs fuel kv r w' Hrun) as [[[Ho Hk] _] _].
  assert (forall key, key <> SEGMENTED_KEY ->
    v_kvs (view w') !! kv_format_key kv key = v_kvs (view w) !! kv_format_key kv key) as Hkv.
  { intros key Hne. apply Hk. by intros ?%kv_format_key_inj. }
  assert (forall k, key_ok k -> (forall n name, k <> KSegment n name) ->
    object_at os (view w') (render k) = object_at os (view w) (render k)) as Hat.
  { intros k Hkk Hne. unfold object_at. rewrite Ho; [done|]. intros name [= Heq%full_key_inj].
    pose proof (render_inj k (KSegment (number first) name) Hkk Hu Heq) as Hsame.
    destruct k; simpl in Hsame; try done. exact (Hne _ _ eq_refl). }
  split; [|by apply Hkv]. split.
  - unfold grouped_of, stored_number. rewrite Hkv by done. lia.
  - intros c Huc Hn Hsome. change (format_block_key c) with (render (KBlock c)) in *. by rewrite (Hat (KBlock c)).
  - intros path o (c & t & sg & ->) Hsome. by rewrite (Hat (KRecent c t sg)).
  - intros o. unfold legacy_path. by rewrite (Hat KLegacyRecent).
Qed.

(** (C19) Ingestion tolerates compaction.  Whatever requests fail, a run of
    [compact_segment], of [compact_group] or of the prune loop changes the
    stored data only in ways that the environment of the ingestion system may:
    the recent pointer, the snapshots and the legacy segment are as before, the
    grouped block does not go back, and the blocks above it stay. *)
Theorem compaction_is_environment (cancelled : W -> bool) (fuel : nat) (size group_size blocks : Z)
    (first : Cursor) (w : W) :
  is_u64 (number first) -> 0 < size /\ number first + size < U64 ->
  grouped_of kv (view w) + 1 < U64 ->
  grows os kv (view w) (view (compact_segment os kv fuel size first w).2) /\
  grows os kv (view w) (view (compact_group os kv fuel size group_size first blocks w).2) /\
  grows os kv (view w) (view (prune_loop os kv cancelled fuel size w).2).
Proof.
  intros Hu Hs Hg. split_and!.
  - by eapply compact_segment_kept; [| |apply surjective_pairing].
  - by eapply (compact_group_kept fuel size group_size first blocks Hu), surjective_pairing.
  - by eapply prune_kept; [apply Hs| |apply surjective_pairing].
Qed.

End compaction.

(** ** Witnesses *)

Module IngestionWitness.
Import External.Reference ReferenceArchives ReliableCloud ReferenceCodec ReferenceJson StoreWitness.

(** A node with the blocks 0, 1 and 2. *)
Definition node_hash (n : Z) : Hash := [byte_of_Z (n + 1)].
Definition node_block (n : Z) : BlockInfo := mkBlockInfo n (node_hash n) (if n =? 0 then [] else node_hash (n - 1)).

#[local] Instance node : BlockIngestion World := {|
  supports_pending := false;
  rpc_head_cursor w := (Ok (mkCursor 2 (node_hash 2)), w);
  rpc_finalized_cursor w := (Ok (mkCursor 0 (node_hash 0)), w);
  rpc_block_info n w := if (0 <=? n) && (n <=? 2) then (Ok (node_block n), w) else (Err BlockNotFound, w);
  rpc_ingest_block n w :=
    if (0 <=? n) && (n <=? 2) then (Ok (node_block n, example_block_data), w) else (Err BlockNotFound, w);
  rpc_ingest_pending c g w := (Ok None, w) |}.

#[local] Instance node_laws : BlockIngestionLaws World.
Proof.
  split.
  - by intros w r w' [= <- <-].
  - by intros w r w' [= <- <-].
  - intros n w r w'. cbn. destruct (_ && _); by intros [= <- <-].
  - intros n w r w'. cbn. destruct (_ && _); by intros [= <- <-].
  - by intros c g w r w' [= <- <-].
  - intros w c w' [= <- <-]. done.
  - intros n w info blk w'. cbn.
    assert ((0 <=? n) && (n <=? 2) = true -> n = 0 \/ n = 1 \/ n = 2) as Hn.
    { rewrite andb_true_iff, !Z.leb_le. lia. }
    destruct (_ && _); [|done]. intros [= <- <- <-].
    destruct (Hn eq_refl) as [-> | [-> | ->]]; vm_compute; (split; [discriminate|]); (split; reflexivity).
  - by intros c g w info blk w' _ [= ? ? ?].
Defined.

Definition options_example : IngestionServiceOptions := mkIngestionOptions 2 10 1 None.

Definition kv_example : KvClient := CompactionServiceWitness.kv_example.

Abbreviation cs := (mkChainStore os_example).
Abbreviation never := (fun _ : World => false).

(** Start, a new head, the task of block 1, its result, and a reorg. *)
Definition service0 : Service World := service_new world_empty 0 [].
Definition started := initialize os_example kv_example cs options_example service0.
Definition state0 : IngestState := ingest_from (mkCursor 0 (node_hash 0)) (mkCursor 2 (node_hash 2)) (mkCursor 0 (node_hash 0)).

Lemma started_ok : started.1 = Ok (Ingest state0).
Proof. vm_compute. reflexivity. Qed.

Definition head1 : Cursor := mkCursor 1 (node_hash 1).
Definition state1 : IngestState := mkIngest (mkCursor 0 (node_hash 0)) head1 (mkCursor 0 (node_hash 0)) 1 pending_default.
Definition headed := tick_ingest kv_example cs options_example state0 (EventNewHead (Some (Ok head1))) started.2.

Lemma headed_ok : headed.1 = Ok (Ingest state1).
Proof. vm_compute. reflexivity. Qed.

Definition task_run := run_request os_example (IngestBlock 1) (sv_world headed.2).
Definition tasked : Service World :=
  mkService task_run.2 (sv_counter headed.2) (sv_builder headed.2)
    (<[0%nat := Finished (IngestBlock 1) task_run.1]> (sv_queue headed.2)) (sv_detached headed.2).

Definition state2 : IngestState := mkIngest (mkCursor 0 (node_hash 0)) head1 head1 1 pending_default.
Definition ingested := tick_ingest kv_example cs options_example state1 EventTask tasked.

Lemma ingested_ok : ingested.1 = Ok (Ingest state2).
Proof. vm_compute. reflexivity. Qed.

Definition state3 : RecoverState := mkRecover (mkCursor 0 (node_hash 0)) head1 head1.
Definition reorged :=
  tick_ingest kv_example cs options_example state2 (EventNewHead (Some (Ok (mkCursor 0 (node_hash 0))))) ingested.2.

Lemma reorged_ok : reorged.1 = Ok (Recover state3).
Proof. vm_compute. reflexivity. Qed.

Definition recovered_example := tick_recover kv_example cs never 5 state3 reorged.2.

Lemma empty_world_ok : IngestionFacts.world_ok os_example kv_example (view world_empty).
Proof.
  split.
  - intros e. change (v_kvs (view world_empty)) with (∅ : KeyValues). by rewrite lookup_empty.
  - intros o. unfold object_at. change (v_objects (view world_empty)) with (∅ : Objects). by rewrite lookup_empty.
Qed.

Lemma size_example : 0 < opt_chain_segment_size options_example.
Proof. reflexivity. Qed.

Lemma head_example n : 0 <= n < 10 -> head_ok (mkCursor n (node_hash n)).
Proof. intros Hn. unfold head_ok, U64. simpl. lia. Qed.

Lemma reach_tasked : reachable os_example kv_example options_example never world_empty (tasked, Active (Ingest state1)).
Proof.
  eapply rtc_l; [exact (step_start _ _ _ _ _ _ _ (surjective_pairing started))|].
  rewrite started_ok. cbn [settle].
  eapply rtc_l.
  { apply (step_tick _ _ _ _ state0 (EventNewHead (Some (Ok head1))) started.2 _ _ eq_refl (head_example 1 ltac:(lia))
      (surjective_pairing headed)). }
  rewrite headed_ok. cbn [settle]. apply rtc_once.
  assert (sv_queue headed.2 !! 0%nat = Some (Running (IngestBlock 1))) as Hq by (vm_compute; reflexivity).
  exact (step_task _ _ _ _ headed.2 _ 0%nat (IngestBlock 1) _ _ I Hq (surjective_pairing task_run)).
Qed.

Lemma reach_reorged : reachable os_example kv_example options_example never world_empty (reorged.2, Active (Recover state3)).
Proof.
  unfold reachable. etrans; [exact reach_tasked|].
  assert (event_enabled state1 tasked EventTask = true) as Hen by (vm_compute; reflexivity).
  pose proof (surjective_pairing ingested) as Ht. unfold ingested at 1 in Ht.
  eapply rtc_l; [exact (step_tick _ _ _ _ state1 EventTask tasked ingested.1 ingested.2 Hen I Ht)|].
  rewrite ingested_ok. cbn [settle]. eapply rtc_l.
  { apply (step_tick _ _ _ _ state2 (EventNewHead (Some (Ok (mkCursor 0 (node_hash 0))))) ingested.2 _ _ eq_refl
      (head_example 0 ltac:(lia)) (surjective_pairing reorged)). }
  rewrite reorged_ok. apply rtc_refl.
Qed.


Lemma ingestion_in_order_witness :
  main_numbers (sv_queue tasked) = [1].
Proof.
  destruct (ingestion_in_order os_example kv_example options_example never world_empty tasked _
    size_example empty_world_ok reach_tasked) as (b & _ & _ & _ & Hq). exact Hq.
Defined.

Lemma recovery_ends_witness :
  exists state, recovered_example.1 = Ok (Some (Ingest state)) /\
    agreed (sv_world reorged.2) (in_last_ingested state).
Proof.
  assert (recovered_example.1 = Ok (Some (Ingest (ingest_from (mkCursor 0 (node_hash 0)) head1 head1)))) as Hr
    by (vm_compute; reflexivity).
  pose proof (surjective_pairing recovered_example) as Hrun. rewrite Hr in Hrun.
  destruct (recovery_ends os_example kv_example options_example never world_empty reorged.2 state3 5 _ _
    size_example empty_world_ok reach_reorged Hrun) as (b & _ & Hag & _).
  eexists. split; [exact Hr|exact Hag].
Defined.

Lemma ingested_block_published_witness :
  exists b', sv_builder ingested.2 = Building b' /\ last_block (info b') = head1 /\
    published_segment os_example kv_example (view (sv_world ingested.2)) (segment_of b').
Proof.
  assert (exists b, sv_builder tasked = Building b) as [b Hb] by (vm_compute; eexists; reflexivity).
  assert (can_grow (sv_builder tasked) (node_block 1) = true) as Hg by (vm_compute; reflexivity).
  assert (sv_queue tasked = [Finished (IngestBlock 1) (Ok (TaskMain (node_block 1)))]) as Hq by (vm_compute; reflexivity).
  rewrite Hb in Hg.
  assert (tick_ingest kv_example cs options_example state1 EventTask tasked = (Ok (Ingest state2), ingested.2)) as Ht.
  { rewrite <- ingested_ok. apply surjective_pairing. }
  destruct (ingested_block_published os_example kv_example options_example never world_empty tasked state1
    (IngestBlock 1) (node_block 1) [] b _ _ size_example empty_world_ok reach_tasked Hq Hb Hg
    ltac:(vm_compute; discriminate) Ht) as (st' & b' & _ & _ & Hb' & Hl & Hp).
  exists b'. split; [exact Hb'|]. split; [exact Hl|exact Hp].
Defined.

Lemma finalized_monotone_witness :
  number (in_finalized state0) <= number (finalized_of (Ingest state1)).
Proof.
  apply (finalized_monotone os_example kv_example options_example state0 (EventNewHead (Some (Ok head1)))
    started.2 headed.2). rewrite <- headed_ok. apply surjective_pairing.
Defined.

#[local] Instance view_example : ChainViewOps World := chain_view_ops (fun _ => ChainViewSpec.example_view).
#[local] Instance view_example_laws : ChainViewLaws World.
Proof. apply chain_view_laws. intros w. vm_compute. split; [discriminate|reflexivity]. Defined.

Lemma compaction_is_environment_witness :
  grows os_example kv_example (view CompactionServiceWitness.stored2)
    (view (compact_segment os_example kv_example 1 2 (mkCursor 10 [x0a]) CompactionServiceWitness.stored2).2).
Proof.
  assert (is_u64 (number (mkCursor 10 [x0a]))) as Hu by (vm_compute; split; [discriminate|reflexivity]).
  assert (0 < 2 /\ number (mkCursor 10 [x0a]) + 2 < U64) as Hs by (vm_compute; split; reflexivity).
  assert (grouped_of kv_example (view CompactionServiceWitness.stored2) + 1 < U64) as Hg by (vm_compute; reflexivity).
  exact (proj1 (compaction_is_environment os_example kv_example never 1 2 1 2 (mkCursor 10 [x0a])
    CompactionServiceWitness.stored2 Hu Hs Hg)).
Defined.

End IngestionWitness.
