(* ===== verification/DataStream.v ===== *)
(** * The data stream (common/src/data_stream/stream.rs and segment_stream.rs)

    The task that serves one client.  Each tick asks the chain view for the
    block after the current one and sends its data, tells the client to
    invalidate what a reorganisation removed, or waits at the head.  Blocks that
    were compacted are read through a second task, the segment stream, which
    uses the index of each group to skip the segments without data.

    The chain view, the client's channel and the cancellation token are the
    interfaces [StreamOps] and [ClientOps]: each operation may end with a changed world, which is
    how the other tasks interleave with the stream.  A loop that waits for
    events, or that follows the compacted blocks, takes fuel and returns [None]
    when it is still running after that many iterations; the states it leaves
    are the intermediate states of the task. *)

From S2P Require Import Prelude External Text Core Cloud StateClient ObjectStore Chain ChainView Index Query.
From S2P Require Import Encoding FragmentAccess FilterBlock BlockStore Compaction CompactionService.

(** ** Messages *)

Inductive DataFinality := FinalityUnknown | FinalityPending | FinalityAccepted | FinalityFinalized.

#[export] Instance DataFinality_eq_dec : EqDecision DataFinality.
Proof. solve_decision. Defined.

Inductive DataProduction := ProductionUnknown | ProductionBackfill | ProductionLive.

Record Data := mkData {
  data_cursor : option ProtoCursor;
  data_end_cursor : option ProtoCursor;
  data_blocks : list (list byte);
  data_finality : DataFinality;
  data_production : DataProduction }.

Inductive Message :=
| MsgData (data : Data)
| MsgInvalidate (cursor : option ProtoCursor) (removed : list ProtoCursor)
| MsgFinalize (cursor : option ProtoCursor).

(** ** The other tasks *)

(** What a [select!] of the stream waited for. *)
Inductive FinalizedWait := FwCancelled | FwFinalized.
Inductive HeadWait := HwCancelled | HwHead | HwFinalized.
Inductive PendingWait := PwCancelled | PwHead | PwFinalized | PwPending.

(** The branch that the [select!] of the segment consumer takes among those
    that are ready. *)
Inductive SegmentBranch := BranchCancelled | BranchFinished | BranchSegment.

(** [SHA-256]. *)
Class Sha256 := { sha256 : list byte -> list byte }.

(** The channel to the client, the cancellation token and the notifications of
    the chain view. *)
Class ClientOps (W : Type) := {
  (** [ct.run_until_cancelled(tx.reserve())]: whether a permit was obtained;
      not when the stream is cancelled or the client is gone *)
  reserve : prog W DataStreamError bool;
  is_cancelled : prog W DataStreamError bool;
  is_closed : prog W DataStreamError bool;
  wait_finalized : prog W DataStreamError FinalizedWait;
  wait_head : prog W DataStreamError HeadWait;
  wait_pending : prog W DataStreamError PendingWait;
  select_segment : prog W DataStreamError SegmentBranch }.

(** The chain view as the stream uses it. *)
Class StreamOps (W : Type) := {
  #[global] stream_chain_view :: ChainViewOps W;
  #[global] stream_client :: ClientOps W;
  view_has_segment : Z -> prog W ChainViewError bool;
  view_group_start : Z -> prog W ChainViewError Z;
  view_group_size : prog W ChainViewError Z;
  view_segment_size : prog W ChainViewError Z;
  view_pending_generation : prog W ChainViewError (option Z) }.

(** A loop over a list that threads a value. *)
Fixpoint pfold {S E A B} (f : B -> A -> prog S E B) (b : B) (l : list A) : prog S E B :=
  match l with
  | [] => mret b
  | x :: l => b ← f b x; pfold f b l
  end.

(** ** State *)

Record DataStream := mkDataStream {
  ds_block_filter : list BlockFilter;
  ds_current : option Cursor;
  ds_finalized : Cursor;
  ds_finality : DataFinality;
  ds_names : gmap Z string;
  ds_prefetch : Z }.

Definition data_stream_new (block_filter : list BlockFilter) (starting : option Cursor)
    (finalized : Cursor) (finality : DataFinality) (fragment_id_to_name : gmap Z string)
    (prefetch_segment_count : Z) : DataStream :=
  mkDataStream block_filter starting finalized finality fragment_id_to_name prefetch_segment_count.

Definition set_current (current : option Cursor) (self : DataStream) : DataStream :=
  mkDataStream (ds_block_filter self) current (ds_finalized self) (ds_finality self)
    (ds_names self) (ds_prefetch self).

Definition set_finalized (finalized : Cursor) (self : DataStream) : DataStream :=
  mkDataStream (ds_block_filter self) (ds_current self) finalized (ds_finality self)
    (ds_names self) (ds_prefetch self).

(** The stream, the messages it has sent so far and the world. *)
Record StreamTask (W : Type) := mkTask {
  tk_stream : DataStream;
  tk_sent : list Message;
  tk_world : W }.
Arguments mkTask {W} _ _ _.
Arguments tk_stream {W} _.
Arguments tk_sent {W} _.
Arguments tk_world {W} _.

(** ** SegmentStream *)

Definition GROUP_QUEUE_SIZE : Z := 4.

(** The variables of the loop over the groups. *)
Record GroupLoop := mkGroupLoop {
  gl_current : Z;
  gl_next : Z;
  gl_queue : list Z;
  gl_grouped : Cursor }.

(** The inner [while]: one group more in the queue at each iteration. *)
Fixpoint fill_group_queue (fuel : nat) (group_size segment_size : Z) (st : GroupLoop) : GroupLoop :=
  match fuel with
  | O => st
  | S fuel =>
      if (Z.of_nat (length (gl_queue st)) <? GROUP_QUEUE_SIZE) && (gl_next st <=? number (gl_grouped st))
      then fill_group_queue fuel group_size segment_size
             (mkGroupLoop (gl_current st) (add64 (gl_next st) (mul64 group_size segment_size))
                (gl_queue st ++ [gl_next st]) (gl_grouped st))
      else st
  end.

(** How a loop of the segment stream ended: at its condition, with the current
    block number; by a [return]; or not yet. *)
Inductive LoopEnd := LoopDone (current_block_number : Z) | LoopReturned | LoopRunning.

Section segment_stream.
Context `{!Roaring, !BlockArchives, !HashOrder Z}.

(** The blocks of the group that may have data and the fragments to fetch. *)
Definition group_filter (indexes : IndexFragment) (fragment_id : Z) (acc : RoaringBitmap * gset Z)
    (f : Filter) : outcome DataStreamError (RoaringBitmap * gset Z) :=
  rows ← change_context DataStreamErr (filter_rows f indexes);
  if bool_decide (rows = ∅) then Ok acc
  else Ok (acc.1 ∪ rows, list_to_set (joins f) ∪ ({[fragment_id]} ∪ acc.2)).

Definition group_fragment (group : SegmentGroup) (acc : RoaringBitmap * gset Z)
    (entry : Z * list Filter) : outcome DataStreamError (RoaringBitmap * gset Z) :=
  indexes ← ok_or DataStreamErr
    (find_first (fun f => if_fragment_id f =? entry.1) (ig_indexes (gr_index group)));
  ofold (group_filter indexes entry.1) acc entry.2.

Definition group_block_filter (group : SegmentGroup) (current group_size segment_size : Z)
    (acc : RoaringBitmap * gset Z) (bf : BlockFilter) :
    outcome DataStreamError (RoaringBitmap * gset Z) :=
  let blocks_with_data :=
    if always_include_header bf
    then acc.1 ∪ bitmap_range (wrap32 current) (wrap32 (add64 current (mul64 group_size segment_size)))
    else acc.1 in
  ofold (group_fragment group) (blocks_with_data, acc.2) (block_filter_iter bf).

Definition group_blocks (block_filter : list BlockFilter) (group : SegmentGroup)
    (current group_size segment_size : Z) : outcome DataStreamError (RoaringBitmap * gset Z) :=
  let fragment_ids_needed : gset Z :=
    if bool_decide (block_filter = []) then {[HEADER_FRAGMENT_ID]}
    else {[INDEX_FRAGMENT_ID; JOIN_FRAGMENT_ID; HEADER_FRAGMENT_ID]} in
  ofold (group_block_filter group current group_size segment_size) (∅, fragment_ids_needed) block_filter.

Context `{!Codec} {W : Type} `{Cloud W} `{!StreamOps W}.
Variable client : ObjectStore.
Variable block_filter : list BlockFilter.
Variable names : gmap Z string.

(** The world and the fetches that were sent to the consumer.  A send fails
    only when the consumer has returned, and then nothing observes the rest of
    the task. *)
Abbreviation Producer := (W * list SegmentAccessFetch)%type.

Definition on_producer {E A} (m : prog W E A) : prog Producer E A :=
  zoom fst (fun w p => (w, p.2)) m.

Definition send_fetch (fetch : SegmentAccessFetch) : prog Producer DataStreamError unit :=
  modify (fun p => (p.1, p.2 ++ [fetch])).

(** Starts the fetch of one fragment of a segment. *)
Definition fetch_fragment (segment_cursor : Cursor) (fetch : SegmentAccessFetch) (fragment_id : Z) :
    prog Producer DataStreamError SegmentAccessFetch :=
  segment_name ← lift (ok_or DataStreamErr (names !! fragment_id));
  r ← on_producer (try (reader_get_segment client segment_cursor (str segment_name)));
  mret (insert_fragment fetch fragment_id (change_context Foyer r)).

Definition fetch_segment (segment_start : Z) (blocks : RoaringBitmap) (fragment_ids_needed : gset Z) :
    prog Producer DataStreamError unit :=
  fetch ← pfold (fetch_fragment (new_finalized segment_start)) (segment_fetch_new segment_start blocks)
    (hash_iter [segment_start] fragment_ids_needed);
  send_fetch fetch.

(** One iteration of the loop over the segments of a group. *)
Definition group_segment (current segment_size : Z) (needed : RoaringBitmap * gset Z)
    (segment_offset : Z) : prog Producer DataStreamError unit :=
  let segment_start := add64 current (mul64 segment_offset segment_size) in
  let segment_end_non_inclusive := wrap32 (add64 segment_start segment_size) in
  let segment_block_range :=
    bitmap_range (wrap32 segment_start) segment_end_non_inclusive ∩ needed.1 in
  if bool_decide (segment_block_range = ∅) then mret tt
  else fetch_segment segment_start segment_block_range needed.2.

(** The loop over the groups.  The queue holds the first blocks of the groups
    whose download was started; a download ends when it is taken out. *)
Fixpoint group_loop (fuel : nat) (group_size segment_size : Z) (st : GroupLoop) :
    prog Producer DataStreamError LoopEnd :=
  match fuel with
  | O => mret LoopRunning
  | S fuel =>
      if negb (gl_current st <=? number (gl_grouped st)) then mret (LoopDone (gl_current st))
      else
        cancelled ← on_producer is_cancelled;
        if (cancelled : bool) then mret LoopReturned
        else
          let st := fill_group_queue (Z.to_nat GROUP_QUEUE_SIZE) group_size segment_size st in
          match gl_queue st with
          | [] => fail DataStreamErr
          | fetched :: queue =>
              let fetched_group_cursor := new_finalized fetched in
              group_entry ← pcontext DataStreamErr (on_producer (reader_get_group client fetched_group_cursor));
              if negb (bool_decide (new_finalized (gl_current st) = fetched_group_cursor))
              then fail DataStreamErr
              else
                group ← lift (access_unchecked (A := SegmentGroup) group_entry);
                needed ← lift (group_blocks block_filter group (gl_current st) group_size segment_size);
                _ ← forM_ (group_segment (gl_current st) segment_size needed) (seqZ 0 group_size);
                let current := add64 (gl_current st) (mul64 segment_size group_size) in
                if number (gl_grouped st) =? current then
                  new_grouped ← pcontext DataStreamErr (on_producer view_grouped_cursor);
                  match new_grouped with
                  | None => mret LoopReturned
                  | Some grouped =>
                      group_loop fuel group_size segment_size (mkGroupLoop current (gl_next st) queue grouped)
                  end
                else
                  group_loop fuel group_size segment_size (mkGroupLoop current (gl_next st) queue (gl_grouped st))
          end
  end.

(** The loop over the segments after the last group. *)
Fixpoint segment_loop (fuel : nat) (segment_size : Z) (segmented : Cursor) (current : Z) :
    prog Producer DataStreamError LoopEnd :=
  match fuel with
  | O => mret LoopRunning
  | S fuel =>
      if negb (current <=? number segmented) then mret (LoopDone current)
      else
        cancelled ← on_producer is_cancelled;
        if (cancelled : bool) then mret LoopReturned
        else
          let segment_block_range :=
            bitmap_range (wrap32 current) (wrap32 (add64 current segment_size)) in
          let fragment_ids_needed : gset Z :=
            foldl (fun ids bf => all_fragment_ids bf ∪ ids)
              {[INDEX_FRAGMENT_ID; JOIN_FRAGMENT_ID; HEADER_FRAGMENT_ID]} block_filter in
          _ ← fetch_segment current segment_block_range fragment_ids_needed;
          segment_loop fuel segment_size segmented (add64 current segment_size)
  end.

(** [SegmentStream::start]. *)
Definition segment_stream_start (fuel : nat) (starting_cursor : Cursor) :
    prog Producer DataStreamError (option unit) :=
  group_size ← pcontext DataStreamErr (on_producer view_group_size);
  segment_size ← pcontext DataStreamErr (on_producer view_segment_size);
  current ← pcontext DataStreamErr (on_producer (view_group_start (number starting_cursor)));
  grouped ← pcontext DataStreamErr (on_producer view_grouped_cursor);
  groups ←
    match grouped with
    | None => mret (LoopDone current)
    | Some grouped => group_loop fuel group_size segment_size (mkGroupLoop current current [] grouped)
    end;
  match groups with
  | LoopReturned => mret (Some tt)
  | LoopRunning => mret None
  | LoopDone current =>
      segmented ← pcontext DataStreamErr (on_producer view_segmented_cursor);
      match segmented with
      | None => mret (Some tt)
      | Some segmented =>
          segments ← segment_loop fuel segment_size segmented current;
          match segments with
          | LoopRunning => mret None
          | _ => mret (Some tt)
          end
      end
  end.

End segment_stream.

(** ** DataStream *)

Section data_stream.
Context `{!Codec} {W : Type} `{Cloud W} `{!StreamOps W}.
Context `{!Roaring, !Prost, !BlockArchives, !HashOrder Z, !Sha256}.
Variable client : ObjectStore.

Abbreviation Task := (StreamTask W).

Definition on_world {E A} (m : prog W E A) : prog Task E A :=
  zoom tk_world (fun w t => mkTask (tk_stream t) (tk_sent t) w) m.

Definition get_stream : prog Task DataStreamError DataStream := t ← get_state; mret (tk_stream t).

Definition modify_stream (f : DataStream -> DataStream) : prog Task DataStreamError unit :=
  modify (fun t => mkTask (f (tk_stream t)) (tk_sent t) (tk_world t)).

(** Waits for a permit and sends; [false] when there is none, after which every
    caller returns. *)
Definition send (message : Message) : prog Task DataStreamError bool :=
  permit ← on_world reserve;
  if (permit : bool) then
    _ ← modify (fun t => mkTask (tk_stream t) (tk_sent t ++ [message]) (tk_world t));
    mret true
  else mret false.

(** [self.finalized = self.chain_view.get_finalized_cursor()]. *)
Definition refresh_finalized : prog Task DataStreamError unit :=
  finalized ← pcontext DataStreamErr (on_world view_finalized_cursor);
  modify_stream (set_finalized finalized).

Definition stream_filter (self : DataStream) (access : FragmentAccess) (is_live : bool) :
    prog Task DataStreamError (bool * list (list byte)) :=
  lift (filter_fragment (ds_block_filter self) (ds_names self) access is_live).

Definition send_finalize_message : prog Task DataStreamError unit :=
  self ← get_stream;
  _ ← send (MsgFinalize (Some (cursor_to_proto (ds_finalized self))));
  mret tt.

(** One block of a fetched segment; [false] when the tick returns. *)
Definition stream_segment_block (cursor : Cursor) (block_access : SegmentBlockAccess) :
    prog Task DataStreamError bool :=
  self ← get_stream;
  let block_end_cursor := segment_block_cursor block_access in
  if number block_end_cursor <? number cursor then mret true
  else
    let proto_cursor :=
      if number block_end_cursor =? 0 then None
      else Some (cursor_to_proto (new_finalized (sub64 (number block_end_cursor) 1))) in
    r ← stream_filter self (AccessSegment block_access) false;
    sent ←
      (if (r.1 : bool)
       then send (MsgData (mkData proto_cursor (Some (cursor_to_proto block_end_cursor)) r.2
                             FinalityFinalized ProductionBackfill))
       else mret true);
    if (sent : bool) then
      _ ← modify_stream (set_current (Some block_end_cursor));
      mret true
    else mret false.

Fixpoint stream_segment_blocks (cursor : Cursor) (blocks : list SegmentBlockAccess) :
    prog Task DataStreamError bool :=
  match blocks with
  | [] => mret true
  | block_access :: blocks =>
      continue ← stream_segment_block cursor block_access;
      if (continue : bool) then stream_segment_blocks cursor blocks else mret false
  end.

(** The loop over the fetches, after the segment stream ended with [result]
    (or is still running).  The handle of the segment stream may be seen to
    have failed before all its fetches are consumed. *)
Fixpoint consume_segments (cursor : Cursor) (result : outcome DataStreamError (option unit))
    (fetches : list SegmentAccessFetch) : prog Task DataStreamError (option unit) :=
  branch ← on_world select_segment;
  match branch, result with
  | BranchCancelled, _ => mret (Some tt)
  | BranchFinished, Err _ => fail DataStreamErr
  | BranchFinished, Panic => fail DataStreamErr
  | _, _ =>
      match fetches with
      | [] =>
          match result with
          | Ok None => mret None
          | _ => mret (Some tt)
          end
      | segment_fetch :: fetches =>
          segment_access ← lift (change_context DataStreamErr (segment_wait segment_fetch));
          blocks ← lift (segment_iter segment_access);
          continue ← stream_segment_blocks cursor blocks;
          if (continue : bool) then consume_segments cursor result fetches else mret (Some tt)
      end
  end.

(** The segment stream is run to its end (or until it runs out of fuel) before
    its fetches are consumed: the channel only bounds how far it runs ahead.
    [mpsc::channel] panics on a capacity of zero. *)
Definition tick_segment_stream (fuel : nat) (cursor : Cursor) : prog Task DataStreamError (option unit) :=
  self ← get_stream;
  if ds_prefetch self =? 0 then lift Panic
  else
    p ← (fun t =>
           let '(r, (w, fetches)) :=
             segment_stream_start client (ds_block_filter self) (ds_names self) fuel cursor (tk_world t, []) in
           (Ok (r, fetches), mkTask (tk_stream t) (tk_sent t) w));
    consume_segments cursor p.1 p.2.

Definition tick_single (cursor : Cursor) (is_head : bool) : prog Task DataStreamError unit :=
  self ← get_stream;
  let proto_cursor := cursor_to_proto <$> ds_current self in
  let proto_end_cursor := Some (cursor_to_proto cursor) in
  finalized ← pcontext DataStreamErr (on_world view_finalized_cursor);
  let finality := if strict_after cursor finalized then FinalityAccepted else FinalityFinalized in
  block_entry ← pcontext DataStreamErr (on_world (reader_get_block client cursor));
  r ← stream_filter self (AccessBlock block_entry) is_head;
  sent ←
    (if (r.1 : bool)
     then send (MsgData (mkData proto_cursor proto_end_cursor r.2 finality
                           (if is_head then ProductionLive else ProductionBackfill)))
     else mret true);
  if (sent : bool) then modify_stream (set_current (Some cursor)) else mret tt.

Fixpoint tick_at_head (fuel : nat) : prog Task DataStreamError (option unit) :=
  match fuel with
  | O => mret None
  | S fuel =>
      event ← on_world wait_head;
      match event with
      | HwCancelled => mret (Some tt)
      | HwHead => mret (Some tt)
      | HwFinalized =>
          _ ← refresh_finalized;
          _ ← send_finalize_message;
          tick_at_head fuel
      end
  end.

(** [send_pending_block] returns the content hash to keep. *)
Definition send_pending_block (self : DataStream) (head : Cursor) (generation : Z)
    (content_hash : list byte) : prog Task DataStreamError (list byte) :=
  let end_cursor := new_pending (add64 (number head) 1) in
  let proto_cursor := Some (cursor_to_proto head) in
  let proto_end_cursor := Some (cursor_to_proto end_cursor) in
  block_entry ← pcontext DataStreamErr
    (on_world (reader_get_pending_block client end_cursor generation));
  r ← stream_filter self (AccessBlock block_entry) false;
  if (r.1 : bool) then
    let new_content_hash := sha256 (concat r.2) in
    if bool_decide (new_content_hash = content_hash) then mret content_hash
    else
      sent ← send (MsgData (mkData proto_cursor proto_end_cursor r.2 FinalityPending ProductionLive));
      if (sent : bool) then mret new_content_hash else mret content_hash
  else mret content_hash.

Fixpoint pending_loop (fuel : nat) (pending_generation : option Z) (content_hash : list byte) :
    prog Task DataStreamError (option unit) :=
  match fuel with
  | O => mret None
  | S fuel =>
      self ← get_stream;
      content_hash ←
        match pending_generation, ds_current self with
        | Some generation, Some head => send_pending_block self head generation content_hash
        | _, _ => mret content_hash
        end;
      event ← on_world wait_pending;
      match event with
      | PwCancelled => mret (Some tt)
      | PwHead => mret (Some tt)
      | PwFinalized =>
          _ ← refresh_finalized;
          _ ← send_finalize_message;
          pending_loop fuel None content_hash
      | PwPending =>
          generation ← pcontext DataStreamErr (on_world view_pending_generation);
          pending_loop fuel generation content_hash
      end
  end.

Definition tick_at_head_pending (fuel : nat) : prog Task DataStreamError (option unit) :=
  generation ← pcontext DataStreamErr (on_world view_pending_generation);
  pending_loop fuel generation [].

Definition tick (fuel : nat) : prog Task DataStreamError (option unit) :=
  self ← get_stream;
  next ← pcontext DataStreamErr (on_world (view_next_cursor (ds_current self)));
  match next with
  | Invalidate cursor =>
      sent ← send (MsgInvalidate (Some (cursor_to_proto cursor)) []);
      if (sent : bool) then
        _ ← modify_stream (set_current (Some cursor));
        mret (Some tt)
      else mret (Some tt)
  | AtHead =>
      if bool_decide (ds_finality self = FinalityPending)
      then tick_at_head_pending fuel else tick_at_head fuel
  | NextContinue next_cursor is_head =>
      if bool_decide (ds_finality self = FinalityFinalized) && strict_after next_cursor (ds_finalized self)
      then
        event ← on_world wait_finalized;
        match event with
        | FwCancelled => mret (Some tt)
        | FwFinalized => _ ← refresh_finalized; mret (Some tt)
        end
      else
        has_segment ← pcontext DataStreamErr (on_world (view_has_segment (number next_cursor)));
        if (has_segment : bool) then tick_segment_stream fuel next_cursor
        else _ ← tick_single next_cursor is_head; mret (Some tt)
  end.

(** [DataStream::start] after [n] iterations of its loop. *)
Fixpoint stream_start (fuel n : nat) : prog Task DataStreamError (option unit) :=
  match n with
  | O => mret None
  | S n =>
      cancelled ← on_world is_cancelled;
      closed ← on_world is_closed;
      if (cancelled : bool) || (closed : bool) then mret (Some tt)
      else
        r ← tick fuel;
        match r with
        | Some _ => stream_start fuel n
        | None => mret None
        end
  end.

End data_stream.
