(* ===== verification/DataStreamFacts.v ===== *)
(** * Facts about the data stream

    What the stream reads, which blocks the segment stream fetches, and the
    steps of an abstract stream that every tick follows. *)

From S2P Require Import Prelude External Text Core Cloud StateClient ObjectStore Chain ChainView Index Query QuerySpec.
From S2P Require Import Encoding FragmentAccess FilterBlock BlockStore StoreFacts Compaction CompactionFacts GroupFacts.
From S2P Require Import CompactionSpec CompactionService CompactionServiceFacts DataStream.

(** ** Reading through the cache *)

Section reading.
Context `{!Codec} {W : Type} `{Cloud W}.
Variable client : ObjectStore.

(** The data that a read of a key through a cache may return. *)
Definition readable (v : CloudView) (cache : CacheName) (path : RString) (data : list byte) : Prop :=
  v_cached v !! (cache, path) = Some data \/
  exists version, object_at client v path = Some (version, data).

(** Nothing can be read in [v'] that cannot be read in [v]. *)
Definition no_new_data (v v' : CloudView) : Prop :=
  forall cache path data, readable v' cache path data -> readable v cache path data.

#[export] Instance no_new_data_preorder : PreOrder no_new_data.
Proof. split; [by intros v c p d|]. intros a b c Hab Hbc cache path data Hd. by apply Hab, Hbc. Qed.

Lemma fetch_object_inv path (w : W) r w' :
  fetch_object client path w = (r, w') ->
  view w' = view w /\
  forall data, r = Ok data -> exists version, object_at client (view w) path = Some (version, data).
Proof.
  unfold fetch_object, mbind, prog_bind. destruct (object_get client path None w) as [r0 w0] eqn:Hg.
  destruct (object_get_inv _ _ _ _ _ _ Hg) as (Hv & Ho & _ & _).
  destruct r0 as [[version data]|e|]; intros [= <- <-]; (split; [done|]); [|done|done].
  intros data' [= <-]. exists version. by apply Ho.
Qed.

Lemma reader_inv cache path (w : W) r w' :
  get_or_fetch cache path (fetch_object client path) w = (r, w') ->
  no_new_data (view w) (view w') /\ forall data, r = Ok data -> readable (view w) cache path data.
Proof.
  intros Hg. destruct (get_or_fetch_spec _ _ _ _ _ _ Hg)
    as [(value & -> & Hv & Hc)|[(w0 & r0 & w1 & Hv0 & Hf & Hr)|[-> Hv]]].
  - rewrite Hv. split; [reflexivity|]. intros data [= <-]. by left.
  - destruct (fetch_object_inv _ _ _ _ Hf) as [Hv1 Ho]. rewrite Hv0 in *.
    destruct r0 as [value|e|]; destruct Hr as [-> Hv]; rewrite Hv, Hv1; [|by split|by split].
    destruct (Ho _ eq_refl) as [version Hat]. split.
    + intros c p data [Hc|Hc]; [|by right]. cbn [set_cached v_cached] in Hc.
      destruct (decide ((cache, path) = (c, p))) as [[= <- <-]|Hne].
      * rewrite lookup_insert_eq in Hc. injection Hc as <-. right. by exists version.
      * rewrite lookup_insert_ne in Hc by done. by left.
    + intros data [= <-]. right. by exists version.
  - rewrite Hv. by split.
Qed.

End reading.

(** ** Blocks without data *)

Section silent.
Context `{!Roaring, !Prost, !HashOrder Z, !BlockArchives}.

Lemma filter_one_untouched a names bf size bytes :
  always_include_header bf = false -> (forall fid, ~ touched a bf fid) ->
  filter_one a names false bf = Ok (size, bytes) -> bytes = [].
Proof.
  intros Hal Hnt Hf. unfold filter_one in Hf.
  apply bind_Ok in Hf as (m & Hm & Hf). apply match_fragments_touched in Hm.
  apply bind_Ok in Hf as (matches & Hms & Hf).
  assert (matches = ∅) as ->.
  { apply map_empty. intros fid. apply eq_None_not_Some. intros Hs. apply (Hnt fid).
    by eapply follow_joins_touched. }
  assert (should_send_header bf ∅ false = false) as Hs.
  { unfold should_send_header. unfold always_include_header in Hal. destruct (header_filter bf); [done| |];
      by rewrite bool_decide_eq_true_2. }
  rewrite Hs in Hf. apply bind_Ok in Hf as (h & [= <-] & Hf). unfold btree_iter in Hf.
  rewrite map_to_list_empty in Hf. simpl in Hf.
  by injection Hf as _ <-.
Qed.

(** A block in which no fragment is touched has no data, unless its header is
    always wanted. *)
Lemma untouched_no_data bfs a names data :
  (forall bf, bf ∈ bfs -> always_include_header bf = false /\ forall fid, ~ touched a bf fid) ->
  filter_fragment bfs names a false <> Ok (true, data).
Proof.
  intros Hbfs Hf. unfold filter_fragment in Hf.
  assert (fst (true, data) = false); [|done]. revert Hf.
  apply (ofold_Ok_inv (fun r : bool * list (list byte) => r.1 = false)); [done|].
  intros bf acc acc' Hin Ha Hr. apply bind_Ok in Hr as ([size bytes] & Hone & [= <-]).
  destruct (Hbfs bf Hin) as [Hal Hnt]. apply filter_one_untouched in Hone as ->; [|done|done].
  simpl. by rewrite Ha.
Qed.

End silent.

(** ** The blocks of a group that may have data *)

Lemma ofold_Ok_pre {E A B} (P : list A -> B -> Prop) (f : B -> A -> outcome E B) l b0 b :
  P [] b0 -> (forall pre x b b', P pre b -> f b x = Ok b' -> P (pre ++ [x]) b') ->
  ofold f b0 l = Ok b -> P l b.
Proof.
  intros H0 Hstep. assert (forall pre b0, P pre b0 -> ofold f b0 l = Ok b -> P (pre ++ l) b) as Hg; [|by apply (Hg [])].
  induction l as [|x l IH]; intros pre b1 Hp; simpl.
  - intros [= <-]. by rewrite app_nil_r.
  - intros (b2 & Hf & Hl)%bind_Ok. rewrite cons_middle, (assoc_L (++)). eapply IH; [|done]. by eapply Hstep.
Qed.

Section group_blocks.
Context `{!Roaring, !BlockArchives, !HashOrder Z}.
Variable group : SegmentGroup.

(** A filter of the group selects some blocks. *)
Definition group_selects (fid : Z) (f : Filter) (rows : RoaringBitmap) : Prop :=
  exists indexes, find_first (fun i => if_fragment_id i =? fid) (ig_indexes (gr_index group)) = Some indexes /\
    filter_rows f indexes = Ok rows /\ rows <> ∅.

(** What the filters seen so far have added. *)
Definition group_added (acc : RoaringBitmap * gset Z) (fid : Z) (f : Filter) : Prop :=
  forall rows, group_selects fid f rows ->
    rows ⊆ acc.1 /\ fid ∈ acc.2 /\ forall t, t ∈ joins f -> t ∈ acc.2.

Definition acc_le (acc acc' : RoaringBitmap * gset Z) : Prop := acc.1 ⊆ acc'.1 /\ acc.2 ⊆ acc'.2.

Lemma group_added_mono acc acc' fid f : acc_le acc acc' -> group_added acc fid f -> group_added acc' fid f.
Proof. intros [H1 H2] Ha rows Hs. destruct (Ha rows Hs) as (Hr & Hf & Hj). split_and!; set_solver. Qed.

Lemma group_filters_spec indexes fid fs acc acc' :
  find_first (fun i => if_fragment_id i =? fid) (ig_indexes (gr_index group)) = Some indexes ->
  ofold (group_filter indexes fid) acc fs = Ok acc' ->
  acc_le acc acc' /\ forall f, f ∈ fs -> group_added acc' fid f.
Proof.
  intros Hfind. apply (ofold_Ok_pre (fun pre acc' => acc_le acc acc' /\ forall f, f ∈ pre -> group_added acc' fid f)).
  { split; [by split|]. intros f []%elem_of_nil. }
  intros pre f b b' [[Hl1 Hl2] Hpre] Hg. unfold group_filter in Hg.
  apply bind_Ok in Hg as (rows & Hrows%change_context_Ok & Hg).
  assert (acc_le b b') as Hbb by (case_bool_decide; injection Hg as <-; split; simpl; set_solver).
  split; [destruct Hbb; split; set_solver|].
  intros f' [Hin| ->%list_elem_of_singleton]%elem_of_app; [by eapply group_added_mono; eauto|].
  intros rows' (idx' & Hf' & Hr' & Hne). rewrite Hfind in Hf'. injection Hf' as <-. rewrite Hrows in Hr'.
  injection Hr' as <-. rewrite bool_decide_eq_false_2 in Hg by done. injection Hg as <-. simpl.
  split_and!; [set_solver|set_solver|]. intros t Ht. apply elem_of_union_l. by apply elem_of_list_to_set.
Qed.

Lemma group_fragments_spec entries acc acc' :
  ofold (group_fragment group) acc entries = Ok acc' ->
  acc_le acc acc' /\ forall fid fs f, (fid, fs) ∈ entries -> f ∈ fs -> group_added acc' fid f.
Proof.
  apply (ofold_Ok_pre (fun pre acc' => acc_le acc acc' /\
    forall fid fs f, (fid, fs) ∈ pre -> f ∈ fs -> group_added acc' fid f)).
  { split; [by split|]. intros fid fs f []%elem_of_nil. }
  intros pre [fid fs] b b' [[Hl1 Hl2] Hpre] Hg. unfold group_fragment in Hg.
  apply bind_Ok in Hg as (indexes & Hfind%ok_or_Ok & Hg). cbn [fst snd] in *.
  destruct (group_filters_spec _ _ _ _ _ Hfind Hg) as [[Hb1 Hb2] Hadd].
  split; [split; set_solver|]. intros fid' fs' f [Hin|[= -> ->]%list_elem_of_singleton]%elem_of_app Hf; [|by apply Hadd].
  eapply group_added_mono; [|by eapply Hpre]. by split.
Qed.

Variables (current gsize ssize : Z).

Definition group_range : RoaringBitmap :=
  bitmap_range (wrap32 current) (wrap32 (add64 current (mul64 gsize ssize))).

Lemma group_block_filters_spec bfs acc acc' :
  ofold (group_block_filter group current gsize ssize) acc bfs = Ok acc' ->
  acc_le acc acc' /\ forall bf, bf ∈ bfs ->
    (always_include_header bf = true -> group_range ⊆ acc'.1) /\
    forall fid fs f, (fid, fs) ∈ block_filter_iter bf -> f ∈ fs -> group_added acc' fid f.
Proof.
  apply (ofold_Ok_pre (fun pre acc' => acc_le acc acc' /\ forall bf, bf ∈ pre ->
    (always_include_header bf = true -> group_range ⊆ acc'.1) /\
    forall fid fs f, (fid, fs) ∈ block_filter_iter bf -> f ∈ fs -> group_added acc' fid f)).
  { split; [by split|]. intros bf []%elem_of_nil. }
  intros pre bf b b' [[Hl1 Hl2] Hpre] Hg. unfold group_block_filter in Hg. fold group_range in Hg.
  destruct (group_fragments_spec _ _ _ Hg) as [[Hb1 Hb2] Hadd]. cbn [fst snd] in Hb1, Hb2.
  assert (acc_le b b') as Hbb by (split; [destruct (always_include_header bf); set_solver|done]).
  split; [destruct Hbb; split; set_solver|].
  intros bf' [Hin| ->%list_elem_of_singleton]%elem_of_app.
  - destruct (Hpre bf' Hin) as [Hal Hf]. split; [intros ?; destruct Hbb; set_solver|].
    intros fid fs f Hi Hff. eapply group_added_mono; [done|by eapply Hf].
  - split; [|done]. intros Hal. rewrite Hal in Hb1. set_solver.
Qed.

Lemma group_blocks_spec bfs blocks ids :
  group_blocks bfs group current gsize ssize = Ok (blocks, ids) ->
  (bfs = [] -> blocks = ∅) /\
  (bfs <> [] -> forall fid, reserved fid -> fid ∈ ids) /\
  forall bf, bf ∈ bfs ->
    (always_include_header bf = true -> group_range ⊆ blocks) /\
    forall fid fs f, (fid, fs) ∈ block_filter_iter bf -> f ∈ fs -> group_added (blocks, ids) fid f.
Proof.
  unfold group_blocks. intros Hg. split; [intros ->; by injection Hg|].
  destruct (group_block_filters_spec _ _ _ Hg) as [[_ Hids] Hbf]. split; [|done].
  intros Hne fid Hr. rewrite bool_decide_eq_false_2 in Hids by done. cbn [snd] in Hids.
  apply Hids. unfold reserved in Hr. set_solver.
Qed.

End group_blocks.

(** ** Loops *)

Section loops.
Context {S E A B : Type}.

Lemma triple_pfold (I : list A -> B -> S -> Prop) (f : B -> A -> prog S E B) b0 l R :
  (forall pre x b, triple (I pre b) (f b x) (I (pre ++ [x])) R) ->
  triple (I [] b0) (pfold f b0 l) (I l) R.
Proof.
  intros Hf. assert (forall pre b, triple (I pre b) (pfold f b l) (I (pre ++ l)) R) as Hg; [|apply (Hg [])].
  induction l as [|x l IH]; intros pre b; simpl.
  - apply triple_value. by rewrite app_nil_r.
  - eapply triple_bind; [apply Hf|]. intros b'.
    replace (pre ++ x :: l) with ((pre ++ [x]) ++ l) by (by rewrite <- (assoc_L (++))). apply IH.
Qed.

End loops.

(** ** The chain that a stream follows *)

(** The object store with its layout, the block of every cursor, the finalized
    chain, and where the chain view sends a cursor that was reorganised away. *)
Record Setting := mkSetting {
  s_client : ObjectStore;
  s_names : gmap Z string;
  s_start : Z;
  s_group_size : Z;
  s_segment_size : Z;
  s_block : Cursor -> option Block;
  s_final : Z -> Cursor * Block;
  s_reorg : Cursor -> Cursor -> Prop }.

(** The finalized blocks of the segment, and the index segments of the group,
    that start at a block. *)
Definition chain_segment (S : Setting) (s : Z) : list (Cursor * Block) :=
  s_final S <$> seqZ s (s_segment_size S).

Definition index_segment (S : Setting) (s : Z) : Segment IndexGroupFragment :=
  mkSegmentOf (s_final S s).1 ((fun p => mkFragmentData p.1 (blk_index p.2)) <$> chain_segment S s).

Definition group_index_segments (S : Setting) (g : Z) : list (Segment IndexGroupFragment) :=
  (fun i => index_segment S (g + i * s_segment_size S)) <$> seqZ 0 (s_group_size S).

Definition blocks_in_group (S : Setting) : Z := s_group_size S * s_segment_size S.

Definition segment_aligned (S : Setting) (s : Z) : Prop :=
  exists k, 0 <= k /\ s = s_start S + k * s_segment_size S.

Definition group_aligned (S : Setting) (g : Z) : Prop :=
  exists k, 0 <= k /\ g = s_start S + k * blocks_in_group S.

Record setting_ok (S : Setting) (bfs : list BlockFilter) : Prop := {
  se_start : 0 <= s_start S;
  se_group : 0 < s_group_size S;
  se_segment : 0 < s_segment_size S;
  se_names : names_ok (s_names S);
  se_number : forall n, number (s_final S n).1 = n;
  se_block : forall n, block_ok (s_names S) (s_final S n).2;
  se_filter : forall bf fid, bf ∈ bfs -> fid ∈ all_fragment_ids bf -> ~ reserved fid }.

Section stream_spec.
Context `{!Codec} {W : Type} `{Cloud W} `{!StreamOps W}.
Context `{!Roaring, !Prost, !BlockArchives, !HashOrder Z}.
Variable S : Setting.
Variable bfs : list BlockFilter.

(** What can be read is what ingestion and compaction wrote: under the key of a
    block the block, under the keys of a segment the fragments of the finalized
    blocks, under the key of a group the group of their index segments. *)
Record archive_ok (v : CloudView) : Prop := {
  ar_block : forall c data, is_u64 (number c) -> readable (s_client S) v CacheGeneral (format_block_key c) data ->
    exists blk, s_block S c = Some blk /\ data = to_bytes blk;
  ar_segment : forall s fid name data, is_u64 s -> segment_aligned S s -> s_names S !! fid = Some name ->
    readable (s_client S) v CacheGeneral (format_segment_key (new_finalized s) (str name)) data ->
    data = segment_bytes (s_final S s).1 (chain_segment S s) fid;
  ar_group : forall g data, is_u64 g -> group_aligned S g ->
    readable (s_client S) v CacheIndex (format_group_key (new_finalized g)) data ->
    groupable (s_segment_size S) (group_index_segments S g) /\
    exists group, data = to_bytes group /\
      group_build (foldl add_segment (group_builder_new (s_segment_size S)) (group_index_segments S g)) = Ok group }.

Lemma archive_ok_read v v' : no_new_data (s_client S) v v' -> archive_ok v -> archive_ok v'.
Proof.
  intros Hn [Hb Hs Hg]. constructor.
  - intros c data Hu Hr. by apply Hb, Hn.
  - intros s fid name data Hu Ha Hnm Hr. eapply Hs; [done|done|done|]. by apply Hn.
  - intros g data Hu Ha Hr. apply Hg; [done|done|]. by apply Hn.
Qed.

Definition world_archive (w : W) : Prop := archive_ok (view w).

(** The program keeps the archive, and its results satisfy [Q]. *)
Definition keeps {E A} (m : prog W E A) (Q : A -> Prop) : Prop :=
  triple world_archive m (fun a w => world_archive w /\ Q a) world_archive.

Lemma keeps_weaken {E A} (m : prog W E A) (Q Q' : A -> Prop) :
  keeps m Q -> (forall a, Q a -> Q' a) -> keeps m Q'.
Proof. intros Hm HQ. eapply triple_weaken; [done|done|naive_solver|done]. Qed.

Lemma reader_keeps cache path (Q : list byte -> Prop) :
  (forall v data, archive_ok v -> readable (s_client S) v cache path data -> Q data) ->
  keeps (get_or_fetch cache path (fetch_object (s_client S) path)) Q.
Proof.
  intros HQ w Hw. destruct (get_or_fetch _ _ _ w) as [r w'] eqn:Hr.
  destruct (reader_inv _ _ _ _ _ _ Hr) as [Hn Hd].
  assert (world_archive w') by (by eapply archive_ok_read). destruct r; [|done|done].
  split; [done|]. eapply HQ; [exact Hw|]. by apply Hd.
Qed.

Lemma read_segment_keeps s fid name :
  is_u64 s -> segment_aligned S s -> s_names S !! fid = Some name ->
  keeps (reader_get_segment (s_client S) (new_finalized s) (str name))
    (fun data => data = segment_bytes (s_final S s).1 (chain_segment S s) fid).
Proof. intros Hu Ha Hn. apply reader_keeps. intros v data Hv Hr. by eapply (ar_segment v). Qed.

Lemma read_group_keeps g :
  is_u64 g -> group_aligned S g ->
  keeps (reader_get_group (s_client S) (new_finalized g))
    (fun data => groupable (s_segment_size S) (group_index_segments S g) /\
       exists group, data = to_bytes group /\
         group_build (foldl add_segment (group_builder_new (s_segment_size S)) (group_index_segments S g)) = Ok group).
Proof. intros Hu Ha. apply reader_keeps. intros v data Hv Hr. by eapply (ar_group v). Qed.

Lemma read_block_keeps c :
  is_u64 (number c) ->
  keeps (reader_get_block (s_client S) c) (fun data => exists blk, s_block S c = Some blk /\ data = to_bytes blk).
Proof. intros Hu. apply reader_keeps. intros v data Hv Hr. by eapply (ar_block v). Qed.

Lemma read_pending_keeps c generation :
  keeps (reader_get_pending_block (s_client S) c generation) (fun _ => True).
Proof. by apply reader_keeps. Qed.

(** ** What the segment stream sends *)

(** The finalized block [m] has no data for the client. *)
Definition silent (m : Z) : Prop := forall data,
  filter_fragment bfs (s_names S) (AccessBlock (to_bytes (s_final S m).2)) false <> Ok (true, data).

Definition silent_range (a b : Z) : Prop := forall m, a <= m < b -> silent m.

(** A fetch of the fragments [ids] of the segment that starts at [s]. *)
Record fetched (s : Z) (blocks : RoaringBitmap) (ids : gset Z) (fetch : SegmentAccessFetch) : Prop := {
  fe_first : sf_first_block fetch = s;
  fe_blocks : sf_blocks fetch = blocks;
  fe_ids : dom (sf_fragments fetch) = ids;
  fe_files : forall fid data, sf_fragments fetch !! fid = Some (Ok data) ->
    is_Some (s_names S !! fid) /\ data = segment_bytes (s_final S s).1 (chain_segment S s) fid }.

(** The fetch of a segment has the fragments that its blocks need, and the
    blocks it leaves out have no data. *)
Definition fetch_complete (s : Z) (fetch : SegmentAccessFetch) : Prop :=
  exists blocks ids, fetched s blocks ids fetch /\
    0 <= s /\ s + s_segment_size S < U32 /\
    (forall b, b ∈ blocks -> s <= b < s + s_segment_size S) /\
    (forall m, s <= m < s + s_segment_size S -> m ∉ blocks -> silent m) /\
    (forall fid, reserved fid -> fid ∈ ids) /\
    (forall b bf fid, b ∈ blocks -> bf ∈ bfs ->
       touched (AccessBlock (to_bytes (s_final S b).2)) bf fid -> fid ∈ ids).

(** The fetches cover the finalized blocks from [x] to [e]. *)
Inductive covered : Z -> list SegmentAccessFetch -> Z -> Prop :=
| covered_nil x e : x <= e -> silent_range x e -> covered x [] e
| covered_cons x s e fetch fs :
    x <= s -> silent_range x s -> fetch_complete s fetch ->
    covered (s + s_segment_size S) fs e -> covered x (fetch :: fs) e.

Lemma silent_range_app a b c : silent_range a b -> silent_range b c -> silent_range a c.
Proof. intros Hl Hr m Hm. destruct (Z.lt_ge_cases m b); [apply Hl|apply Hr]; lia. Qed.

Lemma covered_skip x fs s e : covered x fs s -> s <= e -> silent_range s e -> covered x fs e.
Proof.
  intros Hc. induction Hc as [x s Hxs Hs|x s' s fetch fs Hx Hs Hf Hc IH]; intros Hle Hse.
  - constructor; [lia|by eapply silent_range_app].
  - econstructor; eauto.
Qed.

Lemma covered_snoc x fs s fetch :
  covered x fs s -> fetch_complete s fetch -> covered x (fs ++ [fetch]) (s + s_segment_size S).
Proof.
  intros Hc Hf. induction Hc as [x s Hxs Hs|x s' s fetch' fs Hx Hs Hf' Hc IH]; simpl.
  - econstructor; [done|done|done|]. constructor; [lia|]. intros m ?. lia.
  - econstructor; eauto.
Qed.

(** ** What the other tasks promise *)

(** The block after a position. *)
Definition next_number (cur : option Cursor) : Z :=
  match cur with None => s_start S | Some p => add64 (number p) 1 end.

Definition next_ok (cur : option Cursor) (next : NextCursor) : Prop :=
  match next with
  | NextContinue c _ => s_start S <= number c < U64 /\ number c = next_number cur
  | Invalidate c => exists p, cur = Some p /\ s_reorg S p c
  | AtHead => True
  end.

(** Nothing that happens while the stream waits breaks the archive. *)
Record client_keeps : Prop := {
  ck_reserve : keeps reserve (fun _ => True);
  ck_cancelled : keeps is_cancelled (fun _ => True);
  ck_closed : keeps is_closed (fun _ => True);
  ck_wait_finalized : keeps wait_finalized (fun _ => True);
  ck_wait_head : keeps wait_head (fun _ => True);
  ck_wait_pending : keeps wait_pending (fun _ => True);
  ck_select : keeps select_segment (fun _ => True) }.

(** The chain view answers for the chain of the setting, with 32-bit block
    numbers where blocks are compacted, and no task breaks the archive. *)
Class StreamLaws : Prop := {
  sl_next : forall cur, keeps (view_next_cursor cur) (next_ok cur);
  sl_finalized : keeps view_finalized_cursor (fun _ => True);
  sl_has_segment : forall n, keeps (view_has_segment n) (fun _ => True);
  sl_group_start : forall n, s_start S <= n < U64 -> keeps (view_group_start n)
    (fun g => g = s_start S + (n - s_start S) / blocks_in_group S * blocks_in_group S);
  sl_group_size : keeps view_group_size (fun size => size = s_group_size S);
  sl_segment_size : keeps view_segment_size (fun size => size = s_segment_size S);
  sl_grouped : keeps view_grouped_cursor
    (fun o => forall c, o = Some c -> number c + blocks_in_group S < U32);
  sl_segmented : keeps view_segmented_cursor
    (fun o => forall c, o = Some c -> number c + s_segment_size S < U32);
  sl_pending : keeps view_pending_generation (fun _ => True);
  sl_client : client_keeps }.

End stream_spec.

(** ** The chain view keeps the promise *)

Section implementation.
Context `{!Codec} {W ST : Type} `{Cloud W} `{!ClientOps W} `{!ChainStoreOps ST}.
Context `{!Roaring, !Prost, !BlockArchives, !HashOrder Z}.
Variable current : W -> ChainViewInner ST.

(** The stream's view of chain_view/view.rs. *)
Definition chain_stream_ops : StreamOps W := {|
  stream_chain_view := chain_view_ops current;
  view_has_segment n := view_query current (fun self => has_segment_for_block self n);
  view_group_start n := view_query current (fun self => get_group_start_block self n);
  view_group_size := view_query current (fun self => Ok (cv_group_size self));
  view_segment_size := view_query current (fun self => Ok (cv_segment_size self));
  view_pending_generation := view_query current (fun self => Ok (cv_pending_generation self)) |}.

Lemma cursor_or_finalized_number (self : ChainViewInner ST) n c :
  cursor_or_finalized self n = Ok c -> number c = n.
Proof.
  unfold cursor_or_finalized. intros Hc. invert_ok.
  destruct x as [c1|c1|c1]; invert_ok; [done|done|]. unfold get_canonical in *.
  destruct (_ <? _); [done|]. destruct (_ <? _); invert_ok; [done|]. unfold get_canonical_impl in *.
  invert_ok. by eapply canonical_number.
Qed.

Lemma group_start_exact (self : ChainViewInner ST) n g :
  0 <= starting_block (cv_canonical self) <= n -> n < U64 -> 0 < cv_group_size self * cv_segment_size self < U64 ->
  get_group_start_block self n = Ok g ->
  let blocks := cv_group_size self * cv_segment_size self in
  g = starting_block (cv_canonical self) + (n - starting_block (cv_canonical self)) / blocks * blocks.
Proof.
  intros Hs Hn Hb Hg blocks. unfold get_group_start_block in Hg. rewrite mul64_id in Hg by lia. fold blocks in Hg, Hb.
  rewrite sub64_id in Hg by lia. unfold div64 in Hg. rewrite (proj2 (Z.eqb_neq blocks 0)) in Hg by lia.
  cbn [mbind outcome_bind] in Hg. injection Hg as <-.
  set (d := n - starting_block (cv_canonical self)) in *.
  pose proof (Z.mul_div_le d blocks (proj1 Hb)). assert (0 <= d / blocks) by (apply Z.div_pos; lia).
  assert (0 <= d / blocks * blocks) by (apply Z.mul_nonneg_nonneg; lia).
  rewrite mul64_id, add64_id; lia.
Qed.

Variable S : Setting.

(** What is known of the view at any time. *)
Record view_ok (self : ChainViewInner ST) : Prop := {
  vo_start : starting_block (cv_canonical self) = s_start S;
  vo_sizes : cv_segment_size self = s_segment_size S /\ cv_group_size self = s_group_size S;
  vo_grouped : forall n, cv_grouped self = Some n -> n + blocks_in_group S < U32;
  vo_segmented : forall n, cv_segmented self = Some n -> n + s_segment_size S < U32;
  vo_next : forall cur c is_head, get_next_cursor (cv_canonical self) cur = Ok (NextContinue c is_head) ->
    s_start S <= number c;
  vo_reorg : forall p c, get_next_cursor (cv_canonical self) (Some p) = Ok (Invalidate c) -> s_reorg S p c }.

Lemma query_keeps {A} (f : ChainViewInner ST -> outcome ChainViewError A) (Q : A -> Prop) :
  (forall w a, f (current w) = Ok a -> Q a) -> keeps S (view_query current f) Q.
Proof.
  intros HQ w Hw. unfold view_query. destruct (f (current w)) as [a| |] eqn:Hf; [|done|done].
  split; [done|]. by eapply HQ.
Qed.

Lemma next_cursor_ok self cur next :
  view_ok self -> is_u64 (s_start S) -> get_next_cursor (cv_canonical self) cur = Ok next -> next_ok S cur next.
Proof.
  intros Hv Hu Hn. destruct next as [c is_head|c|]; [| |done].
  - assert (number c = next_number S cur) as Hc.
    { destruct cur as [p|]; [by eapply next_cursor_number|]. cbn [get_next_cursor] in Hn. invert_ok.
      cbn [next_number]. rewrite <- (vo_start _ Hv). unfold get_canonical_impl in *. invert_ok. by eapply canonical_number. }
    split; [|done]. split; [by eapply (vo_next _ Hv)|]. rewrite Hc. destruct cur; [apply wrap64_range|apply Hu].
  - destruct cur as [p|]; [|cbn [get_next_cursor] in Hn; by invert_ok]. exists p. split; [done|]. by apply (vo_reorg _ Hv).
Qed.

Lemma chain_stream_laws :
  is_u64 (s_start S) -> 0 < s_group_size S -> 0 < s_segment_size S -> blocks_in_group S < U64 ->
  (forall w, view_ok (current w)) -> client_keeps (StreamOps0 := chain_stream_ops) S -> StreamLaws (StreamOps0 := chain_stream_ops) S.
Proof.
  intros Hu Hgs Hss Hb Hv Hc. assert (0 < blocks_in_group S) as Hpos by (unfold blocks_in_group; by apply Z.mul_pos_pos).
  constructor; cbn; try (by intros; apply query_keeps); try done.
  - intros cur. apply query_keeps. intros w a. by apply next_cursor_ok.
  - intros n Hn. apply query_keeps. intros w a Ha. destruct (Hv w) as [Hst [Hsz1 Hsz2] _ _ _ _].
    unfold blocks_in_group, is_u64 in *. apply group_start_exact in Ha; rewrite ?Hst, ?Hsz1, ?Hsz2 in *; [done|lia..].
  - apply query_keeps. intros w a [= <-]. apply Hv.
  - apply query_keeps. intros w a [= <-]. apply Hv.
  - apply query_keeps. intros w a. unfold get_grouped_cursor. destruct (cv_grouped (current w)) as [g|] eqn:Hg; [|by intros [= <-]].
    destruct (cursor_or_finalized _ g) as [c| |] eqn:Hcf; cbn; [|done|done]. intros [= <-] c' [= <-].
    apply cursor_or_finalized_number in Hcf as ->. by apply (Hv w).
  - apply query_keeps. intros w a. unfold get_segmented_cursor. destruct (cv_segmented (current w)) as [g|] eqn:Hg; [|by intros [= <-]].
    destruct (cursor_or_finalized _ g) as [c| |] eqn:Hcf; cbn; [|done|done]. intros [= <-] c' [= <-].
    apply cursor_or_finalized_number in Hcf as ->. by apply (Hv w).
Qed.

End implementation.
