(* ===== verification/SegmentStreamFacts.v ===== *)
(** * Facts about the segment stream

    The fetches that the segment stream sends cover the compacted blocks: the
    blocks it leaves out have no data for the client. *)

From S2P Require Import Prelude External Text Core Cloud StateClient ObjectStore Chain ChainView Index Query QuerySpec.
From S2P Require Import Encoding FragmentAccess FilterBlock BlockStore StoreFacts Compaction CompactionFacts GroupFacts.
From S2P Require Import CompactionSpec CompactionService CompactionServiceFacts DataStream DataStreamFacts.

(** ** Groups *)

Section group_cover.
Context `{!Roaring, !Prost, !BlockArchives, !HashOrder Z}.
Variable S : Setting.
Variable bfs : list BlockFilter.
Hypothesis HS : setting_ok S bfs.

Lemma group_data g m :
  g <= m < g + blocks_in_group S ->
  mkFragmentData (s_final S m).1 (blk_index (s_final S m).2) ∈ all_data (group_index_segments S g).
Proof.
  intros Hm. destruct HS as [_ Hgs Hss _ _ _ _]. unfold blocks_in_group in Hm.
  apply list_elem_of_bind. exists (index_segment S (g + (m - g) / s_segment_size S * s_segment_size S)). split.
  - unfold index_segment, chain_segment. cbn [sg_data]. apply list_elem_of_fmap. exists (s_final S m).
    split; [done|]. apply list_elem_of_fmap. exists m. split; [done|]. apply elem_of_seqZ.
    pose proof (Z.div_mod (m - g) (s_segment_size S)). pose proof (Z.mod_pos_bound (m - g) (s_segment_size S)). lia.
  - apply list_elem_of_fmap. eexists. split; [done|]. apply elem_of_seqZ.
    split; [apply Z.div_pos; lia|]. apply Z.div_lt_upper_bound; lia.
Qed.

(** The group selects the blocks with a touched fragment, and needs it. *)
Lemma touched_in_group g group blocks ids m bf fid :
  groupable (s_segment_size S) (group_index_segments S g) ->
  group_build (foldl add_segment (group_builder_new (s_segment_size S)) (group_index_segments S g)) = Ok group ->
  group_blocks bfs group g (s_group_size S) (s_segment_size S) = Ok (blocks, ids) ->
  g <= m < g + blocks_in_group S -> bf ∈ bfs ->
  touched (AccessBlock (to_bytes (s_final S m).2)) bf fid -> m ∈ blocks /\ fid ∈ ids.
Proof.
  intros Hg Hbuild Hblocks Hm Hbf (entry & f & indexes & rows & He & Hf & Hidx & Hrows & Hne & Hfid).
  destruct (group_covers _ _ ltac:(intros Hn; pose proof (group_data g m Hm) as Hd; rewrite Hn in Hd;
    by apply elem_of_nil in Hd) Hg) as (group' & Hb' & Hcov).
  rewrite Hbuild in Hb'. injection Hb' as <-. rewrite block_index_eq in Hidx. apply ok_or_Ok in Hidx.
  unfold find_first in Hidx. destruct (list_find _ _) as [[i x]|] eqn:Hfind; [|done]. simpl in Hidx.
  injection Hidx as ->. apply list_find_Some in Hfind as (Hi & Hid%Z.eqb_eq & _). apply list_elem_of_lookup_2 in Hi.
  destruct (Hcov _ indexes f rows (group_data g m Hm) Hi Hrows Hne) as (gf & grows & Hgf & Hgrows & Hin).
  cbn [fd_cursor] in Hin. rewrite (se_number _ _ HS) in Hin. rewrite Hid in Hgf.
  destruct (group_blocks_spec _ _ _ _ _ _ _ Hblocks) as (_ & _ & Hspec). destruct (Hspec bf Hbf) as [_ Hadd].
  destruct entry as [efid fs]. destruct (Hadd efid fs f He Hf grows) as (Hsub & Hef & Hj).
  { exists gf. split_and!; [done|done|set_solver]. }
  cbn [fst snd] in *. split; [set_solver|]. destruct Hfid as [->|Hfid]; auto.
Qed.

Lemma group_silent g group blocks ids m :
  groupable (s_segment_size S) (group_index_segments S g) ->
  group_build (foldl add_segment (group_builder_new (s_segment_size S)) (group_index_segments S g)) = Ok group ->
  group_blocks bfs group g (s_group_size S) (s_segment_size S) = Ok (blocks, ids) ->
  0 <= g /\ g + blocks_in_group S < U32 ->
  g <= m < g + blocks_in_group S -> m ∉ blocks -> silent S bfs m.
Proof.
  intros Hg Hbuild Hblocks Hr Hm Hnot data. apply untouched_no_data. intros bf Hbf. split.
  - destruct (always_include_header bf) eqn:Hal; [|done]. exfalso. apply Hnot.
    destruct (group_blocks_spec _ _ _ _ _ _ _ Hblocks) as (_ & _ & Hspec). destruct (Hspec bf Hbf) as [Hrange _].
    apply (Hrange Hal). unfold group_range. apply elem_of_bitmap_range. unfold blocks_in_group in *.
    assert (0 < s_group_size S * s_segment_size S) by (destruct HS; apply Z.mul_pos_pos; done).
    unfold U32, U64 in *. rewrite mul64_id, add64_id, !wrap32_id; unfold is_u32, U32, U64; lia.
  - intros fid Ht. apply Hnot. by apply (touched_in_group g group blocks ids m bf fid).
Qed.

End group_cover.

(** ** The fetches of a segment *)

Section producer.
Context `{!Codec} {W : Type} `{Cloud W} `{!StreamOps W}.
Context `{!Roaring, !Prost, !BlockArchives, !HashOrder Z}.
Variable S : Setting.
Variable bfs : list BlockFilter.
Hypothesis HS : setting_ok S bfs.

Abbreviation Producer := (W * list SegmentAccessFetch)%type.

(** The archive is kept and the fetches sent so far satisfy [F]. *)
Definition sent_so_far (F : list SegmentAccessFetch -> Prop) (p : Producer) : Prop :=
  world_archive S p.1 /\ F p.2.

Lemma on_producer_keeps {E A} (m : prog W E A) (Q : A -> Prop) F :
  keeps S m Q -> triple (sent_so_far F) (on_producer m) (fun a p => Q a /\ sent_so_far F p) (sent_so_far F).
Proof.
  intros Hm [w fs] [Hw HF]. specialize (Hm w Hw). unfold on_producer, zoom. cbn [fst snd] in *.
  destruct (m w) as [[a|e|] w']; [destruct Hm as [Hw' HQ]|..]; by split_and!.
Qed.

Lemma try_keeps {E E' A} (m : prog W E A) (Q : A -> Prop) :
  keeps S m Q -> keeps (E := E') S (try m) (fun r => forall a, r = Ok a -> Q a).
Proof.
  intros Hm w Hw. specialize (Hm w Hw). unfold try. destruct (m w) as [[a|e|] w']; [|by split|done].
  destruct Hm as [Hw' HQ]. split; [done|]. by intros ? [= <-].
Qed.

Lemma fetch_fragment_spec s blocks ids fetch fid F :
  is_u64 s -> segment_aligned S s -> fetched S s blocks ids fetch ->
  triple (sent_so_far F) (fetch_fragment (s_client S) (s_names S) (new_finalized s) fetch fid)
    (fun fetch' p => fetched S s blocks ({[fid]} ∪ ids) fetch' /\ sent_so_far F p) (sent_so_far F).
Proof.
  intros Hu Ha Hf. unfold fetch_fragment. eapply triple_bind; [by apply triple_lift|]. intros name.
  apply triple_pure. intros Hn%ok_or_Ok.
  eapply triple_bind; [eapply on_producer_keeps, try_keeps, read_segment_keeps; done|]. intros r.
  apply triple_pure. intros Hr. apply triple_value. intros p Hp. split; [|done].
  destruct Hf as [Hf1 Hf2 Hf3 Hf4]. constructor; cbn [insert_fragment sf_first_block sf_blocks sf_fragments]; [done|done| |].
  - rewrite dom_insert_L. by rewrite Hf3.
  - intros fid' data. destruct (decide (fid = fid')) as [<-|Hne].
    + rewrite lookup_insert_eq. intros [= Hd]. apply change_context_Ok in Hd. split; [by eexists|]. by apply Hr.
    + rewrite lookup_insert_ne by done. apply Hf4.
Qed.

Lemma fetch_segment_spec s blocks ids F :
  is_u64 s -> segment_aligned S s ->
  triple (sent_so_far F) (fetch_segment (s_client S) (s_names S) s blocks ids)
    (fun _ => sent_so_far (fun fs => exists fs0 fetch, F fs0 /\ fs = fs0 ++ [fetch] /\ fetched S s blocks ids fetch))
    (sent_so_far F).
Proof.
  intros Hu Ha. unfold fetch_segment.
  eapply triple_bind with (Q := fun fetch p => fetched S s blocks ids fetch /\ sent_so_far F p).
  - eapply triple_weaken; [apply (triple_pfold (fun pre fetch p =>
      fetched S s blocks (list_to_set pre) fetch /\ sent_so_far F p) _ _ _ (sent_so_far F))| | |done].
    + intros pre fid fetch. apply triple_pure. intros Hf. rewrite list_to_set_app_L, (comm_L (∪)).
      replace (list_to_set [fid] : gset Z) with ({[fid]} : gset Z) by set_solver. by apply fetch_fragment_spec.
    + intros p Hp. split; [|done]. constructor; cbn; [done|done|by rewrite dom_empty_L|done].
    + intros fetch p [Hf Hp]. split; [|done].
      replace (list_to_set (hash_iter [s] ids)) with ids in Hf; [done|]. apply set_eq. intros x.
      rewrite elem_of_list_to_set. symmetry. apply elem_of_hash_iter.
  - intros fetch. apply triple_pure. intros Hf. apply triple_modify. intros [w fs] [Hw HF]. split; [done|].
    cbn. by exists fs, fetch.
Qed.

(** ** The loop over the groups *)

Lemma fill_group_queue_current fuel gsize ssize st :
  gl_current (fill_group_queue fuel gsize ssize st) = gl_current st /\
  gl_grouped (fill_group_queue fuel gsize ssize st) = gl_grouped st.
Proof.
  revert st. induction fuel as [|fuel IH]; intros st; simpl; [done|]. destruct (_ && _); [|done]. by rewrite !(proj1 (IH _)), !(proj2 (IH _)).
Qed.

(** The blocks from [x] on are covered up to some block. *)
Definition covers (x : Z) (fs : list SegmentAccessFetch) : Prop := exists e, covered S bfs x fs e.

Lemma blocks_in_group_pos : 0 < blocks_in_group S.
Proof. destruct HS. unfold blocks_in_group. by apply Z.mul_pos_pos. Qed.

Lemma group_segment_aligned g i :
  group_aligned S g -> 0 <= i < s_group_size S -> segment_aligned S (g + i * s_segment_size S).
Proof.
  intros (k & Hk & ->) Hi. exists (k * s_group_size S + i). unfold blocks_in_group. destruct HS. split; [|lia].
  assert (0 <= k * s_group_size S) by (apply Z.mul_nonneg_nonneg; lia). lia.
Qed.

Lemma group_aligned_nonneg g : group_aligned S g -> 0 <= g.
Proof.
  intros (k & Hk & ->). pose proof blocks_in_group_pos. destruct HS.
  assert (0 <= k * blocks_in_group S) by (apply Z.mul_nonneg_nonneg; lia). lia.
Qed.

Lemma group_segment_range g i :
  group_aligned S g -> g + blocks_in_group S < U32 -> 0 <= i < s_group_size S ->
  let s := g + i * s_segment_size S in
  0 <= s /\ s + s_segment_size S <= g + blocks_in_group S /\
  add64 g (mul64 i (s_segment_size S)) = s /\
  bitmap_range (wrap32 s) (wrap32 (add64 s (s_segment_size S))) = bitmap_range s (s + s_segment_size S).
Proof.
  intros Hg%group_aligned_nonneg Hr Hi s. destruct HS as [_ Hgs Hss _ _ _ _]. unfold blocks_in_group in *.
  assert (0 <= i * s_segment_size S) by (apply Z.mul_nonneg_nonneg; lia).
  assert (i * s_segment_size S + s_segment_size S <= s_group_size S * s_segment_size S) by nia.
  unfold U32 in Hr. split_and!; [lia|lia| |].
  - rewrite mul64_id, add64_id; unfold U64; lia.
  - subst s. rewrite add64_id, !wrap32_id; unfold is_u32, U32, U64; lia || done.
Qed.

Lemma group_segment_spec x g group blocks ids i :
  groupable (s_segment_size S) (group_index_segments S g) ->
  group_build (foldl add_segment (group_builder_new (s_segment_size S)) (group_index_segments S g)) = Ok group ->
  group_blocks bfs group g (s_group_size S) (s_segment_size S) = Ok (blocks, ids) ->
  group_aligned S g -> g + blocks_in_group S < U32 -> 0 <= i < s_group_size S ->
  triple (sent_so_far (fun fs => covered S bfs x fs (g + i * s_segment_size S)))
    (group_segment (s_client S) (s_names S) g (s_segment_size S) (blocks, ids) i)
    (fun _ => sent_so_far (fun fs => covered S bfs x fs (g + (i + 1) * s_segment_size S)))
    (sent_so_far (covers x)).
Proof.
  intros Hgr Hbuild Hblocks Ha Hr Hi. destruct (group_segment_range g i Ha Hr Hi) as (Hs0 & Hse & Hadd & Hrange).
  set (s := g + i * s_segment_size S) in *. unfold group_segment. rewrite Hadd, Hrange. cbn [fst snd].
  pose proof (group_aligned_nonneg g Ha) as Hg0. pose proof (se_segment _ _ HS) as Hss.
  assert (0 <= i * s_segment_size S) by (apply Z.mul_nonneg_nonneg; lia).
  replace (g + (i + 1) * s_segment_size S) with (s + s_segment_size S) by (subst s; ring).
  assert (forall m, s <= m < s + s_segment_size S -> m ∉ bitmap_range s (s + s_segment_size S) ∩ blocks -> silent S bfs m) as Hsil.
  { intros m Hm Hnot. apply (group_silent S bfs HS g group blocks ids); [done|done|done|done|lia|].
    intros Hin. apply Hnot, elem_of_intersection. split; [by apply elem_of_bitmap_range|done]. }
  case_bool_decide as Hempty.
  - apply triple_value. intros p [Hw Hc]. split; [done|]. eapply covered_skip; [done|lia|].
    intros m Hm. apply Hsil; [done|]. rewrite Hempty. set_solver.
  - eapply triple_weaken; [apply (fetch_segment_spec s)|done| |].
    + unfold U32 in Hr. unfold is_u64, U64. lia.
    + by apply group_segment_aligned.
    + intros _ p (Hw & fs0 & fetch & Hc & Hfs & Hf). split; [done|]. rewrite Hfs. apply covered_snoc; [done|].
      exists (bitmap_range s (s + s_segment_size S) ∩ blocks), ids.
      destruct (group_blocks_spec _ _ _ _ _ _ _ Hblocks) as (Hnil & Hres & _).
      split_and!; [done|done|lia| |done| |].
      * intros b [Hb _]%elem_of_intersection. by apply elem_of_bitmap_range.
      * apply Hres. intros ->. apply Hempty. rewrite Hnil by done. set_solver.
      * intros b bf fid [Hb _]%elem_of_intersection Hbf Ht. apply elem_of_bitmap_range in Hb.
        apply (touched_in_group S bfs HS g group blocks ids b bf fid); [done|done|done|lia|done|done].
    + intros p [Hw Hc]. split; [done|]. by eexists.
Qed.

Lemma seqZ_split n pre i post : seqZ 0 n = pre ++ i :: post -> i = Z.of_nat (length pre) /\ 0 <= i < n.
Proof.
  intros Hs. assert (seqZ 0 n !! length pre = Some i) as Hl by (rewrite Hs; by apply list_lookup_middle).
  apply lookup_seqZ in Hl. lia.
Qed.

Lemma group_segments_spec x g group blocks ids :
  groupable (s_segment_size S) (group_index_segments S g) ->
  group_build (foldl add_segment (group_builder_new (s_segment_size S)) (group_index_segments S g)) = Ok group ->
  group_blocks bfs group g (s_group_size S) (s_segment_size S) = Ok (blocks, ids) ->
  group_aligned S g -> g + blocks_in_group S < U32 ->
  triple (sent_so_far (fun fs => covered S bfs x fs g))
    (forM_ (group_segment (s_client S) (s_names S) g (s_segment_size S) (blocks, ids)) (seqZ 0 (s_group_size S)))
    (fun _ => sent_so_far (fun fs => covered S bfs x fs (g + blocks_in_group S)))
    (sent_so_far (covers x)).
Proof.
  intros Hgr Hbuild Hblocks Ha Hr. eapply triple_weaken; [apply (triple_forM (fun pre =>
    sent_so_far (fun fs => covered S bfs x fs (g + Z.of_nat (length pre) * s_segment_size S))))| | |].
  - intros pre i post Hs. apply seqZ_split in Hs as [Hi Hn]. rewrite length_app. cbn [length].
    rewrite Nat2Z.inj_add, <- Hi. by eapply group_segment_spec.
  - intros p [Hw Hc]. split; [done|]. cbn [length]. replace (g + Z.of_nat 0 * s_segment_size S) with g by lia. done.
  - intros _ p [Hw Hc]. split; [done|]. rewrite length_seqZ, Z2Nat.id in Hc by (destruct HS; lia). done.
  - done.
Qed.

Context `{HL : !StreamLaws S}.

(** A loop runs out of fuel only when it has less than the block numbers left. *)
Definition short_of_fuel (fuel : nat) (current : Z) : Prop :=
  fuel = 0%nat \/ Z.of_nat fuel + current <= U32.

Lemma short_of_fuel_step fuel current step :
  0 < step -> current + step < U32 -> short_of_fuel fuel (current + step) ->
  short_of_fuel (Datatypes.S fuel) current.
Proof. intros Hs Hc [->|Hf]; right; lia. Qed.

Definition loop_covers (fuel : nat) (current x : Z) (aligned : Z -> Prop) (r : LoopEnd) (p : Producer) : Prop :=
  match r with
  | LoopDone n => aligned n /\ sent_so_far (fun fs => covered S bfs x fs n) p
  | LoopReturned => sent_so_far (covers x) p
  | LoopRunning => short_of_fuel fuel current /\ sent_so_far (covers x) p
  end.

Lemma loop_covers_step fuel current step x aligned r p :
  0 < step -> current + step < U32 -> loop_covers fuel (current + step) x aligned r p ->
  loop_covers (Datatypes.S fuel) current x aligned r p.
Proof. intros Hs Hc. destruct r; [done|done|]. intros [Hf Hp]. split; [by eapply short_of_fuel_step|done]. Qed.

Lemma sent_covers x n p : sent_so_far (fun fs => covered S bfs x fs n) p -> sent_so_far (covers x) p.
Proof. intros [Hw Hc]. split; [done|]. by exists n. Qed.

Lemma producer_step {E A} (m : prog W E A) (Q : A -> Prop) x n :
  keeps S m Q ->
  triple (sent_so_far (fun fs => covered S bfs x fs n)) (on_producer m)
    (fun a p => Q a /\ sent_so_far (fun fs => covered S bfs x fs n) p) (sent_so_far (covers x)).
Proof.
  intros Hm. eapply triple_weaken; [by apply on_producer_keeps|done|done|]. intros p. apply sent_covers.
Qed.

Lemma group_loop_spec fuel x st :
  group_aligned S (gl_current st) -> number (gl_grouped st) + blocks_in_group S < U32 ->
  triple (sent_so_far (fun fs => covered S bfs x fs (gl_current st)))
    (group_loop (s_client S) bfs (s_names S) fuel (s_group_size S) (s_segment_size S) st)
    (loop_covers fuel (gl_current st) x (group_aligned S)) (sent_so_far (covers x)).
Proof.
  revert st. induction fuel as [|fuel IH]; intros st Ha Hr; cbn [group_loop].
  { apply triple_value. intros p Hp. split; [by left|]. by eapply sent_covers. }
  destruct (Z.leb_spec (gl_current st) (number (gl_grouped st))) as [Hle|Hgt]; cbn [negb]; [|by apply triple_value].
  eapply triple_bind; [by apply producer_step, ck_cancelled, sl_client|].
  intros cancelled. apply triple_pure. intros _. destruct cancelled; [by apply triple_value; apply sent_covers|].
  destruct (fill_group_queue_current (Z.to_nat GROUP_QUEUE_SIZE) (s_group_size S) (s_segment_size S) st) as [Hc Hgr].
  destruct (fill_group_queue _ _ _ st) as [current next queue grouped]. cbn [gl_current gl_grouped gl_queue gl_next] in *.
  subst current grouped. destruct queue as [|fetched queue]; [by apply triple_fail; apply sent_covers|].
  destruct (decide (fetched = gl_current st)) as [->|Hne].
  2: { eapply triple_bind with (Q := fun _ => sent_so_far (covers x)).
       - eapply triple_weaken; [apply triple_pcontext, (producer_step _ (fun _ => True)); by apply reader_keeps|done| |done].
         intros data p [_ Hp]. by eapply sent_covers.
       - intros data. rewrite bool_decide_eq_false_2 by (intros [= Heq]; done). by apply triple_fail. }
  eapply triple_bind; [apply triple_pcontext, producer_step, read_group_keeps; [|done]|].
  { pose proof (group_aligned_nonneg _ Ha). pose proof blocks_in_group_pos. unfold is_u64, U32, U64 in *. lia. }
  intros data. apply triple_pure. intros (Hg & group & -> & Hbuild). rewrite bool_decide_eq_true_2 by done. cbn [negb].
  rewrite access_to_bytes. eapply triple_bind; [apply triple_lift, sent_covers|]. intros group'. apply triple_pure. intros [= <-].
  eapply triple_bind; [apply triple_lift, sent_covers|]. intros [blocks ids]. apply triple_pure. intros Hblocks.
  eapply triple_bind; [eapply group_segments_spec; [done|done|done|done|lia]|]. intros [].
  pose proof blocks_in_group_pos as Hpos. pose proof (group_aligned_nonneg _ Ha) as Hnn.
  assert (add64 (gl_current st) (mul64 (s_segment_size S) (s_group_size S)) = gl_current st + blocks_in_group S) as ->.
  { unfold blocks_in_group, U32 in *. rewrite mul64_id; [rewrite add64_id|]; unfold U64; lia. }
  assert (group_aligned S (gl_current st + blocks_in_group S)) as Ha'.
  { destruct Ha as (k & Hk & ->). exists (k + 1). split; [lia|]. ring. }
  assert (forall grouped, number grouped + blocks_in_group S < U32 ->
    triple (sent_so_far (fun fs => covered S bfs x fs (gl_current st + blocks_in_group S)))
      (group_loop (s_client S) bfs (s_names S) fuel (s_group_size S) (s_segment_size S)
         (mkGroupLoop (gl_current st + blocks_in_group S) next queue grouped))
      (loop_covers (Datatypes.S fuel) (gl_current st) x (group_aligned S)) (sent_so_far (covers x))) as Hloop.
  { intros grouped Hg'. eapply triple_weaken; [by apply (IH (mkGroupLoop _ next queue grouped))|done| |done].
    intros r p. apply loop_covers_step; [done|lia]. }
  destruct (_ =? _); [|by apply Hloop].
  eapply triple_bind; [by apply triple_pcontext, producer_step, sl_grouped|].
  intros [grouped|]; apply triple_pure; intros Hgrouped.
  - by apply Hloop, Hgrouped.
  - apply triple_value. intros p. apply sent_covers.
Qed.

(** ** The loop over the segments *)

Lemma foldl_fragment_ids l (ids : gset Z) fid :
  fid ∈ foldl (fun (ids : gset Z) bf => all_fragment_ids bf ∪ ids) ids l <->
  fid ∈ ids \/ exists bf, bf ∈ l /\ fid ∈ all_fragment_ids bf.
Proof. revert ids. induction l as [|bf l IH]; intros ids; simpl; [set_solver|]. rewrite IH. set_solver. Qed.

Lemma touched_fragment_id a bf fid : touched a bf fid -> fid ∈ all_fragment_ids bf.
Proof.
  intros ([efid fs] & f & indexes & rows & He & Hf & _ & _ & _ & Hfid). apply elem_of_all_fragment_ids.
  apply elem_of_btree_iter in He. exists efid, fs. split; [done|]. destruct Hfid as [->|Hfid]; [by left|right; eauto].
Qed.

Lemma segment_loop_spec fuel x segmented current :
  segment_aligned S current -> number segmented + s_segment_size S < U32 ->
  triple (sent_so_far (fun fs => covered S bfs x fs current))
    (segment_loop (s_client S) bfs (s_names S) fuel (s_segment_size S) segmented current)
    (loop_covers fuel current x (segment_aligned S)) (sent_so_far (covers x)).
Proof.
  revert current. induction fuel as [|fuel IH]; intros current Ha Hr; cbn [segment_loop].
  { apply triple_value. intros p Hp. split; [by left|]. by eapply sent_covers. }
  destruct (Z.leb_spec current (number segmented)) as [Hle|Hgt]; cbn [negb]; [|by apply triple_value].
  eapply triple_bind; [by apply producer_step, ck_cancelled, sl_client|].
  intros cancelled. apply triple_pure. intros _. destruct cancelled; [by apply triple_value; apply sent_covers|].
  assert (0 <= current) as Hc.
  { destruct Ha as (k & Hk & ->). destruct HS. assert (0 <= k * s_segment_size S) by (apply Z.mul_nonneg_nonneg; lia). lia. }
  pose proof (se_segment _ _ HS) as Hss. unfold U32 in Hr.
  assert (add64 current (s_segment_size S) = current + s_segment_size S) as Hadd by (apply add64_id; unfold U64; lia).
  rewrite Hadd, !wrap32_id by (unfold is_u32, U32; lia).
  eapply triple_bind.
  - eapply triple_weaken; [apply (fetch_segment_spec current); [unfold is_u64, U64; lia|done]|done| |intros p; apply sent_covers].
    intros u p Hp. exact Hp.
  - intros []. eapply triple_weaken; [apply (IH (current + s_segment_size S)); [|done]| | |done].
    + destruct Ha as (k & Hk & ->). exists (k + 1). split; [lia|]. ring.
    + intros p (Hw & fs0 & fetch & Hcov & Hfs & Hf). split; [done|]. rewrite Hfs. apply covered_snoc; [done|].
      eexists _, _. split; [exact Hf|]. split_and!; [done|unfold U32; lia| | | |].
      * intros b Hb. by apply elem_of_bitmap_range.
      * intros m Hm []. by apply elem_of_bitmap_range.
      * intros fid Hres. apply foldl_fragment_ids. left. unfold reserved in Hres. set_solver.
      * intros b bf fid _ Hbf Ht. apply foldl_fragment_ids. right. exists bf. split; [done|]. by eapply touched_fragment_id.
    + intros r p. apply loop_covers_step; [done|unfold U32; lia].
Qed.

(** ** The whole segment stream *)

Definition group_start (n : Z) : Z :=
  s_start S + (n - s_start S) / blocks_in_group S * blocks_in_group S.

Lemma group_start_aligned n : s_start S <= n -> group_aligned S (group_start n) /\ group_start n <= n.
Proof.
  intros Hn. pose proof blocks_in_group_pos as Hp. split.
  - exists ((n - s_start S) / blocks_in_group S). split; [apply Z.div_pos; lia|done].
  - unfold group_start. pose proof (Z.mul_div_le (n - s_start S) (blocks_in_group S) Hp). lia.
Qed.

(** However far the segment stream ran and however it ended, its fetches cover
    blocks from the first block of the group of the starting cursor; and it is
    still running only when its fuel was not more than the block numbers. *)
Lemma segment_stream_covers fuel c :
  s_start S <= number c < U64 ->
  triple (sent_so_far (fun fs => fs = []))
    (segment_stream_start (s_client S) bfs (s_names S) fuel c)
    (fun r p => (r = None -> Z.of_nat fuel <= U32) /\ sent_so_far (covers (group_start (number c))) p)
    (sent_so_far (covers (group_start (number c)))).
Proof.
  assert (forall n, 0 <= n -> short_of_fuel fuel n -> Z.of_nat fuel <= U32) as Hshort.
  { intros n Hn [->|Hf]; [done|lia]. }
  intros Hn. set (x := group_start (number c)). destruct (group_start_aligned (number c)) as [Ha Hx]; [lia|]. fold x in Ha, Hx.
  eapply triple_pre with (P' := sent_so_far (fun fs => covered S bfs x fs x)).
  2: { intros [w fs] [Hw Hfs]. cbn in Hfs. subst fs. split; [done|]. constructor; [lia|]. intros m ?. lia. }
  unfold segment_stream_start.
  eapply triple_bind; [by apply triple_pcontext, producer_step, sl_group_size|]. intros gsize. apply triple_pure. intros ->.
  eapply triple_bind; [by apply triple_pcontext, producer_step, sl_segment_size|]. intros ssize. apply triple_pure. intros ->.
  eapply triple_bind; [by apply triple_pcontext, producer_step, sl_group_start|]. intros current. apply triple_pure. intros ->.
  fold (group_start (number c)). fold x.
  eapply triple_bind; [by apply triple_pcontext, producer_step, sl_grouped|]. intros grouped. apply triple_pure. intros Hgrouped.
  pose proof (group_aligned_nonneg x Ha) as Hx0.
  eapply triple_bind with (Q := loop_covers fuel x x (group_aligned S)).
  { destruct grouped as [grouped|]; [|by apply triple_value].
    apply (group_loop_spec fuel x (mkGroupLoop x x [] grouped)); [done|]. by apply Hgrouped. }
  intros [current| |]; [|by apply triple_value|apply triple_value; intros p [Hs Hp]; eauto].
  apply triple_pure. intros Hc. pose proof (group_aligned_nonneg current Hc) as Hc0.
  eapply triple_bind; [by apply triple_pcontext, producer_step, sl_segmented|]. intros segmented. apply triple_pure. intros Hs.
  destruct segmented as [segmented|]; [|apply triple_value; intros p Hp; split; [done|by eapply sent_covers]].
  eapply triple_bind.
  - apply segment_loop_spec; [|by apply Hs]. destruct Hc as (k & Hk & ->). exists (k * s_group_size S).
    destruct HS. unfold blocks_in_group. split; [apply Z.mul_nonneg_nonneg; lia|ring].
  - intros [?| |]; apply triple_value; intros p; cbn [loop_covers];
      [intros [_ Hp]; split; [done|by eapply sent_covers]|by intros Hp|intros [Hf Hp]; eauto].
Qed.

End producer.
