(* ===== verification/StreamTaskFacts.v ===== *)
(** * Facts about the ticks of the data stream

    The abstract stream, and the invariant that every tick keeps: the messages
    sent so far are those of a run of the abstract stream that ends at the
    current cursor. *)

From S2P Require Import Prelude External Text Core Cloud StateClient ObjectStore Chain ChainView Index Query QuerySpec.
From S2P Require Import Encoding FragmentAccess FilterBlock BlockStore StoreFacts Compaction CompactionFacts GroupFacts.
From S2P Require Import CompactionSpec CompactionService DataStream DataStreamFacts SegmentStreamFacts.

(** ** The abstract stream *)

Section abstract.
Context `{!Roaring, !Prost, !BlockArchives, !HashOrder Z}.
Variable S : Setting.
Variable bfs : list BlockFilter.

(** The block of a position: positions in the compacted part have no hash. *)
Definition block_at (c : Cursor) (blk : Block) : Prop :=
  s_block S c = Some blk \/ (c = new_finalized (number c) /\ blk = (s_final S (number c)).2).

(** The messages for a block [c] after the position [cur]: its data when it has
    some, from the block before it; nothing otherwise. *)
Definition answer (cur : option Cursor) (c : Cursor) (blk : Block) (is_live : bool)
    (ms : list Message) : Prop :=
  match filter_fragment bfs (s_names S) (AccessBlock (to_bytes blk)) is_live with
  | Ok (true, data) => exists before finality,
      ms = [MsgData (mkData before (Some (cursor_to_proto c)) data finality
                      (if is_live then ProductionLive else ProductionBackfill))] /\
      (finality = FinalityAccepted \/ finality = FinalityFinalized) /\
      match before with
      | Some p => add64 (order_key p) 1 = number c
      | None => cur = None \/ number c = 0
      end
  | _ => ms = []
  end.

(** A step of the stream at a position, the messages it sends and the position
    it leads to. *)
Inductive stream_step : option Cursor -> list Message -> option Cursor -> Prop :=
| step_block cur c blk is_live ms :
    number c = next_number S cur -> block_at c blk -> answer cur c blk is_live ms ->
    stream_step cur ms (Some c)
| step_invalidate p c :
    s_reorg S p c -> stream_step (Some p) [MsgInvalidate (Some (cursor_to_proto c)) []] (Some c)
| step_finalize cur f : stream_step cur [MsgFinalize (Some (cursor_to_proto f))] cur
| step_pending p blk data :
    filter_fragment bfs (s_names S) (AccessBlock blk) false = Ok (true, data) ->
    stream_step (Some p)
      [MsgData (mkData (Some (cursor_to_proto p)) (Some (cursor_to_proto (new_pending (add64 (number p) 1))))
                  data FinalityPending ProductionLive)] (Some p).

Inductive stream_steps : option Cursor -> list Message -> option Cursor -> Prop :=
| steps_refl cur : stream_steps cur [] cur
| steps_step cur ms cur1 ms' cur' :
    stream_step cur ms cur1 -> stream_steps cur1 ms' cur' -> stream_steps cur (ms ++ ms') cur'.

Lemma stream_steps_trans a ms b ms' c :
  stream_steps a ms b -> stream_steps b ms' c -> stream_steps a (ms ++ ms') c.
Proof.
  intros Hs Ht. induction Hs as [cur|cur ms1 cur1 ms2 cur2 H1' Hs IH]; [done|].
  rewrite <- (assoc_L (++)). econstructor; eauto.
Qed.

Lemma stream_steps_one a ms b : stream_step a ms b -> stream_steps a ms b.
Proof. intros Hs. rewrite <- (app_nil_r ms). econstructor; [done|constructor]. Qed.

(** ** Passing over blocks without data *)

(** The blocks after the position and before [n] have no data. *)
Definition caught (cur : option Cursor) (n : Z) : Prop :=
  next_number S cur <= n /\ silent_range S bfs (next_number S cur) n.

Hypothesis Hstart : 0 <= s_start S.

Lemma next_number_nonneg cur : 0 <= next_number S cur.
Proof. destruct cur; [apply wrap64_range|done]. Qed.

Lemma caught_skip cur n : caught cur n -> n < U32 ->
  exists cur', stream_steps cur [] cur' /\ next_number S cur' = n /\ (cur' = None -> cur = None).
Proof.
  intros [Hle Hs] Hn. remember (Z.to_nat (n - next_number S cur)) as k eqn:Hk.
  revert cur Hle Hs Hk. induction k as [|k IH]; intros cur Hle Hs Hk.
  { exists cur. split_and!; [constructor|lia|done]. }
  set (m := next_number S cur). pose proof (next_number_nonneg cur) as Hm0. fold m in Hm0.
  assert (next_number S (Some (new_finalized m)) = m + 1) as Hnext.
  { cbn [next_number new_finalized number]. apply add64_id. unfold U32, U64 in *. lia. }
  destruct (IH (Some (new_finalized m))) as (cur' & Hst & Hn' & Hnone); rewrite ?Hnext; [lia| |lia|].
  { intros x Hx. apply Hs. lia. }
  exists cur'. split_and!; [|done|intros ?; by discriminate Hnone].
  apply (steps_step cur [] (Some (new_finalized m)) []); [|done].
  apply (step_block cur (new_finalized m) (s_final S m).2 false); [done|by right|].
  unfold answer. specialize (Hs m ltac:(lia)). destruct (filter_fragment _ _ _ _) as [[[] data]| |] eqn:Hf; [|done..].
  by apply Hs in Hf.
Qed.

End abstract.

(** ** Fetched segments *)

Lemma segment_wait_spec fetch access :
  segment_wait fetch = Ok access ->
  sa_first_block access = sf_first_block fetch /\ sa_blocks access = sf_blocks fetch /\
  (forall fid bytes, sa_fragments access !! fid = Some bytes -> sf_fragments fetch !! fid = Some (Ok bytes)) /\
  (forall fid, fid ∈ dom (sf_fragments fetch) -> is_Some (sa_fragments access !! fid)).
Proof.
  intros Hw. assert (sa_first_block access = sf_first_block fetch /\ sa_blocks access = sf_blocks fetch /\
    (forall fid bytes, sa_fragments access !! fid = Some bytes -> (fid, Ok bytes) ∈ map_to_list (sf_fragments fetch)) /\
    (forall fid r, (fid, r) ∈ map_to_list (sf_fragments fetch) -> is_Some (sa_fragments access !! fid)))
    as (Hf & Hb & Hl & Hs).
  { revert Hw. unfold segment_wait. apply (ofold_Ok_pre (fun pre access =>
      sa_first_block access = sf_first_block fetch /\ sa_blocks access = sf_blocks fetch /\
      (forall fid bytes, sa_fragments access !! fid = Some bytes -> (fid, Ok bytes) ∈ pre) /\
      (forall fid r, (fid, r) ∈ pre -> is_Some (sa_fragments access !! fid)))).
    - split_and!; [done|done|done|]. by intros fid r ?%elem_of_nil.
    - intros pre [fid r] acc acc' (Hf & Hb & Hl & Hs) He. unfold segment_wait_entry in He.
      apply bind_Ok in He as (file & Hr%change_context_Ok & [= <-]). cbn in Hr. subst r. split_and!; [done|done| |].
      + intros fid' bytes. cbn. destruct (decide (fid = fid')) as [<-|Hne].
        * rewrite lookup_insert_eq. intros [= <-]. set_solver.
        * rewrite lookup_insert_ne by done. intros ?%Hl. set_solver.
      + intros fid' r [Hin|[= -> ->]%list_elem_of_singleton]%elem_of_app; cbn.
        * destruct (decide (fid = fid')) as [<-|Hne]; [by rewrite lookup_insert_eq|].
          rewrite lookup_insert_ne by done. by eapply Hs.
        * rewrite lookup_insert_eq. by eexists. }
  split_and!; [done|done| |].
  - intros fid bytes ?%Hl. by apply elem_of_map_to_list.
  - intros fid [r Hr]%elem_of_dom. apply (Hs fid r). by apply elem_of_map_to_list.
Qed.

Definition block_of_segment (access : SegmentAccess) (b : Z) : SegmentBlockAccess :=
  mkSegmentBlock (b - sa_first_block access) access.

Lemma segment_iter_spec {E} access (blocks : list SegmentBlockAccess) :
  (forall b, b ∈ sa_blocks access -> sa_first_block access <= b < U32) -> 0 <= sa_first_block access ->
  (segment_iter access : outcome E _) = Ok blocks -> blocks = block_of_segment access <$> bitmap_iter (sa_blocks access).
Proof.
  intros Hb H0 Hi. unfold segment_iter in Hi.
  rewrite (omapM_ok _ (block_of_segment access)) in Hi; [by injection Hi as <-|].
  intros b Hin%elem_of_bitmap_iter%Hb. rewrite (proj2 (Z.leb_le _ _)) by lia. unfold block_of_segment.
  unfold U32 in *. rewrite sub64_id; [done|]. unfold U64. lia.
Qed.

(** ** The task *)

Section task.
Context `{!Codec} {W : Type} `{Cloud W} `{!StreamOps W}.
Context `{!Roaring, !Prost, !BlockArchives, !HashOrder Z, !Sha256}.
Variable S : Setting.
Variable bfs : list BlockFilter.
Hypothesis HS : setting_ok S bfs.
Context `{HL : !StreamLaws S}.

(** The position and the messages at the start of the run. *)
Variable cur0 : option Cursor.
Variable sent0 : list Message.

Abbreviation Task := (StreamTask W).

Definition serves (self : DataStream) : Prop := ds_block_filter self = bfs /\ ds_names self = s_names S.

(** The messages since the start lead to the position [cur]. *)
Definition logged (self : DataStream) (cur : option Cursor) (t : Task) : Prop :=
  world_archive S (tk_world t) /\ tk_stream t = self /\
  exists ms, tk_sent t = sent0 ++ ms /\ stream_steps S bfs cur0 ms cur.

Definition stream_at (self : DataStream) : Task -> Prop := logged self (ds_current self).

Definition progress (t : Task) : Prop := exists self, serves self /\ stream_at self t.

(** At a position from which the blocks before [n] have no data. *)
Definition at_block (n : Z) (t : Task) : Prop :=
  exists self, serves self /\ caught S bfs (ds_current self) n /\ stream_at self t.

Lemma stream_at_progress self t : serves self -> stream_at self t -> progress t.
Proof. intros Hs Ht. by exists self. Qed.

Lemma at_block_progress n t : at_block n t -> progress t.
Proof. intros (self & Hs & _ & Ht). by exists self. Qed.

Lemma task_keeps {E A} (m : prog W E A) (Q : A -> Prop) self :
  serves self -> keeps S m Q ->
  triple (stream_at self) (on_world m) (fun a t => Q a /\ stream_at self t) progress.
Proof.
  intros Hself Hm [s sent w] (Hw & Hs & Hms). specialize (Hm w Hw). unfold on_world, zoom. cbn [tk_world] in *.
  destruct (m w) as [[a|e|] w']; [destruct Hm as [Hw' HQ]; split; [done|]|exists self; split; [done|]..]; by split_and!.
Qed.

Lemma get_stream_spec self :
  triple (stream_at self) get_stream (fun s t => s = self /\ stream_at self t) progress.
Proof. intros t (Hw & Hs & Hms). unfold get_stream. cbn. by split_and!. Qed.

Lemma logged_step self cur ms cur' t :
  stream_steps S bfs cur ms cur' -> logged self cur t ->
  logged self cur' (mkTask (tk_stream t) (tk_sent t ++ ms) (tk_world t)).
Proof.
  intros Hst (Hw & Hs & ms0 & Hsent & Hsteps). split_and!; [done|done|]. exists (ms0 ++ ms). cbn [tk_sent].
  rewrite Hsent, (assoc_L (++)). split; [done|]. by eapply stream_steps_trans.
Qed.

Lemma logged_silent self cur cur' t :
  stream_steps S bfs cur [] cur' -> logged self cur t -> logged self cur' t.
Proof.
  intros Hst Ht%(logged_step _ _ _ _ _ Hst). destruct t as [s sent w]. cbn in Ht. by rewrite app_nil_r in Ht.
Qed.

(** Sending a message that the abstract stream sends. *)
Lemma send_spec self cur m cur' :
  serves self -> stream_steps S bfs cur [m] cur' -> cur = ds_current self ->
  triple (stream_at self) (send m)
    (fun sent t => if sent : bool then logged self cur' t else stream_at self t) progress.
Proof.
  intros Hself Hst ->. unfold send. eapply triple_bind; [apply task_keeps; [done|by apply ck_reserve, sl_client]|].
  intros []; apply triple_pure; intros _; [|by apply triple_value].
  intros t Ht. cbn. by eapply logged_step.
Qed.

Lemma set_current_spec self cur :
  triple (logged self cur) (modify_stream (set_current cur))
    (fun _ => stream_at (set_current cur self)) progress.
Proof. intros [s sent w] (Hw & Hs & Hms). cbn in *. subst s. by split_and!. Qed.

Lemma refresh_finalized_spec self :
  serves self -> triple (stream_at self) refresh_finalized (fun _ t => exists f, stream_at (set_finalized f self) t) progress.
Proof.
  intros Hself. unfold refresh_finalized.
  eapply triple_bind; [apply triple_pcontext, task_keeps; [done|by apply sl_finalized]|]. intros f.
  apply triple_pure. intros _ [s sent w] (Hw & Hs & Hms). exists f. cbn in *. subst s. by split_and!.
Qed.

Lemma serves_finalized self f : serves self -> serves (set_finalized f self).
Proof. done. Qed.

Lemma send_finalize_spec self :
  serves self -> triple (stream_at self) send_finalize_message (fun _ => stream_at self) progress.
Proof.
  intros Hself. unfold send_finalize_message. eapply triple_bind; [apply get_stream_spec|]. intros s.
  apply triple_pure. intros ->. eapply triple_bind.
  - apply (send_spec self (ds_current self) _ (ds_current self)); [done| |done].
    apply stream_steps_one, step_finalize.
  - intros []; by apply triple_value.
Qed.

(** ** Waiting at the head *)

Lemma tick_at_head_spec fuel self :
  serves self -> triple (stream_at self) (tick_at_head fuel) (fun _ => progress) progress.
Proof.
  revert self. induction fuel as [|fuel IH]; intros self Hself; cbn [tick_at_head].
  { apply triple_value. intros t. by apply stream_at_progress. }
  eapply triple_bind; [apply task_keeps; [done|by apply ck_wait_head, sl_client]|]. intros event. apply triple_pure. intros _.
  destruct event; [apply triple_value; intros t; by apply stream_at_progress..|].
  eapply triple_bind; [by apply refresh_finalized_spec|]. intros []. apply triple_exists. intros f.
  eapply triple_bind; [by apply send_finalize_spec, serves_finalized|]. intros []. by apply IH.
Qed.

Lemma send_pending_spec self head generation content_hash :
  serves self -> ds_current self = Some head ->
  triple (stream_at self) (send_pending_block (s_client S) self head generation content_hash)
    (fun _ => stream_at self) progress.
Proof.
  intros [Hbfs Hnames] Hcur. unfold send_pending_block.
  eapply triple_bind; [apply triple_pcontext, task_keeps; [done|by apply read_pending_keeps]|].
  intros data. apply triple_pure. intros _.
  eapply triple_bind; [apply triple_lift; intros t; by apply stream_at_progress|]. intros [has blocks]. cbn [fst snd].
  apply triple_pure. intros Hf. rewrite Hbfs, Hnames in Hf.
  destruct has; [|by apply triple_value]. case_bool_decide; [by apply triple_value|].
  eapply triple_bind.
  - apply (send_spec self (Some head) _ (Some head)); [done| |done]. apply stream_steps_one. by eapply step_pending.
  - intros []; apply triple_value; [|done]. intros t Ht. unfold stream_at. by rewrite Hcur.
Qed.

Lemma pending_loop_spec fuel self generation content_hash :
  serves self -> triple (stream_at self) (pending_loop (s_client S) fuel generation content_hash) (fun _ => progress) progress.
Proof.
  revert self generation content_hash. induction fuel as [|fuel IH]; intros self generation content_hash Hself; cbn [pending_loop].
  { apply triple_value. intros t. by apply stream_at_progress. }
  eapply triple_bind; [apply get_stream_spec|]. intros s. apply triple_pure. intros ->.
  eapply triple_bind with (Q := fun _ => stream_at self).
  { destruct generation; [|by apply triple_value]. destruct (ds_current self) eqn:Hc; [|by apply triple_value].
    by apply send_pending_spec. }
  intros hash. eapply triple_bind; [apply task_keeps; [done|by apply ck_wait_pending, sl_client]|]. intros event. apply triple_pure. intros _.
  destruct event; [apply triple_value; intros t; by apply stream_at_progress..| |].
  - eapply triple_bind; [by apply refresh_finalized_spec|]. intros []. apply triple_exists. intros f.
    eapply triple_bind; [by apply send_finalize_spec, serves_finalized|]. intros []. by apply IH.
  - eapply triple_bind; [apply triple_pcontext, task_keeps; [done|by apply sl_pending]|]. intros g. apply triple_pure. intros _.
    by apply IH.
Qed.

(** ** A single block *)

Lemma tick_single_spec self c is_head :
  serves self -> is_u64 (number c) -> number c = next_number S (ds_current self) ->
  triple (stream_at self) (tick_single (s_client S) c is_head) (fun _ => progress) progress.
Proof.
  intros Hself Hu Hnext. pose proof Hself as [Hbfs Hnames]. unfold tick_single.
  eapply triple_bind; [apply get_stream_spec|]. intros s. apply triple_pure. intros ->.
  eapply triple_bind; [apply triple_pcontext, task_keeps; [done|by apply sl_finalized]|]. intros finalized. apply triple_pure. intros _.
  eapply triple_bind; [apply triple_pcontext, task_keeps; [done|by apply read_block_keeps]|]. intros data.
  apply triple_pure. intros (blk & Hblk & ->).
  eapply triple_bind; [apply triple_lift; intros t; by apply stream_at_progress|]. intros [has blocks]. cbn [fst snd].
  apply triple_pure. intros Hf. rewrite Hbfs, Hnames in Hf.
  assert (forall ms, answer S bfs (ds_current self) c blk is_head ms ->
    stream_steps S bfs (ds_current self) ms (Some c)) as Hstep.
  { intros ms' Ha. apply stream_steps_one. eapply step_block; [done|by left|done]. }
  eapply triple_bind with (Q := fun sent t => if sent : bool then logged self (Some c) t else stream_at self t).
  - destruct has.
    + apply (send_spec self (ds_current self) _ (Some c)); [done| |done]. apply Hstep. unfold answer. rewrite Hf.
      eexists _, _. split; [reflexivity|]. split; [destruct (strict_after c finalized); auto|].
      destruct (ds_current self) as [p|]; simpl; [done|by left].
    + apply triple_value. intros t. apply logged_silent. apply Hstep. unfold answer. by rewrite Hf.
  - intros [].
    + eapply triple_weaken; [apply set_current_spec|done| |done]. intros u t Ht.
      exists (set_current (Some c) self). split; [done|]. exact Ht.
    + apply triple_value. intros t. by apply stream_at_progress.
Qed.

(** ** Blocks of a segment *)

Section segment.
Variable c : Cursor.
Variables (s : Z) (fetch : SegmentAccessFetch) (access : SegmentAccess).
Hypothesis Hfetch : fetch_complete S bfs s fetch.
Hypothesis Hwait : segment_wait fetch = Ok access.

Lemma segment_block_facts b :
  b ∈ sa_blocks access ->
  0 <= s <= b /\ b < s + s_segment_size S /\ s + s_segment_size S < U32 /\
  segment_block_cursor (block_of_segment access b) = new_finalized b /\
  filter_fragment bfs (s_names S) (AccessSegment (block_of_segment access b)) false =
  filter_fragment bfs (s_names S) (AccessBlock (to_bytes (s_final S b).2)) false.
Proof.
  destruct Hfetch as (blocks & ids & [Hf1 Hf2 Hf3 Hf4] & Hs0 & Hs1 & Hbl & _ & Hres & Htouch).
  destruct (segment_wait_spec _ _ Hwait) as (Hw1 & Hw2 & Hw3 & Hw4). rewrite Hw2, Hf2. intros Hb.
  pose proof (Hbl b Hb) as Hbr. unfold block_of_segment. rewrite Hw1, Hf1. split_and!; [lia..| |].
  - unfold segment_block_cursor, segment_block_number. cbn [sb_segment sb_offset]. rewrite Hw1, Hf1.
    f_equal. unfold U32 in *. rewrite add64_id by (unfold U64; lia). lia.
  - replace (b - s) with (Z.of_nat (Z.to_nat (b - s))) by lia.
    assert (chain_segment S s !! Z.to_nat (b - s) = Some ((s_final S b).1, (s_final S b).2)) as Hlook.
    { unfold chain_segment. rewrite list_lookup_fmap, (proj2 (lookup_seqZ _ _ _ b)) by lia. simpl. by destruct (s_final S b). }
    apply (segment_filter_eq (s_names S) (s_final S s).1 (chain_segment S s) access _ (s_final S b).1); [| | |done|].
    + apply Forall_forall. intros p (n & -> & _)%list_elem_of_fmap. apply (se_block _ _ HS).
    + intros fid bytes ?%Hw3. by apply Hf4.
    + intros fid Hr%Hres. apply Hw4. by rewrite Hf3.
    + intros bf fid Hbf Ht. split; [apply (se_filter _ _ HS bf); [done|by eapply touched_fragment_id]|].
      apply Hw4. rewrite Hf3. by eapply Htouch.
Qed.

Lemma at_block_extend n n' t : at_block n t -> n <= n' -> silent_range S bfs n n' -> at_block n' t.
Proof.
  intros (self & Hself & [Hle Hsil] & Ht) Hn Hs. exists self. split_and!; [done| |done].
  split; [lia|]. by eapply silent_range_app.
Qed.

Lemma stream_segment_block_spec b :
  b ∈ sa_blocks access ->
  triple (at_block (Z.max (number c) b)) (stream_segment_block c (block_of_segment access b))
    (fun continue t => if continue : bool then at_block (Z.max (number c) (b + 1)) t else progress t) progress.
Proof.
  intros Hb. destruct (segment_block_facts b Hb) as (Hs & Hlt & Hu & Hcursor & Hfilter).
  apply triple_exists. intros self. apply triple_pure. intros Hself. apply triple_pure. intros Hcaught.
  pose proof Hself as [Hbfs Hnames]. unfold stream_segment_block. rewrite Hcursor. cbn [number new_finalized].
  eapply triple_bind; [apply get_stream_spec|]. intros s'. apply triple_pure. intros ->.
  destruct (Z.ltb_spec b (number c)) as [Hbc|Hbc].
  { apply triple_value. intros t Ht. exists self. split_and!; [done| |done].
    by replace (Z.max (number c) (b + 1)) with (Z.max (number c) b) by lia. }
  replace (Z.max (number c) b) with b in Hcaught by lia.
  eapply triple_bind; [apply triple_lift; intros t; by apply stream_at_progress|]. intros [has blocks]. cbn [fst snd].
  apply triple_pure. intros Hf. rewrite Hbfs, Hnames, Hfilter in Hf.
  destruct (caught_skip S bfs (se_start _ _ HS) (ds_current self) b Hcaught ltac:(unfold U32 in *; lia)) as (cur & Hskip & Hnext & Hnone).
  assert (forall ms, answer S bfs cur (new_finalized b) (s_final S b).2 false ms ->
    stream_steps S bfs (ds_current self) ms (Some (new_finalized b))) as Hstep.
  { intros ms Ha. apply (stream_steps_trans _ _ _ [] cur ms); [done|]. apply stream_steps_one.
    eapply step_block; [done|by right|done]. }
  eapply triple_bind with (Q := fun sent t => if sent : bool then logged self (Some (new_finalized b)) t else stream_at self t).
  - destruct has.
    + apply (send_spec self (ds_current self) _ (Some (new_finalized b))); [done| |done]. apply Hstep.
      unfold answer. rewrite Hf. eexists _, _. split; [reflexivity|]. split; [by right|].
      destruct (Z.eqb_spec b 0) as [->|Hb0]; [by right|]. cbn. unfold U32 in *.
      rewrite sub64_id, add64_id; unfold U64; lia.
    + apply triple_value. intros t. apply logged_silent, Hstep. unfold answer. by rewrite Hf.
  - intros []; [|apply triple_value; intros t; by apply stream_at_progress].
    eapply triple_bind; [apply set_current_spec|]. intros []. apply triple_value. intros t Ht.
    exists (set_current (Some (new_finalized b)) self). split_and!; [done| |done].
    replace (Z.max (number c) (b + 1)) with (b + 1) by lia.
    assert (next_number S (Some (new_finalized b)) = b + 1) as Hn.
    { cbn. apply add64_id. unfold U32, U64 in *. lia. }
    split; rewrite ?Hn; cbn [set_current ds_current]; rewrite Hn; [lia|]. intros m ?. lia.
Qed.

Lemma stream_segment_blocks_spec l x e :
  StronglySorted Z.le l -> NoDup l -> (forall b, b ∈ l -> b ∈ sa_blocks access /\ x <= b < e) -> x <= e ->
  (forall m, x <= m < e -> m ∉ l -> silent S bfs m) ->
  triple (at_block (Z.max (number c) x)) (stream_segment_blocks c (block_of_segment access <$> l))
    (fun continue t => if continue : bool then at_block (Z.max (number c) e) t else progress t) progress.
Proof.
  revert x. induction l as [|b l IH]; intros x Hsort Hnd Hin Hxe Hsil; cbn [stream_segment_blocks fmap list_fmap].
  - apply triple_value. intros t Ht. eapply at_block_extend; [done|lia|]. intros m Hm. apply Hsil; [lia|set_solver].
  - apply StronglySorted_inv in Hsort as [Hsort Hall]. rewrite Forall_forall in Hall.
    apply NoDup_cons in Hnd as [Hnot Hnd]. destruct (Hin b) as [Hb Hbr]; [set_solver|].
    assert (forall y, y ∈ l -> b < y) as Hlt.
    { intros y Hy. specialize (Hall y Hy). assert (y <> b) by (intros ->; done). lia. }
    eapply triple_bind.
    + eapply triple_pre; [by apply stream_segment_block_spec|]. intros t Ht. eapply at_block_extend; [done|lia|].
      intros m Hm. apply Hsil; [lia|]. intros [->|Hml%Hlt]%elem_of_cons; lia.
    + intros []; [|by apply triple_value]. apply IH; [done|done| |lia|].
      * intros y Hy. destruct (Hin y) as [Hy1 Hy2]; [set_solver|]. specialize (Hlt y Hy). split; [done|lia].
      * intros m Hm Hml. apply Hsil; [lia|]. intros [->|?]%elem_of_cons; [lia|done].
Qed.

End segment.

Lemma bitmap_iter_sorted b : StronglySorted Z.le (bitmap_iter b).
Proof. apply StronglySorted_merge_sort; apply _. Qed.

Lemma at_block_keeps {E A} (m : prog W E A) n :
  keeps S m (fun _ => True) -> triple (at_block n) (on_world m) (fun _ => at_block n) progress.
Proof.
  intros Hm. apply triple_exists. intros self. apply triple_pure. intros Hself. apply triple_pure. intros Hc.
  eapply triple_weaken; [by apply (task_keeps m)|done| |done]. intros a t [_ Ht]. by exists self.
Qed.

Lemma consume_segment_spec c s fetch :
  fetch_complete S bfs s fetch ->
  triple (at_block (Z.max (number c) s))
    (segment_access ← lift (change_context DataStreamErr (segment_wait fetch));
     blocks ← lift (segment_iter segment_access);
     stream_segment_blocks c blocks)
    (fun continue t => if continue : bool then at_block (Z.max (number c) (s + s_segment_size S)) t else progress t)
    progress.
Proof.
  intros Hf. eapply triple_bind; [apply triple_lift; intros t; apply at_block_progress|]. intros access.
  apply triple_pure. intros Hw%change_context_Ok.
  eapply triple_bind; [apply triple_lift; intros t; apply at_block_progress|]. intros blocks.
  apply triple_pure. intros Hi. pose proof (segment_block_facts s fetch access Hf Hw) as Hfacts.
  pose proof Hf as (bm & ids & Hfe & Hs0 & Hs1 & Hbl & Hsil & _).
  destruct (segment_wait_spec _ _ Hw) as (Hw1 & Hw2 & _ & _). rewrite (fe_first _ _ _ _ _ Hfe) in Hw1.
  rewrite (fe_blocks _ _ _ _ _ Hfe) in Hw2. pose proof (se_segment _ _ HS) as Hss.
  apply segment_iter_spec in Hi as ->; [|rewrite Hw1, Hw2; intros b Hb%Hbl; lia|lia].
  apply (stream_segment_blocks_spec c s fetch access Hf Hw).
  - apply bitmap_iter_sorted.
  - apply NoDup_bitmap_iter.
  - intros b Hb%elem_of_bitmap_iter. split; [done|]. specialize (Hfacts b Hb). lia.
  - lia.
  - intros m Hm Hnot. apply Hsil; [lia|]. intros Hin. apply Hnot, elem_of_bitmap_iter. by rewrite Hw2.
Qed.

(** The body of the loop over the fetches, as one program. *)
Lemma consume_segments_cons c result fetch fs :
  consume_segments c result (fetch :: fs) =
  (branch ← on_world select_segment;
   match branch, result with
   | BranchCancelled, _ => mret (Some tt)
   | BranchFinished, Err _ => fail DataStreamErr
   | BranchFinished, Panic => fail DataStreamErr
   | _, _ =>
       segment_access ← lift (change_context DataStreamErr (segment_wait fetch));
       blocks ← lift (segment_iter segment_access);
       continue ← stream_segment_blocks c blocks;
       if (continue : bool) then consume_segments c result fs else mret (Some tt)
   end : prog Task DataStreamError (option unit)).
Proof. done. Qed.

Lemma bind_assoc3 {A1 A2 A3 B E} (m : prog Task E A1) (f : A1 -> prog Task E A2)
    (g : A2 -> prog Task E A3) (h : A3 -> prog Task E B) P (Q : B -> Task -> Prop) R :
  triple P (z ← (x ← m; y ← f x; g y); h z) Q R -> triple P (x ← m; y ← f x; z ← g y; h z) Q R.
Proof.
  intros Ht t Hp. specialize (Ht t Hp). unfold mbind, prog_bind in *. destruct (m t) as [[x|e|] t1]; [|done..].
  by destruct (f x t1) as [[y|e|] t2].
Qed.

Lemma consume_segments_spec c result fetches x e :
  covered S bfs x fetches e ->
  triple (at_block (Z.max (number c) x)) (consume_segments c result fetches) (fun _ => progress) progress.
Proof.
  intros Hc. induction Hc as [x e Hxe Hsil|x s e fetch fs Hx Hsil Hf Hc IH].
  - cbn [consume_segments]. eapply triple_bind; [by apply at_block_keeps, ck_select, sl_client|]. intros branch.
    assert (forall t, at_block (Z.max (number c) x) t -> progress t) as Hp by (intros t; apply at_block_progress).
    destruct branch, result as [[]| |]; first [by apply triple_value | by apply triple_fail].
  - rewrite consume_segments_cons. eapply triple_bind; [by apply at_block_keeps, ck_select, sl_client|]. intros branch.
    assert (forall t, at_block (Z.max (number c) x) t -> progress t) as Hp by (intros t; apply at_block_progress).
    assert (triple (at_block (Z.max (number c) x))
      (segment_access ← lift (change_context DataStreamErr (segment_wait fetch));
       blocks ← lift (segment_iter segment_access);
       continue ← stream_segment_blocks c blocks;
       if (continue : bool) then consume_segments c result fs else mret (Some tt))
      (fun _ => progress) progress) as Hseg.
    { apply bind_assoc3. eapply triple_bind.
      - eapply triple_pre; [by apply consume_segment_spec|]. intros t Ht.
        eapply at_block_extend; [done|lia|]. intros m Hm. apply Hsil. lia.
      - intros []; [apply IH|by apply triple_value]. }
    destruct branch, result as [r| |]; first [exact Hseg | by apply triple_value | by apply triple_fail].
Qed.

(** ** A tick *)

Lemma tick_segment_stream_spec fuel self c :
  serves self -> s_start S <= number c < U64 -> number c = next_number S (ds_current self) ->
  triple (stream_at self) (tick_segment_stream (s_client S) fuel c) (fun _ => progress) progress.
Proof.
  intros Hself Hrange Hnext. pose proof Hself as [Hbfs Hnames]. unfold tick_segment_stream.
  eapply triple_bind; [apply get_stream_spec|]. intros s. apply triple_pure. intros ->.
  destruct (_ =? 0).
  { intros t Ht. cbn. by eapply stream_at_progress. }
  rewrite Hbfs, Hnames. destruct (group_start_aligned S bfs HS (number c)) as [_ Hle]; [lia|].
  eapply triple_bind with (Q := fun p t => covers S bfs (group_start S (number c)) p.2 /\ stream_at self t).
  - intros t Ht. pose proof Ht as (Hw & Hs & Hms).
    pose proof (segment_stream_covers S bfs HS fuel c Hrange (tk_world t, []) (conj Hw eq_refl)) as Hrun.
    destruct (segment_stream_start _ _ _ _ _ _) as [r [w fetches]].
    assert (sent_so_far S (covers S bfs (group_start S (number c))) (w, fetches)) as [Hw' Hc] by (destruct r; [apply Hrun|done..]).
    cbn [fst snd] in *. split; [done|]. by split_and!.
  - intros [result fetches]. cbn [fst snd]. apply triple_pure. intros [e Hc].
    eapply triple_pre; [by eapply consume_segments_spec|]. intros t Ht. exists self. split_and!; [done| |done].
    replace (Z.max (number c) (group_start S (number c))) with (number c) by lia.
    rewrite Hnext. split; [lia|]. intros m ?. lia.
Qed.

Lemma tick_spec fuel : triple progress (tick (s_client S) fuel) (fun _ => progress) progress.
Proof.
  apply triple_exists. intros self. apply triple_pure. intros Hself. unfold tick.
  eapply triple_bind; [apply get_stream_spec|]. intros s. apply triple_pure. intros ->.
  eapply triple_bind; [apply triple_pcontext, task_keeps; [done|by apply sl_next]|]. intros next. apply triple_pure.
  intros Hnext. assert (forall t, stream_at self t -> progress t) as Hp by (intros t; by apply stream_at_progress).
  destruct next as [c is_head|c|]; cbn [next_ok] in Hnext.
  - destruct Hnext as [Hrange Hnext]. destruct (_ && _).
    + eapply triple_bind; [apply task_keeps; [done|by apply ck_wait_finalized, sl_client]|]. intros event. apply triple_pure. intros _.
      destruct event; [by apply triple_value|]. eapply triple_bind; [by apply refresh_finalized_spec|]. intros [].
      apply triple_value. intros t [f Ht]. by apply (stream_at_progress (set_finalized f self)).
    + eapply triple_bind; [apply triple_pcontext, task_keeps; [done|by apply sl_has_segment]|]. intros has. apply triple_pure. intros _.
      destruct has; [by apply tick_segment_stream_spec|].
      eapply triple_bind; [apply tick_single_spec; [done| |done]|].
      * unfold is_u64. pose proof (se_start _ _ HS). lia.
      * intros []. by apply triple_value.
  - destruct Hnext as (p & Hcur & Hr). eapply triple_bind.
    + apply (send_spec self (Some p) _ (Some c)); [done| |done]. by apply stream_steps_one, step_invalidate.
    + intros []; [|by apply triple_value]. eapply triple_bind; [apply set_current_spec|]. intros [].
      apply triple_value. intros t. by apply stream_at_progress.
  - destruct (bool_decide _); [|by apply tick_at_head_spec]. unfold tick_at_head_pending.
    eapply triple_bind; [apply triple_pcontext, task_keeps; [done|by apply sl_pending]|]. intros generation.
    apply triple_pure. intros _. by apply pending_loop_spec.
Qed.

Lemma progress_keeps {E A} (m : prog W E A) :
  keeps S m (fun _ => True) -> triple progress (on_world m) (fun _ => progress) progress.
Proof.
  intros Hm. apply triple_exists. intros self. apply triple_pure. intros Hself.
  eapply triple_weaken; [by apply (task_keeps m)|done| |done]. intros a t [_ Ht]. by exists self.
Qed.

Lemma stream_start_spec fuel n : triple progress (stream_start (s_client S) fuel n) (fun _ => progress) progress.
Proof.
  induction n as [|n IH]; cbn [stream_start]; [by apply triple_value|].
  eapply triple_bind; [by apply progress_keeps, ck_cancelled, sl_client|]. intros cancelled.
  eapply triple_bind; [by apply progress_keeps, ck_closed, sl_client|]. intros closed.
  destruct (_ || _); [by apply triple_value|].
  eapply triple_bind; [apply tick_spec|]. intros [?|]; [done|by apply triple_value].
Qed.

End task.
