(* ===== verification/StreamFinalityFacts.v ===== *)
(** * Facts about finality and pending blocks in the data stream

    Invariants of the stream that do not depend on what is stored: the finality
    of the messages, and the pending blocks that were sent. *)

From S2P Require Import Prelude External Text Core Cloud StateClient ObjectStore Chain ChainView Index Query.
From S2P Require Import Encoding FragmentAccess FilterBlock BlockStore CompactionService DataStream DataStreamFacts.

(** ** Invariants of programs *)

(** Every run keeps [P], also one that fails. *)
Definition invariant {S E A} (P : S -> Prop) (m : prog S E A) : Prop := triple P m (fun _ => P) P.

Section invariants.
Context {S E A B : Type} (P : S -> Prop).

Lemma invariant_bind (m : prog S E A) (f : A -> prog S E B) :
  invariant P m -> (forall a, invariant P (f a)) -> invariant P (mbind f m).
Proof. intros Hm Hf. eapply triple_bind; [exact Hm|]. intros a. apply Hf. Qed.

Lemma invariant_ret (a : A) : invariant P (mret a : prog S E A).
Proof. by apply triple_value. Qed.

Lemma invariant_fail (e : E) : invariant P (fail e : prog S E A).
Proof. by apply triple_fail. Qed.

Lemma invariant_lift (o : outcome E A) : invariant P (lift o : prog S E A).
Proof. intros s Hs. unfold lift. by destruct o. Qed.

Lemma invariant_get : invariant P (get_state : prog S E S).
Proof. by apply triple_get. Qed.

Lemma invariant_pcontext {E'} (e : E') (m : prog S E A) : invariant P m -> invariant P (pcontext e m).
Proof. apply triple_pcontext. Qed.

Lemma invariant_try {E'} (m : prog S E A) : invariant P m -> invariant P (try m : prog S E' (outcome E A)).
Proof. intros Hm s Hs. specialize (Hm s Hs). unfold try. by destruct (m s) as [[] s']. Qed.

End invariants.

Lemma invariant_pfold {S E A B} (P : S -> Prop) (f : B -> A -> prog S E B) b l :
  (forall b x, invariant P (f b x)) -> invariant P (pfold f b l).
Proof.
  intros Hf. revert b. induction l as [|x l IH]; intros b; cbn [pfold]; [apply invariant_ret|].
  by apply invariant_bind.
Qed.

Lemma invariant_forM {S E A} (P : S -> Prop) (f : A -> prog S E unit) l :
  (forall x, invariant P (f x)) -> invariant P (forM_ f l).
Proof.
  intros Hf. induction l as [|x l IH]; cbn [forM_]; [apply invariant_ret|]. by apply invariant_bind.
Qed.

Create HintDb invariant.
#[export] Hint Resolve invariant_ret invariant_fail invariant_lift invariant_get : invariant.

(** Walks through a program; what is left are its calls. *)
Ltac walk :=
  repeat first
    [ solve [eauto with invariant]
    | apply invariant_bind; [|intros ?]
    | apply invariant_pcontext
    | apply invariant_try
    | apply invariant_pfold; intros ? ?
    | apply invariant_forM; intros ?
    | case_match ].

(** ** Time passes *)

Section monotone.
Context `{!Codec} {W : Type} `{Cloud W} `{!StreamOps W}.
Context `{!Roaring, !Prost, !BlockArchives, !HashOrder Z, !Sha256}.
Variable client : ObjectStore.

(** The finalized block of the chain view at a world. *)
Variable finalized_at : W -> Z.

Definition reached (n : Z) (w : W) : Prop := n <= finalized_at w.

(** The finalized block does not move back while an operation runs. *)
Definition advances {E A} (m : prog W E A) : Prop := forall n, invariant (reached n) m.

(** No operation moves it back, and the chain view returns a cursor between the
    finalized blocks before and after the call. *)
Record finalized_advances : Prop := {
  fa_finalized : forall n, triple (reached n) view_finalized_cursor
    (fun c w => n <= number c /\ reached (number c) w) (reached n);
  fa_next : forall cur, advances (view_next_cursor cur);
  fa_grouped : advances view_grouped_cursor;
  fa_segmented : advances view_segmented_cursor;
  fa_has_segment : forall n, advances (view_has_segment n);
  fa_group_start : forall n, advances (view_group_start n);
  fa_group_size : advances view_group_size;
  fa_segment_size : advances view_segment_size;
  fa_reserve : advances reserve;
  fa_cancelled : advances is_cancelled;
  fa_closed : advances is_closed;
  fa_wait_finalized : advances wait_finalized;
  fa_wait_head : advances wait_head;
  fa_select : advances select_segment;
  fa_read : forall cache path, advances (get_or_fetch cache path (fetch_object client path)) }.

Hypothesis Hfa : finalized_advances.

Section producer.
Variable bfs : list BlockFilter.
Variable names : gmap Z string.

Definition producer_reached (n : Z) (p : W * list SegmentAccessFetch) : Prop := reached n p.1.

Lemma on_producer_advances {E A} (m : prog W E A) n : advances m -> invariant (producer_reached n) (on_producer m).
Proof.
  intros Hm [w fs] Hw. specialize (Hm n w Hw). unfold on_producer, zoom. cbn [fst snd].
  by destruct (m w) as [[] w'].
Qed.

Lemma send_fetch_advances fetch n : invariant (producer_reached n) (send_fetch fetch).
Proof. by intros [w fs] Hw. Qed.

Lemma read_advances cache path n :
  invariant (producer_reached n) (on_producer (try (E' := DataStreamError) (get_or_fetch cache path (fetch_object client path)))).
Proof. apply on_producer_advances. intros k. apply invariant_try. by apply fa_read. Qed.

Hint Resolve on_producer_advances send_fetch_advances read_advances : invariant.
Hint Resolve fa_next fa_grouped fa_segmented fa_has_segment fa_group_start fa_group_size fa_segment_size
  fa_cancelled fa_read : invariant.

Lemma fetch_segment_advances s blocks ids n :
  invariant (producer_reached n) (fetch_segment client names s blocks ids).
Proof. unfold fetch_segment, fetch_fragment, reader_get_segment. walk. Qed.

Hint Resolve fetch_segment_advances : invariant.

Lemma group_loop_advances fuel gsize ssize st n :
  invariant (producer_reached n) (group_loop client bfs names fuel gsize ssize st).
Proof.
  revert st. induction fuel as [|fuel IH]; intros st; cbn [group_loop]; [apply invariant_ret|].
  unfold group_segment, reader_get_group. walk.
Qed.

Lemma segment_loop_advances fuel ssize segmented current n :
  invariant (producer_reached n) (segment_loop client bfs names fuel ssize segmented current).
Proof.
  revert current. induction fuel as [|fuel IH]; intros current; cbn [segment_loop]; [apply invariant_ret|]. walk.
Qed.

Hint Resolve group_loop_advances segment_loop_advances : invariant.

Lemma segment_stream_advances fuel c n :
  invariant (producer_reached n) (segment_stream_start client bfs names fuel c).
Proof. unfold segment_stream_start. walk. Qed.

End producer.

(** ** A stream of finalized data *)

Definition final_message (m : Message) : Prop :=
  match m with MsgData d => data_finality d = FinalityFinalized | _ => True end.

Variable sent0 : list Message.

(** The client asked for finalized data, the finalized block that the stream
    knows is not ahead of the chain view, and the data sent is final. *)
Definition final_only (t : StreamTask W) : Prop :=
  ds_finality (tk_stream t) = FinalityFinalized /\
  reached (number (ds_finalized (tk_stream t))) (tk_world t) /\
  exists ms, tk_sent t = sent0 ++ ms /\ Forall final_message ms.

Definition final_at (self : DataStream) (t : StreamTask W) : Prop := final_only t /\ tk_stream t = self.

Lemma on_world_final {E A} (m : prog W E A) : advances m -> invariant final_only (on_world m).
Proof.
  intros Hm [s sent w] (Hf & Hr & Hms). specialize (Hm _ w Hr). unfold on_world, zoom. cbn [tk_world tk_stream tk_sent] in *.
  destruct (m w) as [[] w']; by split_and!.
Qed.

Lemma on_world_final_at {E A} (m : prog W E A) self : advances m -> invariant (final_at self) (on_world m).
Proof.
  intros Hm t [Ht Hs]. pose proof (on_world_final m Hm t Ht) as Hrun. unfold on_world, zoom in *.
  destruct (m (tk_world t)) as [[] w']; by split.
Qed.

Lemma get_stream_final : invariant final_only get_stream.
Proof. by intros t Ht. Qed.

Lemma set_current_final cur : invariant final_only (modify_stream (set_current cur)).
Proof. by intros [s sent w] Ht. Qed.

Hint Resolve on_world_final get_stream_final set_current_final : invariant.
Hint Resolve fa_next fa_has_segment fa_reserve fa_cancelled fa_closed fa_wait_finalized fa_wait_head fa_select fa_read : invariant.

Lemma send_final m : final_message m -> invariant final_only (send m).
Proof.
  intros Hm. unfold send. walk. intros [s sent w] (Hf & Hr & ms & Hsent & Hms). cbn in *. split_and!; [done|done|].
  exists (ms ++ [m]). rewrite Hsent, (assoc_L (++)). split; [done|]. apply Forall_app. by split; [|apply Forall_singleton].
Qed.

Lemma refresh_final : invariant final_only refresh_finalized.
Proof.
  unfold refresh_finalized. eapply triple_bind with (Q := fun c t => final_only t /\ reached (number c) (tk_world t)).
  - apply triple_pcontext. intros [s sent w] (Hf & Hr & Hms). unfold on_world, zoom. cbn [tk_world tk_stream tk_sent] in *.
    pose proof (fa_finalized Hfa _ w Hr) as Hrun. destruct (view_finalized_cursor w) as [[c| |] w'];
      [destruct Hrun as [Hn Hc]|..]; [|by split_and!..].
    split; [|done]. split_and!; [done| |done]. cbn [tk_world tk_stream]. unfold reached in *. lia.
  - intros c. intros [s sent w] [(Hf & Hr & Hms) Hc]. by split_and!.
Qed.

Hint Resolve send_final refresh_final : invariant.
Hint Extern 1 (final_message _) => reflexivity : invariant.
Hint Extern 1 (final_message _) => exact I : invariant.

Lemma send_finalize_final : invariant final_only send_finalize_message.
Proof. unfold send_finalize_message. walk. Qed.

Hint Resolve send_finalize_final : invariant.

Lemma tick_at_head_final fuel : invariant final_only (tick_at_head fuel).
Proof. induction fuel as [|fuel IH]; cbn [tick_at_head]; walk. Qed.

Lemma segment_block_final c b : invariant final_only (stream_segment_block c b).
Proof. unfold stream_segment_block, stream_filter. walk. Qed.

Hint Resolve segment_block_final : invariant.

Lemma segment_blocks_final c l : invariant final_only (stream_segment_blocks c l).
Proof. induction l as [|b l IH]; cbn [stream_segment_blocks]; walk. Qed.

Hint Resolve segment_blocks_final : invariant.

Lemma consume_segments_final c r fetches : invariant final_only (consume_segments c r fetches).
Proof. induction fetches as [|f fetches IH]; cbn [consume_segments]; walk. Qed.

Hint Resolve consume_segments_final : invariant.

Lemma tick_segment_stream_final fuel c : invariant final_only (tick_segment_stream client fuel c).
Proof.
  unfold tick_segment_stream. walk. intros t (Hf & Hr & Hms).
  pose proof (segment_stream_advances (ds_block_filter a) (ds_names a) fuel c _ (tk_world t, []) Hr) as Hrun.
  destruct (segment_stream_start _ _ _ _ _ _) as [r [w fetches]]. cbn.
  assert (reached (number (ds_finalized (tk_stream t))) w) by (by destruct r). by split_and!.
Qed.

(** A block that is not after the finalized block is sent as finalized. *)
Lemma tick_single_final self c is_head :
  strict_after c (ds_finalized self) = false ->
  triple (final_at self) (tick_single client c is_head) (fun _ => final_only) final_only.
Proof.
  intros Hc. unfold tick_single. apply Z.ltb_ge in Hc.
  eapply triple_bind with (Q := fun s t => s = self /\ final_at self t).
  { intros t [Ht Hs]. cbn. by split. }
  intros s. apply triple_pure. intros ->.
  eapply triple_bind with (Q := fun f t => strict_after c f = false /\ final_only t).
  { apply triple_pcontext. intros [s sent w] [(Hf & Hr & Hms) Hs]. cbn [tk_world tk_stream tk_sent] in *. subst s.
    unfold on_world, zoom. cbn [tk_world tk_stream tk_sent].
    pose proof (fa_finalized Hfa _ w Hr) as Hrun. destruct (view_finalized_cursor w) as [[f| |] w'];
      [destruct Hrun as [Hn Hff]|..]; [|by split_and!..].
    split; [apply Z.ltb_ge; lia|]. split_and!; [done| |done]. cbn [tk_world tk_stream]. unfold reached in *. lia. }
  intros f. apply triple_pure. intros ->. fold (invariant final_only
    (block_entry ← pcontext DataStreamErr (on_world (reader_get_block client c));
     r ← stream_filter self (AccessBlock block_entry) is_head;
     sent ← (if (r.1 : bool)
       then send (MsgData (mkData (cursor_to_proto <$> ds_current self) (Some (cursor_to_proto c)) r.2 FinalityFinalized
              (if is_head then ProductionLive else ProductionBackfill)))
       else mret true);
     if (sent : bool) then modify_stream (set_current (Some c)) else mret tt)).
  unfold reader_get_block, stream_filter. walk.
Qed.

Lemma weaker_start {A} (m : prog (StreamTask W) DataStreamError A) self :
  invariant final_only m -> triple (final_at self) m (fun _ => final_only) final_only.
Proof. intros Hm. eapply triple_pre; [exact Hm|]. by intros t [Ht _]. Qed.

Lemma tick_final fuel : invariant final_only (tick client fuel).
Proof.
  unfold tick. eapply triple_bind with (Q := fun s t => final_at s t).
  { intros t Ht. cbn. by split. }
  intros self. eapply triple_bind with (Q := fun _ => final_at self).
  { eapply triple_weaken; [apply (invariant_pcontext (final_at self)), on_world_final_at, (fa_next Hfa)|done|done|].
    by intros t [Ht _]. }
  intros [c is_head|c|].
  - destruct (strict_after c (ds_finalized self)) eqn:Hc.
    { rewrite andb_true_r. destruct (bool_decide _) eqn:Hfin; [apply weaker_start; walk|].
      intros t [(Hf & _) <-]. by apply bool_decide_eq_false in Hfin. }
    rewrite andb_false_r. eapply triple_bind with (Q := fun _ => final_at self).
    { eapply triple_weaken; [apply (invariant_pcontext (final_at self)), on_world_final_at, (fa_has_segment Hfa)|done|done|].
      by intros t [Ht _]. }
    intros []; [apply weaker_start, tick_segment_stream_final|].
    eapply triple_bind; [by apply tick_single_final|]. intros []. by apply triple_value.
  - apply weaker_start. walk.
  - destruct (bool_decide (ds_finality self = FinalityPending)) eqn:Hfin; [|apply weaker_start, tick_at_head_final].
    intros t [(Hf & _) <-]. apply bool_decide_eq_true in Hfin. congruence.
Qed.

Lemma stream_start_final fuel n : invariant final_only (stream_start client fuel n).
Proof.
  induction n as [|n IH]; cbn [stream_start]; [apply invariant_ret|].
  pose proof (tick_final fuel). walk.
Qed.

End monotone.

(** ** Pending blocks *)

Section pending.
Context `{!Codec} {W : Type} `{Cloud W} `{!StreamOps W}.
Context `{!Roaring, !Prost, !BlockArchives, !HashOrder Z, !Sha256}.
Variable client : ObjectStore.
Variable sent0 : list Message.

(** The pending blocks among the messages. *)
Definition pending_data (m : Message) : list (list (list byte)) :=
  match m with
  | MsgData d => if bool_decide (data_finality d = FinalityPending) then [data_blocks d] else []
  | _ => []
  end.

(** No two consecutive ones have the same bytes. *)
Definition no_repetition (ps : list (list (list byte))) : Prop :=
  forall i a b, ps !! i = Some a -> ps !! Datatypes.S i = Some b -> concat a <> concat b.

Lemma no_repetition_snoc ps p :
  no_repetition ps -> (forall q, list.last ps = Some q -> concat q <> concat p) -> no_repetition (ps ++ [p]).
Proof.
  intros Hps Hlast i a b Ha Hb. apply lookup_app_Some in Hb as [Hb|[Hlen Hb]].
  - rewrite lookup_app_l in Ha by (apply lookup_lt_Some in Hb; lia). by eapply Hps.
  - apply list_lookup_singleton_Some in Hb as [Hi <-]. rewrite lookup_app_l in Ha by lia. apply Hlast.
    rewrite last_lookup. replace (pred (length ps)) with i by lia. done.
Qed.

(** The content hash is that of the last pending block that was sent. *)
Definition pending_sent (content_hash : list byte) (t : StreamTask W) : Prop :=
  exists ms, tk_sent t = sent0 ++ ms /\ no_repetition (ms ≫= pending_data) /\
    forall p, list.last (ms ≫= pending_data) = Some p -> content_hash = sha256 (concat p).

Definition pending_fresh (t : StreamTask W) : Prop :=
  exists ms, tk_sent t = sent0 ++ ms /\ no_repetition (ms ≫= pending_data).

Lemma pending_sent_fresh h t : pending_sent h t -> pending_fresh t.
Proof. intros (ms & Hs & Hn & _). by exists ms. Qed.

(** What does not send pending blocks keeps the invariant. *)
Lemma on_world_pending {E A} (m : prog W E A) h :
  triple (pending_sent h) (on_world m) (fun _ => pending_sent h) pending_fresh.
Proof.
  intros [s sent w] Ht. unfold on_world, zoom. cbn [tk_world tk_stream tk_sent].
  destruct (m w) as [[] w']; [exact Ht|by eapply pending_sent_fresh..].
Qed.

Lemma send_pending_data m p h :
  pending_data m = [p] -> sha256 (concat p) <> h ->
  triple (pending_sent h) (send m)
    (fun sent => pending_sent (if sent : bool then sha256 (concat p) else h)) pending_fresh.
Proof.
  intros Hm Hh. unfold send. eapply triple_bind; [apply on_world_pending|]. intros []; [|by apply triple_value].
  intros [s sent w] (ms & Hs & Hn & Hl). cbn in *. exists (ms ++ [m]).
  assert ((ms ++ [m]) ≫= pending_data = (ms ≫= pending_data) ++ [p]) as Hps.
  { rewrite bind_app. cbn. by rewrite app_nil_r, Hm. }
  rewrite Hps. rewrite Hs, (assoc_L (++)). split_and!; [done| |].
  - apply no_repetition_snoc; [done|]. intros q Hq%Hl Heq. rewrite Heq in Hq. by apply Hh.
  - intros q. rewrite last_snoc. by intros [= <-].
Qed.

Lemma send_other m h :
  pending_data m = [] -> triple (pending_sent h) (send m) (fun _ => pending_sent h) pending_fresh.
Proof.
  intros Hm. unfold send. eapply triple_bind; [apply on_world_pending|]. intros []; [|by apply triple_value].
  intros [s sent w] (ms & Hs & Hn & Hl). cbn in *. exists (ms ++ [m]).
  rewrite Hs, (assoc_L (++)), bind_app. cbn. rewrite Hm, !app_nil_r. by split_and!.
Qed.

Lemma get_stream_pending h : triple (pending_sent h) get_stream (fun _ => pending_sent h) pending_fresh.
Proof. by intros t Ht. Qed.

Lemma send_pending_block_fresh self head generation h :
  triple (pending_sent h) (send_pending_block client self head generation h) pending_sent pending_fresh.
Proof.
  unfold send_pending_block. eapply triple_bind; [apply triple_pcontext, on_world_pending|]. intros data.
  eapply triple_bind; [apply triple_lift, pending_sent_fresh|]. intros [[] blocks]; apply triple_pure; intros _; cbn [fst snd];
    [|by apply triple_value].
  case_bool_decide as Hh; [by apply triple_value|].
  eapply triple_bind; [by apply (send_pending_data _ blocks)|]. intros []; by apply triple_value.
Qed.

Lemma finalize_fresh h :
  triple (pending_sent h) (_ ← refresh_finalized; send_finalize_message) (fun _ => pending_sent h) pending_fresh.
Proof.
  eapply triple_bind with (Q := fun _ => pending_sent h).
  { unfold refresh_finalized. eapply triple_bind; [apply triple_pcontext, on_world_pending|]. intros f. by apply triple_modify. }
  intros []. unfold send_finalize_message. eapply triple_bind; [apply get_stream_pending|]. intros self.
  eapply triple_bind; [by apply send_other|]. intros sent. by apply triple_value.
Qed.

Lemma pending_loop_fresh fuel generation h :
  triple (pending_sent h) (pending_loop client fuel generation h) (fun _ => pending_fresh) pending_fresh.
Proof.
  revert generation h. induction fuel as [|fuel IH]; intros generation h; cbn [pending_loop].
  { apply triple_value. apply pending_sent_fresh. }
  eapply triple_bind; [apply get_stream_pending|]. intros self.
  eapply triple_bind with (Q := pending_sent).
  { destruct generation; [|by apply triple_value]. destruct (ds_current self); [|by apply triple_value].
    apply send_pending_block_fresh. }
  intros h'. eapply triple_bind; [apply on_world_pending|]. intros [].
  - apply triple_value. apply pending_sent_fresh.
  - apply triple_value. apply pending_sent_fresh.
  - intros t Ht. pose proof (finalize_fresh h' t Ht) as Hf. unfold mbind, prog_bind in *.
    destruct (refresh_finalized t) as [[[]| |] t1]; [|done|done].
    destruct (send_finalize_message t1) as [[[]| |] t2]; [|done|done]. by apply IH.
  - eapply triple_bind; [apply triple_pcontext, on_world_pending|]. intros g. apply IH.
Qed.

End pending.
