(* ===== verification/StreamProgressFacts.v ===== *)
(** * Facts about the progress of the data stream

    A tick over compacted blocks with a client that takes everything: the last
    fetch of the segment stream is a whole segment, and consuming it moves the
    position to its last block. *)

From S2P Require Import Prelude External Text Core Cloud StateClient ObjectStore Chain ChainView Index Query.
From S2P Require Import Encoding FragmentAccess FilterBlock BlockStore Compaction CompactionService.
From S2P Require Import CompactionServiceFacts DataStream DataStreamFacts SegmentStreamFacts StreamTaskFacts StreamFinalityFacts.

(** The program returns only values that satisfy [Q]. *)
Definition returns {S E A} (m : prog S E A) (Q : A -> Prop) : Prop :=
  forall s a s', m s = (Ok a, s') -> Q a.

Lemma returns_pcontext {S E E' A} (e : E') (m : prog S E A) Q : returns m Q -> returns (pcontext e m) Q.
Proof. intros Hm s a s' Hr. apply pcontext_Ok in Hr. by eapply Hm. Qed.

(** The blocks of a bitmap are visited up to the largest one. *)
Lemma bitmap_iter_last (b : RoaringBitmap) m :
  m ∈ b -> (forall x, x ∈ b -> x <= m) -> list.last (bitmap_iter b) = Some m.
Proof.
  intros Hm Hmax. assert (forall l, StronglySorted Z.le l -> m ∈ l -> (forall x, x ∈ l -> x <= m) -> list.last l = Some m) as Hl.
  { induction l as [|x l IH]; intros Hs Hin Hle; [by apply elem_of_nil in Hin|].
    apply StronglySorted_inv in Hs as [Hs Hx]. destruct l as [|y l].
    - by apply list_elem_of_singleton in Hin as ->.
    - change (list.last (y :: l) = Some m). apply IH; [done| |set_solver].
      apply elem_of_cons in Hin as [->|Hin]; [|done].
      rewrite Forall_forall in Hx. assert (y = x) as ->; [|set_solver].
      specialize (Hx y ltac:(set_solver)). specialize (Hle y ltac:(set_solver)). lia. }
  apply Hl; [|by apply elem_of_bitmap_iter|intros x Hx%elem_of_bitmap_iter; auto].
  unfold bitmap_iter. apply StronglySorted_merge_sort; intros ?; lia.
Qed.

Section progress.
Context `{!Codec} {W : Type} `{Cloud W} `{!StreamOps W}.
Context `{!Roaring, !Prost, !BlockArchives, !HashOrder Z, !Sha256}.
Variable client : ObjectStore.
Variable bfs : list BlockFilter.
Variable names : gmap Z string.

(** The client takes every message and nothing is cancelled. *)
Record patient : Prop := {
  pa_reserve : returns reserve (fun permit => permit = true);
  pa_cancelled : returns is_cancelled (fun cancelled => cancelled = false);
  pa_select : returns select_segment (fun branch => branch = BranchSegment) }.

(** The layout of the compacted blocks around the block [n]: groups end before
    the block [last], and there is a segment after it that has [n]. *)
Record compacted (start gsize ssize last n : Z) : Prop := {
  co_sizes : 0 < gsize /\ 0 < ssize /\ 1 < gsize * ssize;
  co_range : 0 <= start <= n /\ last + 1 + gsize * ssize < U32 /\ n + gsize * ssize < U32;
  co_gsize : returns view_group_size (fun g => g = gsize);
  co_ssize : returns view_segment_size (fun s => s = ssize);
  co_start : returns (view_group_start n)
    (fun g => g = start + (n - start) / (gsize * ssize) * (gsize * ssize));
  co_grouped : returns view_grouped_cursor (fun o => forall c, o = Some c ->
    number c <= last /\ exists k, number c + 1 = start + k * (gsize * ssize));
  co_segmented : returns view_segmented_cursor (fun o => exists c, o = Some c /\
    last < number c /\ n <= number c /\ number c + ssize < U32) }.

Hypothesis Hpatient : patient.

Abbreviation Producer := (W * list SegmentAccessFetch)%type.

Lemma returns_producer {E A} (m : prog W E A) Q : returns m Q -> returns (on_producer m) Q.
Proof.
  intros Hm p a p' Hr. unfold on_producer, zoom in Hr. destruct (m p.1) as [r w'] eqn:Hrun.
  injection Hr as -> <-. by eapply Hm.
Qed.

(** ** The segment stream *)

Section stream.
Variables (start gsize ssize last n : Z).
Hypothesis Hc : compacted start gsize ssize last n.

Definition aligned (x : Z) : Prop := exists k, x = start + k * (gsize * ssize).

Lemma aligned_step x y : aligned x -> aligned y -> x < y -> x + gsize * ssize <= y.
Proof.
  intros [k ->] [k' ->] Hlt. destruct (co_sizes _ _ _ _ _ Hc) as (_ & _ & Hp). assert (k < k') by nia.
  assert (gsize * ssize <= (k' - k) * (gsize * ssize)) by nia. lia.
Qed.

Definition group_position (x : Z) : Prop := aligned x /\ 0 <= x <= Z.max n (last + 1).

Lemma group_loop_end fuel st (p : Producer) x p' :
  group_position (gl_current st) -> number (gl_grouped st) <= last -> aligned (number (gl_grouped st) + 1) ->
  group_loop client bfs names fuel gsize ssize st p = (Ok x, p') ->
  match x with LoopDone current => group_position current | LoopReturned => False | LoopRunning => True end.
Proof.
  revert st p. induction fuel as [|fuel IH]; intros st p Hpos Hle Hal; cbn [group_loop].
  { by intros [= <- <-]. }
  destruct (Z.leb_spec (gl_current st) (number (gl_grouped st))) as [Hcur|Hcur]; cbn [negb]; [|by intros [= <- <-]].
  intros (cancelled & p1 & Hcan & Hrun)%prog_bind_Ok.
  apply (returns_producer _ _ (pa_cancelled Hpatient)) in Hcan as ->.
  destruct (fill_group_queue_current (Z.to_nat GROUP_QUEUE_SIZE) gsize ssize st) as [Hc1 Hg1].
  destruct (fill_group_queue _ _ _ st) as [current next queue grouped]. cbn [gl_current gl_grouped gl_queue gl_next] in *.
  subst current grouped. destruct queue as [|fetched queue]; [done|].
  apply prog_bind_Ok in Hrun as (entry & p2 & _ & Hrun). destruct (negb _); [done|].
  apply prog_bind_Ok in Hrun as (group & p3 & _ & Hrun). apply prog_bind_Ok in Hrun as (needed & p4 & _ & Hrun).
  apply prog_bind_Ok in Hrun as ([] & p5 & _ & Hrun).
  destruct Hpos as [Ha Hr]. pose proof (aligned_step _ _ Ha Hal ltac:(lia)) as Hstep.
  destruct (co_sizes _ _ _ _ _ Hc) as (_ & _ & Hp). destruct (co_range _ _ _ _ _ Hc) as (_ & Hu & _). unfold U32 in Hu.
  assert (add64 (gl_current st) (mul64 ssize gsize) = gl_current st + gsize * ssize) as Hadd.
  { rewrite mul64_id by (unfold U64; lia). rewrite add64_id by (unfold U64; lia). ring. }
  rewrite Hadd in Hrun.
  assert (group_position (gl_current st + gsize * ssize)) as Hpos'.
  { split; [|lia]. destruct Ha as [k ->]. exists (k + 1). ring. }
  destruct (Z.eqb_spec (number (gl_grouped st)) (gl_current st + gsize * ssize)) as [Heq|_]; [|by apply IH in Hrun].
  pose proof (aligned_step _ _ (proj1 Hpos') Hal ltac:(lia)). lia.
Qed.

(** A fetch of a whole segment that ends with the block [n] or after it. *)
Definition last_fetch (p : Producer) : Prop :=
  exists fs fetch s, p.2 = fs ++ [fetch] /\ 0 <= s /\ n <= s + ssize - 1 /\ s + ssize < U32 /\
    sf_first_block fetch = s /\ sf_blocks fetch = bitmap_range s (s + ssize).

Lemma fetch_segment_last s blocks ids (p p' : Producer) :
  fetch_segment client names s blocks ids p = (Ok tt, p') ->
  exists fs fetch, p'.2 = fs ++ [fetch] /\ sf_first_block fetch = s /\ sf_blocks fetch = blocks.
Proof.
  unfold fetch_segment. intros (fetch & p1 & Hf & [= <-])%prog_bind_Ok. exists p1.2, fetch. split; [done|].
  assert (forall l f0 q f q', pfold (fetch_fragment client names (new_finalized s)) f0 l q = (Ok f, q') ->
    sf_first_block f = sf_first_block f0 /\ sf_blocks f = sf_blocks f0) as Hfold.
  { induction l as [|fid l IH]; intros f0 q f q'; cbn [pfold]; [by intros [= <- _]|].
    intros (f1 & q1 & Hf1 & Hf2)%prog_bind_Ok. apply IH in Hf2 as [-> ->]. unfold fetch_fragment in Hf1.
    apply prog_bind_Ok in Hf1 as (nm & q2 & _ & Hf1). apply prog_bind_Ok in Hf1 as (r & q3 & _ & [= <- _]). done. }
  by apply Hfold in Hf.
Qed.

Lemma segment_loop_end fuel segmented current (p p' : Producer) x :
  0 <= current -> n <= number segmented -> number segmented + ssize < U32 ->
  current <= number segmented \/ last_fetch p ->
  segment_loop client bfs names fuel ssize segmented current p = (Ok x, p') ->
  x = LoopRunning \/ last_fetch p'.
Proof.
  destruct (co_sizes _ _ _ _ _ Hc) as (_ & Hss & _).
  revert current p. induction fuel as [|fuel IH]; intros current p Hcur Hn Hu Hlast; cbn [segment_loop].
  { intros [= <- <-]. by left. }
  destruct (Z.leb_spec current (number segmented)) as [Hle|Hgt]; cbn [negb].
  2: { intros [= <- <-]. right. destruct Hlast; [lia|done]. }
  intros (cancelled & p1 & Hcan & Hrun)%prog_bind_Ok.
  apply (returns_producer _ _ (pa_cancelled Hpatient)) in Hcan as ->.
  apply prog_bind_Ok in Hrun as ([] & p2 & Hf & Hrun). unfold U32 in Hu.
  rewrite add64_id in Hrun by (unfold U64; lia). apply IH in Hrun; [done|lia|done|done|].
  destruct (Z.le_gt_cases (current + ssize) (number segmented)) as [Hle'|Hgt']; [by left|right].
  apply fetch_segment_last in Hf as (fs & fetch & Hp2 & Hs & Hb). exists fs, fetch, current.
  rewrite add64_id, !wrap32_id in Hb by (unfold is_u32, U32, U64; lia). unfold U32. split_and!; [done|done|lia|lia|done|done].
Qed.

Lemma segment_stream_last fuel c w w' fetches :
  number c = n -> segment_stream_start client bfs names fuel c (w, []) = (Ok (Some tt), (w', fetches)) ->
  last_fetch (w', fetches).
Proof.
  intros Hn. unfold segment_stream_start. rewrite Hn.
  destruct (co_sizes _ _ _ _ _ Hc) as (Hgs & Hss & Hp). destruct (co_range _ _ _ _ _ Hc) as (Hst & Hu & Hnu).
  intros (g & p1 & Hg & Hrun)%prog_bind_Ok. apply prog_bind_Ok in Hrun as (s & p2 & Hs & Hrun).
  apply prog_bind_Ok in Hrun as (current & p3 & Hcur & Hrun). apply prog_bind_Ok in Hrun as (grouped & p4 & Hgr & Hrun).
  apply (returns_pcontext _ _ _ (returns_producer _ _ (co_gsize _ _ _ _ _ Hc))) in Hg as ->.
  apply (returns_pcontext _ _ _ (returns_producer _ _ (co_ssize _ _ _ _ _ Hc))) in Hs as ->.
  apply (returns_pcontext _ _ _ (returns_producer _ _ (co_start _ _ _ _ _ Hc))) in Hcur.
  apply (returns_pcontext _ _ _ (returns_producer _ _ (co_grouped _ _ _ _ _ Hc))) in Hgr.
  assert (group_position current) as Hpos.
  { subst current. split; [by eexists|]. pose proof (Z.mul_div_le (n - start) (gsize * ssize)).
    pose proof (Z.div_pos (n - start) (gsize * ssize)). nia. }
  apply prog_bind_Ok in Hrun as (groups & p5 & Hgroups & Hrun).
  assert (match groups with LoopDone cur => group_position cur | LoopReturned => False | LoopRunning => True end) as Hend.
  { destruct grouped as [grouped|]; [|by injection Hgroups as <- <-].
    destruct (Hgr grouped eq_refl) as [Hle Hal]. by eapply group_loop_end in Hgroups. }
  destruct groups as [cur| |]; [|done|discriminate Hrun].
  apply prog_bind_Ok in Hrun as (o & p6 & Ho & Hrun).
  apply (returns_pcontext _ _ _ (returns_producer _ _ (co_segmented _ _ _ _ _ Hc))) in Ho as (seg & -> & Hseg & Hnseg & Hu').
  apply prog_bind_Ok in Hrun as (segments & p7 & Hsegs & Hrun). destruct Hend as [_ Hend].
  apply segment_loop_end in Hsegs; [|lia|done|done|left; lia].
  destruct Hsegs as [->|Hsegs]; [discriminate Hrun|]. destruct segments; [injection Hrun as <-..|discriminate Hrun]; done.
Qed.

End stream.

(** ** The consumer *)

Abbreviation Task := (StreamTask W).

Lemma returns_world {E A} (m : prog W E A) Q : returns m Q -> returns (on_world m) Q.
Proof.
  intros Hm t a t' Hr. unfold on_world, zoom in Hr. destruct (m (tk_world t)) as [r w'] eqn:Hrun.
  injection Hr as -> <-. by eapply Hm.
Qed.

Lemma send_sent message : returns (send message : prog Task _ _) (fun sent => sent = true).
Proof.
  intros t sent t'. unfold send. intros (permit & t1 & Hp & Hrun)%prog_bind_Ok.
  apply (returns_world _ _ (pa_reserve Hpatient)) in Hp as ->.
  apply prog_bind_Ok in Hrun as ([] & t2 & _ & Hrun). by injection Hrun.
Qed.

(** The last block of a segment is the position after it. *)
Lemma segment_block_position c block (t t' : Task) continue :
  stream_segment_block c block t = (Ok continue, t') ->
  continue = true /\ (number c <= number (segment_block_cursor block) ->
    ds_current (tk_stream t') = Some (segment_block_cursor block)).
Proof.
  unfold stream_segment_block. intros (self & t1 & _ & Hrun)%prog_bind_Ok.
  destruct (Z.ltb_spec (number (segment_block_cursor block)) (number c)) as [Hlt|Hge].
  { injection Hrun as <- _. split; [done|lia]. }
  apply prog_bind_Ok in Hrun as (r & t2 & _ & Hrun). apply prog_bind_Ok in Hrun as (sent & t3 & Hsent & Hrun).
  assert (sent = true) as ->.
  { destruct (r.1); [by eapply send_sent|by injection Hsent]. }
  apply prog_bind_Ok in Hrun as ([] & t4 & [= <-] & [= <- <-]). done.
Qed.

Lemma segment_blocks_position c blocks (t t' : Task) continue :
  stream_segment_blocks c blocks t = (Ok continue, t') ->
  continue = true /\ forall block, list.last blocks = Some block -> number c <= number (segment_block_cursor block) ->
    ds_current (tk_stream t') = Some (segment_block_cursor block).
Proof.
  revert t. induction blocks as [|b blocks IH]; intros t; cbn [stream_segment_blocks]; [by intros [= <- _]|].
  intros (k & t1 & Hb & Hrun)%prog_bind_Ok. apply segment_block_position in Hb as [-> Hb].
  destruct blocks as [|b' blocks].
  - injection Hrun as <- <-. split; [done|]. intros block [= <-]. done.
  - apply IH in Hrun as [-> Hl]. split; [done|]. intros block Hbl. by apply Hl.
Qed.

Lemma consume_position c fs fetch last_block (t t' : Task) r :
  (forall access, segment_wait fetch = Ok access -> forall blocks, segment_iter access = (Ok blocks : outcome DataStreamError _) ->
    exists block, list.last blocks = Some block /\ segment_block_cursor block = last_block) ->
  number c <= number last_block ->
  consume_segments c (Ok (Some tt)) (fs ++ [fetch]) t = (Ok r, t') ->
  ds_current (tk_stream t') = Some last_block.
Proof.
  intros Hlast Hc. revert t. induction fs as [|f fs IH]; intros t; cbn [app consume_segments].
  all: intros (branch & t1 & Hb & Hrun)%prog_bind_Ok; apply (returns_world _ _ (pa_select Hpatient)) in Hb as ->.
  all: apply prog_bind_Ok in Hrun as (access & t2 & Hw & Hrun).
  all: apply prog_bind_Ok in Hrun as (blocks & t3 & Hi & Hrun).
  all: apply prog_bind_Ok in Hrun as (continue & t4 & Hbl & Hrun).
  all: apply segment_blocks_position in Hbl as [-> Hbl].
  - injection Hw as Hw%change_context_Ok ->. injection Hi as Hi ->. destruct (Hlast _ Hw _ Hi) as (block & Hl & <-).
    apply prog_bind_Ok in Hrun as (branch & t5 & Hb & Hrun). unfold on_world, zoom in Hb.
    destruct (select_segment (tk_world t4)) as [o w']. injection Hb as -> <-.
    rewrite <- (Hbl _ Hl Hc). destruct branch; by injection Hrun as <- <-.
  - by apply IH in Hrun.
Qed.

Lemma whole_segment_last fetch s ssize access (blocks : list SegmentBlockAccess) :
  0 <= s -> 0 < ssize -> s + ssize < U32 -> sf_first_block fetch = s -> sf_blocks fetch = bitmap_range s (s + ssize) ->
  segment_wait fetch = Ok access -> segment_iter access = (Ok blocks : outcome DataStreamError _) ->
  exists block, list.last blocks = Some block /\ segment_block_cursor block = new_finalized (s + ssize - 1).
Proof.
  intros Hs Hss Hu Hf Hb Hw Hi. destruct (segment_wait_spec _ _ Hw) as (Hw1 & Hw2 & _ & _).
  rewrite Hf in Hw1. rewrite Hb in Hw2.
  apply segment_iter_spec in Hi as ->; [|rewrite Hw1, Hw2; intros b ?%elem_of_bitmap_range; lia|lia].
  exists (block_of_segment access (s + ssize - 1)). rewrite fmap_last, Hw2, (bitmap_iter_last _ (s + ssize - 1)).
  - split; [done|]. unfold segment_block_cursor, segment_block_number, block_of_segment. cbn [sb_segment sb_offset].
    rewrite Hw1. unfold U32 in Hu. rewrite add64_id by (unfold U64; lia). f_equal. lia.
  - apply elem_of_bitmap_range. lia.
  - intros x ?%elem_of_bitmap_range. lia.
Qed.

Lemma tick_segment_position start gsize ssize last n fuel c (t t' : Task) r :
  compacted start gsize ssize last n -> number c = n ->
  ds_block_filter (tk_stream t) = bfs -> ds_names (tk_stream t) = names ->
  (segment_stream_start client bfs names fuel c (tk_world t, [])).1 = Ok (Some tt) ->
  tick_segment_stream client fuel c t = (Ok r, t') ->
  exists m, n <= m /\ ds_current (tk_stream t') = Some (new_finalized m).
Proof.
  intros Hc Hn Hbfs Hnames Hok. unfold tick_segment_stream. intros (self & t1 & [= <- <-] & Hrun)%prog_bind_Ok.
  rewrite Hbfs, Hnames in Hrun. destruct (_ =? 0); [discriminate Hrun|]. apply prog_bind_Ok in Hrun as ([r' fetches] & t2 & Hp & Hrun).
  destruct (segment_stream_start _ _ _ _ _ _) as [o [w fs']] eqn:Hseg. cbn [fst] in Hok. subst o.
  injection Hp as <- <- <-. cbn [fst snd] in Hrun.
  destruct (segment_stream_last _ _ _ _ _ Hc _ _ _ _ _ Hn Hseg) as (fs & fetch & s & Hfs & Hs & Hle & Hu & Hf & Hb).
  cbn [snd] in Hfs. subst fs'. exists (s + ssize - 1). split; [done|].
  eapply consume_position in Hrun; [done| |cbn; lia]. intros access Hw blocks Hi.
  eapply whole_segment_last; [done| |done|done|done|done|done]. by destruct (co_sizes _ _ _ _ _ Hc) as (_ & ? & _).
Qed.

End progress.

(** ** The chain view *)

Section chain_view.
Context `{!Codec} {W : Type} `{Cloud W} `{!ClientOps W} {ST : Type} `{!ChainStoreOps ST}.
Variable current : W -> ChainViewInner ST.

(** A chain view whose last group ends before its last segment does. *)
Record groups_behind (start gsize ssize last n : Z) (self : ChainViewInner ST) : Prop := {
  gb_start : starting_block (cv_canonical self) = start;
  gb_sizes : cv_group_size self = gsize /\ cv_segment_size self = ssize;
  gb_grouped : forall g, cv_grouped self = Some g -> g <= last /\ exists k, g + 1 = start + k * (gsize * ssize);
  gb_segmented : exists s, cv_segmented self = Some s /\ last < s /\ n <= s /\ s + ssize < U32 }.

Lemma returns_query {A} (q : ChainViewInner ST -> outcome ChainViewError A) Q :
  (forall w a, q (current w) = Ok a -> Q a) -> returns (view_query current q) Q.
Proof. intros Hq w a w' Hr. injection Hr as Hr _. by eapply Hq. Qed.

Lemma chain_compacted start gsize ssize last n :
  0 < gsize /\ 0 < ssize /\ 1 < gsize * ssize ->
  0 <= start <= n /\ last + 1 + gsize * ssize < U32 /\ n + gsize * ssize < U32 ->
  (forall w, groups_behind start gsize ssize last n (current w)) ->
  compacted (StreamOps0 := chain_stream_ops current) start gsize ssize last n.
Proof.
  intros Hs Hr Hv. constructor; cbn; [done|done|..]; apply returns_query; intros w a Ha;
    destruct (Hv w) as [Hst [Hg1 Hg2] Hg3 (sg & Hsg & Hlast & Hn & Hu)].
  - by injection Ha as <-.
  - by injection Ha as <-.
  - unfold U32 in *. apply group_start_exact in Ha; rewrite ?Hst, ?Hg1, ?Hg2 in *; [done|unfold U64; lia..].
  - intros c ->. unfold get_grouped_cursor in Ha. destruct (cv_grouped _) as [g|]; [|done].
    apply bind_Ok in Ha as (c' & Hcf & [= ->]). apply cursor_or_finalized_number in Hcf as ->. by apply Hg3.
  - unfold get_segmented_cursor in Ha. rewrite Hsg in Ha. apply bind_Ok in Ha as (c' & Hcf & [= <-]).
    apply cursor_or_finalized_number in Hcf as <-. by exists c'.
Qed.

End chain_view.
