(* ===== verification/DataStreamSpec.v ===== *)
(** * The data stream: properties

    - a run of the stream is a run of the abstract stream: every block after
      the position, in order, with its data when it has some;
    - without reorganisations no block is skipped or sent twice, also where
      blocks are read from segments and skipped by the index of their group;
    - the segment stream ends;
    - a client that asks for finalized data gets only finalized data;
    - the same pending block is not sent twice in a row;
    - a tick over compacted blocks moves the position, with or without data. *)

From S2P Require Import Prelude External Text Core Cloud StateClient ObjectStore Chain ChainView Index Query QuerySpec.
From S2P Require Import Encoding FragmentAccess FilterBlock FilterBlockSpec BlockStore StoreFacts Compaction CompactionFacts.
From S2P Require Import GroupFacts CompactionSpec CompactionService CompactionServiceFacts CompactionServiceSpec DataStream DataStreamFacts.
From S2P Require Import SegmentStreamFacts StreamTaskFacts StreamFinalityFacts StreamProgressFacts ChainViewSpec IndexSpec.

Section delivery.
Context `{!Roaring, !Prost, !BlockArchives, !HashOrder Z}.
Variable S : Setting.
Variable bfs : list BlockFilter.

(** The blocks of a path, in order from a position: consecutive numbers. *)
Definition consecutive (cur : option Cursor) (path : list (Cursor * Block * bool)) : Prop :=
  forall i c blk is_live, path !! i = Some (c, blk, is_live) ->
    number c = wrap64 (next_number S cur + Z.of_nat i) /\ block_at S c blk.

(** What a client asked for in a block: its cursor and data, if it has some. *)
Definition block_data (p : Cursor * Block * bool) : list (ProtoCursor * list (list byte)) :=
  match filter_fragment bfs (s_names S) (AccessBlock (to_bytes p.1.2)) p.2 with
  | Ok (true, data) => [(cursor_to_proto p.1.1, data)]
  | _ => []
  end.

(** The data messages for blocks of the chain. *)
Definition delivered (m : Message) : list (ProtoCursor * list (list byte)) :=
  match m with
  | MsgData (mkData _ (Some c) data finality _) =>
      if bool_decide (finality = FinalityPending) then [] else [(c, data)]
  | _ => []
  end.

Definition is_invalidate (m : Message) : bool :=
  match m with MsgInvalidate _ _ => true | _ => false end.

Definition end_of (cur : option Cursor) (path : list (Cursor * Block * bool)) : option Cursor :=
  match list.last path with Some p => Some p.1.1 | None => cur end.

Lemma answer_delivered cur c blk is_live ms :
  answer S bfs cur c blk is_live ms -> ms ≫= delivered = block_data (c, blk, is_live).
Proof.
  unfold answer, block_data. cbn [fst snd]. destruct (filter_fragment _ _ _ _) as [[[] data]| |]; [|by intros ->..].
  intros (before & finality & -> & Hf & _). simpl. by destruct Hf as [-> | ->].
Qed.

Lemma consecutive_cons cur c blk is_live path :
  is_u64 (number c) -> number c = next_number S cur -> block_at S c blk -> consecutive (Some c) path ->
  consecutive cur ((c, blk, is_live) :: path).
Proof.
  intros Hu Hn Hb Hp [|i] c' blk' l' Hi; simpl in Hi.
  - injection Hi as <- <- <-. rewrite Z.add_0_r, <- Hn. split; [by rewrite wrap64_id|done].
  - apply Hp in Hi as [-> Hb']. split; [|done]. cbn [next_number]. rewrite <- Hn. unfold add64, wrap64.
    rewrite Zplus_mod_idemp_l. f_equal. lia.
Qed.

Lemma steps_path cur ms cur' :
  0 <= s_start S < U64 -> stream_steps S bfs cur ms cur' -> forallb (negb ∘ is_invalidate) ms = true ->
  exists path, consecutive cur path /\ end_of cur path = cur' /\ ms ≫= delivered = path ≫= block_data.
Proof.
  intros Hst Hs. induction Hs as [cur|cur ms cur1 ms' cur' Hstep Hs IH]; intros Hinv.
  { exists []. split_and!; [|done|done]. intros i c blk l Hi. by rewrite lookup_nil in Hi. }
  rewrite forallb_app in Hinv. apply andb_true_iff in Hinv as [Hi1 Hi2].
  destruct (IH Hi2) as (path & Hc & He & Hd). rewrite bind_app, Hd.
  destruct Hstep as [cur c blk is_live ms Hn Hb Ha|p c Hr|cur f|p blk data Hf].
  - exists ((c, blk, is_live) :: path). split_and!.
    + apply consecutive_cons; [|done|done|done]. rewrite Hn. destruct cur; [apply wrap64_range|done].
    + rewrite <- He. unfold end_of. destruct path as [|q path]; [done|].
      change (list.last ((c, blk, is_live) :: q :: path)) with (list.last (q :: path)).
      destruct (list.last (q :: path)) eqn:Hl; [done|by apply last_None in Hl].
    + apply answer_delivered in Ha as ->. done.
  - done.
  - by exists path.
  - exists path. split_and!; [done|done|]. done.
Qed.

End delivery.

Section runs.
Context `{!Codec} {W : Type} `{Cloud W} `{!StreamOps W}.
Context `{!Roaring, !Prost, !BlockArchives, !HashOrder Z, !Sha256}.

Lemma start_progress (S : Setting) (t : StreamTask W) :
  archive_ok S (view (tk_world t)) -> ds_names (tk_stream t) = s_names S ->
  progress S (ds_block_filter (tk_stream t)) (ds_current (tk_stream t)) (tk_sent t) t.
Proof.
  intros Ha Hn. exists (tk_stream t). split; [by split|]. split_and!; [done|done|]. exists [].
  split; [by rewrite app_nil_r|constructor].
Qed.

(** (C8) The stream refines the abstract stream.  Take any archive that holds
    what ingestion and compaction wrote and any behaviour of the chain view, of
    the client and of the other tasks.  However many ticks ran and however they
    ended, the messages sent are those of a sequence of abstract steps from the
    first position to the current one: each block step is for the block after
    the position and sends exactly the data the filters select in it, whether
    the block was read from its own object or from segments; positions move
    back only with an invalidation that names the new position. *)
Theorem stream_refines (S : Setting) (fuel n : nat) (t t' : StreamTask W) r :
  setting_ok S (ds_block_filter (tk_stream t)) -> StreamLaws S ->
  archive_ok S (view (tk_world t)) -> ds_names (tk_stream t) = s_names S ->
  stream_start (s_client S) fuel n t = (r, t') ->
  exists ms, tk_sent t' = tk_sent t ++ ms /\
    stream_steps S (ds_block_filter (tk_stream t)) (ds_current (tk_stream t)) ms (ds_current (tk_stream t')).
Proof.
  intros HS HL Ha Hn Hrun. pose proof (stream_start_spec S _ HS (ds_current (tk_stream t)) (tk_sent t) fuel n t) as Hspec.
  rewrite Hrun in Hspec. specialize (Hspec (start_progress S t Ha Hn)).
  assert (progress S (ds_block_filter (tk_stream t)) (ds_current (tk_stream t)) (tk_sent t) t') as (self & _ & _ & <- & Hms)
    by (by destruct r). done.
Qed.

(** (C2) No block is skipped and none is sent twice.  In a run that sent no
    invalidation there is a path of blocks with consecutive numbers, from the
    block after the first position to the current one, and the data messages
    sent are exactly those of the blocks of the path that have data for the
    client, in order, each once. *)
Theorem stream_exact (S : Setting) (fuel n : nat) (t t' : StreamTask W) r ms :
  setting_ok S (ds_block_filter (tk_stream t)) -> StreamLaws S -> s_start S < U64 ->
  archive_ok S (view (tk_world t)) -> ds_names (tk_stream t) = s_names S ->
  stream_start (s_client S) fuel n t = (r, t') ->
  tk_sent t' = tk_sent t ++ ms -> forallb (negb ∘ is_invalidate) ms = true ->
  exists path, consecutive S (ds_current (tk_stream t)) path /\
    ds_current (tk_stream t') = end_of (ds_current (tk_stream t)) path /\
    ms ≫= delivered = path ≫= block_data S (ds_block_filter (tk_stream t)).
Proof.
  intros HS HL Hu Ha Hn Hrun Hms Hinv.
  pose proof (stream_start_spec S _ HS (ds_current (tk_stream t)) (tk_sent t) fuel n t) as Hspec.
  rewrite Hrun in Hspec. specialize (Hspec (start_progress S t Ha Hn)).
  assert (progress S (ds_block_filter (tk_stream t)) (ds_current (tk_stream t)) (tk_sent t) t')
    as (self & _ & _ & <- & ms' & Hms' & Hsteps) by (by destruct r).
  rewrite Hms in Hms'. apply app_inv_head in Hms' as <-.
  destruct (steps_path S _ _ _ _ (conj (se_start _ _ HS) Hu) Hsteps Hinv) as (path & Hc & He & Hd).
  by exists path.
Qed.

(** (C39) The segment stream ends: with more iterations than there are 32-bit
    block numbers, the task that fetches the compacted blocks is not running
    any more, whatever the other tasks do. *)
Theorem segment_stream_ends (S : Setting) (bfs : list BlockFilter) (fuel : nat) (c : Cursor) (w w' : W) r fetches :
  setting_ok S bfs -> StreamLaws S -> archive_ok S (view w) -> s_start S <= number c < U64 ->
  U32 < Z.of_nat fuel ->
  segment_stream_start (s_client S) bfs (s_names S) fuel c (w, []) = (r, (w', fetches)) ->
  r <> Ok None /\ archive_ok S (view w') /\ covers S bfs (group_start S (number c)) fetches.
Proof.
  intros HS HL Ha Hc Hf Hrun. pose proof (segment_stream_covers S bfs HS fuel c Hc (w, []) (conj Ha eq_refl)) as Hspec.
  rewrite Hrun in Hspec. destruct r as [o|e|]; [destruct Hspec as [Hn [Hw Hcov]]|destruct Hspec as [Hw Hcov]..];
    (split_and!; [|done|done]); [|done|done]. intros [= ->]. specialize (Hn eq_refl). lia.
Qed.

(** (C23) A client that asks for finalized data gets only finalized data: as long
    as the finalized block of the chain view does not move back, every data
    message of a run is marked as finalized, whether the block came from a
    segment or from its own object. *)
Theorem finalized_stream_final (client : ObjectStore) (finalized_at : W -> Z) (fuel n : nat) (t t' : StreamTask W) r :
  finalized_advances client finalized_at ->
  ds_finality (tk_stream t) = FinalityFinalized ->
  number (ds_finalized (tk_stream t)) <= finalized_at (tk_world t) ->
  stream_start client fuel n t = (r, t') ->
  exists ms, tk_sent t' = tk_sent t ++ ms /\
    forall data, MsgData data ∈ ms -> data_finality data = FinalityFinalized.
Proof.
  intros Hfa Hf Hr Hrun. pose proof (stream_start_final client finalized_at Hfa (tk_sent t) fuel n t) as Hspec.
  rewrite Hrun in Hspec.
  assert (final_only finalized_at (tk_sent t) t') as (_ & _ & ms & Hms & Hall).
  { assert (final_only finalized_at (tk_sent t) t) as H0'.
    { split_and!; [done|done|]. exists []. by rewrite app_nil_r. }
    specialize (Hspec H0'). by destruct r. }
  exists ms. split; [done|]. intros data Hin. rewrite Forall_forall in Hall. exact (Hall _ Hin).
Qed.

(** While it waits at the head, a stream of pending data never sends the
    same pending block twice in a row: consecutive pending messages differ in
    their bytes, whatever generations of the pending block were announced. *)
Theorem pending_not_repeated (client : ObjectStore) (fuel : nat) (t t' : StreamTask W) r ms :
  tick_at_head_pending client fuel t = (r, t') -> tk_sent t' = tk_sent t ++ ms ->
  no_repetition (ms ≫= pending_data).
Proof.
  intros Hrun Hms. assert (triple (pending_sent (tk_sent t) []) (tick_at_head_pending client fuel)
    (fun _ => pending_fresh (tk_sent t)) (pending_fresh (tk_sent t))) as Hspec.
  { unfold tick_at_head_pending. eapply triple_bind; [apply triple_pcontext, on_world_pending|]. intros g. apply pending_loop_fresh. }
  specialize (Hspec t). rewrite Hrun in Hspec.
  assert (pending_fresh (tk_sent t) t') as (ms' & Hms' & Hfresh).
  { assert (pending_sent (tk_sent t) [] t) as H0'.
    { exists []. rewrite app_nil_r. split_and!; [done| |done]. by intros [|i] a b Ha. }
    specialize (Hspec H0'). by destruct r. }
  rewrite Hms in Hms'. by apply app_inv_head in Hms' as <-.
Qed.

(** (C33) A tick over compacted blocks makes progress.  Take a client that takes
    every message and a layout in which the groups end before the last segment
    does, which is how compaction publishes them: once the fetches of the tick
    for the block [c] are done and were consumed, the position is the block [c]
    or a later one, also when the blocks have no data for the client and nothing
    is sent for them. *)
Theorem segment_tick_advances (client : ObjectStore) (start gsize ssize last : Z) (fuel : nat) (c : Cursor)
    (t t' : StreamTask W) r :
  patient -> compacted start gsize ssize last (number c) ->
  (segment_stream_start client (ds_block_filter (tk_stream t)) (ds_names (tk_stream t)) fuel c (tk_world t, [])).1 =
    Ok (Some tt) ->
  tick_segment_stream client fuel c t = (Ok r, t') ->
  exists m, number c <= m /\ ds_current (tk_stream t') = Some (new_finalized m).
Proof. intros Hp Hc Hok Hrun. by eapply tick_segment_position in Hrun. Qed.

End runs.

(** ** Witnesses *)

Module StreamWitness.
Import External.Reference ReferenceArchives ReliableCloud ReferenceCodec CompactionWitness CompactionServiceWitness.

#[export] Instance sha_example : Sha256 := {| sha256 bytes := bytes |}.

(** A client that takes everything until the stream waits. *)
#[export] Instance client_example : ClientOps World := {|
  reserve w := (Ok true, w);
  is_cancelled w := (Ok false, w);
  is_closed w := (Ok false, w);
  wait_finalized w := (Ok FwCancelled, w);
  wait_head w := (Ok HwCancelled, w);
  wait_pending w := (Ok PwCancelled, w);
  select_segment w := (Ok BranchSegment, w) |}.

(** The blocks 10 to 12; 10 and 11 are compacted. *)
Definition hash_example (n : Z) : Hash :=
  if n =? 10 then [x0a] else if n =? 11 then [x0b] else if n =? 12 then [x0c] else [x00].

Definition chain_example : CanonicalChainSegment :=
  mkSegment None (mkSegmentInfo (mkCursor 10 [x0a]) (mkCursor 12 [x0c]))
    [mkCanonicalBlock [x0a] ∅; mkCanonicalBlock [x0b] ∅; mkCanonicalBlock [x0c] ∅] [].

Definition stream_view : ChainViewInner (gmap Z CanonicalChainSegment) :=
  chain_view_new 11 (Some 11) (Some 11) 2 1 (mkFullChain ∅ 10 100 chain_example).

#[export] Instance stream_example : StreamOps World := chain_stream_ops (fun _ => stream_view).

Definition setting_example : Setting :=
  mkSetting os_example names 10 1 2
    (fun c => if bool_decide (c = mkCursor (number c) (hash_example (number c)) /\ 10 <= number c <= 12)
              then Some example_block_data else None)
    (fun n => (mkCursor n (hash_example n), example_block_data))
    (fun p c => get_next_cursor (cv_canonical stream_view) (Some p) = Ok (Invalidate c)).

Definition archive_world : World := (put_block os_example (mkCursor 12 [x0c]) example_block_data group_example.2).2.

Definition group_built : SegmentGroup :=
  match group_build (foldl add_segment (group_builder_new 2) (group_index_segments setting_example 10)) with
  | Ok group => group
  | _ => mkSegmentGroup (new_finalized 0) (mkIndexGroup [])
  end.

(** Everything that is stored. *)
Definition stored_blocks : list (store_key * list byte) :=
  (fun c => (KBlock c, to_bytes example_block_data)) <$> [mkCursor 10 [x0a]; mkCursor 11 [x0b]; mkCursor 12 [x0c]].

Definition stored_segments : list (store_key * list byte) :=
  (fun p : Z * string => (KSegment 10 (str p.2),
     segment_bytes (mkCursor 10 [x0a]) (chain_segment setting_example 10) p.1)) <$>
   [(0, "index"); (255, "join"); (1, "header"); (2, "transaction"); (3, "event")].

Definition archive_entries : list (store_key * list byte) :=
  stored_blocks ++ stored_segments ++ [(KGroup 10, to_bytes group_built)].

Definition entry_matches (o : (list byte * list byte) * (ObjectVersion * list byte)) (e : store_key * list byte) : bool :=
  bool_decide (o.1.2 = full_key os_example (render e.1)) &&
  match open_body o.2.2 with Ok data => bool_decide (data = e.2) | _ => false end.

Lemma archive_entries_all :
  forallb (fun o => existsb (entry_matches o) archive_entries) (map_to_list (v_objects (view archive_world))) = true /\
  v_cached (view archive_world) = ∅.
Proof. vm_compute. split; reflexivity. Qed.

Lemma entries_read (entries : list (store_key * list byte)) v cache path data :
  forallb (fun o => existsb (entry_matches o) entries) (map_to_list (v_objects v)) = true -> v_cached v = ∅ ->
  readable os_example v cache path data -> exists k, (k, data) ∈ entries /\ path = render k.
Proof.
  intros Hall Hcache [Hc|[version Ho]]; [by rewrite Hcache, lookup_empty in Hc|].
  unfold object_at in Ho. destruct (v_objects v !! _) as [o|] eqn:Hl; [|done]. cbn [mbind option_bind] in Ho.
  destruct (open_body o.2) as [d| |] eqn:Hb; [|done..]. injection Ho as _ ->.
  apply elem_of_map_to_list in Hl. rewrite forallb_forall in Hall. apply list_elem_of_In in Hl.
  apply Hall, existsb_exists in Hl as ([k e] & Hin%list_elem_of_In & Hm). unfold entry_matches in Hm. cbn [fst snd] in Hm.
  rewrite Hb in Hm. apply andb_true_iff in Hm as [Hk%bool_decide_eq_true He%bool_decide_eq_true].
  exists k. subst e. split; [done|]. by apply full_key_inj in Hk.
Qed.

Lemma archive_read cache path data :
  readable os_example (view archive_world) cache path data ->
  exists k, (k, data) ∈ archive_entries /\ path = render k.
Proof. destruct archive_entries_all as [Hall Hcache]. by apply entries_read. Qed.

Lemma archive_key k data : (k, data) ∈ archive_entries ->
  (exists c, k = KBlock c /\ c ∈ [mkCursor 10 [x0a]; mkCursor 11 [x0b]; mkCursor 12 [x0c]] /\ data = to_bytes example_block_data) \/
  (exists p, k = KSegment 10 (str p.2) /\ p ∈ [(0, "index"); (255, "join"); (1, "header"); (2, "transaction"); (3, "event")] /\
     data = segment_bytes (mkCursor 10 [x0a]) (chain_segment setting_example 10) p.1) \/
  (k = KGroup 10 /\ data = to_bytes group_built).
Proof.
  intros [Hin|[Hin|Hin]%elem_of_app]%elem_of_app.
  - left. apply list_elem_of_fmap in Hin as (c & [-> ->]%pair_equal_spec & Hc). by exists c.
  - right. left. apply list_elem_of_fmap in Hin as (p & [-> ->]%pair_equal_spec & Hp). by exists p.
  - right. right. by apply list_elem_of_singleton, pair_equal_spec in Hin.
Qed.

Lemma archive_key_ok k data : (k, data) ∈ archive_entries -> key_ok k.
Proof.
  intros [(c & -> & Hc & _)|[(p & -> & _ & _)|[-> _]]]%archive_key; [|by split..].
  rewrite !elem_of_cons in Hc. by destruct Hc as [->|[->|[->|[]%elem_of_nil]]].
Qed.

(** The thing that a key is read for is the one that is stored under it. *)
Lemma archive_read_key k data cache :
  key_ok k -> match k with KBlock _ | KSegment _ _ | KGroup _ => True | _ => False end ->
  readable os_example (view archive_world) cache (render k) data -> (k, data) ∈ archive_entries.
Proof.
  intros Hk Hm (k' & Hin & Heq)%archive_read. pose proof (archive_key_ok _ _ Hin) as Hk'.
  pose proof (render_inj _ _ Hk Hk' Heq) as Hs. destruct k; try done; cbn [same_key] in Hs; by rewrite Hs.
Qed.

Lemma archive_example : archive_ok setting_example (view archive_world).
Proof.
  constructor.
  - intros c data Hu Hr. apply (archive_read_key (KBlock c)) in Hr; [|done|done].
    apply archive_key in Hr as [(c' & [= <-] & Hc & ->)|[(p & [=] & _)|[[=] _]]].
    exists example_block_data. split; [|done]. cbn [setting_example s_block]. rewrite bool_decide_eq_true_2; [done|].
    rewrite !elem_of_cons in Hc. destruct Hc as [->|[->|[->|[]%elem_of_nil]]]; (split; [reflexivity|cbn; lia]).
  - intros s fid name data Hu Ha Hn Hr. apply (archive_read_key (KSegment s (str name))) in Hr; [|done|done].
    apply archive_key in Hr as [(c' & [=] & _)|[(p & Hk & Hp & ->)|[[=] _]]].
    assert (s = 10 /\ str name = str p.2) as [-> Hname%str_inj] by (by injection Hk).
    f_equal. apply names_cases in Hn. rewrite Hname in Hn. set_unfold in Hn. set_unfold in Hp. naive_solver.
  - intros g data Hu Ha Hr. apply (archive_read_key (KGroup g)) in Hr; [|done|done].
    apply archive_key in Hr as [(c' & [=] & _)|[(p & [=] & _)|[Hk ->]]].
    assert (g = 10) as -> by (by injection Hk). split; [exact groupable_example|]. exists group_built. split; [done|].
    vm_compute. reflexivity.
Qed.

Lemma setting_example_ok : setting_ok setting_example [example_request].
Proof.
  constructor; [done|done|done|exact names_example_ok|done|intros n; exact block_example_ok|].
  intros bf fid ->%list_elem_of_singleton Hf.
  assert (all_fragment_ids example_request = {[2; 3]}) as Hids by (vm_compute; reflexivity).
  rewrite Hids in Hf. unfold reserved, INDEX_FRAGMENT_ID, JOIN_FRAGMENT_ID, HEADER_FRAGMENT_ID. set_solver.
Qed.

Lemma stream_view_ok : view_ok setting_example stream_view.
Proof.
  constructor; [done|done| | | |done].
  - by intros n [= <-].
  - by intros n [= <-].
  - intros cur c is_head Hn.
    assert (forall n c, get_canonical_impl (cv_canonical stream_view) n = Ok c -> 10 <= number c) as Himpl.
    { intros n c0 Hc. unfold get_canonical_impl in Hc. apply bind_Ok in Hc as (seg & Hseg & Hc%change_context_Ok).
      apply canonical_number in Hc as ->. unfold get_chain_segment in Hseg.
      destruct (Z.leb_spec (number (first_block (seg_info (recent (cv_canonical stream_view))))) n) as [Hle|Hgt]; [exact Hle|].
      apply bind_Ok in Hseg as (st & _ & Hseg). cbn in Hseg. rewrite lookup_empty in Hseg. done. }
    destruct cur as [p|]; cbn [get_next_cursor] in Hn; invert_ok; [|by eapply Himpl].
    destruct x0; [|done|done]. destruct (_ =? _); [done|]. invert_ok. by eapply Himpl.
Qed.

Lemma stream_laws_example : StreamLaws setting_example.
Proof.
  apply chain_stream_laws; [done|done|done|done|intros w; exact stream_view_ok|].
  constructor; by intros w Hw.
Qed.

Definition task_example (finality : DataFinality) (w : World) : StreamTask World :=
  mkTask (data_stream_new [example_request] None (new_finalized 11) finality names 2) [] w.

(** The blocks 10 and 11 from the segment, then the block 12. *)
Definition start_task : StreamTask World := task_example FinalityAccepted archive_world.

Lemma stream_run_sent :
  length (tk_sent (stream_start os_example 4 3 start_task).2) = 3%nat /\
  forallb (negb ∘ is_invalidate) (tk_sent (stream_start os_example 4 3 start_task).2) = true.
Proof. vm_compute. split; reflexivity. Qed.

Lemma stream_refines_witness :
  exists r t' ms, stream_start os_example 4 3 start_task = (r, t') /\ tk_sent t' = ms /\ length ms = 3%nat /\
    stream_steps setting_example [example_request] None ms (ds_current (tk_stream t')).
Proof.
  destruct stream_run_sent as [Hlen _]. destruct (stream_start os_example 4 3 start_task) as [r t'] eqn:Hrun.
  destruct (stream_refines setting_example 4 3 start_task t' r
    setting_example_ok stream_laws_example archive_example eq_refl Hrun) as (ms & Hms & Hsteps).
  cbn [snd] in Hlen. rewrite Hms in Hlen. exists r, t', ms. split; [reflexivity|]. split; [exact Hms|]. split; [exact Hlen|exact Hsteps].
Defined.

Lemma stream_exact_witness :
  exists r t' path, stream_start os_example 4 3 start_task = (r, t') /\
    consecutive setting_example None path /\ ds_current (tk_stream t') = end_of None path /\
    tk_sent t' ≫= delivered = path ≫= block_data setting_example [example_request].
Proof.
  destruct stream_run_sent as [_ Hinv]. destruct (stream_start os_example 4 3 start_task) as [r t'] eqn:Hrun.
  assert (s_start setting_example < U64) as Hu by reflexivity. cbn [snd] in Hinv.
  destruct (stream_exact setting_example 4 3 start_task t' r (tk_sent t') setting_example_ok stream_laws_example Hu
    archive_example eq_refl Hrun eq_refl Hinv) as (path & Hp). exists r, t', path. split; [reflexivity|exact Hp].
Defined.

Lemma segment_stream_ends_witness :
  exists fuel r w' fetches,
    segment_stream_start os_example [example_request] names fuel (new_finalized 10) (archive_world, []) = (r, (w', fetches)) /\
    r <> Ok None /\ covers setting_example [example_request] 10 fetches.
Proof.
  assert (exists fuel, U32 < Z.of_nat fuel) as [fuel Hf].
  { exists (Z.to_nat (U32 + 1)). rewrite Z2Nat.id by discriminate. reflexivity. }
  destruct (segment_stream_start os_example [example_request] names fuel (new_finalized 10) (archive_world, []))
    as [r [w' fetches]] eqn:Hrun.
  assert (s_start setting_example <= number (new_finalized 10) < U64) as Hr by (split; [discriminate|reflexivity]).
  destruct (segment_stream_ends setting_example [example_request] fuel (new_finalized 10) archive_world w' r fetches
    setting_example_ok stream_laws_example archive_example Hr Hf Hrun) as (Hne & _ & Hc).
  exists fuel, r, w', fetches. split; [exact Hrun|]. split; [exact Hne|exact Hc].
Defined.

Lemma any_advances {E A} (m : prog World E A) : advances (fun _ : World => 11) m.
Proof. intros n w Hw. by destruct (m w) as [[] w']. Qed.

Lemma advances_example : finalized_advances os_example (fun _ : World => 11).
Proof.
  constructor; try (intros; apply any_advances). intros n w Hw. split; [exact Hw|]. apply Z.le_refl.
Qed.

Lemma finalized_stream_final_witness :
  exists r t' ms, stream_start os_example 4 3 (task_example FinalityFinalized archive_world) = (r, t') /\
    tk_sent t' = ms /\ length ms = 2%nat /\
    forall data, MsgData data ∈ ms -> data_finality data = FinalityFinalized.
Proof.
  assert (length (tk_sent (stream_start os_example 4 3 (task_example FinalityFinalized archive_world)).2) = 2%nat) as Hlen
    by (vm_compute; reflexivity).
  destruct (stream_start os_example 4 3 (task_example FinalityFinalized archive_world)) as [r t'] eqn:Hrun.
  assert (number (ds_finalized (tk_stream (task_example FinalityFinalized archive_world))) <= 11) as Hle by (cbn; lia).
  destruct (finalized_stream_final os_example (fun _ => 11) 4 3 (task_example FinalityFinalized archive_world) t' r
    advances_example eq_refl Hle Hrun) as (ms & Hms & Hall).
  cbn [snd] in Hlen. rewrite Hms in Hlen. exists r, t', ms. split; [reflexivity|]. split; [exact Hms|]. split; [exact Hlen|exact Hall].
Defined.

(** A pending block 13 that is announced again and again. *)
Module PendingWitness.

#[export] Instance pending_client : ClientOps World := {|
  reserve w := (Ok true, w);
  is_cancelled w := (Ok false, w);
  is_closed w := (Ok false, w);
  wait_finalized w := (Ok FwCancelled, w);
  wait_head w := (Ok HwCancelled, w);
  wait_pending w := (Ok PwPending, w);
  select_segment w := (Ok BranchSegment, w) |}.

#[export] Instance pending_stream : StreamOps World :=
  chain_stream_ops (fun _ => set_pending_generation stream_view (Some 3)).

Definition pending_task : StreamTask World :=
  mkTask (data_stream_new [example_request] (Some (mkCursor 12 [x0c])) (new_finalized 11) FinalityPending names 2) []
    (put_pending_block os_example (mkPendingBlockInfo 13 3 [x0c]) example_block_data archive_world).2.

Lemma pending_not_repeated_witness :
  exists r t', tick_at_head_pending os_example 3 pending_task = (r, t') /\ length (tk_sent t') = 1%nat /\
    no_repetition (tk_sent t' ≫= pending_data).
Proof.
  assert (length (tk_sent (tick_at_head_pending os_example 3 pending_task).2) = 1%nat) as Hlen by (vm_compute; reflexivity).
  destruct (tick_at_head_pending os_example 3 pending_task) as [r t'] eqn:Hrun.
  exists r, t'. split; [reflexivity|]. split; [exact Hlen|].
  exact (pending_not_repeated os_example 3 pending_task t' r (tk_sent t') Hrun eq_refl).
Defined.

End PendingWitness.

(** The segment 10-11, of which the block 11 has no data for the client; there
    is no group yet. *)
Module AdvanceWitness.

(** A block without the key that the client asks for. *)
Definition quiet_bitmap : BitmapIndex :=
  match bitmap_build (bitmap_of_rows [(Uint32 9, 0); (Uint32 8, 1)]) with Ok i => i | _ => mkBitmapIndex [] [] end.

Definition quiet_block : Block :=
  mkBlock example_header
    (mkIndexGroup [mkIndexFragment 2 0 2 [mkFragmentIndex 0 (BitmapIdx quiet_bitmap)]; mkIndexFragment 3 0 3 []])
    (blk_join example_block_data) (blk_body example_block_data).

Definition quiet_world : World :=
  (compact_segment os_example kv_example 1 2 (mkCursor 10 [x0a])
    (put_block os_example (mkCursor 11 [x0b]) quiet_block
      (put_block os_example (mkCursor 10 [x0a]) example_block_data world_empty).2).2).2.

Definition advance_view : ChainViewInner (gmap Z CanonicalChainSegment) :=
  chain_view_new 11 (Some 11) None 2 1 (mkFullChain ∅ 10 100 chain_example).

#[export] Instance advance_stream : StreamOps World := chain_stream_ops (fun _ => advance_view).

Lemma patient_example : patient.
Proof. by constructor; intros w a w' [= <- _]. Qed.

Lemma compacted_example : compacted 10 1 2 9 10.
Proof.
  apply chain_compacted; [done|done|]. intros w. constructor; [done|done|done|]. by exists 11.
Qed.

Definition advance_task : StreamTask World := task_example FinalityAccepted quiet_world.

Lemma advance_outcomes :
  (segment_stream_start os_example [example_request] names 4 (new_finalized 10) (tk_world advance_task, [])).1 = Ok (Some tt) /\
  (tick_segment_stream os_example 4 (new_finalized 10) advance_task).1 = Ok (Some tt) /\
  length (tk_sent (tick_segment_stream os_example 4 (new_finalized 10) advance_task).2) = 1%nat.
Proof. vm_compute. split_and!; reflexivity. Qed.

Lemma segment_tick_advances_witness :
  exists t' m, tick_segment_stream os_example 4 (new_finalized 10) advance_task = (Ok (Some tt), t') /\
    length (tk_sent t') = 1%nat /\ 10 <= m /\ ds_current (tk_stream t') = Some (new_finalized m).
Proof.
  destruct advance_outcomes as (Hseg & Hok & Hlen).
  destruct (tick_segment_stream os_example 4 (new_finalized 10) advance_task) as [r t'] eqn:Hrun.
  cbn [fst snd] in Hok, Hlen. rewrite Hok in Hrun.
  destruct (segment_tick_advances os_example 10 1 2 9 4 (new_finalized 10) advance_task t' (Some tt)
    patient_example compacted_example Hseg Hrun) as (m & Hm & Hcur).
  exists t', m. rewrite Hok. split; [reflexivity|]. split; [exact Hlen|]. split; [exact Hm|exact Hcur].
Defined.

End AdvanceWitness.

End StreamWitness.
