(* ===== verification/Lock.v ===== *)
(** * Locks and supervision (etcd/src/lock.rs, ingestion/mod.rs, compaction)

    At most one ingester and one compactor run at a time: each holds a lock of
    etcd, which lives as long as a lease that the holder refreshes.  The loops of
    the services acquire the lock, check the options, run the service and release
    the lock, and start over when the service fails.  The lease and lock requests
    and the choices of [tokio::select!] are the interface [LockOps]. *)

From S2P Require Import Prelude External Text Core Chain Encoding Cloud StateClient ObjectStore ChainStore FragmentAccess BlockStore Compaction CompactionService Ingestion.

(** What the wait for the lock is woken by. *)
Inductive LockEvent := LockCancelled | LockRefresh | LockResponse (response : outcome EtcdError unit).

Class LockOps (W : Type) := {
  (** [Instant::now()], in nanoseconds *)
  instant_now : W -> Z;
  lease_grant : Z -> prog W EtcdError Z;
  lease_keep_alive : Z -> prog W EtcdError unit;
  (** [LeaseKeeper::keep_alive]: a message on the stream of the lease *)
  keeper_keep_alive : Z -> prog W EtcdError unit;
  (** the request for the lock is sent *)
  lock_request : list byte -> Z -> W -> W;
  (** the branch that is ready next, with an interval of the given period *)
  lock_select : Z -> prog W EtcdClientError LockEvent;
  etcd_unlock : list byte -> prog W EtcdError unit;
  lease_time_to_live : Z -> prog W EtcdError Z;
  (** [ct.is_cancelled()], a tick of an interval unless cancelled, and sleeping *)
  lock_cancelled : W -> bool;
  interval_tick : Z -> W -> bool * W;
  lock_sleep : Z -> W -> W }.

Record LockOptions := mkLockOptions { lo_ttl : Z }.

Definition lock_options_default : LockOptions := mkLockOptions 60.

Record LockClient := mkLockClient { lc_prefix : RString; lc_options : LockOptions }.

Record Lock := mkLock {
  lk_key : list byte; lk_lease_id : Z; lk_min_refresh_interval : Z; lk_last_refresh : Z }.

Section lock.
Context {W : Type} `{!LockOps W}.
Implicit Types (self : LockClient) (lock : Lock).

Definition lc_format_key self (key : RString) : list byte := lc_prefix self ++ key.

(** The loop that waits for the lock: [None] when the fuel ran out. *)
Fixpoint lock_loop (fuel : nat) (key : list byte) (lease_id min_refresh_interval : Z) :
    prog W EtcdClientError (option (option Lock)) :=
  match fuel with
  | O => mret None
  | S fuel =>
      event ← lock_select min_refresh_interval;
      match event with
      | LockCancelled => mret (Some None)
      | LockRefresh =>
          _ ← pcontext EtcdClientErr (keeper_keep_alive lease_id);
          lock_loop fuel key lease_id min_refresh_interval
      | LockResponse response =>
          _ ← lift (change_context EtcdClientErr response);
          w ← get_state;
          mret (Some (Some (mkLock key lease_id min_refresh_interval (instant_now w))))
      end
  end.

(** [LockClient::lock].  An interval of period zero panics. *)
Definition acquire_lock (fuel : nat) self (key : RString) : prog W EtcdClientError (option (option Lock)) :=
  lease_id ← pcontext EtcdClientErr (lease_grant (lo_ttl (lc_options self)));
  _ ← pcontext EtcdClientErr (lease_keep_alive lease_id);
  let min_refresh_interval := from_secs (wrap64 (lo_ttl (lc_options self)) / 2) in
  if min_refresh_interval =? 0 then lift Panic
  else
    _ ← modify (lock_request (lc_format_key self key) lease_id);
    lock_loop fuel (lc_format_key self key) lease_id min_refresh_interval.

Definition unlock lock : prog W EtcdClientError unit :=
  pcontext EtcdClientErr (etcd_unlock (lk_key lock)).

Definition is_locked lock : prog W EtcdClientError bool :=
  ttl ← pcontext EtcdClientErr (lease_time_to_live (lk_lease_id lock));
  mret (0 <? ttl).

(** [Lock::keep_alive]. *)
Definition keep_alive lock : prog W EtcdClientError Lock :=
  w ← get_state;
  if instant_now w - lk_last_refresh lock <=? lk_min_refresh_interval lock then mret lock
  else
    _ ← pcontext EtcdClientErr (keeper_keep_alive (lk_lease_id lock));
    w ← get_state;
    mret (mkLock (lk_key lock) (lk_lease_id lock) (lk_min_refresh_interval lock) (instant_now w)).

(** [lock_keep_alive_loop] of compaction/service.rs: the lock, or [None] when the
    fuel ran out. *)
Fixpoint lock_keep_alive_loop (fuel : nat) lock : prog W CompactionError (option Lock) :=
  match fuel with
  | O => mret None
  | S fuel => fun w =>
      let '(ticked, w) := interval_tick (from_secs 5) w in
      if negb ticked then (Ok (Some lock), w)
      else (lock ← pcontext CompactionErr (keep_alive lock); lock_keep_alive_loop fuel lock) w
  end.

(** ** The loops of the services *)

(** The loop of [ingestion_service_loop] and of [compaction_service_loop]: both
    acquire the lock [key], check the options, run the service, release the lock,
    and go on after an error.  [None] when the fuel ran out. *)
Section service_loop.
Context {E : Type}.
Variables (lock_error : E) (client : LockClient) (key : RString).
Variables (check_options : prog W E unit) (start : Lock -> prog W E unit).

Fixpoint service_loop (fuel : nat) : prog W E (option unit) :=
  match fuel with
  | O => mret None
  | S fuel =>
      w ← get_state;
      if lock_cancelled w then mret (Some tt)
      else
        acquired ← pcontext lock_error (acquire_lock fuel client key);
        match acquired with
        | None => mret None
        | Some None => mret (Some tt)
        | Some (Some lock) =>
            _ ← check_options;
            result ← try (start lock);
            match result with
            | Ok _ => _ ← pcontext lock_error (unlock lock); mret (Some tt)
            | _ =>
                _ ← pcontext lock_error (unlock lock);
                _ ← modify (lock_sleep (from_secs 10));
                service_loop fuel
            end
        end
  end.
End service_loop.

Definition INGESTION_LOCK : RString := str "ingestion/lock".
Definition COMPACTION_LOCK : RString := str "compaction/lock".

(** The loops, over the [start] of the service: [ingestion_start] below, and the
    services of compaction, which run side by side.  The options are checked
    while the lock is held. *)
Definition ingestion_service_loop `{Cloud W} (fuel : nat) (client : LockClient) (state_client : KvClient)
    (options : IngestionServiceOptions) (start : Lock -> prog W IngestionError unit) : prog W IngestionError (option unit) :=
  service_loop LockKeepAlive client INGESTION_LOCK (ingestion_options state_client options) start fuel.

Definition compaction_service_loop `{Cloud W} (fuel : nat) (client : LockClient) (state_client : KvClient)
    (segment_size group_size : Z) (start : Lock -> prog W CompactionError unit) : prog W CompactionError (option unit) :=
  service_loop CompactionErr client COMPACTION_LOCK (compaction_options state_client segment_size group_size) start fuel.
End lock.

(** [IngestionService::start]: a tick after the other, each with a look at the
    lock.  [None] when the fuel ran out. *)
Section ingestion_start.
Context `{!Codec} {W : Type} `{Cloud W} `{!BlockIngestion W} `{!LockOps W}.
Context `{!SerdeJson RecentSegmentPointer, !Archive CanonicalChainSegment, !BlockArchives}.
Variables (block_store : ObjectStore) (state_client : KvClient) (chain_store : ChainStore).
Variable options : IngestionServiceOptions.
(** the branch of [tick_ingest] that is ready next: none when cancelled *)
Variable select : IngestState -> Service W -> option IngestEvent * Service W.

(** A tick in either state: [None] when the recovery ran out of fuel. *)
Definition ingestion_tick (fuel : nat) (state : IngestionState) : prog (Service W) IngestionError (option IngestionState) :=
  match state with
  | Ingest inner_state => fun s =>
      match select inner_state s with
      | (None, s) => (Ok (Some (Ingest inner_state)), s)
      | (Some event, s) =>
          (state ← tick_ingest state_client chain_store options inner_state event; mret (Some state)) s
      end
  | Recover inner_state => tick_recover state_client chain_store lock_cancelled fuel inner_state
  end.

Fixpoint ingestion_loop (fuel : nat) (state : IngestionState) (lock : Lock) : prog (Service W) IngestionError (option unit) :=
  match fuel with
  | O => mret None
  | S fuel =>
      s ← get_state;
      if lock_cancelled (sv_world s) then mret (Some tt)
      else
        lock ← on_world (pcontext LockKeepAlive (keep_alive lock));
        state ← ingestion_tick fuel state;
        match state with
        | None => mret None
        | Some state => ingestion_loop fuel state lock
        end
  end.

Definition ingestion_start (fuel : nat) (lock : Lock) : prog (Service W) IngestionError (option unit) :=
  state ← initialize block_store state_client chain_store options;
  ingestion_loop fuel state lock.
End ingestion_start.
