(* ===== verification/LockSpec.v ===== *)
(** * Locks: properties

    Whether the holder of a lock keeps it is a question of time.  The lease lives
    for its time to live after the last refresh that reached etcd; a refresh of a
    lease that expired changes nothing, and is not an error.  The lock is kept
    when it is granted early enough after a refresh, and can be lost, unnoticed,
    when it is granted late. *)

From S2P Require Import Prelude External Text Core Cloud StateClient StateClientFacts Chain Compaction CompactionService Ingestion Lock.

(** ** Time *)

(** The lease of one client: the time, when the lease expires, whether it did;
    and what happens next, with the time until then: while the client waits for
    the lock, and between the ticks of its interval (an interval of tokio ticks at
    once when it is made, so the first of these times is that of the start of the
    loop). *)
Record Timed := mkTimed {
  tm_now : Z; tm_ttl : Z; tm_deadline : Z; tm_lost : bool;
  tm_script : list (Z * LockEvent); tm_ticks : list Z }.

(** Time passes. *)
Definition pass (d : Z) (w : Timed) : Timed :=
  mkTimed (tm_now w + d) (tm_ttl w) (tm_deadline w) (tm_lost w || (tm_deadline w <? tm_now w + d)) (tm_script w) (tm_ticks w).

(** The lease is refreshed, unless it is gone. *)
Definition refresh (w : Timed) : Timed :=
  if tm_lost w then w
  else mkTimed (tm_now w) (tm_ttl w) (tm_now w + from_secs (tm_ttl w)) false (tm_script w) (tm_ticks w).

#[export] Instance timed_lock : LockOps Timed := {|
  instant_now := tm_now;
  lease_grant ttl w :=
    (Ok 1, mkTimed (tm_now w) ttl (tm_now w + from_secs ttl) false (tm_script w) (tm_ticks w));
  lease_keep_alive _ w := (Ok tt, w);
  keeper_keep_alive _ w := (Ok tt, refresh w);
  lock_request _ _ w := w;
  lock_select _ w :=
    match tm_script w with
    | [] => (Ok LockCancelled, w)
    | (d, event) :: script =>
        (Ok event, pass d (mkTimed (tm_now w) (tm_ttl w) (tm_deadline w) (tm_lost w) script (tm_ticks w)))
    end;
  etcd_unlock _ w := (Ok tt, w);
  lease_time_to_live _ w := (Ok (if tm_lost w then -1 else tm_deadline w - tm_now w), w);
  lock_cancelled _ := false;
  interval_tick _ w :=
    match tm_ticks w with
    | [] => (false, w)
    | d :: ticks => (true, pass d (mkTimed (tm_now w) (tm_ttl w) (tm_deadline w) (tm_lost w) (tm_script w) ticks))
    end;
  lock_sleep d w := pass d w |}.

(** A wait that ends with the lock: refreshes after the given times, and the
    grant at a last time after them. *)
Definition granted (waits : list Z) (last : Z) : list (Z * LockEvent) :=
  ((fun d => (d, LockRefresh)) <$> waits) ++ [(last, LockResponse (Ok tt))].

(** The lease is alive, and was refreshed [slack] before the lock says so. *)
Record holds (slack : Z) (lock : Lock) (w : Timed) : Prop := {
  ho_alive : tm_lost w = false;
  ho_deadline : tm_deadline w = lk_last_refresh lock - slack + from_secs (tm_ttl w);
  ho_recent : 0 <= tm_now w - lk_last_refresh lock <= lk_min_refresh_interval lock }.

(** A tick keeps the lock, when it comes soon enough. *)
Lemma tick_holds slack d max ticks lock w :
  holds slack lock w -> 0 <= slack -> 0 <= d <= max -> tm_ticks w = d :: ticks ->
  slack + max <= from_secs (tm_ttl w) - lk_min_refresh_interval lock ->
  exists lock' w' slack', (let '(_, w1) := interval_tick (from_secs 5) w in keep_alive lock w1) = (Ok lock', w') /\
    (interval_tick (from_secs 5) w).1 = true /\ holds slack' lock' w' /\ 0 <= slack' <= slack /\
    tm_ticks w' = ticks /\ tm_ttl w' = tm_ttl w /\ lk_min_refresh_interval lock' = lk_min_refresh_interval lock.
Proof.
  intros [Ha Hd Hr] Hs Hdm Ht Hroom. cbn [interval_tick timed_lock]. rewrite Ht. unfold keep_alive.
  set (w1 := pass d _). rewrite (prog_bind_run get_state _ w1 w1 w1 eq_refl).
  assert (tm_lost w1 = false) as Hlost.
  { cbn [w1 pass tm_lost tm_deadline tm_now]. rewrite Ha. cbn [orb]. apply Z.ltb_ge. lia. }
  change (instant_now w1) with (tm_now w + d).
  destruct (Z.leb_spec (tm_now w + d - lk_last_refresh lock) (lk_min_refresh_interval lock)).
  - exists lock, w1, slack. split; [done|]. split; [done|]. split; [|split; [lia|done]].
    split; [done|exact Hd|]. cbn [w1 pass tm_now]. lia.
  - rewrite (prog_bind_run _ _ w1 tt (refresh w1)) by reflexivity. unfold refresh. rewrite Hlost.
    eexists _, _, 0. split; [reflexivity|]. split; [done|]. split; [|split; [lia|done]].
    constructor; cbn [tm_lost tm_deadline tm_now lk_last_refresh lk_min_refresh_interval tm_ttl instant_now timed_lock]; [done|lia|lia].
Qed.

Lemma loop_holds fuel slack max lock w :
  holds slack lock w -> 0 <= slack -> Forall (fun d => 0 <= d <= max) (tm_ticks w) -> (length (tm_ticks w) < fuel)%nat ->
  slack + max <= from_secs (tm_ttl w) - lk_min_refresh_interval lock ->
  exists lock' w', lock_keep_alive_loop fuel lock w = (Ok (Some lock'), w') /\ tm_lost w' = false.
Proof.
  revert slack lock w. induction fuel as [|fuel IH]; intros slack lock w Hh Hs Ht Hf Hroom; [lia|].
  cbn [lock_keep_alive_loop]. destruct (tm_ticks w) as [|d ticks] eqn:Hticks.
  - cbn [interval_tick timed_lock]. rewrite Hticks. cbn. exists lock, w. split; [done|apply Hh].
  - apply Forall_cons in Ht as [Hd Ht]. cbn [length] in Hf.
    destruct (tick_holds slack d max ticks lock w Hh Hs Hd Hticks Hroom)
      as (lock' & w' & slack' & Hk & Htick & Hh' & Hs' & Ht' & Httl & Hmin).
    destruct (interval_tick (from_secs 5) w) as [ticked w1]. cbn [fst] in Htick. subst ticked. cbn [negb].
    rewrite bind_eq. unfold pcontext. rewrite Hk. cbn [change_context].
    apply (IH slack'); [done|lia|by rewrite Ht'|rewrite Ht'; lia|]. rewrite Httl, Hmin. lia.
Qed.

(** Waiting for the lock. *)
Lemma wait_holds fuel key lease min waits last w :
  (length waits < fuel)%nat -> tm_script w = granted waits last -> tm_lost w = false ->
  tm_deadline w = tm_now w + from_secs (tm_ttl w) -> 0 <= min ->
  Forall (fun d => 0 <= d <= from_secs (tm_ttl w)) waits -> 0 <= last <= from_secs (tm_ttl w) ->
  exists lock w', lock_loop fuel key lease min w = (Ok (Some (Some lock)), w') /\ holds last lock w' /\ tm_now w' = lk_last_refresh lock /\
    tm_ticks w' = tm_ticks w /\ tm_ttl w' = tm_ttl w /\ lk_min_refresh_interval lock = min.
Proof.
  revert waits w. induction fuel as [|fuel IH]; intros waits w Hf Hscript Hlost Hdead Hmin Hwaits Hlast; [lia|].
  cbn [lock_loop]. destruct waits as [|d waits]; unfold granted in Hscript; cbn [fmap list_fmap app] in Hscript.
  - rewrite bind_eq. cbn [lock_select timed_lock]. rewrite Hscript. unfold pass. cbn [tm_now tm_ttl tm_deadline tm_lost tm_script tm_ticks].
    rewrite Hlost, Hdead. cbn [orb]. assert ((tm_now w + from_secs (tm_ttl w) <? tm_now w + last) = false) as -> by (apply Z.ltb_ge; lia).
    cbn [change_context]. eexists _, _. split; [reflexivity|]. split; [|done].
    constructor; cbn [tm_lost tm_deadline tm_now lk_last_refresh lk_min_refresh_interval tm_ttl instant_now timed_lock]; [done|lia|lia].
  - apply Forall_cons in Hwaits as [Hd Hwaits]. cbn [length] in Hf.
    rewrite bind_eq. cbn [lock_select timed_lock]. rewrite Hscript. unfold pass. cbn [tm_now tm_ttl tm_deadline tm_lost tm_script tm_ticks].
    rewrite Hlost, Hdead. cbn [orb]. assert ((tm_now w + from_secs (tm_ttl w) <? tm_now w + d) = false) as -> by (apply Z.ltb_ge; lia).
    rewrite bind_eq. cbn [pcontext keeper_keep_alive timed_lock refresh tm_lost change_context tm_now tm_ttl tm_script tm_ticks].
    match goal with |- context [lock_loop fuel key lease min ?w1] => apply (IH waits w1) end;
      cbn [tm_script tm_lost tm_deadline tm_now tm_ttl]; (done || lia).
Qed.

Section kept.
Variables (client : LockClient) (key : RString).
Abbreviation ttl := (lo_ttl (lc_options client)).

(** A client that waits for the lock and then keeps it alive. *)
Definition hold_lock (fuel : nat) (w : Timed) : option (Lock * Timed) :=
  match acquire_lock fuel client key w with
  | (Ok (Some (Some lock)), w1) =>
      match lock_keep_alive_loop fuel lock w1 with
      | (Ok (Some lock'), w2) => Some (lock', w2)
      | _ => None
      end
  | _ => None
  end.

Lemma acquire_holds fuel waits last w :
  (length waits < fuel)%nat -> tm_script w = granted waits last -> 2 <= ttl < U64 ->
  Forall (fun d => 0 <= d <= from_secs ttl) waits -> 0 <= last <= from_secs ttl ->
  exists lock w1, acquire_lock fuel client key w = (Ok (Some (Some lock)), w1) /\ holds last lock w1 /\ tm_now w1 = lk_last_refresh lock /\
    tm_ticks w1 = tm_ticks w /\ tm_ttl w1 = ttl /\ lk_min_refresh_interval lock = from_secs (ttl / 2).
Proof.
  intros Hf Hscript Httl Hwaits Hlast. pose proof (Z.div_le_lower_bound ttl 2 1 ltac:(lia) ltac:(lia)) as Hhalf.
  assert (from_secs (ttl / 2) <> 0) as Hmin by (unfold from_secs; lia).
  unfold acquire_lock. rewrite bind_eq. cbn [pcontext lease_grant timed_lock change_context].
  rewrite bind_eq. cbn [pcontext lease_keep_alive timed_lock change_context].
  assert (wrap64 ttl = ttl) as -> by (unfold wrap64; apply Z.mod_small; lia).
  rewrite (proj2 (Z.eqb_neq _ 0) Hmin), bind_eq. cbn [modify lock_request timed_lock].
  destruct (wait_holds fuel (lc_format_key client key) 1 (from_secs (ttl / 2)) waits last
    (mkTimed (tm_now w) ttl (tm_now w + from_secs ttl) false (tm_script w) (tm_ticks w)))
    as (lock & w1 & Hl & Hh & Hn & Ht & Htt & Hm); try done; [unfold from_secs; lia|]. by exists lock, w1.
Qed.

(** (C26) A lock that is granted early enough is kept.  However long the client
    waits, as long as the time between the last refresh and the grant plus the
    longest time between two ticks is at most half of the time to live, the
    lease never expires while the client ticks, and the loop ends when the
    service does.  With the defaults, a time to live of 60 seconds and a tick
    every 5 seconds, the lock is safe when it is granted within 25 seconds of
    the last refresh. *)
Theorem lock_kept fuel waits last max w :
  (length waits < fuel)%nat -> (length (tm_ticks w) < fuel)%nat -> 2 <= ttl < U64 ->
  tm_script w = granted waits last -> Forall (fun d => 0 <= d <= from_secs ttl) waits -> 0 <= last ->
  Forall (fun d => 0 <= d <= max) (tm_ticks w) -> 0 <= max -> last + max <= from_secs (ttl - ttl / 2) ->
  exists lock w', hold_lock fuel w = Some (lock, w') /\ tm_lost w' = false.
Proof.
  intros Hf1 Hf2 Httl Hscript Hwaits Hlast Hticks Hmax Hroom.
  pose proof (Z.div_le_lower_bound ttl 2 1 ltac:(lia) ltac:(lia)) as Hhalf.
  assert (from_secs (ttl - ttl / 2) = from_secs ttl - from_secs (ttl / 2)) as Hsplit by (unfold from_secs; lia).
  destruct (acquire_holds fuel waits last w Hf1 Hscript Httl Hwaits) as (lock & w1 & Ha & Hh & _ & Ht & Htt & Hm);
    [unfold from_secs in *; lia|].
  destruct (loop_holds fuel last max lock w1 Hh Hlast) as (lock' & w2 & Hloop & Halive);
    [by rewrite Ht|by rewrite Ht|rewrite Htt, Hm; lia|].
  exists lock', w2. unfold hold_lock. by rewrite Ha, Hloop.
Qed.
End kept.

(** The time of a list of ticks. *)
Definition total (ticks : list Z) : Z := foldr Z.add 0 ticks.

(** Ticks that come before a refresh is due change nothing but the time. *)
Lemma ticks_skip early ticks lock w fuel :
  tm_ticks w = early ++ ticks -> Forall (fun d => 0 <= d) early ->
  tm_now w + total early - lk_last_refresh lock <= lk_min_refresh_interval lock ->
  exists w', lock_keep_alive_loop (length early + fuel) lock w = lock_keep_alive_loop fuel lock w' /\
    tm_now w' = tm_now w + total early /\ tm_deadline w' = tm_deadline w /\ tm_ticks w' = ticks.
Proof.
  intros Ht Hd. revert w Ht. induction Hd as [|d early Hd Hearly IH]; intros w Ht Hle.
  { exists w. split; [done|]. split; [cbn; lia|done]. }
  assert (0 <= total early) by (clear -Hearly; unfold total; induction Hearly; cbn; lia).
  cbn [app length Nat.add total foldr] in *. fold (total early) in *.
  cbn [lock_keep_alive_loop interval_tick timed_lock]. rewrite Ht. cbn [negb].
  set (w1 := pass d _). rewrite bind_eq. unfold pcontext at 1, keep_alive.
  rewrite (prog_bind_run get_state _ w1 w1 w1 eq_refl). change (instant_now w1) with (tm_now w + d).
  rewrite (proj2 (Z.leb_le _ _)) by lia. unfold mret, prog_ret. cbn [change_context].
  destruct (IH w1) as (w' & Hl & Hn & Hdl & Ht'); [done|unfold w1, pass; cbn [tm_now]; lia|].
  exists w'. split; [exact Hl|]. rewrite Hn, Hdl. split; [unfold w1, pass; cbn [tm_now]; lia|done].
Qed.

(** A holder whose lease expired goes on: no call fails, and the lease stays
    gone. *)
Lemma keep_alive_lost lock w : tm_lost w = true -> exists lock', keep_alive lock w = (Ok lock', w).
Proof.
  intros Hl. unfold keep_alive. rewrite (prog_bind_run get_state _ w w w eq_refl). destruct (_ <=? _); [by exists lock|].
  rewrite (prog_bind_run _ _ w tt w) by (unfold pcontext; cbn [keeper_keep_alive timed_lock]; unfold refresh; by rewrite Hl).
  by eexists.
Qed.

Lemma loop_lost fuel lock w :
  tm_lost w = true -> (length (tm_ticks w) < fuel)%nat ->
  exists lock' w', lock_keep_alive_loop fuel lock w = (Ok (Some lock'), w') /\ tm_lost w' = true.
Proof.
  revert lock w. induction fuel as [|fuel IH]; intros lock w Hl Hf; [lia|].
  cbn [lock_keep_alive_loop interval_tick timed_lock]. destruct (tm_ticks w) as [|d ticks] eqn:Ht; cbn [negb].
  { by exists lock, w. }
  cbn [length] in Hf. set (w1 := pass d _). assert (tm_lost w1 = true) as Hl1 by (cbn; by rewrite Hl).
  destruct (keep_alive_lost lock w1 Hl1) as [lock1 Hk].
  rewrite bind_eq. unfold pcontext at 1. rewrite Hk. cbn [change_context]. apply IH; [done|]. cbn. lia.
Qed.

(** (C40) A lock that is granted late is lost, and nobody notices.  The holder
    believes that the lease was refreshed when the lock was granted, so the first
    message goes out at the first tick that is more than half of the time to live
    after the grant.  When the time from the last refresh of the lease to the
    grant, and from there to that tick, is more than the time to live, the lease
    expires before the message.  The lock is gone, so that another client can get
    it, while every call of the holder succeeds from then on.  (With the defaults:
    the grant 28 seconds after a refresh, and ticks 28 and 33 seconds after the
    grant.)  The bound of the lock that is kept is therefore needed. *)
Theorem late_grant_loses client key fuel waits last early gap ticks w :
  let ttl := lo_ttl (lc_options client) in
  2 <= ttl < U64 -> (length waits < fuel)%nat -> (length (tm_ticks w) < fuel)%nat ->
  tm_script w = granted waits last -> Forall (fun d => 0 <= d <= from_secs ttl) waits -> 0 <= last <= from_secs ttl ->
  tm_ticks w = early ++ gap :: ticks -> Forall (fun d => 0 <= d) early ->
  total early <= from_secs (ttl / 2) -> from_secs ttl < last + total early + gap ->
  exists lock w', hold_lock client key fuel w = Some (lock, w') /\ tm_lost w' = true.
Proof.
  intros ttl Httl Hf1 Hf2 Hscript Hwaits Hlast Hticks Hearly Hskip Hlate.
  destruct (acquire_holds client key fuel waits last w) as (lock & w1 & Ha & [Hal Hd Hr] & Hn & Ht & Htt & Hm); [done..|].
  unfold hold_lock. rewrite Ha. clear Ha. rewrite Htt in Hd. rewrite Hticks in Ht. rewrite Hticks, length_app in Hf2. cbn [length] in Hf2.
  replace fuel with (length early + S (fuel - S (length early)))%nat by lia.
  destruct (ticks_skip early (gap :: ticks) lock w1 (S (fuel - S (length early))) Ht Hearly) as (w2 & -> & Hn2 & Hd2 & Ht2);
    [rewrite Hm, Hn; fold ttl; lia|].
  assert (tm_lost (pass gap w2) = true) as Hlost.
  { unfold pass. cbn [tm_lost]. apply orb_true_iff. right. apply Z.ltb_lt. rewrite Hn2, Hd2, Hd, Hn. fold ttl. lia. }
  cbn [lock_keep_alive_loop interval_tick timed_lock]. rewrite Ht2. cbn [negb]. set (w3 := pass gap _).
  destruct (keep_alive_lost lock w3) as [lock3 Hk]; [exact Hlost|].
  rewrite bind_eq. unfold pcontext at 1. rewrite Hk. cbn [change_context].
  destruct (loop_lost (fuel - S (length early)) lock3 w3) as (lock' & w' & -> & Hw'); [exact Hlost|cbn; lia|].
  by exists lock', w'.
Qed.

(** ** Options *)

Section options.
Context {W : Type} `{Cloud W} `{!LockOps W}.
Implicit Types (self : KvClient) (w : W).

(** A check that succeeds leaves the size stored, and other keys alone. *)
Lemma checked_size {E} (e : E) self key size w w' : is_u64 size ->
  (stored ← pcontext e (get_usize self key);
   match stored with
   | Some stored => if negb (stored =? size) then fail e else mret tt
   | None => pcontext e (set_usize self key size)
   end) w = (Ok tt, w') ->
  stored_number (view w') (kv_format_key self key) = Some size /\
  forall key', key' <> kv_format_key self key -> v_kvs (view w') !! key' = v_kvs (view w) !! key'.
Proof.
  intros Hsize. rewrite bind_eq. unfold pcontext at 1. destruct (get_usize self key w) as [r w0] eqn:Hg.
  apply get_usize_inv in Hg as (Hv & Hp & Ho). destruct r as [[stored|]|e0|]; simpl; [| |done|done].
  - destruct (Z.eqb_spec stored size) as [->|]; simpl; [|done]. intros [= <-]. rewrite Hv. by rewrite <- (Ho _ eq_refl).
  - unfold pcontext, set_usize. destruct (pcontext _ (kv_put _ _ _) w0) as [r1 w1] eqn:Hput. unfold pcontext in Hput.
    destruct (kv_put _ _ _ w0) as [r2 w2] eqn:Hk. injection Hput as <- <-.
    apply kv_put_inv in Hk as [Hp2 [Hw|[_ ->]]]; [|done]. intros [= _ <-].
    apply kvs_put_lookup in Hw as (rev & _ & Hkey & Hother). rewrite Hv in Hother. split; [|done].
    unfold stored_number. rewrite Hkey. simpl. by rewrite decode_block_dec.
Qed.

(** The loop starts the service only in worlds in which the check succeeded. *)
Lemma service_loop_ext {E} (lock_error : E) client key check start start' fuel w :
  (forall w w' lock, check w = (Ok tt, w') -> start lock w' = start' lock w') ->
  service_loop lock_error client key check start fuel w = service_loop lock_error client key check start' fuel w.
Proof.
  intros Hext. revert w. induction fuel as [|fuel IH]; intros w; [done|]. cbn [service_loop]. rewrite !bind_eq. cbn [get_state].
  destruct (lock_cancelled w); [done|]. rewrite !bind_eq. destruct (pcontext _ _ w) as [[[[lock|]|]|e|] w1]; try done.
  rewrite !bind_eq. destruct (check w1) as [[[]|e|] w2] eqn:Hc; try done. rewrite !bind_eq.
  unfold try. rewrite (Hext _ _ lock Hc). destruct (start' lock w2) as [[[]|e|] w3]; try done.
  rewrite !bind_eq. destruct (pcontext _ _ w3) as [[[]|e'|] w4]; try done. rewrite !bind_eq. cbn [modify]. apply IH.
Qed.

Variables (client : LockClient) (state_client : KvClient).

(** (C25) A service runs only with the sizes that are stored.  Whatever the lock,
    the clock and the service do, the loop of the ingester starts the service
    only when the stored size of a chain segment is the configured one, and the
    loop of the compactor only when the stored sizes of segments and groups are:
    two services that differ only in other worlds make the same loop. *)
Theorem services_use_stored_sizes fuel options segment_size group_size
    (ingest ingest' : Lock -> prog W IngestionError unit) (compact compact' : Lock -> prog W CompactionError unit) w :
  let stored key w := stored_number (view w) (kv_format_key state_client key) in
  is_u64 (opt_chain_segment_size options) -> is_u64 segment_size -> is_u64 group_size ->
  (forall lock w, stored CHAIN_SEGMENT_SIZE_KEY w = Some (opt_chain_segment_size options) -> ingest lock w = ingest' lock w) ->
  (forall lock w, stored SEGMENT_SIZE_KEY w = Some segment_size -> stored GROUP_SIZE_KEY w = Some group_size ->
    compact lock w = compact' lock w) ->
  ingestion_service_loop fuel client state_client options ingest w = ingestion_service_loop fuel client state_client options ingest' w /\
  compaction_service_loop fuel client state_client segment_size group_size compact w =
    compaction_service_loop fuel client state_client segment_size group_size compact' w.
Proof.
  intros stored Hc Hs Hg Hi Hk. split; apply service_loop_ext; intros w0 w2 lock Hcheck.
  - apply Hi. by apply (checked_size Options _ _ _ w0 w2 Hc).
  - unfold compaction_options in Hcheck. apply prog_bind_Ok in Hcheck as ([] & w1 & H1 & H2).
    apply (checked_size CompactionErr _ _ _ w0 w1 Hs) in H1 as [H1 _].
    apply (checked_size CompactionErr _ _ _ w1 w2 Hg) in H2 as [H2 Hother].
    apply Hk; [|done]. rewrite <- H1. unfold stored, stored_number. rewrite Hother; [done|].
    intros Heq%kv_format_key_inj. discriminate Heq.
Qed.
End options.

(** ** Witnesses *)

Module LockWitness.

Definition example_client : LockClient := mkLockClient (str "dna/") lock_options_default.

(** Granted at once, and 10 seconds after a refresh. *)
Definition example_timed (waits : list Z) (last : Z) (ticks : list Z) : Timed := mkTimed 0 0 0 false (granted waits last) ticks.

Lemma lock_kept_witness :
  exists lock w', hold_lock example_client INGESTION_LOCK 20
    (example_timed [from_secs 30] (from_secs 10) (replicate 15 (from_secs 5))) = Some (lock, w') /\ tm_lost w' = false.
Proof.
  apply (lock_kept example_client INGESTION_LOCK 20 [from_secs 30] (from_secs 10) (from_secs 5)
    (example_timed [from_secs 30] (from_secs 10) (replicate 15 (from_secs 5)))).
  - vm_compute. lia.
  - vm_compute. lia.
  - split; [discriminate|reflexivity].
  - reflexivity.
  - repeat constructor; vm_compute; discriminate.
  - vm_compute. discriminate.
  - apply Forall_replicate. vm_compute. split; discriminate.
  - vm_compute. discriminate.
  - vm_compute. discriminate.
Defined.

(** The loop starts 3 seconds after the grant, with its first tick. *)
Lemma late_grant_loses_witness :
  exists lock w', hold_lock example_client COMPACTION_LOCK 9
    (example_timed [] (from_secs 28) (from_secs 3 :: replicate 6 (from_secs 5))) = Some (lock, w') /\ tm_lost w' = true.
Proof.
  apply (late_grant_loses example_client COMPACTION_LOCK 9 [] (from_secs 28)
    (from_secs 3 :: replicate 5 (from_secs 5)) (from_secs 5) []
    (example_timed [] (from_secs 28) (from_secs 3 :: replicate 6 (from_secs 5)))).
  - split; [discriminate|reflexivity].
  - vm_compute. lia.
  - vm_compute. lia.
  - reflexivity.
  - constructor.
  - vm_compute. split; discriminate.
  - reflexivity.
  - repeat constructor; vm_compute; discriminate.
  - vm_compute. discriminate.
  - vm_compute. reflexivity.
Defined.

(** A world in which the lock is granted at once. *)
Import ReliableCloud.

#[local] Instance eager_lock : LockOps World := {|
  instant_now _ := 0;
  lease_grant _ w := (Ok 1, w);
  lease_keep_alive _ w := (Ok tt, w);
  keeper_keep_alive _ w := (Ok tt, w);
  lock_request _ _ w := w;
  lock_select _ w := (Ok (LockResponse (Ok tt)), w);
  etcd_unlock _ w := (Ok tt, w);
  lease_time_to_live _ w := (Ok 1, w);
  lock_cancelled _ := false;
  interval_tick _ w := (false, w);
  lock_sleep _ w := w |}.

Definition example_kv : KvClient := mkKvClient (str "dna/").
Definition stored_size (key : RString) (w : World) : option Z := stored_number (view w) (kv_format_key example_kv key).

(** Services that panic when the sizes are not the stored ones. *)
Definition strict_ingest (lock : Lock) : prog World IngestionError unit := fun w =>
  if bool_decide (stored_size CHAIN_SEGMENT_SIZE_KEY w = Some 100) then (Ok tt, w) else (Panic, w).
Definition strict_compact (lock : Lock) : prog World CompactionError unit := fun w =>
  if bool_decide (stored_size SEGMENT_SIZE_KEY w = Some 1000) && bool_decide (stored_size GROUP_SIZE_KEY w = Some 50)
  then (Ok tt, w) else (Panic, w).

Lemma services_use_stored_sizes_witness :
  (ingestion_service_loop 3 example_client example_kv (mkIngestionOptions 10 100 5 None) strict_ingest world_empty).1 = Ok (Some tt) /\
  (compaction_service_loop 3 example_client example_kv 1000 50 strict_compact world_empty).1 = Ok (Some tt).
Proof.
  destruct (services_use_stored_sizes example_client example_kv 3 (mkIngestionOptions 10 100 5 None) 1000 50
    strict_ingest (fun _ w => (Ok tt, w)) strict_compact (fun _ w => (Ok tt, w)) world_empty) as [Hi Hc].
  - vm_compute. split; [discriminate|reflexivity].
  - vm_compute. split; [discriminate|reflexivity].
  - vm_compute. split; [discriminate|reflexivity].
  - intros lock w Hw. unfold strict_ingest, stored_size. by rewrite Hw.
  - intros lock w Hs Hg. unfold strict_compact, stored_size. by rewrite Hs, Hg.
  - split; [rewrite Hi|rewrite Hc]; vm_compute; reflexivity.
Defined.
End LockWitness.
