(* ===== verification/CompactionLoop.v ===== *)
(** * The loops of the compaction services (common/src/compaction/segment.rs,
    group.rs, prune.rs and service.rs)

    Each service repeats its tick, and waits for a change of the chain view when
    there is nothing to do.  [CompactionService::start] waits for the view, runs
    the three services side by side with the refresh of the lock, and stops all
    of them as soon as one ends.  The notifications of the view, time and the
    concurrent run are the interface [LoopOps]. *)

From S2P Require Import Prelude External Text Core Cloud StateClient ObjectStore Chain ChainView.
From S2P Require Import Index FragmentAccess BlockStore Compaction CompactionService Lock.

(** What a service waits for: [head_changed], [finalized_changed] and
    [segmented_changed] of the chain view. *)
Inductive ViewSignal := HeadChanged | FinalizedChanged | SegmentedChanged.

(** The end of the [select!] of [CompactionService::start]: a service is joined
    with its result, unless its task panicked or was stopped. *)
Inductive JoinError := JoinErr.
Inductive SupervisorEvent :=
| SupervisorCancelled
| SupervisorLock (result : outcome CompactionError unit)
| SupervisorService (result : outcome JoinError (outcome CompactionError unit)).

Class LoopOps (W : Type) := {
  loop_cancelled : W -> bool;
  (** waiting for a signal, or sleeping, unless cancelled *)
  until_changed : ViewSignal -> W -> bool * W;
  until_elapsed : Z -> W -> bool * W;
  loop_sleep : Z -> W -> W;
  (** [chain_view.borrow()] has a value *)
  view_available : W -> bool;
  (** the services run until one ends; the others are stopped *)
  run_services : Lock -> W -> SupervisorEvent * W }.

Section loops.
Context `{!Codec} {W : Type} `{Cloud W} `{!ChainViewOps W, !LockOps W, !LoopOps W}.
Context `{!Roaring, !BlockArchives, !HashOrder Z}.
Variables (client : ObjectStore) (state_client : KvClient).

(** Waits for a signal and goes on, or ends when cancelled. *)
Definition wait_and (signal : ViewSignal) (next : prog W CompactionError (option unit)) : prog W CompactionError (option unit) := fun w =>
  let '(changed, w) := until_changed signal w in if changed then next w else (Ok (Some tt), w).

(** [SegmentService::start]: [None] when the fuel ran out, here and below. *)
Fixpoint segment_service_start (fuel : nat) (segment_size : Z) : prog W CompactionError (option unit) :=
  match fuel with
  | O => mret None
  | S fuel =>
      w ← get_state;
      if loop_cancelled w then mret (Some tt)
      else
        tick ← segment_tick client state_client fuel segment_size;
        match tick with
        | SegmentCompacted => segment_service_start fuel segment_size
        | WaitFinalized => wait_and FinalizedChanged (segment_service_start fuel segment_size)
        | WaitHead => wait_and HeadChanged (segment_service_start fuel segment_size)
        end
  end.

(** [SegmentGroupService::start]. *)
Fixpoint group_service_start (fuel : nat) (segment_size group_size : Z) : prog W CompactionError (option unit) :=
  match fuel with
  | O => mret None
  | S fuel =>
      w ← get_state;
      if loop_cancelled w then mret (Some tt)
      else
        _ ← modify (loop_sleep (from_secs 1));
        tick ← group_tick client state_client fuel segment_size group_size;
        match tick with
        | GroupCompacted => group_service_start fuel segment_size group_size
        | WaitSegmented => wait_and SegmentedChanged (group_service_start fuel segment_size group_size)
        end
  end.

(** [PruneService::start]. *)
Fixpoint prune_service_start (fuel : nat) (segment_size : Z) : prog W CompactionError (option unit) :=
  match fuel with
  | O => mret None
  | S fuel =>
      w ← get_state;
      if loop_cancelled w then mret (Some tt)
      else
        pruned ← prune_loop client state_client loop_cancelled fuel segment_size;
        match pruned with
        | None => mret None
        | Some _ => wait_and SegmentedChanged (prune_service_start fuel segment_size)
        end
  end.

(** The wait for the chain view: the lock, or [Some None] when cancelled. *)
Fixpoint wait_for_view (fuel : nat) (lock : Lock) : prog W CompactionError (option (option Lock)) :=
  match fuel with
  | O => mret None
  | S fuel =>
      lock ← pcontext CompactionErr (keep_alive lock);
      w ← get_state;
      if view_available w then mret (Some (Some lock))
      else fun w =>
        let '(elapsed, w) := until_elapsed (from_secs 5) w in
        if elapsed then wait_for_view fuel lock w else (Ok (Some None), w)
  end.

(** The result of the [select!]. *)
Definition supervised (event : SupervisorEvent) : outcome CompactionError unit :=
  match event with
  | SupervisorCancelled => Ok tt
  | SupervisorLock result => change_context CompactionErr result
  | SupervisorService service => result ← change_context CompactionErr service; change_context CompactionErr result
  end.

Definition run_supervised (lock : Lock) : prog W CompactionError (option unit) := fun w =>
  let '(event, w) := run_services lock w in (_ ← supervised event; Ok (Some tt), w).

(** [CompactionService::start]. *)
Definition compaction_start (fuel : nat) (lock : Lock) : prog W CompactionError (option unit) :=
  waited ← wait_for_view fuel lock;
  match waited with
  | None => mret None
  | Some None => mret (Some tt)
  | Some (Some lock) => run_supervised lock
  end.
End loops.
