(* ===== verification/CompactionLoopSpec.v ===== *)
(** * The loops of the compaction services: properties

    The segment service and the group service wait for the right change: as long
    as the one they wait for is not notified, they have nothing to do. *)

From S2P Require Import Prelude External Text Core Cloud StateClient ObjectStore Chain ChainView.
From S2P Require Import Index FragmentAccess BlockStore Compaction CompactionService CompactionServiceFacts ChainViewSpec DataStreamFacts Lock CompactionLoop.

(** ** The view and its signals *)

Section view.
Context {S : Type} `{!ChainStoreOps S}.

(** The notifications of a signal so far. *)
Definition signal_count (signal : ViewSignal) (v : ChainViewInner S) : nat :=
  match signal with
  | HeadChanged => cv_head_notify v
  | FinalizedChanged => cv_finalized_notify v
  | SegmentedChanged => cv_segmented_notify v
  end.

(** The changes that the sync service makes. *)
Inductive view_update :=
| UpdateFinalized (block : Z)
| UpdatePending (generation : option Z)
| UpdateSegmented (block : Z)
| UpdateGrouped (block : Z)
| UpdateRecent (segment : CanonicalChainSegment).

Definition apply_update (v : ChainViewInner S) (u : view_update) : ChainViewInner S :=
  match u with
  | UpdateFinalized block => set_finalized_block v block
  | UpdatePending generation => set_pending_generation v generation
  | UpdateSegmented block => set_segmented_block v block
  | UpdateGrouped block => set_grouped_block v block
  | UpdateRecent segment => view_set_recent v segment
  end.

Definition update_signal (u : view_update) : option ViewSignal :=
  match u with
  | UpdateFinalized _ => Some FinalizedChanged
  | UpdateSegmented _ => Some SegmentedChanged
  | UpdateRecent _ => Some HeadChanged
  | _ => None
  end.

#[export] Instance ViewSignal_eq_dec : EqDecision ViewSignal.
Proof. solve_decision. Defined.

Lemma update_count signal v u :
  signal_count signal (apply_update v u) =
  (signal_count signal v + if decide (update_signal u = Some signal) then 1 else 0)%nat.
Proof. destruct u, signal; case_decide; cbn in *; simplify_eq; try done; lia. Qed.

Lemma updates_count signal v us : (signal_count signal v <= signal_count signal (foldl apply_update v us))%nat.
Proof. revert v. induction us as [|u us IH]; intros v; [done|]. cbn [foldl]. specialize (IH (apply_update v u)). rewrite update_count in IH. lia. Qed.

(** A signal that was not notified: none of the changes is one of its. *)
Lemma not_notified signal v us :
  signal_count signal (foldl apply_update v us) = signal_count signal v <-> Forall (fun u => update_signal u <> Some signal) us.
Proof.
  revert v. induction us as [|u us IH]; intros v; cbn [foldl]; [split; [constructor|done]|].
  rewrite Forall_cons, <- (IH (apply_update v u)). pose proof (update_count signal v u) as Hu.
  pose proof (updates_count signal (apply_update v u) us) as Hle. case_decide; split; [lia|naive_solver|intros ?; split; [done|lia]|intros [_ ?]; lia].
Qed.

(** What a service reads stays, as long as it is not notified. *)
Lemma kept_by {A} (f : ChainViewInner S -> A) (P : view_update -> Prop) v us :
  (forall v u, P u -> f (apply_update v u) = f v) -> Forall P us -> f (foldl apply_update v us) = f v.
Proof.
  intros Hf. revert v. induction us as [|u us IH]; intros v Hus; [done|]. apply Forall_cons in Hus as [Hu Hus].
  cbn [foldl]. rewrite IH by done. by apply Hf.
Qed.

(** The number of the first block that is not in a segment, or in a group. *)
Definition next_block (done_ : option Z) (v : ChainViewInner S) : Z :=
  match done_ with Some n => add64 n 1 | None => starting_block (cv_canonical v) end.

Definition head_number (v : ChainViewInner S) : Z := number (last_block (seg_info (recent (cv_canonical v)))).
End view.

Section loops.
Context `{!Codec} {W : Type} `{Cloud W} {S : Type} `{!ChainStoreOps S}.
Context `{!Roaring, !BlockArchives, !HashOrder Z}.
Variables (client : ObjectStore) (state_client : KvClient) (current : W -> ChainViewInner S).
#[local] Instance current_ops : ChainViewOps W := chain_view_ops current.

(** A look at the view. *)
Lemma query_bind {A B} (f : ChainViewInner S -> outcome ChainViewError A) (k : A -> prog W CompactionError B) w :
  (a ← pcontext CompactionErr (view_query current f); k a) w =
  match f (current w) with Ok a => k a w | Err _ => (Err CompactionErr, w) | Panic => (Panic, w) end.
Proof. rewrite bind_eq. unfold pcontext, view_query. by destruct (f (current w)). Qed.

(** The first block after the segmented or the grouped one. *)
Definition first_after (done_ : option Cursor) : prog W CompactionError Cursor :=
  match done_ with
  | Some cursor =>
      next ← pcontext CompactionErr (view_next_cursor (Some cursor));
      match next with NextContinue cursor _ => mret cursor | _ => fail CompactionErr end
  | None => pcontext CompactionErr view_starting_cursor
  end.

Lemma first_after_spec done_ n w :
  (forall c, done_ = Some c -> n = Some (number c)) -> (done_ = None -> n = None) ->
  match first_after done_ w with
  | (Ok c, w') => w' = w /\ number c = next_block n (current w)
  | (_, w') => w' = w
  end.
Proof.
  intros Hs Hn. destruct done_ as [c|]; cbn [first_after].
  - rewrite (Hs c eq_refl). cbn [view_next_cursor current_ops chain_view_ops]. rewrite query_bind.
    destruct (get_next_cursor _ _) as [next| |] eqn:He; [|done|done]. destruct next as [c' h|c'|]; [|done|done].
    split; [done|]. by eapply next_cursor_number.
  - rewrite (Hn eq_refl). cbn [view_starting_cursor current_ops chain_view_ops]. unfold pcontext, view_query.
    destruct (get_starting_cursor _) as [c| |] eqn:He; [|done|done]. split; [done|]. by apply starting_cursor_number.
Qed.

Lemma done_cursor (f : ChainViewInner S -> outcome ChainViewError (option Cursor)) (n : option Z) v o :
  (f v = match n with None => Ok None | Some n => Some <$> cursor_or_finalized v n end) -> f v = Ok o ->
  (forall c, o = Some c -> n = Some (number c)) /\ (o = None -> n = None).
Proof.
  intros -> Ho. destruct n as [n|].
  - apply bind_Ok in Ho as (c' & Hc & [= <-]). apply cursor_or_finalized_number in Hc. split; [|done]. intros ? [= <-]. by rewrite Hc.
  - by injection Ho as <-.
Qed.

Lemma segment_tick_eq fuel size : segment_tick client state_client fuel size =
  (segmented ← pcontext CompactionErr (view_query current get_segmented_cursor);
   first ← first_after segmented;
   head ← pcontext CompactionErr (view_query current (fun self => get_head (cv_canonical self)));
   finalized ← pcontext CompactionErr (view_query current get_finalized_cursor);
   if add64 (number first) size <=? Z.min (number finalized) (number head) then
     _ ← compact_segment client state_client fuel size first; mret SegmentCompacted
   else if number finalized <? number head then mret WaitFinalized else mret WaitHead).
Proof. reflexivity. Qed.

(** What a tick does, by what the view tells: it fails, or there is a segment
    and it is compacted, or there is none and nothing happens. *)
Lemma segment_tick_cases fuel size w :
  let v := current w in
  let next := add64 (next_block (cv_segmented v) v) size in
  (exists first, number first = next_block (cv_segmented v) v /\ next <= Z.min (cv_finalized v) (head_number v) /\
     segment_tick client state_client fuel size w =
       (_ ← compact_segment client state_client fuel size first; mret SegmentCompacted) w) \/
  ((forall t, (segment_tick client state_client fuel size w).1 <> Ok t) /\ (segment_tick client state_client fuel size w).2 = w) \/
  (Z.min (cv_finalized v) (head_number v) < next /\
   segment_tick client state_client fuel size w =
     (Ok (if cv_finalized v <? head_number v then WaitFinalized else WaitHead), w)).
Proof.
  intros v next. rewrite segment_tick_eq, query_bind. destruct (get_segmented_cursor (current w)) as [segmented| |] eqn:Hs; [|by right; left|by right; left].
  rewrite bind_eq. pose proof (first_after_spec segmented (cv_segmented v) w) as Hf.
  destruct (done_cursor get_segmented_cursor (cv_segmented v) v segmented eq_refl Hs) as [Hs1 Hs2].
  specialize (Hf Hs1 Hs2). destruct (first_after segmented w) as [[first| |] w1]; [|subst w1; by right; left..].
  destruct Hf as [-> Hfirst]. rewrite query_bind. cbn [get_head]. rewrite query_bind. fold v.
  destruct (get_finalized_cursor v) as [f| |] eqn:Hg; [|by right; left|by right; left].
  apply cursor_or_finalized_number in Hg as Hfn. rewrite Hfn, Hfirst. fold v. change (number (last_block (seg_info (recent (cv_canonical v))))) with (head_number v).
  fold next. destruct (Z.leb_spec next (Z.min (cv_finalized v) (head_number v))).
  - left. by exists first.
  - right. right. split; [done|]. by destruct (_ <? _).
Qed.

(** A tick that compacts has a segment to compact; one that waits has none. *)
Lemma segment_tick_compacts fuel size w : let v := current w in
  (segment_tick client state_client fuel size w).1 = Ok SegmentCompacted ->
  add64 (next_block (cv_segmented v) v) size <= Z.min (cv_finalized v) (head_number v).
Proof.
  intros v Ht. destruct (segment_tick_cases fuel size w) as [(first & _ & Hle & _)|[[Hn _]|[_ He]]]; [done|by apply Hn in Ht|].
  rewrite He in Ht. by destruct (_ <? _).
Qed.

Lemma segment_tick_waits fuel size w signal : let v := current w in
  (segment_tick client state_client fuel size w).1 = Ok signal -> signal <> SegmentCompacted ->
  Z.min (cv_finalized v) (head_number v) < add64 (next_block (cv_segmented v) v) size /\
  signal = (if cv_finalized v <? head_number v then WaitFinalized else WaitHead) /\
  (segment_tick client state_client fuel size w).2 = w.
Proof.
  intros v Ht Hne. destruct (segment_tick_cases fuel size w) as [(first & _ & Hle & He)|[[Hn _]|[Hlt He]]]; [|by apply Hn in Ht|].
  - rewrite He, bind_eq in Ht. destruct (compact_segment _ _ _ _ _ w) as [[?| |] ?]; [|done|done]. by injection Ht as <-.
  - rewrite He in Ht |- *. by injection Ht as <-.
Qed.

Lemma group_tick_eq fuel segment_size group_size : group_tick client state_client fuel segment_size group_size =
  (grouped ← pcontext CompactionErr (view_query current get_grouped_cursor);
   first ← first_after grouped;
   segmented ← pcontext CompactionErr (view_query current get_segmented_cursor);
   match segmented with
   | None => mret WaitSegmented
   | Some segmented =>
       if add64 (number first) (mul64 group_size segment_size) <=? number segmented then
         _ ← compact_group client state_client fuel segment_size group_size first (mul64 group_size segment_size);
         mret GroupCompacted
       else mret WaitSegmented
   end).
Proof. reflexivity. Qed.

(** There is a whole group of segments. *)
Definition group_ready (segment_size group_size : Z) (v : ChainViewInner S) : Prop :=
  exists n, cv_segmented v = Some n /\ add64 (next_block (cv_grouped v) v) (mul64 group_size segment_size) <= n.

Lemma group_tick_cases fuel segment_size group_size w :
  let v := current w in let r := group_tick client state_client fuel segment_size group_size w in
  (group_ready segment_size group_size v /\ r.1 <> Ok WaitSegmented) \/
  ((forall t, r.1 <> Ok t) /\ r.2 = w) \/ (~ group_ready segment_size group_size v /\ r = (Ok WaitSegmented, w)).
Proof.
  intros v r. unfold r. rewrite group_tick_eq, query_bind. fold v. destruct (get_grouped_cursor v) as [grouped| |] eqn:Hg; [|by right; left..].
  destruct (done_cursor get_grouped_cursor (cv_grouped v) v grouped eq_refl Hg) as [Hg1 Hg2].
  rewrite bind_eq. pose proof (first_after_spec grouped (cv_grouped v) w Hg1 Hg2) as Hf. fold v in Hf.
  destruct (first_after grouped w) as [[first| |] w1]; [|subst w1; by right; left..]. destruct Hf as [-> Hfirst].
  rewrite query_bind. fold v. destruct (get_segmented_cursor v) as [segmented| |] eqn:Hs; [|by right; left..].
  destruct (done_cursor get_segmented_cursor (cv_segmented v) v segmented eq_refl Hs) as [Hs1 Hs2]. unfold group_ready.
  destruct segmented as [segmented|].
  - rewrite (Hs1 _ eq_refl), Hfirst. destruct (Z.leb_spec (add64 (next_block (cv_grouped v) v) (mul64 group_size segment_size)) (number segmented)).
    + left. split; [by eexists|]. rewrite bind_eq. by destruct (compact_group _ _ _ _ _ _ _ w) as [[?| |] ?].
    + right. right. split; [|done]. intros (n & [= <-] & Hn). lia.
  - rewrite (Hs2 eq_refl). right. right. split; [|done]. by intros (n & [=] & _).
Qed.

(** (C28) The segment and the group service wait for the right change.  A segment
    tick that ends in waiting changed nothing, and after any changes of the view
    among which the signal that it waits for was not notified, other than of the
    segmented block, which is its own, a tick still finds no segment to compact.
    So it is with the groups: as long as the change of the segmented block is not
    notified, a tick of the group service, which alone changes the grouped block,
    finds no group.  (The prune service also waits for the segmented block; what it
    prunes depends on the grouped one, so this is not so for it.) *)
Theorem compaction_waits_rightly fuel segment_size group_size w w' us :
  current w' = foldl apply_update (current w) us ->
  (forall signal, signal_count signal (current w') = signal_count signal (current w) ->
    Forall (fun u => update_signal u <> Some SegmentedChanged) us ->
    (segment_tick client state_client fuel segment_size w).1 =
      Ok (match signal with FinalizedChanged => WaitFinalized | _ => WaitHead end) -> signal <> SegmentedChanged ->
    (segment_tick client state_client fuel segment_size w).2 = w /\
    (segment_tick client state_client fuel segment_size w').1 <> Ok SegmentCompacted) /\
  (signal_count SegmentedChanged (current w') = signal_count SegmentedChanged (current w) ->
    Forall (fun u => forall n, u <> UpdateGrouped n) us ->
    (group_tick client state_client fuel segment_size group_size w).1 = Ok WaitSegmented ->
    (group_tick client state_client fuel segment_size group_size w).2 = w /\
    (group_tick client state_client fuel segment_size group_size w').1 <> Ok GroupCompacted).
Proof.
  intros Hw'. assert (Hstart : starting_block (cv_canonical (current w')) = starting_block (cv_canonical (current w))).
  { rewrite Hw'. apply (kept_by (fun v => starting_block (cv_canonical v)) (fun _ => True)); [by intros v []|by apply Forall_true]. }
  assert (Hseg : Forall (fun u => update_signal u <> Some SegmentedChanged) us -> cv_segmented (current w') = cv_segmented (current w)).
  { rewrite Hw'. apply kept_by. by intros v []. }
  split.
  - intros signal Hwake Hown Ht Hsig. rewrite Hw' in Hwake. apply not_notified in Hwake.
    apply segment_tick_waits in Ht as (Hlt & Hsel & Hsame); [|by destruct signal]. split; [done|].
    intros Hc%segment_tick_compacts. unfold next_block in *. rewrite Hstart, (Hseg Hown) in Hc.
    destruct signal; [| |done].
    + assert (head_number (current w') = head_number (current w)) as Hh.
      { rewrite Hw'. apply (kept_by head_number (fun u => update_signal u <> Some HeadChanged)); [|done]. by intros v [] Hu. }
      rewrite Hh in Hc. destruct (Z.ltb_spec (cv_finalized (current w)) (head_number (current w))); [done|lia].
    + assert (cv_finalized (current w') = cv_finalized (current w)) as Hh.
      { rewrite Hw'. apply (kept_by cv_finalized (fun u => update_signal u <> Some FinalizedChanged)); [|done]. by intros v [] Hu. }
      rewrite Hh in Hc. destruct (Z.ltb_spec (cv_finalized (current w)) (head_number (current w))); [lia|done].
  - intros Hwake Hown Ht. rewrite Hw' in Hwake. apply not_notified in Hwake.
    destruct (group_tick_cases fuel segment_size group_size w) as [[_ ?]|[[Hn _]|[Hnot He]]]; [done|by apply Hn in Ht|].
    split; [by rewrite He|]. intros Hc.
    destruct (group_tick_cases fuel segment_size group_size w') as [[Hr _]|[[Hn _]|[_ He']]]; [|by apply Hn in Hc|by rewrite He' in Hc].
    apply Hnot. unfold group_ready, next_block in *. rewrite Hstart, (Hseg Hwake) in Hr.
    assert (cv_grouped (current w') = cv_grouped (current w)) as Hg; [|by rewrite Hg in Hr].
    rewrite Hw'. apply (kept_by cv_grouped (fun u => forall n, u <> UpdateGrouped n)); [|done]. intros v [] Hu; try done. by destruct (Hu block).
Qed.

End loops.

(** ** Witnesses *)

Module CompactionLoopWitness.
Import External.Reference ReferenceArchives ReliableCloud ReferenceCodec.

Definition os_loop : ObjectStore := object_store_new (str "bucket") None.
Definition kv_loop : KvClient := mkKvClient (str "dna/").

(** Blocks 10 to 14. *)
Definition chain_of_five : CanonicalChainSegment :=
  mkSegment None (mkSegmentInfo (mkCursor 10 [x0a]) (mkCursor 14 [x0e]))
    ((fun h => mkCanonicalBlock [h] ∅) <$> [x0a; x0b; x0c; x0d; x0e]) [].

Definition small_view (finalized segment_size : Z) : ChainViewInner (gmap Z CanonicalChainSegment) :=
  chain_view_new finalized None None segment_size 2 (mkFullChain ∅ 10 100 chain_of_five).

(** The view at a world: after the first write the finalized block has moved. *)
Definition moving (finalized finalized' segment_size : Z) (w : World) : ChainViewInner (gmap Z CanonicalChainSegment) :=
  if v_revision (world_view w) =? 0 then small_view finalized segment_size
  else apply_update (small_view finalized segment_size) (UpdateFinalized finalized').

Definition later : World := write [TxnPut (str "finalized") []] world_empty.

Lemma compaction_waits_rightly_witness :
  (segment_tick (ChainViewOps0 := current_ops (moving 20 30 10)) os_loop kv_loop 1 10 later).1 <> Ok SegmentCompacted.
Proof.
  refine (proj2 (proj1 (compaction_waits_rightly os_loop kv_loop (moving 20 30 10) 1 10 2 world_empty later [UpdateFinalized 30] _) HeadChanged _ _ _ _)).
  - vm_compute. reflexivity.
  - vm_compute. reflexivity.
  - repeat constructor. discriminate.
  - vm_compute. reflexivity.
  - discriminate.
Defined.

End CompactionLoopWitness.
