(* ===== verification/ObjectClients.v ===== *)
(** * The clients of the storage services (common/src/object_store)

    [ObjectStoreClient] is one of three clients, for S3, Azure and Google Cloud
    Storage.  Each turns the options of a request into the conditions of its
    service, collects the parts of the answer, and maps the failures.  The
    services themselves are interfaces: requests on the objects that they store,
    with the documented meaning of their conditions. *)

From S2P Require Import Prelude External Text Cloud.

(** ** The services *)

(** A failed request: with the status of the response, or without one. *)
Inductive ServiceError := ServiceStatus (code : Z) | ServiceOther.

(** The conditions on entity tags. *)
Inductive EtagCondition := NoCondition | IfMatch (tag : list byte) | IfNoneMatchAny.

Definition condition_holds (condition : EtagCondition) (old : option (ObjectVersion * list byte)) : Prop :=
  match condition with
  | NoCondition => True
  | IfMatch tag => exists body, old = Some (tag, body)
  | IfNoneMatchAny => old = None
  end.

(** The condition on a generation: zero means that there is no object. *)
Definition generation_holds (condition : option Z) (old : option (Z * list byte)) : Prop :=
  match condition with
  | None => True
  | Some 0 => old = None
  | Some generation => exists body, old = Some (generation, body)
  end.

(** Objects of a service, by bucket and key, with a version [T]. *)
Abbreviation Stored T := (gmap (list byte * list byte) (T * list byte)).

(** A write, a deletion, and a failure, after which it may have happened. *)
Definition stored_written {T} (allowed : Prop) (at_ : list byte * list byte) (version : T) (body : list byte)
    (m m' : Stored T) : Prop := allowed /\ m' = <[at_ := (version, body)]> m.

(** Requests on the buckets: whether there is one, and its creation. *)
Definition bucket_head {A} (bucket : list byte) (r : outcome ServiceError A) (buckets buckets' : gset (list byte)) : Prop :=
  buckets' = buckets /\
  match r with
  | Ok _ => bucket ∈ buckets
  | Err e => e = ServiceStatus 404 -> bucket ∉ buckets
  | Panic => False
  end.

Definition bucket_created (bucket : list byte) (r : outcome ServiceError unit) (buckets buckets' : gset (list byte)) : Prop :=
  r <> Panic /\ (buckets' = {[ bucket ]} ∪ buckets \/ (buckets' = buckets /\ exists e, r = Err e)).

Class S3Service (W : Type) := {
  s3_objects : W -> Stored (list byte);
  s3_buckets : W -> gset (list byte);
  s3_head_bucket : list byte -> prog W ServiceError unit;
  s3_create : list byte -> prog W ServiceError unit;
  s3_head_bucket_spec : forall bucket w r w', s3_head_bucket bucket w = (r, w') ->
    s3_objects w' = s3_objects w /\ bucket_head bucket r (s3_buckets w) (s3_buckets w');
  s3_create_spec : forall bucket w r w', s3_create bucket w = (r, w') ->
    s3_objects w' = s3_objects w /\ bucket_created bucket r (s3_buckets w) (s3_buckets w');
  (** the tag, if there is one, and the body, if it could be read *)
  s3_get : list byte -> list byte -> EtagCondition -> prog W ServiceError (option (list byte) * option (list byte));
  s3_put : list byte -> list byte -> list byte -> EtagCondition -> prog W ServiceError (option (list byte));
  (** the first page of the keys *)
  s3_list : list byte -> list byte -> prog W ServiceError (list (option (list byte)));
  s3_delete : list byte -> list byte -> prog W ServiceError unit;
  s3_get_spec : forall bucket key condition w r w', s3_get bucket key condition w = (r, w') ->
    s3_objects w' = s3_objects w /\
    match r with
    | Ok (tag, body) => exists o, s3_objects w !! (bucket, key) = Some o /\ condition_holds condition (Some o) /\
        (forall t, tag = Some t -> t = o.1) /\ (forall b, body = Some b -> b = o.2)
    | Err e => e = ServiceStatus 404 -> s3_objects w !! (bucket, key) = None
    | Panic => False
    end;
  s3_put_spec : forall bucket key body condition w r w', s3_put bucket key body condition w = (r, w') ->
    match r with
    | Ok tag => exists t, t <> [] /\ (forall t', tag = Some t' -> t' = t) /\
        stored_written (condition_holds condition (s3_objects w !! (bucket, key))) (bucket, key) t body (s3_objects w) (s3_objects w')
    | Err _ => s3_objects w' = s3_objects w \/ exists t, t <> [] /\
        stored_written (condition_holds condition (s3_objects w !! (bucket, key))) (bucket, key) t body (s3_objects w) (s3_objects w')
    | Panic => False
    end;
  s3_list_spec : forall bucket prefix w r w', s3_list bucket prefix w = (r, w') ->
    s3_objects w' = s3_objects w /\
    match r with
    | Ok keys => forall key, Some key ∈ keys -> is_Some (s3_objects w !! (bucket, key)) /\ prefix `prefix_of` key
    | Err _ => True
    | Panic => False
    end;
  s3_delete_spec : forall bucket key w r w', s3_delete bucket key w = (r, w') ->
    r <> Panic /\ (s3_objects w' = delete (bucket, key) (s3_objects w) \/
      (s3_objects w' = s3_objects w /\ exists e, r = Err e)) }.

(** A page of an Azure download: its tag and its data, each part of which may
    fail. *)
Abbreviation AzurePage := (list byte * list (outcome ServiceError (list byte)))%type.

(** The parts of a download that was read to the end. *)
Definition page_data (page : AzurePage) : option (list byte) :=
  foldr (fun part rest => match part, rest with Ok data, Some rest => Some (data ++ rest) | _, _ => None end) (Some []) page.2.

Class AzureService (W : Type) := {
  az_objects : W -> Stored (list byte);
  az_containers : W -> gset (list byte);
  az_get_properties : list byte -> prog W ServiceError unit;
  az_create : list byte -> prog W ServiceError unit;
  az_get_properties_spec : forall bucket w r w', az_get_properties bucket w = (r, w') ->
    az_objects w' = az_objects w /\ bucket_head bucket r (az_containers w) (az_containers w');
  az_create_spec : forall bucket w r w', az_create bucket w = (r, w') ->
    az_objects w' = az_objects w /\ bucket_created bucket r (az_containers w) (az_containers w');
  az_get : list byte -> list byte -> EtagCondition -> W -> list (outcome ServiceError AzurePage) * W;
  az_put : list byte -> list byte -> list byte -> EtagCondition -> prog W ServiceError (list byte);
  az_list : list byte -> list byte -> W -> list (outcome ServiceError (list (list byte))) * W;
  az_delete : list byte -> list byte -> prog W ServiceError unit;
  az_get_spec : forall bucket key condition w pages w', az_get bucket key condition w = (pages, w') ->
    az_objects w' = az_objects w /\ Panic ∉ pages /\
    (forall page, Ok page ∈ pages -> Panic ∉ page.2) /\
    (forall ps datas, pages = Ok <$> ps -> ps <> [] -> page_data <$> ps = Some <$> datas ->
       exists o, az_objects w !! (bucket, key) = Some o /\ condition_holds condition (Some o) /\
         Forall (fun page : AzurePage => page.1 = o.1) ps /\ concat datas = o.2) /\
    (Err (ServiceStatus 404) ∈ pages \/ (exists page, Ok page ∈ pages /\ Err (ServiceStatus 404) ∈ page.2) ->
       az_objects w !! (bucket, key) = None);
  az_put_spec : forall bucket key body condition w r w', az_put bucket key body condition w = (r, w') ->
    match r with
    | Ok tag => tag <> [] /\
        stored_written (condition_holds condition (az_objects w !! (bucket, key))) (bucket, key) tag body (az_objects w) (az_objects w')
    | Err _ => az_objects w' = az_objects w \/ exists t, t <> [] /\
        stored_written (condition_holds condition (az_objects w !! (bucket, key))) (bucket, key) t body (az_objects w) (az_objects w')
    | Panic => False
    end;
  az_list_spec : forall bucket prefix w pages w', az_list bucket prefix w = (pages, w') ->
    az_objects w' = az_objects w /\ Panic ∉ pages /\
    forall keys key, Ok keys ∈ pages -> key ∈ keys -> is_Some (az_objects w !! (bucket, key)) /\ prefix `prefix_of` key;
  az_delete_spec : forall bucket key w r w', az_delete bucket key w = (r, w') ->
    r <> Panic /\ (az_objects w' = delete (bucket, key) (az_objects w) \/
      (az_objects w' = az_objects w /\ exists e, r = Err e)) }.

(** The name of a bucket in the requests of Google Cloud Storage. *)
Definition bucket_path (name : list byte) : list byte := str "projects/_/buckets/" ++ name.

(** Google Cloud Storage numbers the generations of an object.  Buckets are
    created in a project, and addressed by their path. *)
Class GcsService (W : Type) := {
  gcs_objects : W -> Stored Z;
  gcs_buckets : W -> gset (list byte);
  gcs_get_bucket : list byte -> prog W ServiceError unit;
  gcs_create : list byte -> list byte -> prog W ServiceError unit;
  gcs_get_bucket_spec : forall path w r w', gcs_get_bucket path w = (r, w') ->
    gcs_objects w' = gcs_objects w /\ bucket_head path r (gcs_buckets w) (gcs_buckets w');
  gcs_create_spec : forall parent bucket w r w', gcs_create parent bucket w = (r, w') ->
    gcs_objects w' = gcs_objects w /\ bucket_created (bucket_path bucket) r (gcs_buckets w) (gcs_buckets w');
  gcs_read : list byte -> list byte -> option Z -> prog W ServiceError (Z * list (outcome ServiceError (list byte)));
  gcs_write : list byte -> list byte -> list byte -> option Z -> prog W ServiceError Z;
  gcs_list : list byte -> list byte -> W -> list (outcome ServiceError (list byte)) * W;
  gcs_delete : list byte -> list byte -> prog W ServiceError unit;
  gcs_read_spec : forall bucket key condition w r w', gcs_read bucket key condition w = (r, w') ->
    gcs_objects w' = gcs_objects w /\
    match r with
    | Ok (generation, parts) => Panic ∉ parts /\ exists o, gcs_objects w !! (bucket, key) = Some o /\
        generation_holds condition (Some o) /\ generation = o.1 /\
        (forall data, page_data ([], parts) = Some data -> data = o.2) /\ Err (ServiceStatus 404) ∉ parts
    | Err e => e = ServiceStatus 404 -> gcs_objects w !! (bucket, key) = None
    | Panic => False
    end;
  gcs_write_spec : forall bucket key body condition w r w', gcs_write bucket key body condition w = (r, w') ->
    match r with
    | Ok generation => 0 < generation < 2 ^ 63 /\
        stored_written (generation_holds condition (gcs_objects w !! (bucket, key))) (bucket, key) generation body
          (gcs_objects w) (gcs_objects w')
    | Err _ => gcs_objects w' = gcs_objects w \/ exists generation, 0 < generation < 2 ^ 63 /\
        stored_written (generation_holds condition (gcs_objects w !! (bucket, key))) (bucket, key) generation body
          (gcs_objects w) (gcs_objects w')
    | Panic => False
    end;
  gcs_list_spec : forall bucket prefix w items w', gcs_list bucket prefix w = (items, w') ->
    gcs_objects w' = gcs_objects w /\ Panic ∉ items /\
    forall key, Ok key ∈ items -> is_Some (gcs_objects w !! (bucket, key)) /\ prefix `prefix_of` key;
  gcs_delete_spec : forall bucket key w r w', gcs_delete bucket key w = (r, w') ->
    r <> Panic /\ (gcs_objects w' = delete (bucket, key) (gcs_objects w) \/
      (gcs_objects w' = gcs_objects w /\ exists e, r = Err e)) }.

(** ** Errors *)

(** [change_to_object_store_context] of the three clients. *)
Definition s3_error (e : ServiceError) : ObjectStoreError :=
  match e with
  | ServiceStatus code =>
      if code =? 412 then Precondition else if code =? 304 then NotModified else if code =? 404 then NotFound else Request
  | ServiceOther => Request
  end.

Definition azure_error (e : ServiceError) : ObjectStoreError :=
  match e with
  | ServiceStatus code =>
      if (code =? 409) || (code =? 412) then Precondition
      else if code =? 304 then NotModified else if code =? 404 then NotFound else Request
  | ServiceOther => Request
  end.

Definition gcs_error (e : ServiceError) : ObjectStoreError :=
  match e with
  | ServiceStatus code =>
      if (code =? 412) || (code =? 409) then Precondition
      else if code =? 304 then NotModified else if code =? 404 then NotFound else Request
  | ServiceOther => Request
  end.

Definition outcome_err {E E' A} (f : E -> E') (r : outcome E A) : outcome E' A :=
  match r with Ok a => Ok a | Err e => Err (f e) | Panic => Panic end.

(** A request of a client. *)
Definition request {W A} (f : ServiceError -> ObjectStoreError) (m : prog W ServiceError A) : prog W ObjectStoreError A :=
  fun w => let '(r, w') := m w in (outcome_err f r, w').

(** [has_bucket]: a bucket that is not found is no error. *)
Definition found {W A} (m : prog W ObjectStoreError A) : prog W ObjectStoreError bool := fun w =>
  match m w with
  | (Ok _, w') => (Ok true, w')
  | (Err NotFound, w') => (Ok false, w')
  | (Err e, w') => (Err e, w')
  | (Panic, w') => (Panic, w')
  end.

(** ** The S3 client (aws_s3.rs) *)

Section s3.
Context {W : Type} `{!S3Service W}.

Definition s3_has_bucket (name : list byte) : prog W ObjectStoreError bool := found (request s3_error (s3_head_bucket name)).

Definition s3_create_bucket (name : list byte) : prog W ObjectStoreError unit := request s3_error (s3_create name).

Definition s3_get_object (bucket key : list byte) (version : option ObjectVersion) :
    prog W ObjectStoreError (ObjectVersion * list byte) :=
  response ← request s3_error (s3_get bucket key (match version with Some version => IfMatch version | None => NoCondition end));
  version ← lift (ok_or Metadata response.1);
  body ← lift (ok_or Request response.2);
  mret (version, body).

Definition s3_put_object (bucket key body : list byte) (mode : PutMode) : prog W ObjectStoreError ObjectVersion :=
  tag ← request s3_error (s3_put bucket key body
    (match mode with Overwrite => NoCondition | Create => IfNoneMatchAny | Update version => IfMatch version end));
  lift (ok_or Metadata tag).

(** The loop over the keys of the page. *)
Fixpoint object_ids (keys : list (option (list byte))) : outcome ObjectStoreError (list (list byte)) :=
  match keys with
  | [] => Ok []
  | key :: keys => key ← ok_or Metadata key; rest ← object_ids keys; Ok (key :: rest)
  end.

Definition s3_list_objects (bucket prefix : list byte) : prog W ObjectStoreError (list (list byte)) :=
  keys ← request s3_error (s3_list bucket prefix);
  lift (object_ids keys).

Definition s3_delete_object (bucket key : list byte) : prog W ObjectStoreError unit :=
  request s3_error (s3_delete bucket key).
End s3.

(** ** The Azure client (azure_blob.rs) *)

Section azure.
Context {W : Type} `{!AzureService W}.

Definition azure_has_bucket (name : list byte) : prog W ObjectStoreError bool := found (request azure_error (az_get_properties name)).

Definition azure_create_bucket (name : list byte) : prog W ObjectStoreError unit := request azure_error (az_create name).

(** The inner loop: the data of a page is appended to the output. *)
Fixpoint collect_parts (f : ServiceError -> ObjectStoreError) (output : list byte) (parts : list (outcome ServiceError (list byte))) :
    outcome ObjectStoreError (list byte) :=
  match parts with
  | [] => Ok output
  | part :: parts => data ← outcome_err f part; collect_parts f (output ++ data) parts
  end.

(** The outer loop: the version is the tag of the first page. *)
Fixpoint collect_pages (version : option ObjectVersion) (output : list byte) (pages : list (outcome ServiceError AzurePage)) :
    outcome ObjectStoreError (option ObjectVersion * list byte) :=
  match pages with
  | [] => Ok (version, output)
  | page :: pages =>
      page ← outcome_err azure_error page;
      output ← collect_parts azure_error output page.2;
      collect_pages (match version with Some version => Some version | None => Some page.1 end) output pages
  end.

Definition azure_get_object (bucket key : list byte) (version : option ObjectVersion) :
    prog W ObjectStoreError (ObjectVersion * list byte) := fun w =>
  let '(pages, w') := az_get bucket key (match version with Some version => IfMatch version | None => NoCondition end) w in
  (collected ← collect_pages None [] pages;
   version ← ok_or Metadata collected.1;
   Ok (version, collected.2), w').

Definition azure_put_object (bucket key body : list byte) (mode : PutMode) : prog W ObjectStoreError ObjectVersion :=
  request azure_error (az_put bucket key body
    (match mode with Overwrite => NoCondition | Create => IfNoneMatchAny | Update version => IfMatch version end)).

Fixpoint collect_blobs (pages : list (outcome ServiceError (list (list byte)))) : outcome ObjectStoreError (list (list byte)) :=
  match pages with
  | [] => Ok []
  | page :: pages => blobs ← outcome_err azure_error page; rest ← collect_blobs pages; Ok (blobs ++ rest)
  end.

Definition azure_list_objects (bucket prefix : list byte) : prog W ObjectStoreError (list (list byte)) := fun w =>
  let '(pages, w') := az_list bucket prefix w in (collect_blobs pages, w').

Definition azure_delete_object (bucket key : list byte) : prog W ObjectStoreError unit :=
  request azure_error (az_delete bucket key).
End azure.

(** ** The client of Google Cloud Storage (gcs.rs) *)

(** [str::parse::<i64>]. *)
Definition parse_i64 (s : RString) : option Z :=
  match s with
  | b :: digits =>
      if bool_decide (b = x2d) then
        match digits with
        | [] => None
        | _ :: _ => if forallb is_digit digits && (dec_value digits <=? 2 ^ 63) then Some (- dec_value digits) else None
        end
      else n ← parse_u64 s; if n <? 2 ^ 63 then Some n else None
  | [] => None
  end.

Definition parse_generation (version : ObjectVersion) : outcome ObjectStoreError Z := ok_or Metadata (parse_i64 version).

Section gcs.
Context {W : Type} `{!GcsService W}.

Definition gcs_has_bucket (name : list byte) : prog W ObjectStoreError bool :=
  found (request gcs_error (gcs_get_bucket (bucket_path name))).

Definition gcs_create_bucket (project_id : option RString) (name : list byte) : prog W ObjectStoreError unit :=
  project_id ← lift (ok_or Configuration project_id);
  request gcs_error (gcs_create (str "projects/" ++ project_id) name).

(** The generation of a condition, if there is a version. *)
Definition generation_condition (version : option ObjectVersion) : outcome ObjectStoreError (option Z) :=
  match version with
  | None => Ok None
  | Some version => generation ← parse_generation version; Ok (Some generation)
  end.

Definition gcs_get_object (bucket key : list byte) (version : option ObjectVersion) :
    prog W ObjectStoreError (ObjectVersion * list byte) :=
  condition ← lift (generation_condition version);
  response ← request gcs_error (gcs_read (bucket_path bucket) key condition);
  output ← lift (collect_parts gcs_error [] response.2);
  mret (dec response.1, output).

Definition gcs_put_object (bucket key body : list byte) (mode : PutMode) : prog W ObjectStoreError ObjectVersion :=
  condition ← lift (match mode with
    | Overwrite => Ok None
    | Create => Ok (Some 0)
    | Update version => generation_condition (Some version)
    end);
  generation ← request gcs_error (gcs_write (bucket_path bucket) key body condition);
  mret (dec generation).

Definition gcs_list_objects (bucket prefix : list byte) : prog W ObjectStoreError (list (list byte)) := fun w =>
  let '(items, w') := gcs_list (bucket_path bucket) prefix w in
  (omapM (outcome_err gcs_error) items, w').

Definition gcs_delete_object (bucket key : list byte) : prog W ObjectStoreError unit :=
  request gcs_error (gcs_delete (bucket_path bucket) key).
End gcs.

(** ** ObjectStoreClient (client.rs) *)

Inductive ObjectStoreClient := AwsS3 | AzureBlob | Gcs (project_id : option RString).

Section client.
Context {W : Type} `{!S3Service W, !AzureService W, !GcsService W}.
Implicit Type self : ObjectStoreClient.

Definition client_has_bucket self :=
  match self with AwsS3 => s3_has_bucket | AzureBlob => azure_has_bucket | Gcs _ => gcs_has_bucket end.

Definition client_create_bucket self :=
  match self with AwsS3 => s3_create_bucket | AzureBlob => azure_create_bucket | Gcs project_id => gcs_create_bucket project_id end.

Definition client_get_object self :=
  match self with AwsS3 => s3_get_object | AzureBlob => azure_get_object | Gcs _ => gcs_get_object end.

Definition client_put_object self :=
  match self with AwsS3 => s3_put_object | AzureBlob => azure_put_object | Gcs _ => gcs_put_object end.

Definition client_list_objects self :=
  match self with AwsS3 => s3_list_objects | AzureBlob => azure_list_objects | Gcs _ => gcs_list_objects end.

Definition client_delete_object self :=
  match self with AwsS3 => s3_delete_object | AzureBlob => azure_delete_object | Gcs _ => gcs_delete_object end.

(** [ObjectStore::ensure_bucket] (object_store/mod.rs). *)
Definition ensure_bucket self (bucket : RString) : prog W ObjectStoreError unit :=
  exists_ ← client_has_bucket self bucket;
  if exists_ : bool then mret tt else client_create_bucket self bucket.
End client.
