(* ===== verification/ObjectClientsSpec.v ===== *)
(** * Correctness of the clients of the storage services

    Whichever of the three clients the object store uses, its requests keep
    the laws that the interface [Cloud] states for the object store.  The
    objects of Google Cloud Storage are those whose version is the generation,
    printed in decimal. *)

From S2P Require Import Prelude External Text Cloud ObjectClients.

(** ** Lemmas *)

(** A version that the client has issued. *)
Definition issued (self : ObjectStoreClient) (version : ObjectVersion) : Prop :=
  match self with
  | Gcs _ => exists generation, 0 < generation < 2 ^ 63 /\ version = dec generation
  | _ => True
  end.

Definition mode_issued (self : ObjectStoreClient) (mode : PutMode) : Prop :=
  match mode with Update version => issued self version | _ => True end.

Lemma parse_i64_dec n : 0 <= n < 2 ^ 63 -> parse_i64 (dec n) = Some n.
Proof.
  intros Hn. assert (Hu : is_u64 n) by (unfold is_u64, U64; lia).
  pose proof (parse_dec n Hu) as Hp. pose proof (dec_is_digits n Hu) as Hd. unfold parse_i64.
  destruct (dec n) as [|b digits] eqn:Hdec; [by apply dec_nonempty in Hdec|].
  rewrite bool_decide_eq_false_2; [|by intros ->].
  rewrite Hp. simpl. by destruct (Z.ltb_spec n (2 ^ 63)); [|lia].
Qed.

Lemma bucket_path_inj a b : bucket_path a = bucket_path b -> a = b.
Proof. apply app_inv_head. Qed.

Lemma request_eq {W A} f (m : prog W ServiceError A) w r w' :
  request f m w = (r, w') -> exists r0, m w = (r0, w') /\ r = outcome_err f r0.
Proof. unfold request. destruct (m w) as [r0 w0]. intros [= <- <-]. eauto. Qed.

Lemma s3_not_found e : s3_error e = NotFound -> e = ServiceStatus 404.
Proof. destruct e as [code|]; simpl; [|done]. intros He. repeat case_match; try discriminate. f_equal. lia. Qed.

Lemma azure_not_found e : azure_error e = NotFound -> e = ServiceStatus 404.
Proof. destruct e as [code|]; simpl; [|done]. intros He. repeat case_match; try discriminate. f_equal. lia. Qed.

Lemma gcs_not_found e : gcs_error e = NotFound -> e = ServiceStatus 404.
Proof. destruct e as [code|]; simpl; [|done]. intros He. repeat case_match; try discriminate. f_equal. lia. Qed.

(** The loops that collect an answer. *)
Lemma collect_parts_spec f output parts : Panic ∉ parts ->
  match collect_parts f output parts with
  | Ok data => exists rest, page_data ([], parts) = Some rest /\ data = output ++ rest
  | Err e => exists e0, Err e0 ∈ parts /\ e = f e0
  | Panic => False
  end.
Proof.
  revert output. induction parts as [|part parts IH]; intros output Hp; simpl.
  { exists []. by rewrite app_nil_r. }
  apply not_elem_of_cons in Hp as [Hpart Hp]. destruct part as [data|e|]; simpl; [|by exists e; split; [left|]|done].
  specialize (IH (output ++ data) Hp). destruct (collect_parts f _ parts) as [d|e|]; [| |done].
  - destruct IH as (rest & Hrest & ->). exists (data ++ rest). unfold page_data in *. simpl in *. rewrite Hrest, app_assoc. done.
  - destruct IH as (e0 & He & ->). exists e0. split; [by right|done].
Qed.

Lemma page_data_parts (page : AzurePage) : page_data ([], page.2) = page_data page.
Proof. done. Qed.

Lemma collect_pages_spec version output pages : Panic ∉ pages -> (forall page, Ok page ∈ pages -> Panic ∉ page.2) ->
  match collect_pages version output pages with
  | Ok (version', data) => exists ps datas, pages = Ok <$> ps /\ page_data <$> ps = Some <$> datas /\
      data = output ++ concat datas /\
      version' = match version with Some version => Some version | None => fst <$> head ps end
  | Err e => exists e0, e = azure_error e0 /\ (Err e0 ∈ pages \/ exists page, Ok page ∈ pages /\ Err e0 ∈ page.2)
  | Panic => False
  end.
Proof.
  revert version output. induction pages as [|page pages IH]; intros version output Hp Hpp; simpl.
  { exists [], []. rewrite app_nil_r. by destruct version. }
  apply not_elem_of_cons in Hp as [Hpage Hp]. destruct page as [page|e|]; simpl; [|by exists e; split; [|left; left]|done].
  pose proof (collect_parts_spec azure_error output page.2 (Hpp page ltac:(by left))) as Hparts.
  destruct (collect_parts _ _ _) as [output'|e|]; simpl; [| |done].
  2: { destruct Hparts as (e0 & He & ->). exists e0. split; [done|]. right. exists page. split; [by left|done]. }
  destruct Hparts as (data & Hdata & ->). rewrite page_data_parts in Hdata.
  specialize (IH (match version with Some version => Some version | None => Some page.1 end) (output ++ data) Hp
    (fun page' Hin => Hpp page' ltac:(by right))).
  destruct (collect_pages _ _ pages) as [[version' out]|e|]; [| |done].
  - destruct IH as (ps & datas & -> & Hds & -> & ->). exists (page :: ps), (data :: datas).
    split_and!; [done|by rewrite !fmap_cons, Hdata, Hds|by simpl; rewrite app_assoc|by destruct version].
  - destruct IH as (e0 & -> & [He|(page' & Hin & He)]); exists e0; (split; [done|]); [left; by right|].
    right. exists page'. split; [by right|done].
Qed.

(** ** The requests of each client *)

Section clients.
Context {W : Type} `{!S3Service W, !AzureService W, !GcsService W}.
Implicit Types (self : ObjectStoreClient) (w : W).

(** The object of a client at a bucket and key, as its requests show it. *)
Definition client_object self w (bucket key : list byte) : option (ObjectVersion * list byte) :=
  match self with
  | AwsS3 => s3_objects w !! (bucket, key)
  | AzureBlob => az_objects w !! (bucket, key)
  | Gcs _ => prod_map dec id <$> gcs_objects w !! (bucket_path bucket, key)
  end.

Definition client_bucket self w (bucket : list byte) : Prop :=
  match self with
  | AwsS3 => bucket ∈ s3_buckets w
  | AzureBlob => bucket ∈ az_containers w
  | Gcs _ => bucket_path bucket ∈ gcs_buckets w
  end.

Definition same_objects self w w' : Prop := forall bucket key, client_object self w' bucket key = client_object self w bucket key.

(** The object at one place is replaced; all others stay. *)
Definition object_replaced self (bucket key : list byte) (object : option (ObjectVersion * list byte)) w w' : Prop :=
  client_object self w' bucket key = object /\
  forall bucket' key', (bucket', key') <> (bucket, key) -> client_object self w' bucket' key' = client_object self w bucket' key'.

Lemma s3_objects_same w w' : s3_objects w' = s3_objects w -> same_objects AwsS3 w w'.
Proof. intros Heq bucket key. simpl. by rewrite Heq. Qed.

Lemma az_objects_same w w' : az_objects w' = az_objects w -> same_objects AzureBlob w w'.
Proof. intros Heq bucket key. simpl. by rewrite Heq. Qed.

Lemma gcs_objects_same p w w' : gcs_objects w' = gcs_objects w -> same_objects (Gcs p) w w'.
Proof. intros Heq bucket key. simpl. by rewrite Heq. Qed.

(** A change of the stored map at one place. *)
Lemma s3_replaced bucket key o w w' :
  s3_objects w' = partial_alter (fun _ => o) (bucket, key) (s3_objects w) -> object_replaced AwsS3 bucket key o w w'.
Proof.
  intros Heq. split; simpl; rewrite Heq; [by rewrite lookup_partial_alter_eq|].
  intros bucket' key' Hne. by rewrite lookup_partial_alter_ne.
Qed.

Lemma az_replaced bucket key o w w' :
  az_objects w' = partial_alter (fun _ => o) (bucket, key) (az_objects w) -> object_replaced AzureBlob bucket key o w w'.
Proof.
  intros Heq. split; simpl; rewrite Heq; [by rewrite lookup_partial_alter_eq|].
  intros bucket' key' Hne. by rewrite lookup_partial_alter_ne.
Qed.

Lemma gcs_replaced p bucket key o w w' :
  gcs_objects w' = partial_alter (fun _ => o) (bucket_path bucket, key) (gcs_objects w) ->
  object_replaced (Gcs p) bucket key (prod_map dec id <$> o) w w'.
Proof.
  intros Heq. split; simpl; rewrite Heq; [by rewrite lookup_partial_alter_eq|].
  intros bucket' key' Hne. rewrite lookup_partial_alter_ne; [done|].
  intros Heq'. apply Hne. rewrite (bucket_path_inj bucket' bucket (f_equal fst (eq_sym Heq'))). f_equal. apply (f_equal snd (eq_sym Heq')).
Qed.
(** The laws of the interface [Cloud], for the requests of a client. *)
Definition get_law self : Prop := forall bucket key version w r w',
  (forall v, version = Some v -> issued self v) ->
  client_get_object self bucket key version w = (r, w') ->
  same_objects self w w' /\ r <> Panic /\
  (forall o, r = Ok o -> client_object self w bucket key = Some o /\ (forall v, version = Some v -> o.1 = v)) /\
  (r = Err NotFound -> client_object self w bucket key = None).

Definition put_law self : Prop := forall bucket key body mode w r w',
  mode_issued self mode -> client_put_object self bucket key body mode w = (r, w') ->
  match r with
  | Ok version => put_allowed mode (client_object self w bucket key) /\ version <> [] /\
      object_replaced self bucket key (Some (version, body)) w w'
  | Err _ => same_objects self w w' \/
      (put_allowed mode (client_object self w bucket key) /\
       exists version, version <> [] /\ object_replaced self bucket key (Some (version, body)) w w')
  | Panic => False
  end.

Definition delete_law self : Prop := forall bucket key w r w', client_delete_object self bucket key w = (r, w') ->
  r <> Panic /\ (object_replaced self bucket key None w w' \/ (same_objects self w w' /\ exists e, r = Err e)).

Definition list_law self : Prop := forall bucket prefix w r w', client_list_objects self bucket prefix w = (r, w') ->
  same_objects self w w' /\ r <> Panic /\
  (forall keys key, r = Ok keys -> key ∈ keys -> is_Some (client_object self w bucket key) /\ prefix `prefix_of` key).

(** [ensure_bucket] touches no object, and keeps the buckets there are. *)
Definition ensure_law self : Prop := forall bucket w r w', ensure_bucket self bucket w = (r, w') ->
  same_objects self w w' /\ r <> Panic /\ (r = Ok tt -> client_bucket self w' bucket) /\
  (forall bucket', client_bucket self w bucket' -> client_bucket self w' bucket') /\
  (forall bucket', client_bucket self w' bucket' -> client_bucket self w bucket' \/ bucket' = bucket).

Lemma s3_get_law : get_law AwsS3.
Proof.
  intros bucket key version w r w' _. cbn [client_get_object]. unfold s3_get_object. rewrite bind_eq.
  destruct (request _ _ w) as [r0 w0] eqn:Hr. apply request_eq in Hr as (r1 & Hg & ->).
  apply s3_get_spec in Hg as [Hw Hr]. destruct r1 as [[tag body]|e|]; simpl; [| |done].
  - intros Hret. destruct Hr as (o & Ho & Hc & Ht & Hb).
    assert (Hcond : forall v, version = Some v -> o.1 = v).
    { intros v ->. destruct Hc as [body0 Hc]. by injection Hc as ->. }
    destruct tag as [tag|]; [destruct body as [body|]|]; injection Hret as <- <-;
      (split; [by apply s3_objects_same|]); (split; [done|]); (split; [|done]); [|done|done].
    intros ? [= <-]. rewrite (Ht _ eq_refl), (Hb _ eq_refl), <- surjective_pairing. auto.
  - intros [= <- <-]. split; [by apply s3_objects_same|]. split; [done|]. split; [done|].
    intros [= He]. apply Hr. by apply s3_not_found.
Qed.

Lemma s3_put_law : put_law AwsS3.
Proof.
  intros bucket key body mode w r w' _. cbn [client_put_object]. unfold s3_put_object. rewrite bind_eq.
  destruct (request _ _ w) as [r0 w0] eqn:Hr. apply request_eq in Hr as (r1 & Hg & ->).
  apply s3_put_spec in Hg. set (old := s3_objects w !! (bucket, key)) in *.
  assert (Hc : forall t, stored_written (condition_holds (match mode with Overwrite => NoCondition | Create => IfNoneMatchAny
      | Update version => IfMatch version end) old) (bucket, key) t body (s3_objects w) (s3_objects w0) ->
    put_allowed mode old /\ object_replaced AwsS3 bucket key (Some (t, body)) w w0).
  { intros t [Hc Hw]. split; [by destruct mode|]. by apply s3_replaced. }
  destruct r1 as [tag|e|]; simpl; [| |done].
  - intros Hret. destruct Hg as (t & Hne & Ht & Hw). apply Hc in Hw as [Ha Hw]. destruct tag as [tag|]; injection Hret as <- <-.
    + rewrite (Ht _ eq_refl). auto.
    + right. split; [done|]. eauto.
  - intros [= <- <-]. destruct Hg as [Hw|(t & Hne & Hw)]; [left; by apply s3_objects_same|].
    apply Hc in Hw as [Ha Hw]. right. split; [done|]. eauto.
Qed.

Lemma s3_delete_law : delete_law AwsS3.
Proof.
  intros bucket key w r w' Hr. apply request_eq in Hr as (r1 & Hg & ->). apply s3_delete_spec in Hg as [Hp Hw].
  split; [by destruct r1|]. destruct Hw as [Hw|[Hw [e ->]]]; [left; by apply s3_replaced|].
  right. split; [by apply s3_objects_same|]. by eexists.
Qed.

Lemma object_ids_keys keys ids : object_ids keys = Ok ids -> forall key, key ∈ ids -> Some key ∈ keys.
Proof.
  revert ids. induction keys as [|[k|] keys IH]; intros ids; simpl; [by intros [= <-] key ?%elem_of_nil| |done].
  destruct (object_ids keys) as [rest| |]; simpl; [|done|done]. intros [= <-] key [->|Hin]%elem_of_cons; [by left|].
  right. by apply (IH rest).
Qed.

Lemma object_ids_no_panic keys : object_ids keys <> Panic.
Proof. induction keys as [|[k|] keys IH]; simpl; [done| |done]. by destruct (object_ids keys). Qed.

Lemma s3_list_law : list_law AwsS3.
Proof.
  intros bucket prefix w r w'. cbn [client_list_objects]. unfold s3_list_objects. rewrite bind_eq.
  destruct (request _ _ w) as [r0 w0] eqn:Hr. apply request_eq in Hr as (r1 & Hg & ->).
  apply s3_list_spec in Hg as [Hw Hr]. destruct r1 as [keys|e|]; simpl; intros [= <- <-]; [| |done];
    (split; [by apply s3_objects_same|]); [|done].
  split; [apply object_ids_no_panic|]. intros ids key Hids Hin. apply Hr. by eapply object_ids_keys.
Qed.

Lemma azure_get_law : get_law AzureBlob.
Proof.
  intros bucket key version w r w' _. cbn [client_get_object]. unfold azure_get_object.
  destruct (az_get _ _ _ w) as [pages w0] eqn:Hg. apply az_get_spec in Hg as (Hw & Hp & Hpp & Hok & Hnf).
  pose proof (collect_pages_spec None [] pages Hp Hpp) as Hc. intros [= <- <-]. split; [by apply az_objects_same|].
  destruct (collect_pages None [] pages) as [[version' data]|e|]; simpl; [| |done].
  - destruct Hc as (ps & datas & -> & Hds & -> & ->). destruct ps as [|page ps]; simpl; [done|].
    split; [done|]. split; [|done]. intros o [= <-].
    destruct (Hok (page :: ps) datas eq_refl ltac:(done) Hds) as (o & Ho & Hcond & Hall & Hcat).
    apply Forall_cons in Hall as [Htag _]. rewrite Htag, Hcat, <- surjective_pairing. split; [done|].
    intros v ->. destruct Hcond as [body0 Hc]. by injection Hc as ->.
  - split; [done|]. split; [done|]. intros [= He]. destruct Hc as (e0 & -> & Hin). apply azure_not_found in He as ->. by apply Hnf.
Qed.

Lemma azure_put_law : put_law AzureBlob.
Proof.
  intros bucket key body mode w r w' _ Hr. apply request_eq in Hr as (r1 & Hg & ->).
  apply az_put_spec in Hg. set (old := az_objects w !! (bucket, key)) in *.
  assert (Hc : forall t, stored_written (condition_holds (match mode with Overwrite => NoCondition | Create => IfNoneMatchAny
      | Update version => IfMatch version end) old) (bucket, key) t body (az_objects w) (az_objects w') ->
    put_allowed mode old /\ object_replaced AzureBlob bucket key (Some (t, body)) w w').
  { intros t [Hc Hw]. split; [by destruct mode|]. by apply az_replaced. }
  destruct r1 as [tag|e|]; simpl; [| |done].
  - destruct Hg as (Hne & Hw). apply Hc in Hw as [Ha Hw]. auto.
  - destruct Hg as [Hw|(t & Hne & Hw)]; [left; by apply az_objects_same|].
    apply Hc in Hw as [Ha Hw]. right. split; [done|]. eauto.
Qed.

Lemma azure_delete_law : delete_law AzureBlob.
Proof.
  intros bucket key w r w' Hr. apply request_eq in Hr as (r1 & Hg & ->). apply az_delete_spec in Hg as [Hp Hw].
  split; [by destruct r1|]. destruct Hw as [Hw|[Hw [e ->]]]; [left; by apply az_replaced|].
  right. split; [by apply az_objects_same|]. by eexists.
Qed.

Lemma collect_blobs_spec pages : Panic ∉ pages -> collect_blobs pages <> Panic /\
  forall keys key, collect_blobs pages = Ok keys -> key ∈ keys -> exists page, Ok page ∈ pages /\ key ∈ page.
Proof.
  induction pages as [|page pages IH]; simpl; [intros _; split; [done|]; by intros keys key [= <-] ?%elem_of_nil|].
  intros [Hpage Hp]%not_elem_of_cons. destruct (IH Hp) as [Hnp Hin]. destruct page as [page|e|]; simpl; [|done|done].
  destruct (collect_blobs pages) as [rest| |]; simpl; [|done|done]. split; [done|].
  intros keys key [= <-] [Hk|Hk]%elem_of_app; [exists page; split; [by left|done]|].
  destruct (Hin rest key eq_refl Hk) as (page' & H1' & H2'). exists page'. split; [by right|done].
Qed.

Lemma azure_list_law : list_law AzureBlob.
Proof.
  intros bucket prefix w r w'. cbn [client_list_objects]. unfold azure_list_objects.
  destruct (az_list _ _ w) as [pages w0] eqn:Hg. apply az_list_spec in Hg as (Hw & Hp & Hin). intros [= <- <-].
  destruct (collect_blobs_spec pages Hp) as [Hnp Hk]. split; [by apply az_objects_same|]. split; [done|].
  intros keys key Hkeys Hkey. destruct (Hk keys key Hkeys Hkey) as (page & Hpage & Hinp). by eapply Hin.
Qed.

Lemma generation_condition_issued p v : issued (Gcs p) v ->
  exists g, 0 < g < 2 ^ 63 /\ v = dec g /\ generation_condition (Some v) = Ok (Some g).
Proof.
  intros (g & Hg & ->). exists g. split; [done|]. split; [done|].
  unfold generation_condition, parse_generation. by rewrite parse_i64_dec by lia.
Qed.

(** A positive generation that matches. *)
Lemma generation_holds_pos g old : 0 < g -> generation_holds (Some g) old -> exists body, old = Some (g, body).
Proof. by destruct g. Qed.

Lemma gcs_get_law p : get_law (Gcs p).
Proof.
  intros bucket key version w r w' Hiss. cbn [client_get_object]. unfold gcs_get_object. rewrite bind_eq.
  assert (Hcond : exists condition, generation_condition version = Ok condition /\
    forall o, generation_holds condition (Some o) -> forall v, version = Some v -> dec o.1 = v).
  { destruct version as [v|]; [|by exists None].
    destruct (generation_condition_issued p v (Hiss v eq_refl)) as (g & Hg & -> & Heq). exists (Some g). split; [done|].
    intros o [body Ho]%generation_holds_pos ? [= <-]; [|lia]. by injection Ho as ->. }
  destruct Hcond as (condition & -> & Hcond). simpl. rewrite bind_eq.
  destruct (request _ _ w) as [r0 w0] eqn:Hr. apply request_eq in Hr as (r1 & Hg & ->).
  apply gcs_read_spec in Hg as [Hw Hr]. destruct r1 as [[g parts]|e|]; simpl; [| |done].
  - destruct Hr as (Hp & o & Ho & Hc & -> & Hdata & Hnf). pose proof (collect_parts_spec gcs_error [] parts Hp) as Hparts.
    rewrite bind_eq. simpl. destruct (collect_parts _ _ parts) as [data|e|]; [| |done];
      intros [= <- <-]; (split; [by apply gcs_objects_same|]); (split; [done|]).
    + split; [|done]. intros ? [= <-]. destruct Hparts as (rest & Hrest & ->). rewrite Ho, (Hdata _ Hrest). split; [done|].
      intros v Hv. by apply Hcond.
    + split; [done|]. intros [= ->]. destruct Hparts as (e0 & Hin & He%eq_sym%gcs_not_found). by subst.
  - intros [= <- <-]. split; [by apply gcs_objects_same|]. split; [done|]. split; [done|].
    intros [= He]. rewrite Hr; [done|]. by apply gcs_not_found.
Qed.

Lemma gcs_written p bucket key body mode condition generation w w' :
  match mode with
  | Overwrite => condition = None
  | Create => condition = Some 0
  | Update version => exists g, 0 < g /\ version = dec g /\ condition = Some g
  end ->
  0 < generation < 2 ^ 63 ->
  stored_written (generation_holds condition (gcs_objects w !! (bucket_path bucket, key))) (bucket_path bucket, key) generation body
    (gcs_objects w) (gcs_objects w') ->
  put_allowed mode (client_object (Gcs p) w bucket key) /\ dec generation <> [] /\
  object_replaced (Gcs p) bucket key (Some (dec generation, body)) w w'.
Proof.
  intros Hm Hg [Hc Hw]. split_and!; [|apply dec_nonempty; unfold is_u64, U64; lia|by apply (gcs_replaced p _ _ (Some (generation, body)))].
  destruct mode as [| |version]; [done| |].
  - subst condition. simpl in *. by rewrite Hc.
  - destruct Hm as (g & Hg0 & -> & ->). apply generation_holds_pos in Hc as [old Hc]; [|done]. exists old. simpl. by rewrite Hc.
Qed.

Lemma gcs_put_law p : put_law (Gcs p).
Proof.
  intros bucket key body mode w r w' Hiss. cbn [client_put_object]. unfold gcs_put_object. rewrite bind_eq.
  assert (Hcond : exists condition, match mode with Overwrite => Ok None | Create => Ok (Some 0)
      | Update version => generation_condition (Some version) end = Ok condition /\
    match mode with
    | Overwrite => condition = None
    | Create => condition = Some 0
    | Update version => exists g, 0 < g /\ version = dec g /\ condition = Some g
    end).
  { destruct mode as [| |version]; [by eexists|by eexists|].
    destruct (generation_condition_issued p version Hiss) as (g & Hg & -> & Heq). exists (Some g). split; [done|].
    exists g. split; [lia|done]. }
  destruct Hcond as (condition & -> & Hcond). simpl. rewrite bind_eq.
  destruct (request _ _ w) as [r0 w0] eqn:Hr. apply request_eq in Hr as (r1 & Hg & ->). apply gcs_write_spec in Hg.
  destruct r1 as [g|e|]; simpl; intros [= <- <-]; [| |done].
  - destruct Hg as [Hg Hw]. by apply (gcs_written p bucket key body mode condition).
  - destruct Hg as [Hw|(g & Hg & Hw)]; [left; by apply gcs_objects_same|].
    destruct (gcs_written p bucket key body mode condition g w w0 Hcond Hg Hw) as (Ha & Hne & Hrep). right. split; [done|]. eauto.
Qed.

Lemma gcs_delete_law p : delete_law (Gcs p).
Proof.
  intros bucket key w r w' Hr. apply request_eq in Hr as (r1 & Hg & ->). apply gcs_delete_spec in Hg as [Hp Hw].
  split; [by destruct r1|]. destruct Hw as [Hw|[Hw [e ->]]]; [left; by apply (gcs_replaced p _ _ None)|].
  right. split; [by apply gcs_objects_same|]. by eexists.
Qed.

Lemma collect_items_spec f (items : list (outcome ServiceError (list byte))) : Panic ∉ items ->
  omapM (outcome_err (E' := ObjectStoreError) f) items <> Panic /\
  forall keys key, omapM (outcome_err f) items = Ok keys -> key ∈ keys -> Ok key ∈ items.
Proof.
  induction items as [|item items IH]; simpl; [intros _; split; [done|]; by intros keys key [= <-] ?%elem_of_nil|].
  intros [Hi Hp]%not_elem_of_cons. destruct (IH Hp) as [Hnp Hin]. destruct item as [item|e|]; simpl; [|done|done].
  destruct (omapM _ items) as [rest| |]; simpl; [|done|done]. split; [done|].
  intros keys key [= <-] [->|Hk]%elem_of_cons; [by left|]. right. by apply (Hin rest).
Qed.

Lemma gcs_list_law p : list_law (Gcs p).
Proof.
  intros bucket prefix w r w'. cbn [client_list_objects]. unfold gcs_list_objects.
  destruct (gcs_list _ _ w) as [items w0] eqn:Hg. apply gcs_list_spec in Hg as (Hw & Hp & Hin). intros [= <- <-].
  destruct (collect_items_spec gcs_error items Hp) as [Hnp Hk]. split; [by apply gcs_objects_same|]. split; [done|].
  intros keys key Hkeys Hkey. destruct (Hin key (Hk keys key Hkeys Hkey)) as [[o Ho] Hpre]. split; [|done].
  simpl. rewrite Ho. by eexists.
Qed.

(** ** Buckets *)

Lemma client_has_bucket_spec self bucket w r w' : client_has_bucket self bucket w = (r, w') ->
  same_objects self w w' /\ (forall b, client_bucket self w' b <-> client_bucket self w b) /\ r <> Panic /\
  (r = Ok true -> client_bucket self w bucket).
Proof.
  destruct self as [| |p]; cbn [client_has_bucket]; unfold s3_has_bucket, azure_has_bucket, gcs_has_bucket, found;
    destruct (request _ _ w) as [r0 w0] eqn:Hr; apply request_eq in Hr as (r1 & Hg & ->).
  - apply s3_head_bucket_spec in Hg as (Hw & Hb & Hr).
    destruct r1 as [[]|e|]; simpl; [| |done]; [|destruct (s3_error e)]; intros [= <- <-];
      (split; [by apply s3_objects_same|]); simpl; rewrite Hb; done.
  - apply az_get_properties_spec in Hg as (Hw & Hb & Hr).
    destruct r1 as [[]|e|]; simpl; [| |done]; [|destruct (azure_error e)]; intros [= <- <-];
      (split; [by apply az_objects_same|]); simpl; rewrite Hb; done.
  - apply gcs_get_bucket_spec in Hg as (Hw & Hb & Hr).
    destruct r1 as [[]|e|]; simpl; [| |done]; [|destruct (gcs_error e)]; intros [= <- <-];
      (split; [by apply gcs_objects_same|]); simpl; rewrite Hb; done.
Qed.

(** What a creation leaves of the buckets. *)
Lemma bucket_created_spec bucket r buckets buckets' : bucket_created bucket r buckets buckets' ->
  r <> Panic /\ (r = Ok tt -> bucket ∈ buckets') /\ buckets ⊆ buckets' /\ buckets' ⊆ {[ bucket ]} ∪ buckets.
Proof. intros [Hp [->|[-> [e ->]]]]; split_and!; try done; set_solver. Qed.

Lemma client_create_bucket_spec self bucket w r w' : client_create_bucket self bucket w = (r, w') ->
  same_objects self w w' /\ r <> Panic /\ (r = Ok tt -> client_bucket self w' bucket) /\
  (forall b, client_bucket self w b -> client_bucket self w' b) /\
  (forall b, client_bucket self w' b -> client_bucket self w b \/ b = bucket).
Proof.
  destruct self as [| |p]; cbn [client_create_bucket].
  - intros Hr. apply request_eq in Hr as (r1 & Hg & ->). apply s3_create_spec in Hg as [Hw Hc%bucket_created_spec].
    destruct Hc as (Hp & Hin & Hsub & Hsup). split; [by apply s3_objects_same|].
    split_and!; [by destruct r1|destruct r1 as [[]| |]; [intros _; by apply Hin|done|done]|set_solver|set_solver].
  - intros Hr. apply request_eq in Hr as (r1 & Hg & ->). apply az_create_spec in Hg as [Hw Hc%bucket_created_spec].
    destruct Hc as (Hp & Hin & Hsub & Hsup). split; [by apply az_objects_same|].
    split_and!; [by destruct r1|destruct r1 as [[]| |]; [intros _; by apply Hin|done|done]|set_solver|set_solver].
  - unfold gcs_create_bucket. rewrite bind_eq. destruct p as [project_id|]; simpl.
    2: { intros [= <- <-]. split_and!; by auto. }
    intros Hr. apply request_eq in Hr as (r1 & Hg & ->). apply gcs_create_spec in Hg as [Hw Hc%bucket_created_spec].
    destruct Hc as (Hp & Hin & Hsub & Hsup). split; [by apply gcs_objects_same|].
    split_and!; [by destruct r1|destruct r1 as [[]| |]; [intros _; by apply Hin|done|done]|set_solver|].
    intros b Hb. apply Hsup, elem_of_union in Hb as [Hb%elem_of_singleton|Hb]; [right; by apply bucket_path_inj|by left].
Qed.

Lemma ensure_bucket_law self : ensure_law self.
Proof.
  intros bucket w r w'. unfold ensure_bucket. rewrite bind_eq.
  destruct (client_has_bucket self bucket w) as [r0 w0] eqn:Hr. apply client_has_bucket_spec in Hr as (Hs & Hb & Hp & Ht).
  destruct r0 as [[|]|e|]; [| | |done].
  - intros [= <- <-]. split_and!; [done|done|intros _; by apply Hb, Ht|by intros b; apply Hb|by intros b ?%Hb; left].
  - intros Hc. apply client_create_bucket_spec in Hc as (Hs' & Hp' & Hin & Hmono & Hsup).
    split_and!; [|done|done|by intros b Hb0; apply Hmono, Hb|by intros b [?%Hb| ->]%Hsup; [left|right]].
    intros b k. by rewrite Hs', Hs.
  - intros [= <- <-]. split_and!; [done|done|done|by intros b; apply Hb|by intros b ?%Hb; left].
Qed.

(** (C24) Whichever service the object store uses, its client keeps the
    contract of the object store, from the documented meaning of the requests:
    a read returns the whole object with its version, and the version asked
    for; [NotFound] means that there is no object; a successful write found the
    object in the state that its mode asks for and replaced just that object; a
    failed one did nothing, or just that; a deletion removes just its object; a
    listing has only objects with the prefix; and [ensure_bucket] ends with the
    bucket there or an error, and adds nothing else.  Versions given to the
    client of Google Cloud Storage are those it printed. *)
Theorem object_client_faithful self :
  get_law self /\ put_law self /\ delete_law self /\ list_law self /\ ensure_law self.
Proof.
  split_and!; [destruct self; [apply s3_get_law|apply azure_get_law|apply gcs_get_law]
    |destruct self; [apply s3_put_law|apply azure_put_law|apply gcs_put_law]
    |destruct self; [apply s3_delete_law|apply azure_delete_law|apply gcs_delete_law]
    |destruct self; [apply s3_list_law|apply azure_list_law|apply gcs_list_law]|apply ensure_bucket_law].
Qed.

End clients.

(** ** Services in memory *)

Module ClientWitness.

(** The objects of the three services, which share their buckets. *)
Record World := mkWorld { wd_s3 : Stored (list byte); wd_az : Stored (list byte); wd_gcs : Stored Z; wd_buckets : gset (list byte) }.

#[export] Instance condition_holds_dec condition old : Decision (condition_holds condition old).
Proof.
  destruct condition as [|tag|]; simpl; [apply _| |apply _]. destruct old as [[tag' body]|]; [|right; by intros [? [=]]].
  destruct (decide (tag' = tag)) as [->|Hne]; [left; by eexists|right; intros [? [= ]]; done].
Defined.

#[export] Instance generation_holds_dec condition old : Decision (generation_holds condition old).
Proof.
  destruct condition as [generation|]; [|apply _].
  assert (Hsome : Decision (exists body, old = Some (generation, body))).
  { destruct old as [[g body]|]; [|right; by intros [? [=]]].
    destruct (decide (g = generation)) as [->|Hne]; [left; by eexists|right; intros [? [= ]]; done]. }
  destruct generation; simpl; [apply _|exact Hsome|exact Hsome].
Defined.

(** The answer to a read, and to a write. *)
Definition answer {T} (allowed : option (T * list byte) -> bool) (old : option (T * list byte)) : outcome ServiceError (T * list byte) :=
  match old with
  | None => Err (ServiceStatus 404)
  | Some o => if allowed (Some o) then Ok o else Err (ServiceStatus 412)
  end.

Definition stored_keys {T} (m : Stored T) (bucket prefix : list byte) : list (list byte) :=
  (fun p => p.1.2) <$> filter (fun p => p.1.1 = bucket /\ prefix `prefix_of` p.1.2) (map_to_list m).

Lemma stored_keys_spec {T} (m : Stored T) bucket prefix key :
  key ∈ stored_keys m bucket prefix -> is_Some (m !! (bucket, key)) /\ prefix `prefix_of` key.
Proof.
  intros ([[b k] o] & -> & [[Hb Hpre] Hin]%list_elem_of_filter)%list_elem_of_fmap. simpl in *. subst b.
  apply elem_of_map_to_list in Hin. split; [by eexists|done].
Qed.

Definition tag_of (body : list byte) : list byte := x41 :: body.
Definition generation_of (body : list byte) : Z := 1 + Z.of_nat (length body) mod 2 ^ 62.

Lemma generation_of_range body : 0 < generation_of body < 2 ^ 63.
Proof. unfold generation_of. pose proof (Z.mod_pos_bound (Z.of_nat (length body)) (2 ^ 62)). lia. Qed.

Definition set_s3 m w := mkWorld m (wd_az w) (wd_gcs w) (wd_buckets w).
Definition set_az m w := mkWorld (wd_s3 w) m (wd_gcs w) (wd_buckets w).
Definition set_gcs m w := mkWorld (wd_s3 w) (wd_az w) m (wd_buckets w).
Definition set_buckets b w := mkWorld (wd_s3 w) (wd_az w) (wd_gcs w) b.

Definition head_bucket (bucket : list byte) (w : World) : outcome ServiceError unit * World :=
  (if decide (bucket ∈ wd_buckets w) then Ok tt else Err (ServiceStatus 404), w).

Definition create (bucket : list byte) (w : World) : outcome ServiceError unit * World :=
  (Ok tt, set_buckets ({[ bucket ]} ∪ wd_buckets w) w).

Lemma head_bucket_spec bucket w r w' : head_bucket bucket w = (r, w') -> w' = w /\ bucket_head bucket r (wd_buckets w) (wd_buckets w').
Proof. unfold head_bucket. intros [= <- <-]. split; [done|]. split; [done|]. by case_decide. Qed.

Lemma create_spec bucket w r w' : create bucket w = (r, w') ->
  w' = set_buckets (wd_buckets w') w /\ bucket_created bucket r (wd_buckets w) (wd_buckets w').
Proof. intros [= <- <-]. split; [done|]. split; [done|]. by left. Qed.

Lemma answer_spec {T} allowed (old : option (T * list byte)) :
  match answer allowed old with
  | Ok o => old = Some o /\ allowed old = true
  | Err e => e = ServiceStatus 404 -> old = None
  | Panic => False
  end.
Proof. destruct old as [o|]; simpl; [|done]. by destruct (allowed (Some o)) eqn:?. Qed.

#[export] Program Instance world_s3 : S3Service World := {|
  s3_objects := wd_s3;
  s3_buckets := wd_buckets;
  s3_head_bucket := head_bucket;
  s3_create := create;
  s3_get bucket key condition w :=
    (o ← answer (fun o => bool_decide (condition_holds condition o)) (wd_s3 w !! (bucket, key)); Ok (Some o.1, Some o.2), w);
  s3_put bucket key body condition w :=
    if decide (condition_holds condition (wd_s3 w !! (bucket, key)))
    then (Ok (Some (tag_of body)), set_s3 (<[(bucket, key) := (tag_of body, body)]> (wd_s3 w)) w)
    else (Err (ServiceStatus 412), w);
  s3_list bucket prefix w := (Ok (Some <$> stored_keys (wd_s3 w) bucket prefix), w);
  s3_delete bucket key w := (Ok tt, set_s3 (delete (bucket, key) (wd_s3 w)) w) |}.
Next Obligation. intros bucket w r w' [-> Hb]%head_bucket_spec. done. Qed.
Next Obligation. intros bucket w r w' [-> Hb]%create_spec. done. Qed.
Next Obligation.
  intros bucket key condition w r w' [= <- <-]. split; [done|].
  pose proof (answer_spec (fun o => bool_decide (condition_holds condition o)) (wd_s3 w !! (bucket, key))) as Ha.
  destruct (answer _ _) as [o|e|]; simpl; [|done|done]. destruct Ha as [Ho Hc%bool_decide_eq_true].
  exists o. rewrite Ho in Hc. split_and!; [done|done|naive_solver|naive_solver].
Qed.
Next Obligation.
  intros bucket key body condition w r w'. cbn beta. case_decide as Hc; intros [= <- <-]; [|by left].
  exists (tag_of body). split_and!; [done|naive_solver|by split].
Qed.
Next Obligation.
  intros bucket prefix w r w' [= <- <-]. split; [done|]. intros key (k & [= ->] & Hin)%list_elem_of_fmap. by apply stored_keys_spec.
Qed.
Next Obligation. intros bucket key w r w' [= <- <-]. split; [done|]. by left. Qed.

#[export] Program Instance world_azure : AzureService World := {|
  az_objects := wd_az;
  az_containers := wd_buckets;
  az_get_properties := head_bucket;
  az_create := create;
  az_get bucket key condition w :=
    ([o ← answer (fun o => bool_decide (condition_holds condition o)) (wd_az w !! (bucket, key)); Ok (o.1, [Ok o.2])], w);
  az_put bucket key body condition w :=
    if decide (condition_holds condition (wd_az w !! (bucket, key)))
    then (Ok (tag_of body), set_az (<[(bucket, key) := (tag_of body, body)]> (wd_az w)) w)
    else (Err (ServiceStatus 412), w);
  az_list bucket prefix w := ([Ok (stored_keys (wd_az w) bucket prefix)], w);
  az_delete bucket key w := (Ok tt, set_az (delete (bucket, key) (wd_az w)) w) |}.
Next Obligation. intros bucket w r w' [-> Hb]%head_bucket_spec. done. Qed.
Next Obligation. intros bucket w r w' [-> Hb]%create_spec. done. Qed.
Next Obligation.
  intros bucket key condition w pages w' [= <- <-]. split; [done|].
  pose proof (answer_spec (fun o => bool_decide (condition_holds condition o)) (wd_az w !! (bucket, key))) as Ha.
  destruct (answer _ _) as [o|e|]; simpl; [| |done].
  - destruct Ha as [Ho Hc%bool_decide_eq_true]. split_and!.
    + by intros ?%list_elem_of_singleton.
    + intros page [= ->]%list_elem_of_singleton. by intros ?%list_elem_of_singleton.
    + intros ps datas Hps _ Hds. destruct ps as [|page [|]]; [done| |done]. injection Hps as <-.
      destruct datas as [|d [|]]; [done| |done]. injection Hds as <-. exists o. rewrite Ho in Hc. simpl. rewrite !app_nil_r.
      split_and!; [done|done|by constructor|done].
    + intros [Hin%list_elem_of_singleton|(page & [= ->]%list_elem_of_singleton & Hin%list_elem_of_singleton)]; done.
  - split_and!.
    + by intros ?%list_elem_of_singleton.
    + by intros page ?%list_elem_of_singleton.
    + intros ps datas Hps Hne. by destruct ps.
    + intros [[= <-]%list_elem_of_singleton|(page & Hin%list_elem_of_singleton & _)]; [by apply Ha|done].
Qed.
Next Obligation.
  intros bucket key body condition w r w'. cbn beta. case_decide as Hc; intros [= <- <-]; [|by left].
  split; [done|by split].
Qed.
Next Obligation.
  intros bucket prefix w pages w' [= <- <-]. split; [done|]. split; [by intros ?%list_elem_of_singleton|].
  intros keys key [= ->]%list_elem_of_singleton Hin. by apply stored_keys_spec.
Qed.
Next Obligation. intros bucket key w r w' [= <- <-]. split; [done|]. by left. Qed.

#[export] Program Instance world_gcs : GcsService World := {|
  gcs_objects := wd_gcs;
  gcs_buckets := wd_buckets;
  gcs_get_bucket := head_bucket;
  gcs_create _ bucket := create (bucket_path bucket);
  gcs_read bucket key condition w :=
    (o ← answer (fun o => bool_decide (generation_holds condition o)) (wd_gcs w !! (bucket, key)); Ok (o.1, [Ok o.2]), w);
  gcs_write bucket key body condition w :=
    if decide (generation_holds condition (wd_gcs w !! (bucket, key)))
    then (Ok (generation_of body), set_gcs (<[(bucket, key) := (generation_of body, body)]> (wd_gcs w)) w)
    else (Err (ServiceStatus 412), w);
  gcs_list bucket prefix w := (Ok <$> stored_keys (wd_gcs w) bucket prefix, w);
  gcs_delete bucket key w := (Ok tt, set_gcs (delete (bucket, key) (wd_gcs w)) w) |}.
Next Obligation. intros bucket w r w' [-> Hb]%head_bucket_spec. done. Qed.
Next Obligation. intros parent bucket w r w' [-> Hb]%create_spec. done. Qed.
Next Obligation.
  intros bucket key condition w r w' [= <- <-]. split; [done|].
  pose proof (answer_spec (fun o => bool_decide (generation_holds condition o)) (wd_gcs w !! (bucket, key))) as Ha.
  destruct (answer _ _) as [o|e|]; simpl; [|done|done]. destruct Ha as [Ho Hc%bool_decide_eq_true].
  split; [by intros ?%list_elem_of_singleton|]. exists o. rewrite Ho in Hc.
  split_and!; [done|done|done| |by intros ?%list_elem_of_singleton].
  intros data. unfold page_data. simpl. rewrite app_nil_r. by intros [= <-].
Qed.
Next Obligation.
  intros bucket key body condition w r w'. cbn beta. case_decide as Hc; intros [= <- <-]; [|by left].
  split; [apply generation_of_range|by split].
Qed.
Next Obligation.
  intros bucket prefix w items w' [= <- <-]. split; [done|]. split; [by intros (? & [=] & _)%list_elem_of_fmap|].
  intros key (k & [= ->] & Hin)%list_elem_of_fmap. by apply stored_keys_spec.
Qed.
Next Obligation. intros bucket key w r w' [= <- <-]. split; [done|]. by left. Qed.

(** An object is created, and replaced through the version that was returned. *)
Definition empty : World := mkWorld ∅ ∅ ∅ ∅.
Definition created := client_put_object (Gcs None) (str "bucket") (str "key") (str "one") Create empty.
Definition replaced := client_put_object (Gcs None) (str "bucket") (str "key") (str "second") (Update (str "4")) created.2.

Lemma object_client_faithful_witness :
  created.1 = Ok (str "4") /\ client_object (Gcs None) created.2 (str "bucket") (str "key") = Some (str "4", str "one") /\
  replaced.1 = Ok (str "7") /\ client_object (Gcs None) replaced.2 (str "bucket") (str "key") = Some (str "7", str "second").
Proof.
  destruct (object_client_faithful (W := World) (Gcs None)) as (_ & Hput & _).
  assert (E1 : created.1 = Ok (str "4")) by (vm_compute; reflexivity).
  assert (E2 : replaced.1 = Ok (str "7")) by (vm_compute; reflexivity).
  assert (I2 : mode_issued (Gcs None) (Update (str "4"))) by (exists 4; split; [lia|vm_compute; reflexivity]).
  pose proof (Hput (str "bucket") (str "key") (str "one") Create empty created.1 created.2 I (surjective_pairing created)) as H1.
  pose proof (Hput (str "bucket") (str "key") (str "second") (Update (str "4")) created.2 replaced.1 replaced.2 I2
    (surjective_pairing replaced)) as H2.
  rewrite E1 in H1. rewrite E2 in H2. destruct H1 as (_ & _ & H1 & _). destruct H2 as (_ & _ & H2 & _). repeat split; assumption.
Defined.
End ClientWitness.
