(* ===== verification/ChainSync.v ===== *)
(** * The sync service of the chain view (common/src/chain_view/sync.rs)

    The service waits for the ingestion to start, builds the chain view from the
    coordination state, publishes it, and then follows the changes that a watch
    on etcd delivers; when the watch fails it opens another one.  The watch, the
    receivers of the view, the cancellation and the passage of time are the
    interface [SyncOps]: other tasks run while the service sleeps or waits. *)

From S2P Require Import Prelude External Text Core Cloud StateClient ObjectStore Chain ChainView ChainStore.

(** ** The watch (etcd/src/watch.rs) *)

(** The events of a response, with the key and value if they have one. *)
Abbreviation WatchResponse := (list (option (list byte * list byte))).

Class SyncOps (W : Type) := {
  (** [ct.is_cancelled()] *)
  sync_cancelled : W -> bool;
  (** whether the watch channel has a receiver *)
  sync_receivers : W -> bool;
  (** [tokio::time::sleep] *)
  sync_sleep : Z -> W -> W;
  (** the watch of the client library on a prefix of keys, from now on *)
  etcd_watch : list byte -> prog W EtcdError unit;
  (** its next response; [None] when the stream ended *)
  watch_next : prog W EtcdError (option WatchResponse) }.

Record WatchClient := mkWatchClient { wc_prefix : RString }.

(** [WatchClient::format_key]. *)
Definition wc_format_key (self : WatchClient) (key : RString) : list byte := wc_prefix self ++ key.

Section watch.
Context {W : Type} `{!SyncOps W}.

Definition watch_prefix (self : WatchClient) (key : RString) : prog W EtcdClientError unit :=
  pcontext EtcdClientErr (etcd_watch (wc_format_key self key)).

(** The responses, until the token is cancelled. *)
Definition watch_stream_next : prog W EtcdClientError (option WatchResponse) :=
  w ← get_state;
  if sync_cancelled w then mret None
  else pcontext EtcdClientErr watch_next.

(** [IngestionStateClient::watch_changes], and the next batch of its stream. *)
Definition watch_changes (self : WatchClient) : prog W IngestionStateClientError unit :=
  pcontext IngestionStateClientErr (watch_prefix self INGESTION_PREFIX_KEY).

Definition watch_changes_next `{!SerdeJson RecentSegmentPointer} :
    prog W IngestionStateClientError (option (list (outcome IngestionStateClientError IngestionStateUpdate))) :=
  response ← pcontext IngestionStateClientErr watch_stream_next;
  mret (watch_response <$> response).
End watch.

(** ** ChainViewSyncService *)

(** How a wait ended; [WaitFuel] when the fuel ran out. *)
Inductive Wait (A : Type) := WaitFuel | WaitCancelled | WaitGot (a : A).
Arguments WaitFuel {A}.
Arguments WaitCancelled {A}.
Arguments WaitGot {A} _.

(** The world, the view that the service shares with the others, and how many
    times it was sent on the channel. *)
Record SyncState (W S : Type) := mkSync { sy_world : W; sy_view : ChainViewInner S; sy_sent : nat }.
Arguments mkSync {W S} _ _ _.
Arguments sy_world {W S} _.
Arguments sy_view {W S} _.
Arguments sy_sent {W S} _.

Section sync.
Context `{!Codec} {W : Type} `{Cloud W} `{!SyncOps W}.
Context `{!SerdeJson RecentSegmentPointer, !Archive CanonicalChainSegment}.
(** The handle of the chain store that the view reads its segments with. *)
Context {S : Type}.
Variables (state_client : KvClient) (watch_client : WatchClient) (chain_store : ChainStore) (store : S).

Definition sync_get_legacy_recent : prog W ChainViewError (option CanonicalChainSegment) :=
  ingested ← pcontext ChainViewErr (get_legacy_ingested state_client);
  match ingested with
  | None => mret None
  | Some _ => pcontext ChainViewErr (get_legacy_recent chain_store)
  end.

Definition sync_get_recent : prog W ChainViewError (option CanonicalChainSegment) :=
  pointer ← pcontext ChainViewErr (get_recent state_client);
  match pointer with
  | None => sync_get_legacy_recent
  | Some pointer => pcontext ChainViewErr (get_recent_snapshot chain_store pointer)
  end.

(** The loops of [start] that wait for the ingestion. *)
Fixpoint wait_for {A} (fuel : nat) (read : prog W ChainViewError (option A)) : prog W ChainViewError (Wait A) :=
  match fuel with
  | O => mret WaitFuel
  | Datatypes.S fuel =>
      w ← get_state;
      if sync_cancelled w then mret WaitCancelled
      else
        value ← read;
        match value with
        | Some value => mret (WaitGot value)
        | None => _ ← modify (sync_sleep 10); wait_for fuel read
        end
  end.

(** To go on after a wait. *)
Definition waited {A B} (m : prog W ChainViewError (Wait A)) (f : A -> prog W ChainViewError (Wait B)) :
    prog W ChainViewError (Wait B) :=
  r ← m;
  match r with
  | WaitFuel => mret WaitFuel
  | WaitCancelled => mret WaitCancelled
  | WaitGot a => f a
  end.

(** An option that must be set. *)
Definition required_option (m : prog W OptionsStoreError (option Z)) : prog W ChainViewError Z :=
  size ← pcontext ChainViewErr m;
  lift (ok_or ChainViewErr size).

(** [FullCanonicalChain::initialize]. *)
Definition full_initialize (starting_block chain_segment_size : Z) (recent : CanonicalChainSegment) :
    outcome ChainViewError (FullCanonicalChain S) :=
  Ok (mkFullChain store starting_block chain_segment_size recent).

(** [start] up to the publication of the view. *)
Definition sync_initialize (fuel : nat) : prog W ChainViewError (Wait (ChainViewInner S)) :=
  waited (wait_for fuel (pcontext ChainViewErr (get_starting_block state_client))) (fun starting_block =>
  waited (wait_for fuel (pcontext ChainViewErr (get_finalized state_client))) (fun finalized =>
    segmented ← pcontext ChainViewErr (get_segmented state_client);
    grouped ← pcontext ChainViewErr (get_grouped state_client);
    waited (wait_for fuel sync_get_recent) (fun recent =>
      w ← get_state;
      if sync_cancelled w then mret WaitCancelled
      else
        chain_segment_size ← required_option (get_chain_segment_size state_client);
        canonical_chain ← lift (full_initialize starting_block chain_segment_size recent);
        segment_size ← required_option (get_segment_size state_client);
        group_size ← required_option (get_group_size state_client);
        mret (WaitGot (chain_view_new finalized segmented grouped segment_size group_size canonical_chain))))).

(** ** Following the changes *)

Abbreviation sync := (prog (SyncState W S) ChainViewError).

Definition on_sync_world {E A} (m : prog W E A) : prog (SyncState W S) E A :=
  zoom sy_world (fun w s => mkSync w (sy_view s) (sy_sent s)) m.

Definition change_view (f : ChainViewInner S -> ChainViewInner S) : sync unit :=
  modify (fun s => mkSync (sy_world s) (f (sy_view s)) (sy_sent s)).

(** [self.tx.send(..)]: an error when nobody listens. *)
Definition send_view : sync unit :=
  s ← get_state;
  if sync_receivers (sy_world s) then modify (fun s => mkSync (sy_world s) (sy_view s) (Datatypes.S (sy_sent s)))
  else fail ChainViewErr.

(** The segment that a pointer leads to: its snapshot, or the snapshot of the
    current pointer when it was reclaimed. *)
Definition resolve_recent (pointer : RecentSegmentPointer) : prog W ChainViewError (option CanonicalChainSegment) :=
  recent ← pcontext ChainViewErr (get_recent_snapshot chain_store pointer);
  match recent with
  | Some recent => mret (Some recent)
  | None =>
      current ← pcontext ChainViewErr (get_recent state_client);
      match current with
      | Some current =>
          if negb (bool_decide (ptr_key current = ptr_key pointer))
          then pcontext ChainViewErr (get_recent_snapshot chain_store current)
          else mret None
      | None => mret None
      end
  end.

(** The body of the loop over the changes. *)
Definition sync_update (update : IngestionStateUpdate) : sync unit :=
  match update with
  | StartingBlock block => send_view
  | Finalized block => _ ← change_view (fun v => set_finalized_block v block); send_view
  | Segmented block => _ ← change_view (fun v => set_segmented_block v block); send_view
  | Grouped block => _ ← change_view (fun v => set_grouped_block v block); send_view
  | Pending generation => _ ← change_view (fun v => set_pending_generation v generation); send_view
  | Recent pointer =>
      recent ← on_sync_world (resolve_recent pointer);
      match recent with
      | None => mret tt
      | Some recent => _ ← change_view (fun v => view_set_recent v recent); send_view
      end
  end.

Fixpoint sync_updates (updates : list (outcome IngestionStateClientError IngestionStateUpdate)) : sync unit :=
  match updates with
  | [] => mret tt
  | update :: updates =>
      update ← lift (change_context ChainViewErr update);
      _ ← sync_update update;
      sync_updates updates
  end.

(** The loop over the changes: it only ends with an error, or without fuel. *)
Fixpoint follow_changes (fuel : nat) : sync unit :=
  match fuel with
  | O => mret tt
  | Datatypes.S fuel =>
      updates ← on_sync_world (pcontext ChainViewErr watch_changes_next);
      match updates with
      | None => fail ChainViewErr
      | Some updates => _ ← sync_updates updates; follow_changes fuel
      end
  end.

(** The loop of [start]: [false] when the fuel ran out. *)
Fixpoint sync_loop (fuel rounds : nat) : sync bool :=
  match rounds with
  | O => mret false
  | Datatypes.S rounds =>
      loop_result ← try (E' := ChainViewError)
        (_ ← on_sync_world (pcontext ChainViewErr (watch_changes watch_client)); follow_changes fuel);
      match loop_result with
      | Ok _ => mret false
      | _ =>
          s ← get_state;
          if sync_cancelled (sy_world s) then mret true
          else
            _ ← modify (fun s => mkSync (sync_sleep 5 (sy_world s)) (sy_view s) (sy_sent s));
            sync_loop fuel rounds
      end
  end.

(** [ChainViewSyncService::start]: the state at the end, if the view was
    published, and whether the service ended. *)
Definition sync_start (fuel rounds : nat) : prog W ChainViewError (bool * option (SyncState W S)) :=
  r ← sync_initialize fuel;
  match r with
  | WaitFuel => mret (false, None)
  | WaitCancelled => mret (true, None)
  | WaitGot chain_view => fun w =>
      if negb (sync_receivers w) then (Err ChainViewErr, w)
      else
        let s := mkSync w chain_view 1 in
        if sync_cancelled w then (Ok (true, Some s), w)
        else
          match sync_loop fuel rounds s with
          | (Ok ended, s') => (Ok (ended, Some s'), sy_world s')
          | (Err e, s') => (Err e, sy_world s')
          | (Panic, s') => (Panic, sy_world s')
          end
  end.

End sync.
