(* ===== verification/ChainSyncSpec.v ===== *)
(** * The sync service: properties

    The chain view follows the coordination state: at the start it is built from
    what is stored, and a change that the watch delivers makes it agree with etcd
    again.  A change that happened while no watch was open is not made up for:
    the view keeps the old value until the next change of the same key. *)

From S2P Require Import Prelude External Text Core Cloud StateClient StateClientFacts StateClientSpec ObjectStore Chain ChainFacts ChainView ChainStore.
From S2P Require Import ChainSpec ChainViewFacts ChainViewSpec StoreFacts StoreSpec CompactionServiceFacts IngestionFacts ChainSync.

#[export] Instance IngestionStateUpdate_eq_dec : EqDecision IngestionStateUpdate.
Proof. solve_decision. Defined.

(** ** Histories *)

(** The changes of etcd, each at its revision, and their effect. *)
Abbreviation history := (list (Z * TxnOp)).

Definition after (kvs : KeyValues) (hist : history) : KeyValues :=
  foldl (fun kvs change => apply_op change.1 kvs change.2) kvs hist.

(** The event of a change: the deletion of a key that does not exist has none. *)
Definition change_event (kvs : KeyValues) (op : TxnOp) : option (list byte * list byte) :=
  match op with
  | TxnPut key value => Some (key, value)
  | TxnDelete key => match kvs !! key with Some _ => Some (key, []) | None => None end
  end.

Section follow.
Context `{!Codec} {W : Type} `{Cloud W} `{!SyncOps W}.
Context `{!SerdeJson RecentSegmentPointer, !Archive CanonicalChainSegment}.
Context {S : Type}.
Variables (client : KvClient) (os : ObjectStore) (store : S).

Abbreviation cs := (mkChainStore os).
Abbreviation full key := (kv_format_key client key).
Implicit Types (kvs : KeyValues) (v : ChainViewInner S) (s : SyncState W S).

(** The watch client of the same connection, and the keys that it watches. *)
Definition watcher : WatchClient := mkWatchClient (kv_prefix client).
Definition watched (key : list byte) : bool := bool_decide (wc_format_key watcher INGESTION_PREFIX_KEY `prefix_of` key).

(** The events that a watch delivers of a history. *)
Fixpoint watch_events kvs (hist : history) : WatchResponse :=
  match hist with
  | [] => []
  | change :: hist =>
      match change_event kvs change.2 with
      | Some (key, value) => if watched key then [Some (key, value)] else []
      | None => []
      end ++ watch_events (apply_op change.1 kvs change.2) hist
  end.

(** What the clients write: updates, the deletion of the pending block and of
    the legacy key, and keys that are not watched. *)
Definition op_key (op : TxnOp) : list byte := match op with TxnPut key _ | TxnDelete key => key end.

Definition client_write (op : TxnOp) (u : option IngestionStateUpdate) : Prop :=
  match u with
  | None => op = TxnDelete (full LEGACY_INGESTED_KEY) \/ watched (op_key op) = false
  | Some (Pending None) => op = TxnDelete (full PENDING_KEY)
  | Some u => update_ok u /\ exists value, update_value u = Ok value /\ op = TxnPut (full (update_key u)) value
  end.

(** What etcd holds under a key. *)
Definition value_at kvs (key : RString) : option (list byte) := fst <$> kvs !! full key.

Definition number_of (value : option (list byte)) : option Z :=
  bytes ← value; match decode_block tt bytes with Ok n => Some n | _ => None end.

Lemma watched_key key : INGESTION_PREFIX_KEY `prefix_of` key -> watched (full key) = true.
Proof. intros [rest ->]. apply bool_decide_eq_true. exists rest. unfold wc_format_key, kv_format_key, watcher. by rewrite app_assoc. Qed.

Lemma update_key_prefix u : INGESTION_PREFIX_KEY `prefix_of` update_key u.
Proof. destruct u; eexists; reflexivity. Qed.

(** The updates that a watcher decodes of a change. *)
Definition change_updates kvs (op : TxnOp) : list (outcome IngestionStateClientError IngestionStateUpdate) :=
  match change_event kvs op with
  | Some (key, value) => if watched key then watch_response [Some (key, value)] else []
  | None => []
  end.

Lemma watch_events_cons kvs change hist :
  watch_response (watch_events kvs (change :: hist)) =
  change_updates kvs change.2 ++ watch_response (watch_events (apply_op change.1 kvs change.2) hist).
Proof.
  cbn [watch_events]. unfold watch_response at 1. rewrite omap_app. unfold change_updates.
  destruct (change_event kvs change.2) as [[key value]|]; [|done]. by destruct (watched key).
Qed.

Lemma legacy_not_update :
  utf8_valid (kv_prefix client) = true -> from_kv (full LEGACY_INGESTED_KEY) [] = Ok None.
Proof.
  intros Hp. unfold from_kv. rewrite full_key_utf8 by done. cbn [ok_or mbind outcome_bind]. by eval_from_kv.
Qed.

Lemma watch_one key value :
  watch_response [Some (key, value)] =
  match from_kv key value with Ok (Some u) => [Ok u] | Ok None => [] | Err e => [Err e] | Panic => [Panic] end.
Proof. unfold watch_response. cbn -[from_kv]. by destruct (from_kv key value) as [[u|]|e|]. Qed.

(** A change is decoded as the update it stands for. *)
Lemma change_updates_eq kvs op u :
  utf8_valid (kv_prefix client) = true -> client_write op u ->
  change_updates kvs op = match change_event kvs op, u with Some _, Some u => [Ok u] | _, _ => [] end.
Proof.
  intros Hp. unfold change_updates.
  assert (forall u value, update_ok u -> update_value u = Ok value ->
    (if watched (full (update_key u)) then watch_response [Some (full (update_key u), value)] else []) = [Ok u]) as Hput.
  { intros u0 value Hu Hv. rewrite watched_key by apply update_key_prefix. rewrite watch_one.
    by rewrite (from_kv_update client u0 value Hp Hu Hv). }
  destruct u as [u|]; cbn [client_write].
  - destruct (decide (u = Pending None)) as [->|Hne].
    + intros ->. cbn [change_event]. destruct (kvs !! _); [|done]. by apply (Hput (Pending None)).
    + intros Hw. assert (update_ok u /\ exists value, update_value u = Ok value /\ op = TxnPut (full (update_key u)) value)
        as (Hu & value & Hv & ->) by (by destruct u as [| |[|]| | |]). cbn [change_event]. by apply Hput.
  - intros [->|Hw]; cbn [change_event].
    + destruct (kvs !! _); [|done]. rewrite watch_one, legacy_not_update by done. by destruct (watched _).
    + destruct op as [key value|key]; cbn [change_event op_key] in *; [by rewrite Hw|].
      destruct (kvs !! key); [by rewrite Hw|done].
Qed.

(** ** Fields of the view *)

Lemma send_view_Ok s s' : send_view s = (Ok tt, s') -> sy_view s' = sy_view s /\ view (sy_world s') = view (sy_world s).
Proof.
  unfold send_view, get_state, modify, mbind, prog_bind. destruct (sync_receivers (sy_world s)); [|done].
  by intros [= <-].
Qed.

(** Reads leave the stored data alone. *)
Lemma get_recent_snapshot_reads p (w : W) r w' : get_recent_snapshot cs p w = (r, w') -> view w' = view w.
Proof.
  unfold get_recent_snapshot, get_by_key, mbind, prog_bind, lift. destruct (validate_recent_pointer p); [|by intros [= _ <-]..].
  destruct (get_as_bytes _ _ _ w) as [r0 w0] eqn:Hg. destruct (get_as_bytes_ok _ _ _ _ _ _ Hg) as [Hv _].
  destruct r0 as [[bytes|]|e|]; [|by intros [= _ <-]..]. destruct (decode_segment bytes); [|by intros [= _ <-]..].
  unfold mret, prog_ret. destruct (_ || _); by intros [= _ <-].
Qed.

Lemma resolve_recent_reads p (w : W) r w' : resolve_recent client cs p w = (r, w') -> view w' = view w.
Proof.
  unfold resolve_recent, pcontext, mbind, prog_bind. destruct (get_recent_snapshot cs p w) as [r1 w1] eqn:H1'.
  pose proof (get_recent_snapshot_reads _ _ _ _ H1') as Hv1. destruct r1 as [[seg|]|e|]; [by intros [= _ <-]| |by intros [= _ <-]..].
  cbn [change_context]. destruct (get_recent client w1) as [r2 w2] eqn:H2'. destruct (get_recent_inv _ _ _ _ H2') as [Hv2 _].
  destruct r2 as [[q|]|e|]; cbn [change_context]; [|intros [= _ <-]; congruence..].
  destruct (negb _); [|intros [= _ <-]; congruence]. destruct (get_recent_snapshot cs q w2) as [r3 w3] eqn:H3'.
  pose proof (get_recent_snapshot_reads _ _ _ _ H3') as Hv3. intros [= _ <-]. congruence.
Qed.

(** What an update does to the view. *)
Definition updates_to (u : IngestionStateUpdate) (s : SyncState W S) (v : ChainViewInner S) : Prop :=
  match u with
  | StartingBlock _ => v = sy_view s
  | Finalized b => v = set_finalized_block (sy_view s) b
  | Segmented b => v = set_segmented_block (sy_view s) b
  | Grouped b => v = set_grouped_block (sy_view s) b
  | Pending g => v = set_pending_generation (sy_view s) g
  | Recent p => exists r w', resolve_recent client cs p (sy_world s) = (Ok r, w') /\
      v = match r with Some segment => view_set_recent (sy_view s) segment | None => sy_view s end
  end.

Lemma sync_update_Ok u s s' :
  sync_update client cs u s = (Ok tt, s') ->
  view (sy_world s') = view (sy_world s) /\ updates_to u s (sy_view s').
Proof.
  destruct u as [b|b|g|b|b|p]; cbn [sync_update updates_to]; [by intros [-> ->]%send_view_Ok| | | | |].
  1-4: unfold change_view, modify, mbind, prog_bind; by intros [-> ->]%send_view_Ok.
  unfold on_sync_world, zoom, mbind, prog_bind. destruct (resolve_recent _ _ p (sy_world s)) as [r w'] eqn:Hr.
  pose proof (resolve_recent_reads _ _ _ _ Hr) as Hv. destruct r as [[seg|]|e|]; [| |done|done].
  - unfold change_view, modify. intros [Hvv Hw]%send_view_Ok. cbn [sy_world sy_view] in *. split; [congruence|].
    by exists (Some seg), w'.
  - intros [= <-]. split; [done|]. by exists None, w'.
Qed.

(** A field of the view that is kept under a key: the updates of the key make
    it agree with the stored value, the others leave it alone. *)
Record tracked {T} (key : RString) (field : ChainViewInner S -> T)
    (agrees : CloudView -> option (list byte) -> T -> Prop) : Prop := {
  tr_same : forall u s v, updates_to u s v -> update_key u <> key -> field v = field (sy_view s);
  tr_agrees : forall u s v value, updates_to u s v -> update_key u = key -> u <> Pending None ->
    update_ok u -> update_value u = Ok value -> agrees (view (sy_world s)) (Some value) (field v);
  tr_deleted : forall s v, updates_to (Pending None) s v -> key = PENDING_KEY -> agrees (view (sy_world s)) None (field v);
  tr_prefix : INGESTION_PREFIX_KEY `prefix_of` key;
  tr_legacy : key <> LEGACY_INGESTED_KEY }.

(** Whether a watch delivers a change of the key. *)
Definition delivered (key : RString) (events : WatchResponse) : Prop := exists value, Some (full key, value) ∈ events.

(** The field agrees with etcd on the keys with a delivered change, and is left
    alone, as is the value in etcd, on the others. *)
Definition follows {T} (key : RString) (field : ChainViewInner S -> T)
    (agrees : CloudView -> option (list byte) -> T -> Prop) kvs (hist : history) s s' : Prop :=
  (delivered key (watch_events kvs hist) ->
     agrees (view (sy_world s)) (value_at (after kvs hist) key) (field (sy_view s'))) /\
  (~ delivered key (watch_events kvs hist) ->
     field (sy_view s') = field (sy_view s) /\ value_at (after kvs hist) key = value_at kvs key).

Section tracked.
Context {T : Type} {key : RString} {field : ChainViewInner S -> T} {agrees : CloudView -> option (list byte) -> T -> Prop}.
Hypothesis tracks : tracked key field agrees.
Hypothesis prefix_utf8 : utf8_valid (kv_prefix client) = true.

Lemma value_at_other kvs rev op :
  op_key op <> full key -> value_at (apply_op rev kvs op) key = value_at kvs key.
Proof.
  intros Hne. unfold value_at. destruct op as [k x|k]; cbn [apply_op op_key] in *;
    [by rewrite lookup_insert_ne|by rewrite lookup_delete_ne].
Qed.

Lemma sync_one updates s s' u :
  sync_updates client cs [Ok u] s = (Ok updates, s') ->
  view (sy_world s') = view (sy_world s) /\ updates_to u s (sy_view s').
Proof.
  cbn [sync_updates]. unfold mbind, prog_bind, lift. cbn [change_context].
  destruct (sync_update client cs u s) as [[[]|e|] s1] eqn:Hu; [|done|done]. intros [= _ <-]. by apply sync_update_Ok.
Qed.

(** One change. *)
Lemma change_follows kvs rev op u s s' :
  client_write op u -> sync_updates client cs (change_updates kvs op) s = (Ok tt, s') ->
  view (sy_world s') = view (sy_world s) /\
  ((exists value, change_event kvs op = Some (full key, value)) /\ watched (full key) = true /\
     agrees (view (sy_world s)) (value_at (apply_op rev kvs op) key) (field (sy_view s')) \/
   (forall value, change_event kvs op <> Some (full key, value)) /\
     field (sy_view s') = field (sy_view s) /\ value_at (apply_op rev kvs op) key = value_at kvs key).
Proof using tracks prefix_utf8.
  intros Hw. rewrite (change_updates_eq _ _ _ prefix_utf8 Hw).
  assert (watched (full key) = true) as Hwatched by (apply watched_key, (tr_prefix _ _ _ tracks)).
  assert (forall value, change_event kvs op = Some (full key, value) -> op_key op = full key) as Hkey.
  { intros value. destruct op as [k x|k]; cbn [change_event op_key]; [by intros [= -> _]|].
    destruct (kvs !! k); by intros [= ->]. }
  destruct u as [u|].
  - destruct (decide (u = Pending None)) as [->|Hne]; cbn [client_write] in Hw.
    + subst op. cbn [change_event]. destruct (kvs !! full PENDING_KEY) as [x|] eqn:Hx.
      * intros [Hv Hu]%sync_one. split; [done|]. destruct (decide (key = PENDING_KEY)) as [->|Hk].
        -- left. split; [by eexists|]. split; [done|]. unfold value_at. cbn [apply_op]. rewrite lookup_delete_eq.
           by apply (tr_deleted _ _ _ tracks).
        -- right. split; [intros value [= Hf%kv_format_key_inj]; congruence|]. split.
           ++ apply (tr_same _ _ _ tracks _ _ _ Hu). cbn [update_key]. congruence.
           ++ apply value_at_other. cbn [op_key]. intros Hf%kv_format_key_inj. congruence.
      * intros [= <-]. split; [done|]. right. split; [done|]. split; [done|]. unfold value_at. cbn [apply_op].
        destruct (decide (key = PENDING_KEY)) as [->|Hk]; [by rewrite lookup_delete_eq, Hx|].
        rewrite lookup_delete_ne; [done|]. intros Hf%kv_format_key_inj. congruence.
    + assert (update_ok u /\ exists value, update_value u = Ok value /\ op = TxnPut (full (update_key u)) value)
        as (Hok & value & Hval & ->) by (by destruct u as [| |[|]| | |]). cbn [change_event].
      intros [Hv Hu]%sync_one. split; [done|]. destruct (decide (update_key u = key)) as [<-|Hk].
      * left. split; [by eexists|]. split; [done|]. unfold value_at. cbn [apply_op]. rewrite lookup_insert_eq.
        by eapply (tr_agrees _ _ _ tracks).
      * right. split; [intros ? [= Hf%kv_format_key_inj _]; congruence|]. split.
        -- by apply (tr_same _ _ _ tracks _ _ _ Hu).
        -- apply value_at_other. cbn [op_key]. intros Hf%kv_format_key_inj. congruence.
  - assert (op_key op <> full key) as Hne.
    { destruct Hw as [->|Hw]; cbn [op_key]; [|congruence]. intros Hf%kv_format_key_inj.
      by destruct (tr_legacy _ _ _ tracks). }
    assert (forall o : option (list byte * list byte),
      match o with Some _ => [] | None => [] end = [] :> list (outcome IngestionStateClientError IngestionStateUpdate)) as Hnil
      by (by intros []).
    rewrite Hnil. intros [= <-]. split; [done|]. right. split; [intros value Hc; by apply Hkey in Hc|].
    split; [done|by apply value_at_other].
Qed.

Lemma sync_updates_app us1 us2 s s' :
  sync_updates client cs (us1 ++ us2) s = (Ok tt, s') ->
  exists s1, sync_updates client cs us1 s = (Ok tt, s1) /\ sync_updates client cs us2 s1 = (Ok tt, s').
Proof.
  revert s. induction us1 as [|u us1 IH]; intros s; cbn [app sync_updates]; [by exists s|].
  unfold mbind, prog_bind, lift. destruct (change_context ChainViewErr u) as [x|e|]; [|done|done].
  destruct (sync_update client cs x s) as [[[]|e|] s1]; [|done|done]. intros Hs. by apply IH.
Qed.

Lemma history_follows kvs hist us s s' :
  Forall2 client_write hist.*2 us ->
  sync_updates client cs (watch_response (watch_events kvs hist)) s = (Ok tt, s') ->
  view (sy_world s') = view (sy_world s) /\ follows key field agrees kvs hist s s'.
Proof using tracks prefix_utf8.
  revert kvs us s. induction hist as [|[rev op] hist IH]; intros kvs us s Hw.
  { intros [= <-]. split; [done|]. split; [by intros [value Hd%not_elem_of_nil]|done]. }
  rewrite fmap_cons in Hw. apply Forall2_cons_inv_l in Hw as (u & us' & Hu & Hw & ->). rewrite watch_events_cons.
  intros (s1 & Hs1 & Hs2)%sync_updates_app. cbn [fst snd] in *.
  destruct (change_follows kvs rev op u s s1 Hu Hs1) as [Hv1 Hstep].
  destruct (IH _ _ _ Hw Hs2) as [Hv2 [Hyes Hno]]. rewrite Hv1 in Hv2, Hyes. split; [done|].
  assert (delivered key (watch_events kvs ((rev, op) :: hist)) <->
    ((exists value, change_event kvs op = Some (full key, value)) /\ watched (full key) = true) \/
    delivered key (watch_events (apply_op rev kvs op) hist)) as Hdel.
  { unfold delivered. cbn [watch_events fst snd]. setoid_rewrite elem_of_app.
    destruct (change_event kvs op) as [[k x]|]; [|set_solver]. destruct (watched k) eqn:Hk; split.
    - intros [value [[= <- <-]%list_elem_of_singleton|?]]; [left; by split; [eexists|]|right; by eexists].
    - intros [[[value [= -> ->]] _]|[value ?]]; eexists; [left; by apply list_elem_of_singleton|by right].
    - intros [value [Hf%not_elem_of_nil|?]]; [done|right; by eexists].
    - intros [[[value [= -> ->]] ?]|[value ?]]; [congruence|eexists; by right]. }
  destruct (decide (Exists (fun e => bool_decide (fst <$> e = Some (full key)) = true) (watch_events (apply_op rev kvs op) hist)))
    as [Hd|Hd].
  - assert (delivered key (watch_events (apply_op rev kvs op) hist)) as Hd'.
    { apply Exists_exists in Hd as ([[k x]|] & He & Hx); cbn in Hx; apply bool_decide_eq_true in Hx; [|done].
      injection Hx as ->. by exists x. }
    split; [by auto|]. intros Hn. destruct Hn. apply Hdel. by right.
  - assert (~ delivered key (watch_events (apply_op rev kvs op) hist)) as Hd'.
    { intros [x Hx]. apply Hd, Exists_exists. eexists. split; [exact Hx|]. by apply bool_decide_eq_true. }
    destruct (Hno Hd') as [Hf Hval]. unfold follows. change (after kvs ((rev, op) :: hist)) with (after (apply_op rev kvs op) hist). rewrite Hf, Hval. split.
    + intros [[Hev _]|?]%Hdel; [|done]. destruct Hstep as [(_ & _ & Hag)|[Hne _]]; [done|].
      destruct Hev as [value Hev]. by destruct (Hne value).
    + intros Hn. destruct Hstep as [(Hev & Hwa & _)|(_ & ? & ?)]; [|done]. destruct Hn. apply Hdel. by left.
Qed.
End tracked.

(** ** The fields *)

Definition number_agrees (_ : CloudView) (value : option (list byte)) (n : option Z) : Prop := n = number_of value.

(** The recent segment is the one that the pointer names, when it is stored. *)
Definition segment_agrees (cv : CloudView) (value : option (list byte)) (segment : CanonicalChainSegment) : Prop :=
  exists bytes p, value = Some bytes /\ json_from_slice bytes = Ok p /\
    forall segment', pointer_ok os client cv p segment' -> segment = segment'.

Lemma number_of_dec n : is_u64 n -> number_of (Some (dec n)) = Some n.
Proof. intros Hn. unfold number_of, mbind, option_bind. by rewrite decode_block_dec. Qed.

(** A pointer to a stored snapshot is followed. *)
Lemma snapshot_found p segment (w : W) o w' :
  pointer_ok os client (view w) p segment -> get_recent_snapshot cs p w = (Ok o, w') -> o = Some segment.
Proof.
  intros Hp Hr. destruct o as [seg|]; [f_equal; by apply (get_recent_snapshot_ok _ _ _ _ _ _ _ Hp Hr)|].
  exfalso. revert Hr. unfold get_recent_snapshot, get_by_key, get_as_bytes, mbind, prog_bind, lift.
  rewrite (po_valid _ _ _ _ _ Hp). cbn [cs_client]. destruct (object_get os (ptr_key p) _ w) as [r0 w0] eqn:Hg.
  destruct (object_get_inv _ _ _ _ _ _ Hg) as (_ & _ & Hnone & _).
  assert (r0 <> Err NotFound) as Hfound.
  { intros Hr0. pose proof (po_object _ _ _ _ _ Hp) as Hat. unfold object_at in Hat. by rewrite (Hnone Hr0) in Hat. }
  destruct r0 as [[ver body]|e|]; [|by destruct e|done].
  cbn. destruct (decode_segment body); cbn; [|discriminate..]. by destruct (_ || _).
Qed.

Lemma resolve_recent_stored p segment (w : W) r w' :
  pointer_ok os client (view w) p segment -> resolve_recent client cs p w = (Ok r, w') -> r = Some segment.
Proof.
  intros Hp. unfold resolve_recent. rewrite bind_eq. unfold pcontext at 1.
  destruct (get_recent_snapshot cs p w) as [r1 w1] eqn:Hr. destruct r1 as [o|e|]; cbn [change_context]; [|done|done].
  rewrite (snapshot_found _ _ _ _ _ Hp Hr). by intros [= <- _].
Qed.

(** Two keys of the client are different. *)
Ltac other_key H := exfalso; revert H; vm_compute; discriminate.

(** A number that is set by the updates of its key. *)
Ltac number_tracked :=
  split;
  [ intros u s v Hu Hk; destruct u; cbn [updates_to update_key] in Hu, Hk;
    first [ destruct Hu as (r & w' & _ & ->); destruct r; reflexivity | rewrite Hu; reflexivity | destruct (Hk eq_refl) ]
  | intros u s v value Hu Hk Hne Hok Hv; destruct u as [| |[|]| | |]; cbn [update_key] in Hk;
    first [ other_key Hk | destruct (Hne eq_refl) | idtac ];
    cbn [updates_to update_ok update_value] in Hu, Hok, Hv; rewrite Hu; injection Hv as <-; unfold number_agrees;
    rewrite number_of_dec by done; reflexivity
  | intros s v Hu Hk; first [ other_key Hk | cbn [updates_to] in Hu; rewrite Hu; reflexivity ]
  | eexists; reflexivity
  | vm_compute; discriminate ].

Lemma finalized_tracked : tracked FINALIZED_KEY (fun v => Some (cv_finalized v)) number_agrees.
Proof. number_tracked. Qed.

Lemma segmented_tracked : tracked SEGMENTED_KEY cv_segmented number_agrees.
Proof. number_tracked. Qed.

Lemma grouped_tracked : tracked GROUPED_KEY cv_grouped number_agrees.
Proof. number_tracked. Qed.

Lemma pending_tracked : tracked PENDING_KEY cv_pending_generation number_agrees.
Proof. number_tracked. Qed.

Lemma recent_tracked : tracked RECENT_KEY (fun v => recent (cv_canonical v)) segment_agrees.
Proof.
  split; [| | |eexists; reflexivity|vm_compute; discriminate].
  - intros u s v Hu Hk. destruct u; cbn [updates_to update_key] in Hu, Hk; [rewrite Hu; reflexivity..|]. destruct (Hk eq_refl).
  - intros u s v value Hu Hk Hne Hok Hv. destruct u as [| |[|]| | |p]; cbn [update_key] in Hk; [other_key Hk..|].
    cbn [updates_to update_value] in Hu, Hv. destruct Hu as (r & w' & Hr & ->). exists value, p. split; [done|].
    split; [by apply json_roundtrip|]. intros segment Hp. by rewrite (resolve_recent_stored _ _ _ _ _ Hp Hr).
  - intros s v _ Hk. other_key Hk.
Qed.

(** (C15) The view follows the watch.  Take any sequence of changes that the
    services make to etcd, at any revisions, and let the service process the
    events that the watch delivers of them.  Then for every field of the view
    (the finalized, segmented and grouped blocks, the pending generation, the
    recent segment): if a change of its key was delivered, the field agrees with
    what etcd holds after all the changes; otherwise both the field and the key
    are as before.  So a view that agrees with etcd when the watch is opened
    agrees with it from then on, and a view that does not, because a key was
    changed before the watch was opened or while none was open, keeps the old
    value until that key changes again. *)
Theorem view_follows_watch kvs hist us s s' :
  utf8_valid (kv_prefix client) = true -> Forall2 client_write hist.*2 us ->
  sync_updates client cs (watch_response (watch_events kvs hist)) s = (Ok tt, s') ->
  follows FINALIZED_KEY (fun v => Some (cv_finalized v)) number_agrees kvs hist s s' /\
  follows SEGMENTED_KEY cv_segmented number_agrees kvs hist s s' /\
  follows GROUPED_KEY cv_grouped number_agrees kvs hist s s' /\
  follows PENDING_KEY cv_pending_generation number_agrees kvs hist s s' /\
  follows RECENT_KEY (fun v => recent (cv_canonical v)) segment_agrees kvs hist s s'.
Proof.
  intros Hp Hw Hs. split_and!.
  - by apply (history_follows finalized_tracked Hp kvs hist us).
  - by apply (history_follows segmented_tracked Hp kvs hist us).
  - by apply (history_follows grouped_tracked Hp kvs hist us).
  - by apply (history_follows pending_tracked Hp kvs hist us).
  - by apply (history_follows recent_tracked Hp kvs hist us).
Qed.

(** ** The start *)

(** No other task writes while the service waits. *)
Definition quiet : Prop := forall secs (w : W), view (sync_sleep secs w) = view w.

(** The numbers that a view was built from. *)
Record reads_state (cv : CloudView) v : Prop := {
  rs_starting : stored_number cv (full STARTING_BLOCK_KEY) = Some (starting_block (cv_canonical v));
  rs_finalized : stored_number cv (full FINALIZED_KEY) = Some (cv_finalized v);
  rs_segmented : stored_number cv (full SEGMENTED_KEY) = cv_segmented v;
  rs_grouped : stored_number cv (full GROUPED_KEY) = cv_grouped v;
  rs_sizes : stored_number cv (full CHAIN_SEGMENT_SIZE_KEY) = Some (chain_segment_size (cv_canonical v)) /\
    stored_number cv (full SEGMENT_SIZE_KEY) = Some (cv_segment_size v) /\
    stored_number cv (full GROUP_SIZE_KEY) = Some (cv_group_size v);
  rs_recent : forall e p segment, v_kvs cv !! full RECENT_KEY = Some e -> json_from_slice e.1 = Ok p ->
    pointer_ok os client cv p segment -> recent (cv_canonical v) = segment }.

(** A wait in a quiet world: the value that is read, or that there is none. *)
Lemma wait_for_quiet {A} fuel (read : prog W ChainViewError (option A)) (Q : option A -> Prop) (cv : CloudView) w r w' :
  quiet -> (forall w1 r1 w2, view w1 = cv -> read w1 = (r1, w2) -> view w2 = cv /\ forall o, r1 = Ok o -> Q o) ->
  view w = cv -> wait_for fuel read w = (r, w') ->
  view w' = cv /\ match r with Ok (WaitGot a) => Q (Some a) | Ok WaitFuel => fuel = 0%nat \/ Q None | _ => True end.
Proof.
  intros Hq Hread. revert w. induction fuel as [|fuel IH]; intros w Hw; cbn [wait_for].
  { intros [= <- <-]. split; [done|by left]. }
  rewrite (prog_bind_run get_state _ w w w eq_refl). destruct (sync_cancelled w); [by intros [= <- <-]|].
  rewrite bind_eq. destruct (read w) as [r1 w1] eqn:Hr. destruct (Hread _ _ _ Hw Hr) as [Hv1 Ho].
  destruct r1 as [[a|]|e|]; [| |by intros [= <- <-]..].
  { intros [= <- <-]. split; [done|by apply Ho]. }
  rewrite bind_eq. unfold modify. intros Hrest. destruct (IH (sync_sleep 10 w1) ltac:(by rewrite Hq) Hrest) as [Hv Hres].
  split; [done|]. destruct r as [[| |a]|e|]; [right; by apply Ho|done..].
Qed.

Lemma required_option_inv key (w : W) r w' :
  required_option (get_usize client key) w = (r, w') ->
  view w' = view w /\ forall n, r = Ok n -> stored_number (view w) (full key) = Some n.
Proof.
  unfold required_option. rewrite bind_eq. unfold pcontext. destruct (get_usize client key w) as [r0 w0] eqn:He.
  destruct (get_usize_inv _ _ _ _ _ He) as (Hv & _ & Ho).
  destruct r0 as [o|e|]; cbn [change_context]; [|by intros [= <- <-]..]. intros [= <- <-]. split; [done|].
  intros n. rewrite <- (Ho o eq_refl). by destruct o; intros [= <-].
Qed.

Lemma get_number_context key (w : W) r w' :
  pcontext ChainViewErr (get_block_number client key) w = (r, w') ->
  view w' = view w /\ forall o, r = Ok o -> stored_number (view w) (full key) = o.
Proof.
  unfold pcontext. destruct (get_block_number client key w) as [r0 w0] eqn:He.
  destruct (get_block_number_inv _ _ _ _ _ He) as (Hv & _ & Ho). intros [= <- <-]. split; [done|].
  intros o. destruct r0; cbn; intros [= <-]. symmetry. by apply Ho.
Qed.

(** A stored snapshot is found. *)
Definition recent_found (cv : CloudView) (o : option CanonicalChainSegment) : Prop :=
  forall e p segment, v_kvs cv !! full RECENT_KEY = Some e -> json_from_slice e.1 = Ok p ->
    pointer_ok os client cv p segment -> o = Some segment.


Lemma get_legacy_reads (w : W) r w' : get_legacy_recent cs w = (r, w') -> view w' = view w.
Proof.
  unfold get_legacy_recent, get_impl. rewrite bind_eq. destruct (get_as_bytes _ _ _ w) as [r0 w0] eqn:Hg.
  destruct (get_as_bytes_ok _ _ _ _ _ _ Hg) as [Hv _]. destruct r0 as [[bytes|]|e|]; [|by intros [= _ <-]..].
  rewrite bind_eq. unfold lift. destruct (decode_segment bytes); by intros [= _ <-].
Qed.

Lemma sync_get_recent_quiet (w : W) r w' :
  sync_get_recent client cs w = (r, w') -> view w' = view w /\ forall o, r = Ok o -> recent_found (view w) o.
Proof.
  unfold sync_get_recent. rewrite bind_eq. unfold pcontext at 1. destruct (get_recent client w) as [r1 w1] eqn:H1'.
  destruct (get_recent_inv _ _ _ _ H1') as (Hv1 & Hnone & Hsome). destruct r1 as [[p|]|e|]; cbn [change_context];
    [| |by intros [= <- <-]..].
  - destruct (Hsome p eq_refl) as (e & He & Hj). unfold pcontext.
    destruct (get_recent_snapshot cs p w1) as [r2 w2] eqn:H2'. pose proof (get_recent_snapshot_reads _ _ _ _ H2') as Hv2.
    intros [= <- <-]. split; [congruence|]. intros o Hok e' p' segment He' Hj' Hp.
    rewrite He in He'. injection He' as <-. rewrite Hj in Hj'. injection Hj' as <-. rewrite <- Hv1 in Hp.
    destruct r2; cbn [change_context] in Hok; [|done..]. injection Hok as <-. by eapply snapshot_found.
  - assert (forall o, recent_found (view w) o) as Hall by (intros o e p segment He; by rewrite (Hnone eq_refl) in He).
    unfold sync_get_legacy_recent. rewrite bind_eq. unfold pcontext at 1, get_legacy_ingested. rewrite bind_eq. unfold pcontext at 1.
    destruct (kv_get client LEGACY_INGESTED_KEY w1) as [r2 w2] eqn:H2'. destruct (kv_get_inv _ _ _ _ _ H2') as (Hv2 & _ & _).
    destruct r2 as [[kv|]|e|]; cbn [change_context]; [|intros [= <- <-]; split; [congruence|done]..].
    rewrite bind_eq. unfold lift. destruct (ok_or IngestionStateClientErr (from_utf8 kv.1)); cbn [change_context];
      [|intros [= <- <-]; split; [congruence|done]..]. unfold mret, prog_ret. cbn [change_context]. unfold pcontext.
    destruct (get_legacy_recent cs w2) as [r3 w3] eqn:H3'. pose proof (get_legacy_reads _ _ _ H3') as Hv3.
    intros [= <- <-]. split; [congruence|done].
Qed.

(** The waits for a block number and for the recent segment. *)
Lemma wait_number fuel key cv (w : W) r w' :
  quiet -> view w = cv -> wait_for fuel (pcontext ChainViewErr (get_block_number client key)) w = (r, w') ->
  view w' = cv /\ match r with
    | Ok (WaitGot n) => stored_number cv (full key) = Some n
    | Ok WaitFuel => fuel = 0%nat \/ stored_number cv (full key) = None
    | _ => True
    end.
Proof.
  intros Hq Hw Hr. apply (wait_for_quiet fuel (pcontext ChainViewErr (get_block_number client key)) (fun o => stored_number cv (full key) = o) cv w r w' Hq); [|done|exact Hr].
  intros w1 r1 w2 <-. apply get_number_context.
Qed.

Lemma wait_recent fuel cv (w : W) r w' :
  quiet -> view w = cv -> wait_for fuel (sync_get_recent client cs) w = (r, w') ->
  view w' = cv /\ match r with
    | Ok (WaitGot segment) => recent_found cv (Some segment)
    | Ok WaitFuel => fuel = 0%nat \/ recent_found cv None
    | _ => True
    end.
Proof.
  intros Hq Hw Hr. apply (wait_for_quiet fuel (sync_get_recent client cs) (recent_found cv) cv w r w' Hq); [|done|exact Hr].
  intros w1 r1 w2 <-. apply sync_get_recent_quiet.
Qed.

(** The view starts from the stored state.  When no other task writes in
    the meantime, a view that the service builds has the starting, finalized,
    segmented and grouped blocks and the sizes that are stored, and its recent
    segment is the one that the pointer names; it knows of no pending block yet.
    Nothing is written.  The service waits only for a starting block, a finalized
    block or a recent segment that is not there. *)
Theorem sync_starts_from_state fuel w r w' :
  quiet -> sync_initialize client cs store fuel w = (r, w') ->
  view w' = view w /\
  match r with
  | Ok (WaitGot v) => reads_state (view w) v /\ cv_pending_generation v = None
  | Ok WaitFuel => fuel = 0%nat \/ stored_number (view w) (full STARTING_BLOCK_KEY) = None \/
      stored_number (view w) (full FINALIZED_KEY) = None \/ recent_found (view w) None
  | _ => True
  end.
Proof.
  intros Hq. unfold sync_initialize, waited. rewrite bind_eq.
  destruct (wait_for fuel (pcontext _ (get_starting_block _)) w) as [r1 w1] eqn:H1'.
  destruct (wait_number _ _ (view w) _ _ _ Hq eq_refl H1') as [Hv1 Hr1].
  destruct r1 as [[| |start]|e|]; [intros [= <- <-]; split; [done|]; naive_solver|by intros [= <- <-]| |by intros [= <- <-]..].
  rewrite bind_eq. destruct (wait_for fuel (pcontext _ (get_finalized _)) w1) as [r2 w2] eqn:H2'.
  destruct (wait_number _ _ _ _ _ _ Hq Hv1 H2') as [Hv2 Hr2].
  destruct r2 as [[| |finalized]|e|]; [intros [= <- <-]; split; [done|]; naive_solver|by intros [= <- <-]| |by intros [= <- <-]..].
  rewrite bind_eq. destruct (pcontext ChainViewErr (get_segmented client) w2) as [r3 w3] eqn:H3'.
  destruct (get_number_context _ _ _ _ H3') as [Hv3 Hr3]. rewrite Hv2 in Hv3, Hr3.
  destruct r3 as [segmented|e|]; [|by intros [= <- <-]..]. specialize (Hr3 _ eq_refl).
  rewrite bind_eq. destruct (pcontext ChainViewErr (get_grouped client) w3) as [r4 w4] eqn:H4'.
  destruct (get_number_context _ _ _ _ H4') as [Hv4 Hr4]. rewrite Hv3 in Hv4, Hr4.
  destruct r4 as [grouped|e|]; [|by intros [= <- <-]..]. specialize (Hr4 _ eq_refl).
  rewrite bind_eq. destruct (wait_for fuel (sync_get_recent client cs) w4) as [r5 w5] eqn:H5'.
  destruct (wait_recent _ _ _ _ _ Hq Hv4 H5') as [Hv5 Hr5].
  destruct r5 as [[| |recent]|e|]; [intros [= <- <-]; split; [done|]; naive_solver|by intros [= <- <-]| |by intros [= <- <-]..].
  rewrite (prog_bind_run get_state _ w5 w5 w5 eq_refl). destruct (sync_cancelled w5); [by intros [= <- <-]|].
  rewrite bind_eq. destruct (required_option (get_chain_segment_size client) w5) as [r6 w6] eqn:H6'.
  destruct (required_option_inv _ _ _ _ H6') as [Hv6 Hr6]. rewrite Hv5 in Hv6, Hr6.
  destruct r6 as [csize|e|]; [|by intros [= <- <-]..]. specialize (Hr6 _ eq_refl).
  rewrite bind_eq. cbn [lift full_initialize].
  rewrite bind_eq. destruct (required_option (get_segment_size client) w6) as [r7 w7] eqn:H7'.
  destruct (required_option_inv _ _ _ _ H7') as [Hv7 Hr7]. rewrite Hv6 in Hv7, Hr7.
  destruct r7 as [ssize|e|]; [|by intros [= <- <-]..]. specialize (Hr7 _ eq_refl).
  rewrite bind_eq. destruct (required_option (get_group_size client) w7) as [r8 w8] eqn:H8'.
  destruct (required_option_inv _ _ _ _ H8') as [Hv8 Hr8]. rewrite Hv7 in Hv8, Hr8.
  destruct r8 as [gsize|e|]; [|by intros [= <- <-]..]. specialize (Hr8 _ eq_refl).
  intros [= <- <-]. split; [done|]. split; [|done]. constructor; try done.
  intros e p segment He Hj Hp. by injection (Hr5 e p segment He Hj Hp) as <-.
Qed.
End follow.

(** ** Witnesses *)

Module SyncWitness.
Import External.Reference ReliableCloud ReferenceCodec ReferenceJson StoreWitness StateClientWitness.

#[local] Instance example_sync : SyncOps World := {|
  sync_cancelled _ := false;
  sync_receivers _ := true;
  sync_sleep _ w := w;
  etcd_watch _ w := (Ok tt, w);
  watch_next w := (Ok None, w) |}.

(** The finalized block moves to 17; the pending block is deleted, which has no
    event because there is none. *)
Definition example_changes : history :=
  [(1, TxnPut (kv_format_key client FINALIZED_KEY) (dec 17)); (2, TxnDelete (kv_format_key client PENDING_KEY))].

Definition example_state : SyncState World (gmap Z CanonicalChainSegment) := mkSync world_empty example_view 1.

Definition example_synced :=
  sync_updates client cs_example (watch_response (watch_events client ∅ example_changes)) example_state.

Lemma view_follows_watch_witness :
  cv_finalized (sy_view example_synced.2) = 17 /\ cv_segmented (sy_view example_synced.2) = cv_segmented example_view.
Proof.
  assert (example_synced.1 = Ok tt) as Hok by (vm_compute; reflexivity).
  pose proof (surjective_pairing example_synced) as Hs. rewrite Hok in Hs. unfold example_synced at 1 in Hs.
  destruct (view_follows_watch client os_example ∅ example_changes [Some (Finalized 17); Some (Pending None)]
    example_state example_synced.2) as (Hf & Hseg & _); [reflexivity| |exact Hs|].
  { repeat constructor; [done|]. eexists. split; reflexivity. }
  split.
  - assert (delivered client FINALIZED_KEY (watch_events client ∅ example_changes)) as Hd.
    { exists (dec 17). vm_compute. left. }
    apply (proj1 Hf) in Hd. unfold number_agrees in Hd.
    assert (number_of (value_at client (after ∅ example_changes) FINALIZED_KEY) = Some 17) as Hn by (vm_compute; reflexivity).
    rewrite Hn in Hd. by apply (inj Some) in Hd.
  - apply (proj2 Hseg). intros [value Hd]. revert Hd.
    assert (watch_events client ∅ example_changes = [Some (kv_format_key client FINALIZED_KEY, dec 17)]) as -> by (vm_compute; reflexivity).
    by intros [= Hk _]%list_elem_of_singleton.
Defined.

(** What an ingestion leaves behind: a chain of one block. *)
Definition example_segment : CanonicalChainSegment := segment_of example_b.

Definition populate : prog World IngestionStateClientError unit :=
  _ ← put_starting_block client 10;
  _ ← put_finalized client 11;
  _ ← pcontext IngestionStateClientErr (set_chain_segment_size client 2);
  _ ← pcontext IngestionStateClientErr (set_segment_size client 5);
  _ ← pcontext IngestionStateClientErr (set_group_size client 2);
  pointer ← pcontext IngestionStateClientErr (put_recent_snapshot cs_example 0 example_segment);
  put_recent client pointer.

Definition populated : World := (populate world_empty).2.

Definition example_started := sync_initialize client cs_example (∅ : gmap Z CanonicalChainSegment) 1 populated.

Lemma example_quiet : quiet (W := World).
Proof. intros secs w. reflexivity. Qed.

Lemma sync_starts_from_state_witness :
  exists v, example_started.1 = Ok (WaitGot v) /\ reads_state client os_example (view populated) v /\ cv_finalized v = 11.
Proof.
  assert (match example_started.1 with Ok (WaitGot v) => cv_finalized v =? 11 | _ => false end = true) as Hok
    by (vm_compute; reflexivity).
  pose proof (sync_starts_from_state client os_example (∅ : gmap Z CanonicalChainSegment) 1 populated _ _ example_quiet
    (surjective_pairing (sync_initialize client (mkChainStore os_example) (∅ : gmap Z CanonicalChainSegment) 1 populated)))
    as [_ Hr].
  change (sync_initialize client (mkChainStore os_example) (∅ : gmap Z CanonicalChainSegment) 1 populated)
    with example_started in Hr.
  destruct example_started as [r w']. cbn [fst] in *. destruct r as [[| |v]|e|]; [done|done| |done|done].
  exists v. split; [reflexivity|]. split; [apply Hr|by apply Z.eqb_eq].
Defined.
End SyncWitness.
