(* ===== verification/Server.v ===== *)
(** * The server (common/src/server and the start-up of common/src/lib.rs)

    A request is checked against the chain view and becomes a [DataStream]; its
    messages reach the client through a stream that adds heartbeats.  The chain
    view, the semaphore on the number of streams and the filters of a network
    are the interfaces [ServerOps] and [BlockFilterFactory]: the operations of
    the view may change the world, which is how the other tasks interleave with
    a request. *)

From S2P Require Import Prelude External Text Core Cloud StateClient ObjectStore Chain ChainView Index Query.
From S2P Require Import Encoding FragmentAccess FilterBlock BlockStore Compaction CompactionService DataStream.

(** [tonic::Status]. *)
Inductive Status := InvalidArgument | OutOfRange | Unavailable | ResourceExhausted | Internal.

(** [BlockFilterFactory] of data_stream/filter.rs. *)
Class BlockFilterFactory := { factory_create : list (list byte) -> outcome Status (list BlockFilter) }.

(** ** Requests *)

(** [prost_types::Duration] and its conversion to [std::time::Duration], here
    in nanoseconds. *)
Record ProtoDuration := mkProtoDuration { duration_seconds : Z; duration_nanos : Z }.

Class DurationConversion := { to_std_duration : ProtoDuration -> option Z }.

Record StreamDataRequest := mkStreamDataRequest {
  rq_starting_cursor : option ProtoCursor;
  rq_finality : option Z;
  rq_filter : list (list byte);
  rq_heartbeat_interval : option ProtoDuration }.

Record StatusResponse := mkStatusResponse {
  st_current_head : option ProtoCursor;
  st_last_ingested : option ProtoCursor;
  st_finalized : option ProtoCursor;
  st_starting : option ProtoCursor }.

(** [DataFinality::try_from]. *)
Definition finality_of_i32 (z : Z) : option DataFinality :=
  if z =? 0 then Some FinalityUnknown else if z =? 1 then Some FinalityPending
  else if z =? 2 then Some FinalityAccepted else if z =? 3 then Some FinalityFinalized else None.

(** [option.map(TryFrom::try_from).transpose().map_err(..)]. *)
Definition transpose_option {E A B} (convert : A -> option B) (e : E) (o : option A) : outcome E (option B) :=
  match o with
  | None => Ok None
  | Some a => b ← ok_or e (convert a); Ok (Some b)
  end.

Definition validate_heartbeat_interval (heartbeat_interval : option Z) : outcome Status Z :=
  match heartbeat_interval with
  | None => Ok (from_secs 30)
  | Some heartbeat_interval =>
      if heartbeat_interval <? from_secs 10 then Err InvalidArgument
      else if from_secs 60 <? heartbeat_interval then Err InvalidArgument
      else Ok heartbeat_interval
  end.

(** ** The service *)

(** [Semaphore::MAX_PERMITS], on 64 bits. *)
Definition MAX_PERMITS : Z := 2 ^ 61 - 1.

(** How the wait for a permit ended. *)
Inductive AcquireResult := AcquireElapsed | AcquireClosed | Acquired.

Class ServerOps (W : Type) := {
  #[global] server_chain_view :: ChainViewOps W;
  (** whether the view was published on the watch channel *)
  view_initialized : prog W Status bool;
  view_get_canonical : Z -> prog W ChainViewError CanonicalCursor;
  view_validate_cursor : Cursor -> prog W ChainViewError ValidatedCursor;
  acquire_permit : prog W Status AcquireResult }.

Section service.
Context {W : Type} `{!ServerOps W, !BlockFilterFactory, !DurationConversion}.
Variable fragment_id_to_name : gmap Z string.
Variable prefetch_segment_count : Z.
Variable channel_size : Z.

(** [ChainViewExt]. *)
Definition get_status : prog W ChainViewError StatusResponse :=
  starting ← view_starting_cursor;
  finalized ← view_finalized_cursor;
  head ← view_head;
  mret (mkStatusResponse None (Some (cursor_to_proto head)) (Some (cursor_to_proto finalized))
          (Some (cursor_to_proto starting))).

Definition ensure_cursor_in_range (cursor : Cursor) : prog W Status unit :=
  r ← pcontext Internal (view_get_canonical (number cursor));
  match r with
  | AfterAvailable _ => fail OutOfRange
  | BeforeAvailable _ => fail InvalidArgument
  | Canonical _ => mret tt
  end.

(** The borrow of the watch channel. *)
Definition borrow_chain_view : prog W Status unit :=
  initialized ← view_initialized;
  if (initialized : bool) then mret tt else fail Unavailable.

Definition status : prog W Status StatusResponse :=
  _ ← borrow_chain_view;
  pcontext Internal get_status.

Definition starting_cursor (request : StreamDataRequest) : prog W Status (option Cursor) :=
  match rq_starting_cursor request with
  | None => mret None
  | Some cursor =>
      let cursor := cursor_of_proto cursor in
      _ ← ensure_cursor_in_range cursor;
      r ← try (view_validate_cursor cursor);
      match r with
      | Ok (Valid cursor) => mret (Some cursor)
      | Ok (Invalid _ _) => fail InvalidArgument
      | Err _ => fail Internal
      | Panic => lift Panic
      end
  end.

(** [tokio::sync::mpsc::channel] and [tokio::sync::Semaphore::new] panic outside
    their range. *)
Definition mpsc_channel (buffer : Z) : outcome Status unit :=
  if (0 <? buffer) && (buffer <=? MAX_PERMITS) then Ok tt else Panic.

(** [stream_data] once it has a permit: the stream that is spawned and the
    interval of its heartbeats. *)
Definition stream_checks (request : StreamDataRequest) : prog W Status (DataStream * Z) :=
  starting_cursor ← starting_cursor request;
  finalized ← pcontext Internal view_finalized_cursor;
  finality ← lift (transpose_option finality_of_i32 InvalidArgument (rq_finality request));
  let finality := default FinalityAccepted finality in
  heartbeat ← lift (transpose_option to_std_duration InvalidArgument (rq_heartbeat_interval request));
  heartbeat_interval ← lift (validate_heartbeat_interval heartbeat);
  filter ← lift (factory_create (rq_filter request));
  let ds := data_stream_new filter starting_cursor finalized finality fragment_id_to_name prefetch_segment_count in
  _ ← lift (mpsc_channel channel_size);
  mret (ds, heartbeat_interval).

(** [stream_data]. *)
Definition stream_data (request : StreamDataRequest) : prog W Status (DataStream * Z) :=
  _ ← borrow_chain_view;
  permit ← acquire_permit;
  match permit with
  | AcquireElapsed => fail ResourceExhausted
  | AcquireClosed => fail Internal
  | Acquired => stream_checks request
  end.

End service.

(** ** ResponseStreamWithHeartbeat (server/stream_with_heartbeat.rs) *)

(** The messages of the channel that were not taken yet, whether its sender is
    gone, and the time left until the next heartbeat. *)
Record ResponseStream (A : Type) := mkResponseStream {
  rs_queue : list A; rs_closed : bool; rs_interval : Z; rs_left : Z }.
Arguments mkResponseStream {A} _ _ _ _.
Arguments rs_queue {A} _.
Arguments rs_closed {A} _.
Arguments rs_interval {A} _.
Arguments rs_left {A} _.

Inductive Response (A : Type) := ResponseMessage (message : A) | ResponseHeartbeat | ResponseEnd | ResponsePending.
Arguments ResponseMessage {A} _.
Arguments ResponseHeartbeat {A}.
Arguments ResponseEnd {A}.
Arguments ResponsePending {A}.

Section heartbeat.
Context {A : Type}.

(** [ResponseStreamWithHeartbeat::new]: the interval is reset, so that the first
    heartbeat is not immediate. *)
Definition response_stream_new (heartbeat_interval : Z) : ResponseStream A :=
  mkResponseStream [] false heartbeat_interval heartbeat_interval.

(** [poll_next]: a message of the channel resets the interval; a heartbeat is
    only sent when there is none, and the next one is due an interval later
    ([MissedTickBehavior::Delay]). *)
Definition response_poll_next (self : ResponseStream A) : Response A * ResponseStream A :=
  match rs_queue self with
  | message :: queue => (ResponseMessage message, mkResponseStream queue (rs_closed self) (rs_interval self) (rs_interval self))
  | [] =>
      if rs_closed self then (ResponseEnd, mkResponseStream [] true (rs_interval self) (rs_interval self))
      else if rs_left self <=? 0 then (ResponseHeartbeat, mkResponseStream [] false (rs_interval self) (rs_interval self))
      else (ResponsePending, self)
  end.

(** What happens between polls: the stream sends a message or ends, time
    passes. *)
Inductive ChannelEvent := ChannelSend (message : A) | ChannelClose | ChannelElapse (time : Z).

Definition channel_event (self : ResponseStream A) (e : ChannelEvent) : ResponseStream A :=
  match e with
  | ChannelSend message =>
      if rs_closed self then self
      else mkResponseStream (rs_queue self ++ [message]) false (rs_interval self) (rs_left self)
  | ChannelClose => mkResponseStream (rs_queue self) true (rs_interval self) (rs_left self)
  | ChannelElapse time => mkResponseStream (rs_queue self) (rs_closed self) (rs_interval self) (rs_left self - time)
  end.
End heartbeat.

(** ** The names of the fragments (common/src/lib.rs) *)

Inductive ServerError := ServerErr.

Definition HEADER_NAME : string := "header".
Definition INDEX_NAME : string := "index".
Definition JOIN_NAME : string := "join".

Definition insert_name (names : gmap Z string) (info : Z * string) : outcome ServerError (gmap Z string) :=
  match names !! info.1 with
  | Some _ => Err ServerErr
  | None => Ok (<[info.1 := info.2]> names)
  end.

Definition fragment_names (fragment_info : list (Z * string)) : outcome ServerError (gmap Z string) :=
  ofold insert_name {[HEADER_FRAGMENT_ID := HEADER_NAME; INDEX_FRAGMENT_ID := INDEX_NAME; JOIN_FRAGMENT_ID := JOIN_NAME]}
    fragment_info.
