(* ===== verification/ServerSpec.v ===== *)
(** * The server: properties

    - a request is accepted exactly when its cursor names a block that the server
      knows and its parameters are valid, and the stream starts at that block;
    - the stream with heartbeats loses, repeats and reorders nothing, and sends a
      heartbeat exactly after an interval of silence. *)

From S2P Require Import Prelude External Text Core Cloud StateClient Chain ChainFacts ChainSpec ChainView ChainViewFacts ChainViewSpec.
From S2P Require Import Index Query FilterBlock CompactionService CompactionServiceFacts DataStream Server.

(** ** Requests *)

(** The server on the chain view of chain_view/view.rs.  [current] reads the view
    that the sync service updates, [acquire] waits for the semaphore. *)
Section view_server.
Context {W S : Type} `{!ChainStoreOps S}.
Variables (initialized : W -> bool) (current : W -> ChainViewInner S) (acquire : prog W Status AcquireResult).

Definition view_server : ServerOps W := {|
  server_chain_view := chain_view_ops current;
  view_initialized w := (Ok (initialized w), w);
  view_get_canonical n := view_query current (fun self => get_canonical (cv_canonical self) n);
  view_validate_cursor c := view_query current (fun self => validate_cursor (cv_canonical self) c);
  acquire_permit := acquire |}.
End view_server.

(** The finality and the heartbeat interval that a request asks for. *)
Definition asks_finality (request : StreamDataRequest) (finality : DataFinality) : Prop :=
  match rq_finality request with
  | None => finality = FinalityAccepted
  | Some z => finality_of_i32 z = Some finality
  end.

Definition asks_heartbeat `{!DurationConversion} (request : StreamDataRequest) (interval : Z) : Prop :=
  match rq_heartbeat_interval request with
  | None => interval = from_secs 30
  | Some d => to_std_duration d = Some interval
  end /\ from_secs 10 <= interval <= from_secs 60.

(** The block that a cursor names, on the chain [B]. *)
Definition names_block (B : building) (cursor start : option Cursor) : Prop :=
  match cursor, start with
  | None, None => True
  | Some c, Some v => candidate B (number c) v /\ same_block v c
  | _, _ => False
  end.

Lemma candidate_first B n v : wf_building B -> candidate B n v -> first_number B <= n.
Proof.
  intros HB [<- [Hb|[p Hr]]]; [apply (block_at_range _ _ _ HB) in Hb; lia|]. unfold reorg_at in Hr.
  destruct (reorgs B !! number v) as [row|] eqn:Hrow; [|done]. apply (wf_reorgs _ HB) in Hrow. lia.
Qed.

(** Why a request is refused as invalid. *)
Definition invalid_request `{!DurationConversion, !BlockFilterFactory} (B : building) (request : StreamDataRequest) : Prop :=
  (exists c, cursor_of_proto <$> rq_starting_cursor request = Some c /\ number c <= last_number B /\
     forall v, candidate B (number c) v -> ~ same_block v c) \/
  (forall finality, ~ asks_finality request finality) \/
  (forall interval, ~ asks_heartbeat request interval) \/
  factory_create (rq_filter request) = Err InvalidArgument.

(** What is left to check after the cursor. *)
Definition parameters_answer `{!DurationConversion, !BlockFilterFactory} (request : StreamDataRequest)
    (finality : outcome Status DataFinality) (interval : outcome Status Z) : Prop :=
  match finality with
  | Ok finality => asks_finality request finality
  | Err e => e = InvalidArgument /\ forall finality, ~ asks_finality request finality
  | Panic => False
  end /\
  match interval with
  | Ok interval => asks_heartbeat request interval
  | Err e => e = InvalidArgument /\ forall interval, ~ asks_heartbeat request interval
  | Panic => False
  end.

Lemma parameters_checked `{!DurationConversion, !BlockFilterFactory} request :
  parameters_answer request
    (finality ← transpose_option finality_of_i32 InvalidArgument (rq_finality request); Ok (default FinalityAccepted finality))
    (heartbeat ← transpose_option to_std_duration InvalidArgument (rq_heartbeat_interval request);
     validate_heartbeat_interval heartbeat).
Proof.
  unfold parameters_answer, asks_finality, asks_heartbeat, transpose_option. split.
  - destruct (rq_finality request) as [z|]; [|done]. destruct (finality_of_i32 z); cbn; [done|]. by split.
  - destruct (rq_heartbeat_interval request) as [d|]; cbn; [|done].
    destruct (to_std_duration d) as [i|]; cbn; [|split; [done|]; by intros ? [? _]].
    destruct (Z.ltb_spec i (from_secs 10)); [split; [done|]; intros ? [[= <-] ?]; lia|].
    destruct (Z.ltb_spec (from_secs 60) i); [split; [done|]; intros ? [[= <-] ?]; lia|]. done.
Qed.

Section requests.
Context {W S : Type} `{ChainStoreLaws S} `{!BlockFilterFactory, !DurationConversion}.
Variables (initialized : W -> bool) (current : W -> ChainViewInner S) (acquire : prog W Status AcquireResult).
Variables (names : gmap Z string) (prefetch channel : Z).
Variables (size : Z) (st : S) (b B : building).
Hypothesis size_pos : 0 < size.
Hypothesis archived : archived_building size st b B.

#[local] Instance ops : ServerOps W := view_server initialized current acquire.

Definition view_of (w : W) : Prop :=
  cv_canonical (current w) = split_view size st b B /\ is_u64 (cv_finalized (current w)).

Lemma whole_get_canonical n :
  is_u64 n ->
  match get_canonical (split_view size st b B) n with
  | Ok (AfterAvailable _) => last_number B < n
  | Ok (BeforeAvailable _) => n < first_number B
  | Ok (Canonical c) => first_number B <= n <= last_number B /\ number c = n
  | _ => False
  end.
Proof using size_pos archived.
  intros Hn. pose proof (ab_whole _ _ _ _ archived) as HB. pose proof (wf_range _ HB).
  rewrite split_get_canonical by (done || apply Hn). unfold get_canonical.
  cbn [recent whole_view seg_info segment_of starting_block]. fold (last_number B).
  destruct (Z.ltb_spec (last_number B) n); [done|]. destruct (Z.ltb_spec n (first_number B)).
  - by rewrite (whole_canonical size st B _ _ HB (block_at_first B HB)).
  - destruct (proj2 (block_at_is_Some B n HB)) as [h Hh]; [lia|]. by rewrite (whole_canonical size st B n h HB Hh).
Qed.

Lemma finalized_known w : view_of w -> exists c, get_finalized_cursor (current w) = Ok c /\ number c = cv_finalized (current w).
Proof using size_pos archived.
  intros [Hc Hu]. unfold get_finalized_cursor, cursor_or_finalized. rewrite Hc.
  pose proof (whole_get_canonical _ Hu) as Hg.
  destruct (get_canonical _ _) as [[c|c|c]|e|]; [by eexists|by eexists|exists c; by split; [|apply Hg]|done|done].
Qed.

(** The answer to a starting cursor. *)
Lemma starting_cursor_checked request w :
  view_of w -> (forall c, cursor_of_proto <$> rq_starting_cursor request = Some c -> is_u64 (number c)) ->
  match Server.starting_cursor request w with
  | (Ok start, w') => w' = w /\ names_block B (cursor_of_proto <$> rq_starting_cursor request) start
  | (Err OutOfRange, _) => exists c, cursor_of_proto <$> rq_starting_cursor request = Some c /\ last_number B < number c
  | (Err InvalidArgument, _) => exists c, cursor_of_proto <$> rq_starting_cursor request = Some c /\
      number c <= last_number B /\ forall v, candidate B (number c) v -> ~ same_block v c
  | _ => False
  end.
Proof using size_pos archived.
  intros [Hv _] Hu. unfold Server.starting_cursor. destruct (rq_starting_cursor request) as [pc|]; [|done].
  cbn [fmap option_fmap option_map] in *. set (c := cursor_of_proto pc) in *. specialize (Hu c eq_refl).
  pose proof (ab_whole _ _ _ _ archived) as HB. pose proof (whole_get_canonical _ Hu) as Hg.
  unfold ensure_cursor_in_range, try, pcontext, mbind, prog_bind, ops, view_server.
  cbn [view_get_canonical view_validate_cursor]. unfold view_query. rewrite Hv.
  destruct (get_canonical _ _) as [[x|x|x]|e|]; [|by exists c| |done|done]; cbn [change_context fail].
  { exists c. split; [done|]. pose proof (wf_range _ HB). split; [lia|]. intros v Hc%candidate_first; [lia|done]. }
  unfold mret, prog_ret. rewrite Hv. destruct Hg as [Hr _]. rewrite split_validate by (done || (split; [lia|apply Hu])).
  pose proof (whole_validate size st B c HB ltac:(lia)) as Hw.
  destruct (validate_cursor (whole_view size st B) c) as [[v|cc sib]|e|]; [done| |lia|done].
  exists c. split; [done|]. split; [lia|]. apply Hw.
Qed.

End requests.

(** ** Heartbeats *)

(** The stream among the events of its channel: the time since it was created,
    the stream, and what was sent to the client, with the time. *)
Inductive StreamStep (A : Type) := StepEvent (e : ChannelEvent (A := A)) | StepPoll.
Arguments StepEvent {A} _.
Arguments StepPoll {A}.

Record StreamRun (A : Type) := mkRun { run_clock : Z; run_stream : ResponseStream A; run_log : list (Z * Response A) }.
Arguments mkRun {A} _ _ _.
Arguments run_clock {A} _.
Arguments run_stream {A} _.
Arguments run_log {A} _.

Section heartbeats.
Context {A : Type}.
Implicit Types (s : ResponseStream A) (log : list (Z * Response A)).

Definition elapsed (e : ChannelEvent (A := A)) : Z := match e with ChannelElapse time => time | _ => 0 end.

Definition run_step (r : StreamRun A) (step : StreamStep A) : StreamRun A :=
  match step with
  | StepEvent e => mkRun (run_clock r + elapsed e) (channel_event (run_stream r) e) (run_log r)
  | StepPoll =>
      let '(response, s) := response_poll_next (run_stream r) in
      mkRun (run_clock r) s
        (match response with ResponsePending => run_log r | _ => run_log r ++ [(run_clock r, response)] end)
  end.

Definition run_stream_steps (interval : Z) (steps : list (StreamStep A)) : StreamRun A :=
  foldl run_step (mkRun 0 (response_stream_new interval) []) steps.

(** What the data stream sent before it ended. *)
Definition sent_step (sent : list A * bool) (step : StreamStep A) : list A * bool :=
  match step with
  | StepEvent (ChannelSend m) => if sent.2 then sent else (sent.1 ++ [m], false)
  | StepEvent ChannelClose => (sent.1, true)
  | _ => sent
  end.

Definition sent_messages (steps : list (StreamStep A)) : list A * bool := foldl sent_step ([], false) steps.

Definition received log : list A := omap (fun r => match r.2 with ResponseMessage m => Some m | _ => None end) log.

(** The time of the last answer. *)
Definition last_time log : Z := match last log with Some r => r.1 | None => 0 end.

(** Every heartbeat came an interval after the answer before it. *)
Definition spaced (interval : Z) log : Prop :=
  forall before t after, log = before ++ (t, ResponseHeartbeat) :: after -> interval <= t - last_time before.

(** What the next poll answers. *)
Definition next_response (interval : Z) (steps : list (StreamStep A)) (r : StreamRun A) : Response A :=
  match drop (length (received (run_log r))) (sent_messages steps).1 with
  | message :: _ => ResponseMessage message
  | [] =>
      if (sent_messages steps).2 then ResponseEnd
      else if interval <=? run_clock r - last_time (run_log r) then ResponseHeartbeat else ResponsePending
  end.

Record run_ok (interval : Z) (steps : list (StreamStep A)) (r : StreamRun A) : Prop := {
  ro_messages : received (run_log r) ++ rs_queue (run_stream r) = (sent_messages steps).1;
  ro_closed : rs_closed (run_stream r) = (sent_messages steps).2;
  ro_interval : rs_interval (run_stream r) = interval;
  ro_left : rs_left (run_stream r) = interval - (run_clock r - last_time (run_log r));
  ro_spaced : spaced interval (run_log r) }.

Lemma last_time_snoc log t response : last_time (log ++ [(t, response)]) = t.
Proof. unfold last_time. by rewrite last_snoc. Qed.

Lemma received_snoc log t response :
  received (log ++ [(t, response)]) = received log ++ match response with ResponseMessage m => [m] | _ => [] end.
Proof. unfold received. rewrite omap_app. cbn. by destruct response. Qed.

Lemma spaced_snoc interval log t response :
  spaced interval log -> (response = ResponseHeartbeat -> interval <= t - last_time log) ->
  spaced interval (log ++ [(t, response)]).
Proof.
  intros Hs Hr before t' after Heq. destruct after as [|x after _] using rev_ind.
  - apply app_inj_tail in Heq as [-> [= -> ->]]. by apply Hr.
  - rewrite app_comm_cons, app_assoc in Heq. apply app_inj_tail in Heq as [-> _]. by eapply Hs.
Qed.

Lemma run_step_ok interval steps r step : run_ok interval steps r -> run_ok interval (steps ++ [step]) (run_step r step).
Proof.
  intros [Hm Hc Hi Hl Hs]. destruct r as [clock [queue closed ival left] log]. cbn [run_clock run_stream run_log rs_queue
    rs_closed rs_interval rs_left] in *. subst ival left.
  assert (forall x, x = sent_step (sent_messages steps) step -> sent_messages (steps ++ [step]) = x) as Hsent.
  { intros x ->. unfold sent_messages. by rewrite foldl_app. }
  destruct step as [[m| |time]|]; cbn [run_step channel_event elapsed run_stream run_clock run_log rs_queue rs_closed
    rs_interval rs_left sent_step] in *; try rewrite <- Hc in Hsent.
  - destruct closed; constructor; cbn [run_clock run_stream run_log rs_queue rs_closed rs_interval rs_left];
      rewrite ?(Hsent _ eq_refl); cbn [fst snd]; rewrite ?Z.add_0_r; try done. by rewrite <- Hm, app_assoc.
  - constructor; cbn [run_clock run_stream run_log rs_queue rs_closed rs_interval rs_left];
      rewrite ?(Hsent _ eq_refl); cbn [fst snd]; rewrite ?Z.add_0_r; done.
  - constructor; cbn [run_clock run_stream run_log rs_queue rs_closed rs_interval rs_left];
      rewrite ?(Hsent _ eq_refl); cbn [fst snd]; (done || lia).
  - specialize (Hsent _ eq_refl). unfold response_poll_next. cbn [rs_queue rs_closed rs_interval rs_left].
    destruct queue as [|m queue]; [destruct closed; [|destruct (Z.leb_spec (interval - (clock - last_time log)) 0)]|].
    all: constructor; cbn [run_clock run_stream run_log rs_queue rs_closed rs_interval rs_left];
      rewrite ?Hsent, ?last_time_snoc, ?received_snoc, ?app_nil_r in *; try done; try lia.
    all: try (apply spaced_snoc; [done|]; (done || (intros _; lia))).
    by rewrite <- app_assoc.
Qed.

Lemma run_steps_ok interval steps : run_ok interval steps (run_stream_steps interval steps).
Proof.
  induction steps as [|step steps IH] using rev_ind.
  - constructor; cbn; try done; [unfold last_time; cbn; lia|]. intros before t after Heq. by destruct before.
  - unfold run_stream_steps. rewrite foldl_app. by apply run_step_ok.
Qed.

(** (C17) The heartbeats are transparent.  However the data stream sends, the
    time passes and the client polls, the client receives the messages of the
    data stream in their order, each once, and none is lost: what it received and
    what waits in the channel is what was sent.  A heartbeat is only sent an
    interval after the last answer.  The next poll returns the next message if
    there is one, the end of the stream once it ended and everything was
    delivered, otherwise a heartbeat if the interval is over, and waits if not. *)
Theorem heartbeat_transparent interval steps :
  let r := run_stream_steps interval steps in
  received (run_log r) ++ rs_queue (run_stream r) = (sent_messages steps).1 /\
  spaced interval (run_log r) /\
  (response_poll_next (run_stream r)).1 = next_response interval steps r.
Proof.
  cbn zeta. destruct (run_steps_ok interval steps) as [Hm Hc Hi Hl Hs]. split; [done|]. split; [done|].
  unfold next_response, response_poll_next. rewrite <- Hm, drop_app_length, <- Hc, Hl.
  destruct (rs_queue _); [|done]. destruct (rs_closed _); [done|].
  set (d := run_clock _ - _). destruct (Z.leb_spec (interval - d) 0), (Z.leb_spec interval d); (done || lia).
Qed.
End heartbeats.

(** ** Witnesses *)

Module ServerWitness.

(** A server without filters and with whole seconds. *)
#[local] Instance example_factory : BlockFilterFactory := {| factory_create _ := Ok [] |}.
#[local] Instance example_duration : DurationConversion := {|
  to_std_duration d := if duration_seconds d <? 0 then None else Some (from_secs (duration_seconds d)) |}.

(** A client that was at the reorged block 13. *)
Definition example_stream_request : StreamDataRequest :=
  mkStreamDataRequest (Some (mkProtoCursor 13 [x00; x0d])) (Some 1) [] (Some (mkProtoDuration 15 0)).

Lemma example_archived : archived_building 2 (ar_store example_archive) example_b example_B.
Proof. exact (archive_after_archived 2 ∅ example_history _ _ _ eq_refl example_empty example_history_valid example_archive_eq). Qed.

End ServerWitness.
