(* ===== verification/StreamPool.v ===== *)
(** * The streams that a server runs at the same time (common/src/server/service.rs)

    [StreamService] bounds the number of streams with a semaphore: a request waits
    for a permit for at most a second, keeps it while it is checked, and hands it to
    the stream, which returns it when it ends.  The requests interleave as
    [serve_step] says; what each handler computes is [Server.stream_data], cut at its
    waits.  tokio's semaphore is the interface [Semaphore]: nothing is assumed about
    the order in which it serves the requests that wait, and time passes freely, so a
    timeout may fire late. *)

From S2P Require Import Prelude External Text Core Cloud StateClient ObjectStore Chain ChainView Index Query.
From S2P Require Import Encoding FragmentAccess FilterBlock BlockStore Compaction CompactionService DataStream Server.

(** [tokio::sync::Semaphore]: its constructor, which panics above [MAX_PERMITS];
    the permits that can be taken; a pending [acquire_owned] that completes; and an
    [OwnedSemaphorePermit] that is dropped.  A permit that is handed over to a
    request that waits is one that is dropped and then taken. *)
Class Semaphore (Sem : Type) := {
  semaphore_new : Z -> outcome Status Sem;
  available_permits : Sem -> Z;
  acquire_owned : Sem -> option Sem;
  drop_permit : Sem -> Sem }.

(** What the documentation says of their counts. *)
Class SemaphoreLaws (Sem : Type) `{Semaphore Sem} := {
  new_permits : forall n sem, 0 <= n -> semaphore_new n = Ok sem -> n <= MAX_PERMITS /\ available_permits sem = n;
  new_no_error : forall n e, semaphore_new n <> Err e;
  acquire_permit : forall sem sem',
    acquire_owned sem = Some sem' -> 1 <= available_permits sem /\ available_permits sem' = available_permits sem - 1;
  acquire_waits : forall sem, acquire_owned sem = None -> available_permits sem <= 0;
  permit_dropped : forall sem, available_permits (drop_permit sem) = available_permits sem + 1 }.

Record StreamServiceOptions := mkStreamServiceOptions {
  max_concurrent_streams : Z;
  so_prefetch_segment_count : Z;
  so_channel_size : Z }.

Definition STREAM_SEMAPHORE_ACQUIRE_TIMEOUT : Z := from_secs 1.

(** Where a request is. *)
Inductive ClientPhase :=
| ClientWaiting (request : StreamDataRequest) (since : Z)
| ClientChecking (request : StreamDataRequest)
| ClientStreaming (ds : DataStream) (heartbeat_interval : Z)
| ClientRefused (status : Status)
| ClientGone.

(** The service with its semaphore, the requests and the time. *)
Record StreamService (Sem : Type) := mkStreamService {
  ss_options : StreamServiceOptions;
  stream_semaphore : Sem;
  ss_clients : gmap nat ClientPhase;
  ss_clock : Z }.

Arguments mkStreamService {Sem} _ _ _ _.
Arguments ss_options {Sem} _.
Arguments stream_semaphore {Sem} _.
Arguments ss_clients {Sem} _.
Arguments ss_clock {Sem} _.

Section service.
Context {Sem : Type} `{!Semaphore Sem}.
Implicit Type self : StreamService Sem.

(** [StreamService::new]. *)
Definition stream_service_new (options : StreamServiceOptions) : outcome Status (StreamService Sem) :=
  stream_semaphore ← semaphore_new (max_concurrent_streams options);
  Ok (mkStreamService options stream_semaphore ∅ 0).

Definition current_stream_available self : Z := available_permits (stream_semaphore self).

Definition current_stream_count self : Z :=
  sub64 (max_concurrent_streams (ss_options self)) (available_permits (stream_semaphore self)).

(** A request moves on, with the semaphore as it leaves it. *)
Definition set_phase (client : nat) (phase : ClientPhase) (sem : Sem) self : StreamService Sem :=
  mkStreamService (ss_options self) sem (<[client := phase]> (ss_clients self)) (ss_clock self).

(** [stream_data], up to its wait. *)
Definition receive (client : nat) (request : StreamDataRequest) (initialized : bool) self : StreamService Sem :=
  let phase := if initialized then ClientWaiting request (ss_clock self) else ClientRefused Unavailable in
  set_phase client phase (stream_semaphore self) self.

(** The wait is over: with a permit, or without. *)
Definition grant (client : nat) (request : StreamDataRequest) (sem : Sem) self : StreamService Sem :=
  set_phase client (ClientChecking request) sem self.

Definition expire (client : nat) self : StreamService Sem :=
  set_phase client (ClientRefused ResourceExhausted) (stream_semaphore self) self.

(** The rest of [stream_data]: the permit is moved into the stream, and a request
    that is refused drops it. *)
Definition finish (client : nat) (r : outcome Status (DataStream * Z)) self : StreamService Sem :=
  match r with
  | Ok (ds, heartbeat_interval) => set_phase client (ClientStreaming ds heartbeat_interval) (stream_semaphore self) self
  | Err e => set_phase client (ClientRefused e) (drop_permit (stream_semaphore self)) self
  | Panic => set_phase client ClientGone (drop_permit (stream_semaphore self)) self
  end.

(** The requests and streams that own a permit. *)
Definition holds (phase : ClientPhase) : bool :=
  match phase with
  | ClientChecking _ | ClientStreaming _ _ => true
  | _ => false
  end.

(** The handler is dropped because its client went away, or the stream ends: what
    it owns is dropped. *)
Definition leave (client : nat) (phase : ClientPhase) self : StreamService Sem :=
  let sem := stream_semaphore self in
  set_phase client ClientGone (if holds phase then drop_permit sem else sem) self.

Definition elapse (time : Z) self : StreamService Sem :=
  mkStreamService (ss_options self) (stream_semaphore self) (ss_clients self) (ss_clock self + time).

End service.

(** ** The interleavings *)

(** [tokio::time::timeout] gives up only when its time has passed. *)
Section interleaving.
Context {Sem W : Type} `{!Semaphore Sem, !ServerOps W, !BlockFilterFactory, !DurationConversion}.
Variable fragment_id_to_name : gmap Z string.

Inductive serve_step : W * StreamService Sem -> W * StreamService Sem -> Prop :=
| serve_world w w' s : serve_step (w, s) (w', s)
| serve_receive w w' s client request initialized :
    ss_clients s !! client = None ->
    view_initialized w = (Ok initialized, w') ->
    serve_step (w, s) (w', receive client request initialized s)
| serve_grant w s client request t sem :
    ss_clients s !! client = Some (ClientWaiting request t) ->
    acquire_owned (stream_semaphore s) = Some sem ->
    serve_step (w, s) (w, grant client request sem s)
| serve_expire w s client request t :
    ss_clients s !! client = Some (ClientWaiting request t) ->
    t + STREAM_SEMAPHORE_ACQUIRE_TIMEOUT <= ss_clock s ->
    serve_step (w, s) (w, expire client s)
| serve_finish w w' s client request r :
    ss_clients s !! client = Some (ClientChecking request) ->
    stream_checks fragment_id_to_name (so_prefetch_segment_count (ss_options s)) (so_channel_size (ss_options s)) request w = (r, w') ->
    serve_step (w, s) (w', finish client r s)
| serve_leave w s client phase :
    ss_clients s !! client = Some phase ->
    serve_step (w, s) (w, leave client phase s)
| serve_elapse w s time :
    0 <= time -> serve_step (w, s) (w, elapse time s).
End interleaving.
