(* ===== verification/StreamPoolSpec.v ===== *)
(** * The streams of a server: properties

    The permits that are missing from the semaphore are exactly those of the requests
    that are checked and of the streams that run, whatever semaphore obeys the counts
    of its documentation: no path of a request or a stream loses a permit or returns
    it twice. *)

From S2P Require Import Prelude External Text Core Cloud StateClient ObjectStore Chain ChainView Index Query.
From S2P Require Import Encoding FragmentAccess FilterBlock BlockStore Compaction CompactionService DataStream Server ServerSpec StreamPool.
From S2P Require Import ChainFacts ChainSpec ChainViewFacts ChainViewSpec.

(** The requests that hold a permit. *)
Definition holders (clients : gmap nat ClientPhase) : gmap nat ClientPhase := filter (fun cp => holds cp.2 = true) clients.

Definition holding (clients : gmap nat ClientPhase) : Z := Z.of_nat (size (holders clients)).

Definition held (phase : option ClientPhase) : Z := match phase with Some phase => Z.b2z (holds phase) | None => 0 end.

Lemma holding_insert clients c phase :
  holding (<[c := phase]> clients) = holding clients + Z.b2z (holds phase) - held (clients !! c).
Proof.
  assert (Hc : holders clients !! c = match clients !! c with Some p => if holds p then Some p else None | None => None end).
  { unfold holders. destruct (clients !! c) as [p|] eqn:Hc; [|by apply map_lookup_filter_None_2; left].
    destruct (holds p) eqn:Hp; [by apply map_lookup_filter_Some|].
    apply map_lookup_filter_None. right. intros q Hq. cbn. congruence. }
  assert (Hpos : is_Some (holders clients !! c) -> (0 < size (holders clients))%nat).
  { intros [p Hp]. apply Nat.neq_0_lt_0. intros Hs%map_size_empty_inv. by rewrite Hs, lookup_empty in Hp. }
  unfold holding. destruct (holds phase) eqn:Hphase.
  - replace (holders (<[c := phase]> clients)) with (<[c := phase]> (holders clients)) by (symmetry; by apply map_filter_insert_True).
    rewrite map_size_insert, Hc. destruct (clients !! c) as [p|]; cbn [held]; [destruct (holds p)|]; cbn; lia.
  - replace (holders (<[c := phase]> clients)) with (delete c (holders clients)).
    2: { unfold holders. rewrite map_filter_insert_False, map_filter_delete; [done|]. cbn. congruence. }
    rewrite map_size_delete. revert Hpos. rewrite Hc. destruct (clients !! c) as [p|]; cbn [held]; [destruct (holds p)|]; cbn; [|lia..].
    intros Hpos. specialize (Hpos ltac:(eauto)). lia.
Qed.

(** ** The invariant *)

Section serving.
Context {Sem W : Type} `{!Semaphore Sem, !SemaphoreLaws Sem, !ServerOps W, !BlockFilterFactory, !DurationConversion}.
Variable names : gmap Z string.
Implicit Types (w : W) (s : StreamService Sem).

(** A permit is in the semaphore or held. *)
Definition pool_ok s : Prop :=
  0 <= available_permits (stream_semaphore s) /\
  available_permits (stream_semaphore s) + holding (ss_clients s) = max_concurrent_streams (ss_options s).

Lemma holding_nonneg clients : 0 <= holding clients.
Proof. unfold holding. lia. Qed.

Lemma set_phase_ok s c phase sem :
  pool_ok s -> 0 <= available_permits sem ->
  available_permits sem + Z.b2z (holds phase) =
    available_permits (stream_semaphore s) + held (ss_clients s !! c) ->
  pool_ok (set_phase c phase sem s).
Proof.
  intros [_ Hs] Hsem Hp. split; [done|]. cbn [set_phase stream_semaphore ss_clients ss_options].
  rewrite holding_insert. lia.
Qed.

Lemma serve_step_ok w s w' s' :
  serve_step names (w, s) (w', s') -> pool_ok s -> pool_ok s' /\ ss_options s' = ss_options s.
Proof.
  intros Hstep Hs. pose proof Hs as [Hpos Hsum].
  inversion Hstep as [|? ? ? c request b Hn|? ? c request t sem Hc Hacq|? ? c request t Hc|? ? ? c request r Hc|
    ? ? c phase Hc|]; subst; try done.
  - split; [|done]. apply set_phase_ok; [done|done|]. rewrite Hn. by destruct b; cbn; lia.
  - destruct (acquire_permit _ _ Hacq) as [H1 H2]. split; [|done]. apply set_phase_ok; [done|lia|].
    rewrite Hc. cbn. lia.
  - split; [|done]. apply set_phase_ok; [done|done|]. rewrite Hc. by cbn; lia.
  - unfold finish. destruct r as [[ds i]|e|]; (split; [|done]); apply set_phase_ok; rewrite ?permit_dropped; try done;
      rewrite ?Hc; cbn; lia.
  - unfold leave. split; [|done]. destruct (holds phase) eqn:Hh; apply set_phase_ok; rewrite ?permit_dropped; try done;
      try lia; rewrite Hc; cbn; rewrite Hh; cbn; lia.
Qed.

Lemma serving_ok w0 s0 w s :
  rtc (serve_step names) (w0, s0) (w, s) -> pool_ok s0 -> pool_ok s /\ ss_options s = ss_options s0.
Proof.
  intros Hr. remember (w, s) as to eqn:Hto. remember (w0, s0) as from eqn:Hfrom. revert w0 s0 w s Hfrom Hto.
  induction Hr as [x|x [w1 s1] z Hxy Hyz IH]; intros w0 s0 w s -> [=]; subst; [done|]. intros H0s.
  destruct (serve_step_ok _ _ _ _ Hxy H0s) as [H1 Ho1]. destruct (IH _ _ _ _ eq_refl eq_refl H1) as [Hs Ho].
  split; [done|]. congruence.
Qed.

Lemma new_ok options s :
  0 <= max_concurrent_streams options -> stream_service_new options = Ok s ->
  pool_ok s /\ ss_options s = options.
Proof.
  intros Hm. unfold stream_service_new. destruct (semaphore_new _) as [sem|e|] eqn:Hnew; [|done|done].
  intros [= <-]. destruct (new_permits _ _ Hm Hnew) as [_ Hp]. split; [|done].
  unfold pool_ok. cbn [stream_semaphore ss_clients ss_options]. rewrite Hp.
  unfold holding, holders. rewrite map_filter_empty, map_size_empty. lia.
Qed.

(** (C20) The slots of the streams.  For every semaphore with the documented counts,
    and in every interleaving of requests, grants in any order, timeouts, refusals,
    aborted handlers, streams that end and clients that leave, the number of streams
    that the server counts is the number of requests and streams that hold a permit,
    and is at most the maximum (the subtraction does not wrap).  No slot is lost and
    none is given twice: a request that waits can be granted a slot exactly when
    fewer than the maximum are held.  In a step, such a request is granted a slot
    that was free, or refused as too many after waiting for a second or more, or it
    goes on waiting, or its handler is dropped. *)
Theorem stream_slots options s0 w0 w s :
  is_u64 (max_concurrent_streams options) -> stream_service_new options = Ok s0 ->
  rtc (serve_step names) (w0, s0) (w, s) ->
  current_stream_count s = holding (ss_clients s) /\
  current_stream_count s + current_stream_available s = max_concurrent_streams options /\
  0 <= current_stream_available s /\
  forall c request t, ss_clients s !! c = Some (ClientWaiting request t) ->
    ((exists sem, serve_step names (w, s) (w, grant c request sem s)) <->
     holding (ss_clients s) < max_concurrent_streams options) /\
    forall w' s', serve_step names (w, s) (w', s') ->
      match ss_clients s' !! c with
      | Some (ClientWaiting request' t') => request' = request /\ t' = t
      | Some (ClientChecking request') =>
          request' = request /\ holding (ss_clients s) < max_concurrent_streams options /\
          holding (ss_clients s') = holding (ss_clients s) + 1
      | Some (ClientRefused e) =>
          e = ResourceExhausted /\ t + STREAM_SEMAPHORE_ACQUIRE_TIMEOUT <= ss_clock s
      | Some ClientGone => True
      | _ => False
      end.
Proof.
  intros [Hm0 Hm1] Hnew Hreach. destruct (new_ok _ _ Hm0 Hnew) as [Hinit <-].
  destruct (serving_ok _ _ _ _ Hreach Hinit) as [Hs Ho]. pose proof Hs as [Hpos Hsum]. rewrite Ho in Hsum.
  pose proof (holding_nonneg (ss_clients s)).
  unfold current_stream_count, current_stream_available. rewrite Ho, sub64_id by lia.
  split_and!; [lia|lia|done|]. intros c request t Hc.
  assert (forall sem, acquire_owned (stream_semaphore s) = Some sem ->
    holding (ss_clients s) < max_concurrent_streams (ss_options s0)) as Hfree.
  { intros sem Hacq. destruct (acquire_permit _ _ Hacq). lia. }
  assert (forall sem, holding (ss_clients (grant c request sem s)) = holding (ss_clients s) + 1) as Hgrant.
  { intros sem. cbn [grant set_phase ss_clients]. rewrite holding_insert, Hc. cbn. lia. }
  split.
  - split; [intros [sem Hstep]|intros Hlt].
    + pose proof (serve_step_ok _ _ _ _ Hstep Hs) as [[Hp2 Hs2] _].
      rewrite Hgrant in Hs2. cbn [grant set_phase ss_options] in Hs2. rewrite Ho in Hs2. lia.
    + destruct (acquire_owned (stream_semaphore s)) as [sem|] eqn:Hacq.
      * exists sem. by eapply serve_grant.
      * pose proof (acquire_waits _ Hacq). lia.
  - intros w' s' Hstep.
    inversion Hstep as [|? ? ? c' request' b Hn|? ? c' request' t' sem Hc' Hacq|? ? c' request' t' Hc' Hle|
      ? ? ? c' request' r Hc'|? ? c' phase Hc'|]; subst; try (by cbn; rewrite Hc).
    + assert (c <> c') by congruence. cbn. by rewrite lookup_insert_ne, Hc.
    + destruct (decide (c = c')) as [<-|Hne]; [|cbn; by rewrite lookup_insert_ne, Hc].
      rewrite Hc in Hc'. injection Hc' as <- <-. rewrite Hgrant. cbn [grant set_phase ss_clients].
      rewrite lookup_insert_eq. split_and!; [done|by eapply Hfree|done].
    + destruct (decide (c = c')) as [<-|Hne]; [|cbn; by rewrite lookup_insert_ne, Hc].
      rewrite Hc in Hc'. injection Hc' as <- <-. cbn. by rewrite lookup_insert_eq.
    + assert (c <> c') by congruence. unfold finish. destruct r as [[]|e|]; cbn; by rewrite lookup_insert_ne, Hc.
    + destruct (decide (c = c')) as [<-|Hne]; cbn; [by rewrite lookup_insert_eq|by rewrite lookup_insert_ne, Hc].
Qed.
End serving.

(** ** A witness *)

Module StreamPoolWitness.
#[local] Existing Instance ServerWitness.example_factory.
#[local] Existing Instance ServerWitness.example_duration.

(** A semaphore that only counts. *)
#[local] Instance counter_semaphore : Semaphore Z := {|
  semaphore_new n := if n <=? MAX_PERMITS then Ok n else Panic;
  available_permits n := n;
  acquire_owned n := if 0 <? n then Some (n - 1) else None;
  drop_permit n := n + 1 |}.

#[local] Instance counter_semaphore_laws : SemaphoreLaws Z.
Proof.
  split; cbn.
  - intros n sem _. destruct (Z.leb_spec n MAX_PERMITS); [|done]. by intros [= <-].
  - intros n e. by destruct (n <=? MAX_PERMITS).
  - intros n n'. destruct (Z.ltb_spec 0 n); [|done]. intros [= <-]. lia.
  - intros n. destruct (Z.ltb_spec 0 n); [done|]. lia.
  - done.
Qed.

(** A server of one stream and two requests. *)
#[local] Instance example_server : ServerOps unit :=
  view_server (fun _ => true) (fun _ : unit => example_view) (fun w => (Ok Acquired, w)).

Definition one_stream : StreamServiceOptions := mkStreamServiceOptions 1 4 8.

Definition first_state : StreamService Z := mkStreamService one_stream 1 ∅ 0.

Definition any_request : StreamDataRequest := mkStreamDataRequest None None [] None.

Definition full_state : StreamService Z :=
  elapse (from_secs 2) (receive 2 any_request true (grant 1 any_request 0 (receive 1 any_request true first_state))).

Lemma full_reached : rtc (serve_step ∅) (tt, first_state) (tt, full_state).
Proof.
  eapply rtc_l; [apply (serve_receive ∅ tt tt _ 1%nat any_request true); vm_compute; reflexivity|].
  eapply rtc_l; [apply (serve_grant ∅ tt _ 1%nat any_request 0 0); vm_compute; reflexivity|].
  eapply rtc_l; [apply (serve_receive ∅ tt tt _ 2%nat any_request true); vm_compute; reflexivity|].
  apply rtc_once, serve_elapse. by vm_compute.
Qed.

(** The slot is taken: the second request cannot be granted one. *)
Lemma stream_slots_witness :
  current_stream_count full_state = holding (ss_clients full_state) /\
  ~ exists sem, serve_step ∅ (tt, full_state) (tt, grant 2 any_request sem full_state).
Proof.
  destruct (stream_slots ∅ one_stream first_state tt tt full_state) as (Hcount & _ & _ & Hwait);
    [split; [discriminate|reflexivity]|reflexivity|exact full_reached|].
  split; [exact Hcount|].
  destruct (Hwait 2%nat any_request 0 ltac:(vm_compute; reflexivity)) as [Hgrant _].
  intros Hstep%Hgrant. revert Hstep. vm_compute. discriminate.
Defined.
End StreamPoolWitness.
