(* ===== verification/Models.v ===== *)
(** * The data of a Starknet node (starknet/src/provider/models.rs)

    The types that models.rs re-exports from the client library of the node,
    with the fields that the ingestion reads.  A [Felt] is the integer of a
    field element and is written as 32 bytes, most significant first. *)

From S2P Require Import Prelude External Core.

(** ** Field elements *)

Abbreviation Felt := Z.

Definition FELT_PRIME : Z := 2 ^ 251 + 17 * 2 ^ 192 + 1.

Definition is_felt (f : Felt) : Prop := 0 <= f < FELT_PRIME.

(** [to_be_bytes] of an unsigned integer of [n] bytes. *)
Fixpoint be_bytes (n : nat) (z : Z) : list byte :=
  match n with
  | O => []
  | S n => be_bytes n (z / 256) ++ [Reference.byte_of_Z (z mod 256)]
  end.

(** [Felt::to_bytes_be]. *)
Definition to_bytes_be (f : Felt) : list byte := be_bytes 32 f.

Lemma length_be_bytes n z : length (be_bytes n z) = n.
Proof. revert z. induction n as [|n IH]; intros z; simpl; [done|]. rewrite length_app, IH. simpl. lia. Qed.

Lemma be_value_be_bytes n z : be_value (be_bytes n z) = z mod 256 ^ Z.of_nat n.
Proof.
  revert z. induction n as [|n IH]; intros z; simpl be_bytes.
  { simpl. by rewrite Z.mod_1_r. }
  rewrite be_value_app, IH. pose proof (Z.mod_pos_bound z 256).
  change (be_value [Reference.byte_of_Z (z mod 256)]) with (0 * 256 + byte_val (Reference.byte_of_Z (z mod 256))).
  rewrite Reference.byte_val_of_Z by lia. rewrite Nat2Z.inj_succ, Z.pow_succ_r by lia.
  simpl length. change (256 ^ Z.of_nat 1) with 256. rewrite Z.rem_mul_r by lia. lia.
Qed.

Lemma be_bytes_value n bs : length bs = n -> be_bytes n (be_value bs) = bs.
Proof.
  intros Hl. apply be_value_inj; [by rewrite length_be_bytes|]. rewrite be_value_be_bytes.
  apply Z.mod_small. rewrite <- Hl. apply be_value_bound.
Qed.

Lemma be_bytes_inj n a b : 0 <= a < 256 ^ Z.of_nat n -> 0 <= b < 256 ^ Z.of_nat n ->
  be_bytes n a = be_bytes n b -> a = b.
Proof.
  intros Ha Hb Heq%(f_equal be_value). rewrite !be_value_be_bytes, !Z.mod_small in Heq by done. done.
Qed.

Lemma to_bytes_be_inj a b : is_felt a -> is_felt b -> to_bytes_be a = to_bytes_be b -> a = b.
Proof.
  intros Ha Hb. assert (FELT_PRIME < 256 ^ Z.of_nat 32) by reflexivity. unfold is_felt in *.
  apply be_bytes_inj; lia.
Qed.

(** ** Blocks *)

Record ResourcePrice := mkResourcePrice { price_in_fri : Felt; price_in_wei : Felt }.

Inductive L1DataAvailabilityMode := Blob | Calldata.
Inductive DataAvailabilityMode := L1 | L2.
Inductive PriceUnit := Wei | Fri.

Record ResourceBounds := mkResourceBounds { max_amount : Z; max_price_per_unit : Z }.

Record ResourceBoundsMapping := mkResourceBoundsMapping {
  rb_l1_gas : ResourceBounds; rb_l1_data_gas : ResourceBounds; rb_l2_gas : ResourceBounds }.

Record ExecutionResources := mkExecutionResources { er_l1_gas : Z; er_l1_data_gas : Z; er_l2_gas : Z }.

Record FeePayment := mkFeePayment { fee_amount : Felt; fee_unit : PriceUnit }.

Inductive ExecutionResult := Succeeded | Reverted (reason : string).

Record Event := mkEvent { ev_from_address : Felt; ev_keys : list Felt; ev_data : list Felt }.

Record MsgToL1 := mkMsgToL1 { msg_from_address : Felt; msg_to_address : Felt; msg_payload : list Felt }.

(** ** Transactions *)

Record InvokeTransactionV0Content := mkInvokeV0 {
  iv0_max_fee : Felt; iv0_signature : list Felt; iv0_contract_address : Felt;
  iv0_entry_point_selector : Felt; iv0_calldata : list Felt }.

Record InvokeTransactionV1Content := mkInvokeV1 {
  iv1_sender_address : Felt; iv1_calldata : list Felt; iv1_max_fee : Felt;
  iv1_signature : list Felt; iv1_nonce : Felt }.

Record InvokeTransactionV3Content := mkInvokeV3 {
  iv3_sender_address : Felt; iv3_calldata : list Felt; iv3_signature : list Felt; iv3_nonce : Felt;
  iv3_resource_bounds : ResourceBoundsMapping; iv3_tip : Z; iv3_paymaster_data : list Felt;
  iv3_account_deployment_data : list Felt; iv3_nonce_data_availability_mode : DataAvailabilityMode;
  iv3_fee_data_availability_mode : DataAvailabilityMode }.

Record L1HandlerTransactionContent := mkL1Handler {
  l1_nonce : Z; l1_contract_address : Felt; l1_entry_point_selector : Felt; l1_calldata : list Felt }.

Record DeclareTransactionV0Content := mkDeclareV0 {
  dv0_sender_address : Felt; dv0_max_fee : Felt; dv0_signature : list Felt; dv0_class_hash : Felt }.

Record DeclareTransactionV1Content := mkDeclareV1 {
  dv1_sender_address : Felt; dv1_max_fee : Felt; dv1_signature : list Felt; dv1_nonce : Felt;
  dv1_class_hash : Felt }.

Record DeclareTransactionV2Content := mkDeclareV2 {
  dv2_sender_address : Felt; dv2_compiled_class_hash : Felt; dv2_max_fee : Felt;
  dv2_signature : list Felt; dv2_nonce : Felt; dv2_class_hash : Felt }.

Record DeclareTransactionV3Content := mkDeclareV3 {
  dv3_sender_address : Felt; dv3_compiled_class_hash : Felt; dv3_signature : list Felt; dv3_nonce : Felt;
  dv3_class_hash : Felt; dv3_resource_bounds : ResourceBoundsMapping; dv3_tip : Z;
  dv3_paymaster_data : list Felt; dv3_account_deployment_data : list Felt;
  dv3_nonce_data_availability_mode : DataAvailabilityMode;
  dv3_fee_data_availability_mode : DataAvailabilityMode }.

Record DeployTransactionContent := mkDeploy {
  dp_contract_address_salt : Felt; dp_constructor_calldata : list Felt; dp_class_hash : Felt }.

Record DeployAccountTransactionV1Content := mkDeployAccountV1 {
  da1_max_fee : Felt; da1_signature : list Felt; da1_nonce : Felt; da1_contract_address_salt : Felt;
  da1_constructor_calldata : list Felt; da1_class_hash : Felt }.

Record DeployAccountTransactionV3Content := mkDeployAccountV3 {
  da3_signature : list Felt; da3_nonce : Felt; da3_contract_address_salt : Felt;
  da3_constructor_calldata : list Felt; da3_class_hash : Felt; da3_resource_bounds : ResourceBoundsMapping;
  da3_tip : Z; da3_paymaster_data : list Felt; da3_nonce_data_availability_mode : DataAvailabilityMode;
  da3_fee_data_availability_mode : DataAvailabilityMode }.

Inductive InvokeTransactionContent :=
| InvokeV0 (tx : InvokeTransactionV0Content)
| InvokeV1 (tx : InvokeTransactionV1Content)
| InvokeV3 (tx : InvokeTransactionV3Content).

Inductive DeclareTransactionContent :=
| DeclareV0 (tx : DeclareTransactionV0Content)
| DeclareV1 (tx : DeclareTransactionV1Content)
| DeclareV2 (tx : DeclareTransactionV2Content)
| DeclareV3 (tx : DeclareTransactionV3Content).

Inductive DeployAccountTransactionContent :=
| DeployAccountV1 (tx : DeployAccountTransactionV1Content)
| DeployAccountV3 (tx : DeployAccountTransactionV3Content).

Inductive TransactionContent :=
| Invoke (tx : InvokeTransactionContent)
| L1Handler (tx : L1HandlerTransactionContent)
| DeclareTx (tx : DeclareTransactionContent)
| Deploy (tx : DeployTransactionContent)
| DeployAccount (tx : DeployAccountTransactionContent).

(** ** Receipts *)

(** The fields that the receipts of all kinds have. *)
Record ReceiptFields := mkReceiptFields {
  rx_transaction_hash : Felt; rx_actual_fee : FeePayment; rx_execution_resources : ExecutionResources;
  rx_execution_result : ExecutionResult; rx_events : list Event; rx_messages_sent : list MsgToL1 }.

Inductive TransactionReceipt :=
| InvokeReceipt (rx : ReceiptFields)
| L1HandlerReceipt (rx : ReceiptFields) (message_hash : list byte)
| DeclareReceipt (rx : ReceiptFields)
| DeployReceipt (rx : ReceiptFields) (contract_address : Felt)
| DeployAccountReceipt (rx : ReceiptFields) (contract_address : Felt).

Definition receipt_fields (self : TransactionReceipt) : ReceiptFields :=
  match self with
  | InvokeReceipt rx | L1HandlerReceipt rx _ | DeclareReceipt rx | DeployReceipt rx _ | DeployAccountReceipt rx _ => rx
  end.

(** [TransactionReceipt::transaction_hash] and [execution_result]. *)
Definition transaction_hash (self : TransactionReceipt) : Felt := rx_transaction_hash (receipt_fields self).
Definition execution_result (self : TransactionReceipt) : ExecutionResult := rx_execution_result (receipt_fields self).

Record TransactionWithReceipt := mkTransactionWithReceipt {
  tr_transaction : TransactionContent; tr_receipt : TransactionReceipt }.

Record BlockWithReceipts := mkBlockWithReceipts {
  bk_block_hash : Felt; bk_parent_hash : Felt; bk_block_number : Z; bk_new_root : Felt; bk_timestamp : Z;
  bk_sequencer_address : Felt; bk_l1_gas_price : ResourcePrice; bk_l2_gas_price : ResourcePrice;
  bk_l1_data_gas_price : ResourcePrice; bk_l1_da_mode : L1DataAvailabilityMode; bk_starknet_version : string;
  bk_transactions : list TransactionWithReceipt }.

Record PreConfirmedBlockWithReceipts := mkPreConfirmedBlock {
  pc_block_number : Z; pc_timestamp : Z; pc_sequencer_address : Felt; pc_l1_gas_price : ResourcePrice;
  pc_l2_gas_price : ResourcePrice; pc_l1_data_gas_price : ResourcePrice;
  pc_l1_da_mode : L1DataAvailabilityMode; pc_starknet_version : string;
  pc_transactions : list TransactionWithReceipt }.

Inductive MaybePreConfirmedBlockWithReceipts :=
| ReceiptsBlock (block : BlockWithReceipts)
| ReceiptsPreConfirmed (block : PreConfirmedBlockWithReceipts).

Inductive BlockStatus := BlockPending | AcceptedOnL2 | AcceptedOnL1 | BlockRejected.

Record BlockWithTxHashes := mkBlockWithTxHashes {
  bh_status : BlockStatus; bh_block_hash : Felt; bh_parent_hash : Felt; bh_block_number : Z }.

(** Nothing of a pre-confirmed block with hashes is read. *)
Inductive MaybePreConfirmedBlockWithTxHashes :=
| HashesBlock (block : BlockWithTxHashes)
| HashesPreConfirmed.

(** ** State updates *)

Record StorageEntry := mkStorageEntry { se_key : Felt; se_value : Felt }.
Record ContractStorageDiffItem := mkStorageDiffItem { sd_address : Felt; sd_storage_entries : list StorageEntry }.
Record DeclaredClassItem := mkDeclaredClassItem { dc_class_hash : Felt; dc_compiled_class_hash : Felt }.
Record ReplacedClassItem := mkReplacedClassItem { rc_contract_address : Felt; rc_class_hash : Felt }.
Record DeployedContractItem := mkDeployedContractItem { dy_address : Felt; dy_class_hash : Felt }.
Record NonceUpdate := mkNonceUpdate { nu_contract_address : Felt; nu_nonce : Felt }.

Record StateDiff := mkStateDiff {
  df_storage_diffs : list ContractStorageDiffItem;
  df_deprecated_declared_classes : list Felt;
  df_declared_classes : list DeclaredClassItem;
  df_deployed_contracts : list DeployedContractItem;
  df_replaced_classes : list ReplacedClassItem;
  df_nonces : list NonceUpdate }.

Inductive MaybePreConfirmedStateUpdate :=
| Update (state_diff : StateDiff)
| PreConfirmedUpdate (state_diff : StateDiff).

(** ** Traces *)

Inductive CallType := LibraryCall | Call | Delegate.

(** Events and messages are given by their order. *)
Inductive FunctionInvocation := mkFunctionInvocation {
  fn_contract_address : Felt; fn_entry_point_selector : Felt; fn_calldata : list Felt;
  fn_caller_address : Felt; fn_class_hash : Felt; fn_call_type : CallType; fn_result : list Felt;
  fn_calls : list FunctionInvocation; fn_events : list Z; fn_messages : list Z }.

Inductive ExecuteInvocation :=
| ExecuteSuccess (invocation : FunctionInvocation)
| ExecuteReverted (revert_reason : string).

Record InvokeTransactionTrace := mkInvokeTrace {
  it_validate_invocation : option FunctionInvocation; it_execute_invocation : ExecuteInvocation;
  it_fee_transfer_invocation : option FunctionInvocation }.

Record DeployAccountTransactionTrace := mkDeployAccountTrace {
  dt_validate_invocation : option FunctionInvocation; dt_constructor_invocation : FunctionInvocation;
  dt_fee_transfer_invocation : option FunctionInvocation }.

Record DeclareTransactionTrace := mkDeclareTrace {
  ct_validate_invocation : option FunctionInvocation; ct_fee_transfer_invocation : option FunctionInvocation }.

(** Nothing of the trace of an L1 handler is read. *)
Inductive TransactionTrace :=
| InvokeTrace (trace : InvokeTransactionTrace)
| DeployAccountTrace (trace : DeployAccountTransactionTrace)
| L1HandlerTrace
| DeclareTrace (trace : DeclareTransactionTrace).

Record TransactionTraceWithHash := mkTraceWithHash { tw_transaction_hash : Felt; tw_trace_root : TransactionTrace }.

(** ** models.rs: [BlockExt] *)

Definition is_finalized (self : MaybePreConfirmedBlockWithTxHashes) : bool :=
  match self with
  | HashesBlock block => match bh_status block with AcceptedOnL1 => true | _ => false end
  | HashesPreConfirmed => false
  end.

Definition block_ext_cursor (self : MaybePreConfirmedBlockWithTxHashes) : option Cursor :=
  match self with
  | HashesBlock block => Some (mkCursor (bh_block_number block) (to_bytes_be (bh_block_hash block)))
  | HashesPreConfirmed => None
  end.
