(* ===== verification/Starknet.v ===== *)
(** * The messages of the Starknet protocol (protocol/proto/starknet/v2)

    The messages that the build generates from common.proto, data.proto and
    filter.proto, and the helpers of protocol/src/helpers.rs on the two scalar
    types.  A message field is an [option], an enumeration is its number, and
    the encoding of a message is a parameter. *)

From S2P Require Import Prelude External Text Core Models.

(** ** Scalars *)

Record FieldElement := mkFieldElement { fe_x0 : Z; fe_x1 : Z; fe_x2 : Z; fe_x3 : Z }.

Record Uint128 := mkUint128 { u128_x0 : Z; u128_x1 : Z }.

#[export] Instance FieldElement_eq_dec : EqDecision FieldElement.
Proof. solve_decision. Defined.

(** [from_be_bytes_slice!(u64, bytes, start)]. *)
Definition from_be_bytes_slice (bytes : list byte) (start : nat) : Z := be_value (take 8 (drop start bytes)).

Definition field_from_bytes (bytes : list byte) : FieldElement :=
  mkFieldElement (from_be_bytes_slice bytes 0) (from_be_bytes_slice bytes 8)
    (from_be_bytes_slice bytes 16) (from_be_bytes_slice bytes 24).

Definition field_to_bytes (self : FieldElement) : list byte :=
  be_bytes 8 (fe_x0 self) ++ be_bytes 8 (fe_x1 self) ++ be_bytes 8 (fe_x2 self) ++ be_bytes 8 (fe_x3 self).

Definition uint128_from_bytes (bytes : list byte) : Uint128 :=
  mkUint128 (from_be_bytes_slice bytes 0) (from_be_bytes_slice bytes 8).

Definition uint128_to_bytes (self : Uint128) : list byte :=
  be_bytes 8 (u128_x0 self) ++ be_bytes 8 (u128_x1 self).

Inductive DecodeError := SizeTooBig | Missing0xPrefix | DecodeFromHex.

(** [hex::decode]: pairs of hexadecimal digits of either case. *)
Definition hex_value (b : byte) : option Z :=
  let v := byte_val b in
  if (48 <=? v) && (v <=? 57) then Some (v - 48)
  else if (97 <=? v) && (v <=? 102) then Some (v - 87)
  else if (65 <=? v) && (v <=? 70) then Some (v - 55)
  else None.

Fixpoint hex_decode (s : RString) : option (list byte) :=
  match s with
  | [] => Some []
  | a :: b :: s =>
      hi ← hex_value a; lo ← hex_value b; rest ← hex_decode s;
      Some (Reference.byte_of_Z (16 * hi + lo) :: rest)
  | _ => None
  end.

(** The macro [impl_scalar_helpers] for [FieldElement]. *)
Definition from_slice (bytes : list byte) : outcome DecodeError FieldElement :=
  let size := length bytes in
  if (32 <? size)%nat then Err SizeTooBig
  else Ok (field_from_bytes (replicate (32 - size) x00 ++ bytes)).

Definition from_hex (s : RString) : outcome DecodeError FieldElement :=
  if negb (bool_decide (str "0x" `prefix_of` s)) then Err Missing0xPrefix
  else
    bytes ←
      (if (length s mod 2 =? 1)%nat then ok_or DecodeFromHex (hex_decode (str "0" ++ drop 2 s))
       else ok_or DecodeFromHex (hex_decode (drop 2 s)));
    from_slice bytes.

Definition to_hex (self : FieldElement) : RString := str "0x" ++ hex_encode (field_to_bytes self).

(** ** Data *)

Definition TransactionStatus_Succeeded : Z := 1.
Definition TransactionStatus_Reverted : Z := 2.

Record ResourcePrice := mkResourcePrice {
  price_in_fri : option FieldElement; price_in_wei : option FieldElement }.

Record Timestamp := mkTimestamp { seconds : Z; nanos : Z }.

Record BlockHeader := mkBlockHeader {
  block_hash : option FieldElement; parent_block_hash : option FieldElement; block_number : Z;
  sequencer_address : option FieldElement; new_root : option FieldElement; timestamp : option Timestamp;
  starknet_version : string; l1_gas_price : option ResourcePrice; l1_data_gas_price : option ResourcePrice;
  l1_data_availability_mode : Z; l2_gas_price : option ResourcePrice }.

Record ResourceBounds := mkResourceBounds { max_amount : Z; max_price_per_unit : option Uint128 }.

Record ResourceBoundsMapping := mkResourceBoundsMapping {
  l1_gas : option ResourceBounds; l2_gas : option ResourceBounds }.

Record TransactionMeta := mkTransactionMeta {
  tm_transaction_index : Z; tm_transaction_hash : option FieldElement; tm_transaction_status : Z }.

Record InvokeTransactionV0 := mkInvokeV0 {
  iv0_max_fee : option FieldElement; iv0_signature : list FieldElement;
  iv0_contract_address : option FieldElement; iv0_entry_point_selector : option FieldElement;
  iv0_calldata : list FieldElement }.

Record InvokeTransactionV1 := mkInvokeV1 {
  iv1_sender_address : option FieldElement; iv1_calldata : list FieldElement;
  iv1_max_fee : option FieldElement; iv1_signature : list FieldElement; iv1_nonce : option FieldElement }.

Record InvokeTransactionV3 := mkInvokeV3 {
  iv3_sender_address : option FieldElement; iv3_calldata : list FieldElement;
  iv3_signature : list FieldElement; iv3_nonce : option FieldElement;
  iv3_resource_bounds : option ResourceBoundsMapping; iv3_tip : Z; iv3_paymaster_data : list FieldElement;
  iv3_account_deployment_data : list FieldElement; iv3_nonce_data_availability_mode : Z;
  iv3_fee_data_availability_mode : Z }.

Record L1HandlerTransaction := mkL1Handler {
  l1_nonce : Z; l1_contract_address : option FieldElement; l1_entry_point_selector : option FieldElement;
  l1_calldata : list FieldElement }.

Record DeployTransaction := mkDeploy {
  dp_contract_address_salt : option FieldElement; dp_constructor_calldata : list FieldElement;
  dp_class_hash : option FieldElement }.

Record DeclareTransactionV0 := mkDeclareV0 {
  dv0_sender_address : option FieldElement; dv0_max_fee : option FieldElement;
  dv0_signature : list FieldElement; dv0_class_hash : option FieldElement }.

Record DeclareTransactionV1 := mkDeclareV1 {
  dv1_sender_address : option FieldElement; dv1_max_fee : option FieldElement;
  dv1_signature : list FieldElement; dv1_nonce : option FieldElement; dv1_class_hash : option FieldElement }.

Record DeclareTransactionV2 := mkDeclareV2 {
  dv2_sender_address : option FieldElement; dv2_compiled_class_hash : option FieldElement;
  dv2_max_fee : option FieldElement; dv2_signature : list FieldElement; dv2_nonce : option FieldElement;
  dv2_class_hash : option FieldElement }.

Record DeclareTransactionV3 := mkDeclareV3 {
  dv3_sender_address : option FieldElement; dv3_compiled_class_hash : option FieldElement;
  dv3_signature : list FieldElement; dv3_nonce : option FieldElement; dv3_class_hash : option FieldElement;
  dv3_resource_bounds : option ResourceBoundsMapping; dv3_tip : Z; dv3_paymaster_data : list FieldElement;
  dv3_account_deployment_data : list FieldElement; dv3_nonce_data_availability_mode : Z;
  dv3_fee_data_availability_mode : Z }.

Record DeployAccountTransactionV1 := mkDeployAccountV1 {
  da1_max_fee : option FieldElement; da1_signature : list FieldElement; da1_nonce : option FieldElement;
  da1_contract_address_salt : option FieldElement; da1_constructor_calldata : list FieldElement;
  da1_class_hash : option FieldElement }.

Record DeployAccountTransactionV3 := mkDeployAccountV3 {
  da3_signature : list FieldElement; da3_nonce : option FieldElement;
  da3_contract_address_salt : option FieldElement; da3_constructor_calldata : list FieldElement;
  da3_class_hash : option FieldElement; da3_resource_bounds : option ResourceBoundsMapping; da3_tip : Z;
  da3_paymaster_data : list FieldElement; da3_nonce_data_availability_mode : Z;
  da3_fee_data_availability_mode : Z }.

(** [transaction::Transaction]. *)
Inductive TransactionKind :=
| TxInvokeV0 (tx : InvokeTransactionV0)
| TxInvokeV1 (tx : InvokeTransactionV1)
| TxInvokeV3 (tx : InvokeTransactionV3)
| TxL1Handler (tx : L1HandlerTransaction)
| TxDeploy (tx : DeployTransaction)
| TxDeclareV0 (tx : DeclareTransactionV0)
| TxDeclareV1 (tx : DeclareTransactionV1)
| TxDeclareV2 (tx : DeclareTransactionV2)
| TxDeclareV3 (tx : DeclareTransactionV3)
| TxDeployAccountV1 (tx : DeployAccountTransactionV1)
| TxDeployAccountV3 (tx : DeployAccountTransactionV3).

Record Transaction := mkTransaction {
  tx_filter_ids : list Z; tx_meta : option TransactionMeta; tx_transaction : option TransactionKind }.

Record FeePayment := mkFeePayment { fee_amount : option FieldElement; fee_unit : Z }.

Record DataAvailabilityResources := mkDataAvailability { dr_l1_gas : Z; dr_l1_data_gas : Z; dr_l2_gas : Z }.

(** No computation resources are ever sent. *)
Record ExecutionResources := mkExecutionResources {
  xr_computation : option unit; xr_data_availability : option DataAvailabilityResources }.

Inductive ExecutionResult := ExecutionSucceeded | ExecutionReverted (reason : string).

Record TransactionReceiptMeta := mkReceiptMeta {
  rm_transaction_index : Z; rm_transaction_hash : option FieldElement; rm_actual_fee : option FeePayment;
  rm_execution_resources : option ExecutionResources; rm_execution_result : option ExecutionResult }.

(** [transaction_receipt::Receipt]. *)
Inductive ReceiptKind :=
| RxInvoke
| RxL1Handler (message_hash : list byte)
| RxDeclare
| RxDeploy (contract_address : option FieldElement)
| RxDeployAccount (contract_address : option FieldElement).

Record TransactionReceipt := mkTransactionReceipt {
  rx_filter_ids : list Z; rx_meta : option TransactionReceiptMeta; rx_receipt : option ReceiptKind }.

Record Event := mkEvent {
  event_filter_ids : list Z; event_from_address : option FieldElement; event_keys : list FieldElement;
  event_data : list FieldElement; event_index : Z; event_transaction_index : Z;
  event_transaction_hash : option FieldElement; event_transaction_status : Z;
  event_index_in_transaction : Z }.

Record MessageToL1 := mkMessageToL1 {
  message_filter_ids : list Z; message_from_address : option FieldElement;
  message_to_address : option FieldElement; message_payload : list FieldElement; message_index : Z;
  message_transaction_index : Z; message_transaction_hash : option FieldElement;
  message_transaction_status : Z; message_index_in_transaction : Z }.

Record StorageEntry := mkStorageEntry { se_key : option FieldElement; se_value : option FieldElement }.

Record StorageDiff := mkStorageDiff {
  sd_filter_ids : list Z; sd_contract_address : option FieldElement; sd_storage_entries : list StorageEntry }.

Inductive Change :=
| DeclaredClass (class_hash compiled_class_hash : option FieldElement)
| ReplacedClass (contract_address class_hash : option FieldElement)
| DeployedContract (contract_address class_hash : option FieldElement).

Record ContractChange := mkContractChange { cc_filter_ids : list Z; cc_change : option Change }.

Record NonceUpdate := mkNonceUpdate {
  nu_filter_ids : list Z; nu_contract_address : option FieldElement; nu_nonce : option FieldElement }.

Inductive FunctionInvocation := mkFunctionInvocation {
  fn_contract_address : option FieldElement; fn_entry_point_selector : option FieldElement;
  fn_calldata : list FieldElement; fn_caller_address : option FieldElement;
  fn_class_hash : option FieldElement; fn_call_type : Z; fn_result : list FieldElement;
  fn_calls : list FunctionInvocation; fn_events : list Z; fn_messages : list Z }.

Inductive ExecuteInvocation :=
| ExecuteSuccess (invocation : FunctionInvocation)
| ExecuteReverted (reason : string).

(** [transaction_trace::TraceRoot]. *)
Inductive TraceRoot :=
| TraceInvoke (validate : option FunctionInvocation) (execute : option ExecuteInvocation)
    (fee_transfer : option FunctionInvocation)
| TraceDeclare (validate fee_transfer : option FunctionInvocation)
| TraceDeployAccount (validate constructor fee_transfer : option FunctionInvocation)
| TraceL1Handler (function_invocation : option FunctionInvocation) (execute : option ExecuteInvocation).

Record TransactionTrace := mkTransactionTrace {
  tt_filter_ids : list Z; tt_transaction_index : Z; tt_transaction_hash : option FieldElement;
  tt_trace_root : option TraceRoot }.

(** [prost::Message::encode_to_vec] of the messages that are stored. *)
Class StarknetEncoding := {
  encode_header_message : BlockHeader -> list byte;
  encode_transaction : Transaction -> list byte;
  encode_receipt : TransactionReceipt -> list byte;
  encode_event : Event -> list byte;
  encode_message : MessageToL1 -> list byte;
  encode_trace : TransactionTrace -> list byte;
  encode_storage_diff : StorageDiff -> list byte;
  encode_contract_change : ContractChange -> list byte;
  encode_nonce_update : NonceUpdate -> list byte }.

(** ** Filters *)

Record Key := mkKey { key_value : option FieldElement }.

Record EventFilter := mkEventFilter {
  ef_id : Z; ef_address : option FieldElement; ef_keys : list Key; ef_strict : option bool;
  ef_transaction_status : option Z; ef_include_transaction : option bool; ef_include_receipt : option bool;
  ef_include_messages : option bool; ef_include_siblings : option bool;
  ef_include_transaction_trace : option bool }.

Record MessageToL1Filter := mkMessageFilter {
  mf_id : Z; mf_from_address : option FieldElement; mf_to_address : option FieldElement;
  mf_transaction_status : option Z; mf_include_transaction : option bool; mf_include_receipt : option bool;
  mf_include_events : option bool; mf_include_siblings : option bool;
  mf_include_transaction_trace : option bool }.

(** [transaction_filter::Inner]. *)
Inductive TransactionFilterInner :=
| InnerInvokeV0 | InnerInvokeV1 | InnerInvokeV3 | InnerDeploy | InnerDeclareV0 | InnerDeclareV1
| InnerDeclareV2 | InnerDeclareV3 | InnerL1Handler | InnerDeployAccountV1 | InnerDeployAccountV3.

Record TransactionFilter := mkTransactionFilter {
  tf_id : Z; tf_transaction_status : option Z; tf_include_receipt : option bool;
  tf_include_events : option bool; tf_include_messages : option bool;
  tf_inner : option TransactionFilterInner; tf_include_trace : option bool }.

(** [TransactionStatusFilter] and its [TryFrom<i32>]. *)
Inductive TransactionStatusFilter := StatusUnspecified | StatusSucceeded | StatusReverted | StatusAll.

Definition status_filter_of_i32 (z : Z) : option TransactionStatusFilter :=
  if z =? 0 then Some StatusUnspecified else if z =? 1 then Some StatusSucceeded
  else if z =? 2 then Some StatusReverted else if z =? 3 then Some StatusAll else None.

Record StorageDiffFilter := mkStorageDiffFilter { sf_id : Z; sf_contract_address : option FieldElement }.

(** [contract_change_filter::Change]. *)
Inductive ChangeFilter := FilterDeclaredClass | FilterReplacedClass | FilterDeployedContract.

Record ContractChangeFilter := mkContractChangeFilter { cf_id : Z; cf_change : option ChangeFilter }.

Record NonceUpdateFilter := mkNonceUpdateFilter { nf_id : Z; nf_contract_address : option FieldElement }.

(** [HeaderFilter] and its [TryFrom<i32>]. *)
Inductive ProtoHeaderFilter := HeaderUnspecified | HeaderAlways | HeaderOnData | HeaderOnDataOrOnNewBlock.

Definition header_filter_of_i32 (z : Z) : option ProtoHeaderFilter :=
  if z =? 0 then Some HeaderUnspecified else if z =? 1 then Some HeaderAlways
  else if z =? 2 then Some HeaderOnData else if z =? 3 then Some HeaderOnDataOrOnNewBlock else None.

(** [starknet::Filter]. *)
Record ProtoFilter := mkProtoFilter {
  pf_header : Z; pf_transactions : list TransactionFilter; pf_events : list EventFilter;
  pf_messages : list MessageToL1Filter; pf_storage_diffs : list StorageDiffFilter;
  pf_contract_changes : list ContractChangeFilter; pf_nonce_updates : list NonceUpdateFilter }.

(** [Filter::decode]. *)
Class FilterDecoding := { decode_filter : list byte -> option ProtoFilter }.
