(* ===== verification/StarknetProto.v ===== *)
(** * From the node's data to messages (starknet/src/proto.rs)

    One instance of the trait [ModelExt] for each type that is converted.  A
    field that ingestion fills in later, such as an index, starts at a marker. *)

From S2P Require Import Prelude External Text Core Models Starknet.

Class ModelExt (A Proto : Type) := { to_proto : A -> Proto }.

Definition U32_MAX : Z := U32 - 1.

(** ** Scalars and enumerations *)

#[export] Instance felt_model : ModelExt Felt FieldElement := {|
  to_proto self := field_from_bytes (to_bytes_be self) |}.

(** [u128]; not an instance, since a felt is an integer as well. *)
Definition u128_to_proto (self : Z) : Uint128 := uint128_from_bytes (be_bytes 16 self).

#[export] Instance resource_price_model : ModelExt Models.ResourcePrice Starknet.ResourcePrice := {|
  to_proto self := Starknet.mkResourcePrice (Some (to_proto (Models.price_in_fri self)))
                     (Some (to_proto (Models.price_in_wei self))) |}.

#[export] Instance l1_da_mode_model : ModelExt L1DataAvailabilityMode Z := {|
  to_proto self := match self with Blob => 1 | Calldata => 2 end |}.

#[export] Instance da_mode_model : ModelExt DataAvailabilityMode Z := {|
  to_proto self := match self with L1 => 1 | L2 => 2 end |}.

#[export] Instance price_unit_model : ModelExt PriceUnit Z := {|
  to_proto self := match self with Wei => 1 | Fri => 2 end |}.

#[export] Instance call_type_model : ModelExt CallType Z := {|
  to_proto self := match self with LibraryCall => 1 | Call => 2 | Delegate => 3 end |}.

#[export] Instance resource_bounds_model : ModelExt Models.ResourceBounds Starknet.ResourceBounds := {|
  to_proto self := Starknet.mkResourceBounds (Models.max_amount self)
                     (Some (u128_to_proto (Models.max_price_per_unit self))) |}.

#[export] Instance resource_bounds_mapping_model :
    ModelExt Models.ResourceBoundsMapping Starknet.ResourceBoundsMapping := {|
  to_proto self := Starknet.mkResourceBoundsMapping (Some (to_proto (rb_l1_gas self)))
                     (Some (to_proto (rb_l2_gas self))) |}.

#[export] Instance execution_resources_model :
    ModelExt Models.ExecutionResources Starknet.ExecutionResources := {|
  to_proto self := Starknet.mkExecutionResources None
    (Some (mkDataAvailability (er_l1_gas self) (er_l1_data_gas self) (er_l2_gas self))) |}.

#[export] Instance fee_payment_model : ModelExt Models.FeePayment Starknet.FeePayment := {|
  to_proto self := Starknet.mkFeePayment (Some (to_proto (Models.fee_amount self)))
                     (to_proto (Models.fee_unit self)) |}.

#[export] Instance execution_result_model : ModelExt Models.ExecutionResult Starknet.ExecutionResult := {|
  to_proto self := match self with
                   | Succeeded => ExecutionSucceeded
                   | Reverted reason => ExecutionReverted reason
                   end |}.

(** ** Headers *)

(** [as i64]. *)
Definition as_i64 (z : Z) : Z := if z <? 2 ^ 63 then z else z - 2 ^ 64.

Definition convert_block_header (block : BlockWithReceipts) : BlockHeader :=
  mkBlockHeader (Some (to_proto (bk_block_hash block))) (Some (to_proto (bk_parent_hash block)))
    (bk_block_number block) (Some (to_proto (bk_sequencer_address block)))
    (Some (to_proto (bk_new_root block))) (Some (mkTimestamp (as_i64 (bk_timestamp block)) 0))
    (bk_starknet_version block) (Some (to_proto (bk_l1_gas_price block)))
    (Some (to_proto (bk_l1_gas_price block))) (to_proto (bk_l1_da_mode block))
    (Some (to_proto (bk_l2_gas_price block))).

Definition convert_pre_confirmed_block_header (block : PreConfirmedBlockWithReceipts) : BlockHeader :=
  mkBlockHeader None None (pc_block_number block) (Some (to_proto (pc_sequencer_address block)))
    None (Some (mkTimestamp (as_i64 (pc_timestamp block)) 0)) (pc_starknet_version block)
    (Some (to_proto (pc_l1_gas_price block))) (Some (to_proto (pc_l1_gas_price block)))
    (to_proto (pc_l1_da_mode block)) (Some (to_proto (pc_l2_gas_price block))).

(** ** Transactions *)

(** Every conversion starts with the same metadata. *)
Definition new_transaction (inner : TransactionKind) : Transaction :=
  mkTransaction [] (Some (mkTransactionMeta U32_MAX None 0)) (Some inner).

#[export] Instance invoke_v0_model : ModelExt InvokeTransactionV0Content Transaction := {|
  to_proto self := new_transaction (TxInvokeV0 (Starknet.mkInvokeV0
    (Some (to_proto (Models.iv0_max_fee self))) (to_proto <$> Models.iv0_signature self)
    (Some (to_proto (Models.iv0_contract_address self)))
    (Some (to_proto (Models.iv0_entry_point_selector self))) (to_proto <$> Models.iv0_calldata self))) |}.

#[export] Instance invoke_v1_model : ModelExt InvokeTransactionV1Content Transaction := {|
  to_proto self := new_transaction (TxInvokeV1 (Starknet.mkInvokeV1
    (Some (to_proto (Models.iv1_sender_address self))) (to_proto <$> Models.iv1_calldata self)
    (Some (to_proto (Models.iv1_max_fee self))) (to_proto <$> Models.iv1_signature self)
    (Some (to_proto (Models.iv1_nonce self))))) |}.

#[export] Instance invoke_v3_model : ModelExt InvokeTransactionV3Content Transaction := {|
  to_proto self := new_transaction (TxInvokeV3 (Starknet.mkInvokeV3
    (Some (to_proto (Models.iv3_sender_address self))) (to_proto <$> Models.iv3_calldata self)
    (to_proto <$> Models.iv3_signature self) (Some (to_proto (Models.iv3_nonce self)))
    (Some (to_proto (Models.iv3_resource_bounds self))) (Models.iv3_tip self)
    (to_proto <$> Models.iv3_paymaster_data self) (to_proto <$> Models.iv3_account_deployment_data self)
    (to_proto (Models.iv3_nonce_data_availability_mode self))
    (to_proto (Models.iv3_fee_data_availability_mode self)))) |}.

#[export] Instance invoke_model : ModelExt InvokeTransactionContent Transaction := {|
  to_proto self := match self with
                   | InvokeV0 tx => to_proto tx
                   | InvokeV1 tx => to_proto tx
                   | InvokeV3 tx => to_proto tx
                   end |}.

#[export] Instance l1_handler_model : ModelExt L1HandlerTransactionContent Transaction := {|
  to_proto self := new_transaction (TxL1Handler (Starknet.mkL1Handler (Models.l1_nonce self)
    (Some (to_proto (Models.l1_contract_address self)))
    (Some (to_proto (Models.l1_entry_point_selector self))) (to_proto <$> Models.l1_calldata self))) |}.

#[export] Instance declare_v0_model : ModelExt DeclareTransactionV0Content Transaction := {|
  to_proto self := new_transaction (TxDeclareV0 (Starknet.mkDeclareV0
    (Some (to_proto (Models.dv0_sender_address self))) (Some (to_proto (Models.dv0_max_fee self)))
    (to_proto <$> Models.dv0_signature self) (Some (to_proto (Models.dv0_class_hash self))))) |}.

#[export] Instance declare_v1_model : ModelExt DeclareTransactionV1Content Transaction := {|
  to_proto self := new_transaction (TxDeclareV1 (Starknet.mkDeclareV1
    (Some (to_proto (Models.dv1_sender_address self))) (Some (to_proto (Models.dv1_max_fee self)))
    (to_proto <$> Models.dv1_signature self) (Some (to_proto (Models.dv1_nonce self)))
    (Some (to_proto (Models.dv1_class_hash self))))) |}.

#[export] Instance declare_v2_model : ModelExt DeclareTransactionV2Content Transaction := {|
  to_proto self := new_transaction (TxDeclareV2 (Starknet.mkDeclareV2
    (Some (to_proto (Models.dv2_sender_address self)))
    (Some (to_proto (Models.dv2_compiled_class_hash self))) (Some (to_proto (Models.dv2_max_fee self)))
    (to_proto <$> Models.dv2_signature self) (Some (to_proto (Models.dv2_nonce self)))
    (Some (to_proto (Models.dv2_class_hash self))))) |}.

#[export] Instance declare_v3_model : ModelExt DeclareTransactionV3Content Transaction := {|
  to_proto self := new_transaction (TxDeclareV3 (Starknet.mkDeclareV3
    (Some (to_proto (Models.dv3_sender_address self)))
    (Some (to_proto (Models.dv3_compiled_class_hash self))) (to_proto <$> Models.dv3_signature self)
    (Some (to_proto (Models.dv3_nonce self))) (Some (to_proto (Models.dv3_class_hash self)))
    (Some (to_proto (Models.dv3_resource_bounds self))) (Models.dv3_tip self)
    (to_proto <$> Models.dv3_paymaster_data self) (to_proto <$> Models.dv3_account_deployment_data self)
    (to_proto (Models.dv3_nonce_data_availability_mode self))
    (to_proto (Models.dv3_fee_data_availability_mode self)))) |}.

#[export] Instance declare_model : ModelExt DeclareTransactionContent Transaction := {|
  to_proto self := match self with
                   | DeclareV0 tx => to_proto tx
                   | DeclareV1 tx => to_proto tx
                   | DeclareV2 tx => to_proto tx
                   | DeclareV3 tx => to_proto tx
                   end |}.

#[export] Instance deploy_model : ModelExt DeployTransactionContent Transaction := {|
  to_proto self := new_transaction (TxDeploy (Starknet.mkDeploy
    (Some (to_proto (Models.dp_contract_address_salt self)))
    (to_proto <$> Models.dp_constructor_calldata self) (Some (to_proto (Models.dp_class_hash self))))) |}.

#[export] Instance deploy_account_v1_model : ModelExt DeployAccountTransactionV1Content Transaction := {|
  to_proto self := new_transaction (TxDeployAccountV1 (Starknet.mkDeployAccountV1
    (Some (to_proto (Models.da1_max_fee self))) (to_proto <$> Models.da1_signature self)
    (Some (to_proto (Models.da1_nonce self))) (Some (to_proto (Models.da1_contract_address_salt self)))
    (to_proto <$> Models.da1_constructor_calldata self) (Some (to_proto (Models.da1_class_hash self))))) |}.

#[export] Instance deploy_account_v3_model : ModelExt DeployAccountTransactionV3Content Transaction := {|
  to_proto self := new_transaction (TxDeployAccountV3 (Starknet.mkDeployAccountV3
    (to_proto <$> Models.da3_signature self) (Some (to_proto (Models.da3_nonce self)))
    (Some (to_proto (Models.da3_contract_address_salt self)))
    (to_proto <$> Models.da3_constructor_calldata self) (Some (to_proto (Models.da3_class_hash self)))
    (Some (to_proto (Models.da3_resource_bounds self))) (Models.da3_tip self)
    (to_proto <$> Models.da3_paymaster_data self)
    (to_proto (Models.da3_nonce_data_availability_mode self))
    (to_proto (Models.da3_fee_data_availability_mode self)))) |}.

#[export] Instance deploy_account_model : ModelExt DeployAccountTransactionContent Transaction := {|
  to_proto self := match self with
                   | DeployAccountV1 tx => to_proto tx
                   | DeployAccountV3 tx => to_proto tx
                   end |}.

#[export] Instance transaction_model : ModelExt TransactionContent Transaction := {|
  to_proto self := match self with
                   | Invoke tx => to_proto tx
                   | L1Handler tx => to_proto tx
                   | DeclareTx tx => to_proto tx
                   | Deploy tx => to_proto tx
                   | DeployAccount tx => to_proto tx
                   end |}.

(** ** Receipts *)

Definition new_receipt (rx : ReceiptFields) (inner : ReceiptKind) : Starknet.TransactionReceipt :=
  mkTransactionReceipt []
    (Some (mkReceiptMeta U32_MAX (Some (to_proto (rx_transaction_hash rx))) (Some (to_proto (rx_actual_fee rx)))
             (Some (to_proto (rx_execution_resources rx))) (Some (to_proto (rx_execution_result rx)))))
    (Some inner).

Definition invoke_receipt_to_proto (rx : ReceiptFields) : Starknet.TransactionReceipt := new_receipt rx RxInvoke.

Definition l1_handler_receipt_to_proto (rx : ReceiptFields) (message_hash : list byte) : Starknet.TransactionReceipt :=
  new_receipt rx (RxL1Handler message_hash).

Definition declare_receipt_to_proto (rx : ReceiptFields) : Starknet.TransactionReceipt := new_receipt rx RxDeclare.

Definition deploy_receipt_to_proto (rx : ReceiptFields) (contract_address : Felt) : Starknet.TransactionReceipt :=
  new_receipt rx (RxDeploy (Some (to_proto contract_address))).

Definition deploy_account_receipt_to_proto (rx : ReceiptFields) (contract_address : Felt) : Starknet.TransactionReceipt :=
  new_receipt rx (RxDeployAccount (Some (to_proto contract_address))).

#[export] Instance receipt_model : ModelExt Models.TransactionReceipt Starknet.TransactionReceipt := {|
  to_proto self := match self with
                   | InvokeReceipt rx => invoke_receipt_to_proto rx
                   | L1HandlerReceipt rx message_hash => l1_handler_receipt_to_proto rx message_hash
                   | DeclareReceipt rx => declare_receipt_to_proto rx
                   | DeployReceipt rx contract_address => deploy_receipt_to_proto rx contract_address
                   | DeployAccountReceipt rx contract_address => deploy_account_receipt_to_proto rx contract_address
                   end |}.

(** ** Events and messages *)

#[export] Instance event_model : ModelExt Models.Event Starknet.Event := {|
  to_proto self := Starknet.mkEvent [] (Some (to_proto (ev_from_address self))) (to_proto <$> ev_keys self)
    (to_proto <$> ev_data self) U32_MAX U32_MAX None 0 U32_MAX |}.

#[export] Instance message_model : ModelExt MsgToL1 MessageToL1 := {|
  to_proto self := mkMessageToL1 [] (Some (to_proto (msg_from_address self)))
    (Some (to_proto (msg_to_address self))) (to_proto <$> msg_payload self) U32_MAX U32_MAX None 0 U32_MAX |}.

(** ** State updates *)

#[export] Instance storage_entry_model : ModelExt Models.StorageEntry Starknet.StorageEntry := {|
  to_proto self := Starknet.mkStorageEntry (Some (to_proto (Models.se_key self)))
                     (Some (to_proto (Models.se_value self))) |}.

#[export] Instance storage_diff_model : ModelExt ContractStorageDiffItem StorageDiff := {|
  to_proto self := mkStorageDiff [] (Some (to_proto (sd_address self)))
                     (to_proto <$> Models.sd_storage_entries self) |}.

(** The three messages of a contract change are given by the change itself. *)
#[export] Instance declared_class_model : ModelExt DeclaredClassItem Change := {|
  to_proto self := DeclaredClass (Some (to_proto (dc_class_hash self)))
                     (Some (to_proto (dc_compiled_class_hash self))) |}.

#[export] Instance replaced_class_model : ModelExt ReplacedClassItem Change := {|
  to_proto self := ReplacedClass (Some (to_proto (rc_contract_address self)))
                     (Some (to_proto (rc_class_hash self))) |}.

#[export] Instance deployed_contract_model : ModelExt DeployedContractItem Change := {|
  to_proto self := DeployedContract (Some (to_proto (dy_address self)))
                     (Some (to_proto (dy_class_hash self))) |}.

#[export] Instance nonce_update_model : ModelExt Models.NonceUpdate Starknet.NonceUpdate := {|
  to_proto self := Starknet.mkNonceUpdate [] (Some (to_proto (Models.nu_contract_address self)))
                     (Some (to_proto (Models.nu_nonce self))) |}.

(** ** Traces *)

Fixpoint invocation_to_proto (self : Models.FunctionInvocation) : Starknet.FunctionInvocation :=
  Starknet.mkFunctionInvocation (Some (to_proto (Models.fn_contract_address self)))
    (Some (to_proto (Models.fn_entry_point_selector self))) (to_proto <$> Models.fn_calldata self)
    (Some (to_proto (Models.fn_caller_address self))) (Some (to_proto (Models.fn_class_hash self)))
    (to_proto (Models.fn_call_type self)) (to_proto <$> Models.fn_result self)
    (map invocation_to_proto (Models.fn_calls self)) (wrap32 <$> Models.fn_events self)
    (wrap32 <$> Models.fn_messages self).

#[export] Instance invocation_model : ModelExt Models.FunctionInvocation Starknet.FunctionInvocation := {|
  to_proto := invocation_to_proto |}.

#[export] Instance execute_invocation_model :
    ModelExt Models.ExecuteInvocation Starknet.ExecuteInvocation := {|
  to_proto self := match self with
                   | Models.ExecuteSuccess invocation => Starknet.ExecuteSuccess (to_proto invocation)
                   | Models.ExecuteReverted reason => Starknet.ExecuteReverted reason
                   end |}.

#[export] Instance invoke_trace_model : ModelExt InvokeTransactionTrace TraceRoot := {|
  to_proto self := TraceInvoke (to_proto <$> it_validate_invocation self)
    (Some (to_proto (it_execute_invocation self))) (to_proto <$> it_fee_transfer_invocation self) |}.

#[export] Instance deploy_account_trace_model : ModelExt DeployAccountTransactionTrace TraceRoot := {|
  to_proto self := TraceDeployAccount (to_proto <$> dt_validate_invocation self)
    (Some (to_proto (dt_constructor_invocation self))) (to_proto <$> dt_fee_transfer_invocation self) |}.

#[export] Instance declare_trace_model : ModelExt DeclareTransactionTrace TraceRoot := {|
  to_proto self := TraceDeclare (to_proto <$> ct_validate_invocation self)
    (to_proto <$> ct_fee_transfer_invocation self) |}.

(** The invocations of an L1 handler are not sent. *)
Definition l1_handler_trace_to_proto : TraceRoot := TraceL1Handler None None.

#[export] Instance trace_root_model : ModelExt Models.TransactionTrace TraceRoot := {|
  to_proto self := match self with
                   | InvokeTrace trace => to_proto trace
                   | DeployAccountTrace trace => to_proto trace
                   | L1HandlerTrace => l1_handler_trace_to_proto
                   | DeclareTrace trace => to_proto trace
                   end |}.

#[export] Instance trace_model : ModelExt TransactionTraceWithHash Starknet.TransactionTrace := {|
  to_proto self := mkTransactionTrace [] U32_MAX (Some (to_proto (tw_transaction_hash self)))
                     (Some (to_proto (tw_trace_root self))) |}.
