(* ===== verification/StarknetFilter.v ===== *)
(** * Starknet filters (starknet/src/filter and fragment.rs)

    A client sends one message per filter; each becomes a [Filter] on the
    indexes of a fragment, and the filters of a request become the
    [BlockFilter] that the data stream evaluates. *)

From S2P Require Import Prelude External Text Core Models Index Query Server Starknet StarknetProto.

(** ** Fragments (fragment.rs) *)

Definition TRANSACTION_FRAGMENT_ID : Z := 2.
Definition RECEIPT_FRAGMENT_ID : Z := 3.
Definition EVENT_FRAGMENT_ID : Z := 4.
Definition MESSAGE_FRAGMENT_ID : Z := 5.
Definition STORAGE_DIFF_FRAGMENT_ID : Z := 6.
Definition CONTRACT_CHANGE_FRAGMENT_ID : Z := 7.
Definition NONCE_UPDATE_FRAGMENT_ID : Z := 8.
Definition TRACE_FRAGMENT_ID : Z := 9.

Definition TRANSACTION_FRAGMENT_NAME : string := "transaction".
Definition RECEIPT_FRAGMENT_NAME : string := "receipt".
Definition EVENT_FRAGMENT_NAME : string := "event".
Definition MESSAGE_FRAGMENT_NAME : string := "message".
Definition STORAGE_DIFF_FRAGMENT_NAME : string := "storage_diff".
Definition CONTRACT_CHANGE_FRAGMENT_NAME : string := "contract_change".
Definition NONCE_UPDATE_FRAGMENT_NAME : string := "nonce_update".
Definition TRACE_FRAGMENT_NAME : string := "trace".

Definition INDEX_TRANSACTION_BY_STATUS : Z := 0.
Definition INDEX_TRANSACTION_BY_TYPE : Z := 1.
Definition INDEX_EVENT_BY_ADDRESS : Z := 0.
Definition INDEX_EVENT_BY_KEY0 : Z := 1.
Definition INDEX_EVENT_BY_KEY1 : Z := 2.
Definition INDEX_EVENT_BY_KEY2 : Z := 3.
Definition INDEX_EVENT_BY_KEY3 : Z := 4.
Definition INDEX_EVENT_BY_KEY_LENGTH : Z := 5.
Definition INDEX_EVENT_BY_TRANSACTION_STATUS : Z := 6.
Definition INDEX_MESSAGE_BY_FROM_ADDRESS : Z := 0.
Definition INDEX_MESSAGE_BY_TO_ADDRESS : Z := 1.
Definition INDEX_MESSAGE_BY_TRANSACTION_STATUS : Z := 2.
Definition INDEX_STORAGE_DIFF_BY_CONTRACT_ADDRESS : Z := 0.
Definition INDEX_CONTRACT_CHANGE_BY_TYPE : Z := 0.
Definition INDEX_NONCE_UPDATE_BY_CONTRACT_ADDRESS : Z := 0.

(** [StarknetChainSupport::fragment_info]. *)
Definition fragment_info : list (Z * string) :=
  [(TRANSACTION_FRAGMENT_ID, TRANSACTION_FRAGMENT_NAME); (RECEIPT_FRAGMENT_ID, RECEIPT_FRAGMENT_NAME);
   (EVENT_FRAGMENT_ID, EVENT_FRAGMENT_NAME); (MESSAGE_FRAGMENT_ID, MESSAGE_FRAGMENT_NAME);
   (STORAGE_DIFF_FRAGMENT_ID, STORAGE_DIFF_FRAGMENT_NAME);
   (CONTRACT_CHANGE_FRAGMENT_ID, CONTRACT_CHANGE_FRAGMENT_NAME);
   (NONCE_UPDATE_FRAGMENT_ID, NONCE_UPDATE_FRAGMENT_NAME); (TRACE_FRAGMENT_ID, TRACE_FRAGMENT_NAME)].

(** ** Values of the indexes *)

Inductive TransactionType :=
| TypeInvokeV0 | TypeInvokeV1 | TypeInvokeV3 | TypeDeploy | TypeDeclareV0 | TypeDeclareV1 | TypeDeclareV2
| TypeDeclareV3 | TypeL1Handler | TypeDeployAccountV1 | TypeDeployAccountV3.

Definition transaction_type_value (self : TransactionType) : ScalarValue :=
  Uint32 match self with
         | TypeInvokeV0 => 0 | TypeInvokeV1 => 1 | TypeInvokeV3 => 2 | TypeDeploy => 3 | TypeDeclareV0 => 4
         | TypeDeclareV1 => 5 | TypeDeclareV2 => 6 | TypeDeclareV3 => 7 | TypeL1Handler => 8
         | TypeDeployAccountV1 => 9 | TypeDeployAccountV3 => 10
         end.

Inductive ContractChangeType := ChangeDeclaredClass | ChangeDeployed | ChangeReplaced.

Definition contract_change_value (self : ContractChangeType) : ScalarValue :=
  Uint32 match self with ChangeDeclaredClass => 0 | ChangeDeployed => 1 | ChangeReplaced => 2 end.

(** ** Filters *)

(** [if let Some(address) = ...: conditions.push(...)]. *)
Definition field_condition (index_id : Z) (value : option FieldElement) : list Condition :=
  match value with
  | Some v => [mkCondition index_id (B256 (field_to_bytes v))]
  | None => []
  end.

(** [if let Some(true) = include: joins.push(...)]. *)
Definition include_join (include : option bool) (fragment_id : Z) : list Z :=
  match include with Some true => [fragment_id] | _ => [] end.

(** The transaction status, [Succeeded] by default. *)
Definition transaction_status_filter (transaction_status : option Z) : outcome Status TransactionStatusFilter :=
  match transaction_status with
  | Some status => ok_or InvalidArgument (status_filter_of_i32 status)
  | None => Ok StatusSucceeded
  end.

Definition status_condition (index_id : Z) (status : TransactionStatusFilter) : list Condition :=
  match status with
  | StatusUnspecified | StatusAll => []
  | StatusSucceeded => [mkCondition index_id (Int32 TransactionStatus_Succeeded)]
  | StatusReverted => [mkCondition index_id (Int32 TransactionStatus_Reverted)]
  end.

Definition inner_type (inner : TransactionFilterInner) : TransactionType :=
  match inner with
  | InnerInvokeV0 => TypeInvokeV0 | InnerInvokeV1 => TypeInvokeV1 | InnerInvokeV3 => TypeInvokeV3
  | InnerDeploy => TypeDeploy | InnerDeclareV0 => TypeDeclareV0 | InnerDeclareV1 => TypeDeclareV1
  | InnerDeclareV2 => TypeDeclareV2 | InnerDeclareV3 => TypeDeclareV3 | InnerL1Handler => TypeL1Handler
  | InnerDeployAccountV1 => TypeDeployAccountV1 | InnerDeployAccountV3 => TypeDeployAccountV3
  end.

Definition compile_transaction_filter (self : TransactionFilter) : outcome Status Filter :=
  transaction_status ← transaction_status_filter (tf_transaction_status self);
  let conditions :=
    status_condition INDEX_TRANSACTION_BY_STATUS transaction_status ++
    match tf_inner self with
    | Some inner => [mkCondition INDEX_TRANSACTION_BY_TYPE (transaction_type_value (inner_type inner))]
    | None => []
    end in
  let joins :=
    include_join (tf_include_receipt self) RECEIPT_FRAGMENT_ID ++
    include_join (tf_include_events self) EVENT_FRAGMENT_ID ++
    include_join (tf_include_messages self) MESSAGE_FRAGMENT_ID ++
    include_join (tf_include_trace self) TRACE_FRAGMENT_ID in
  Ok (mkFilter (tf_id self) TRANSACTION_FRAGMENT_ID conditions joins).

(** The [i]-th key of an event filter: [keys.next().and_then(|key| key.value)]. *)
Definition filter_key (self : EventFilter) (i : nat) : option FieldElement :=
  key ← ef_keys self !! i; key_value key.

Definition compile_event_filter (self : EventFilter) : outcome Status Filter :=
  let conditions :=
    field_condition INDEX_EVENT_BY_ADDRESS (ef_address self) ++
    match ef_strict self with
    | Some true => [mkCondition INDEX_EVENT_BY_KEY_LENGTH (Uint32 (wrap32 (Z.of_nat (length (ef_keys self)))))]
    | _ => []
    end ++
    field_condition INDEX_EVENT_BY_KEY0 (filter_key self 0) ++
    field_condition INDEX_EVENT_BY_KEY1 (filter_key self 1) ++
    field_condition INDEX_EVENT_BY_KEY2 (filter_key self 2) ++
    field_condition INDEX_EVENT_BY_KEY3 (filter_key self 3) in
  transaction_status ← transaction_status_filter (ef_transaction_status self);
  let conditions := conditions ++ status_condition INDEX_EVENT_BY_TRANSACTION_STATUS transaction_status in
  let joins :=
    include_join (ef_include_transaction self) TRANSACTION_FRAGMENT_ID ++
    include_join (ef_include_receipt self) RECEIPT_FRAGMENT_ID ++
    include_join (ef_include_messages self) MESSAGE_FRAGMENT_ID ++
    include_join (ef_include_siblings self) EVENT_FRAGMENT_ID ++
    include_join (ef_include_transaction_trace self) TRACE_FRAGMENT_ID in
  Ok (mkFilter (ef_id self) EVENT_FRAGMENT_ID conditions joins).

Definition compile_message_filter (self : MessageToL1Filter) : outcome Status Filter :=
  let conditions :=
    field_condition INDEX_MESSAGE_BY_FROM_ADDRESS (mf_from_address self) ++
    field_condition INDEX_MESSAGE_BY_TO_ADDRESS (mf_to_address self) in
  transaction_status ← transaction_status_filter (mf_transaction_status self);
  let conditions := conditions ++ status_condition INDEX_MESSAGE_BY_TRANSACTION_STATUS transaction_status in
  let joins :=
    include_join (mf_include_transaction self) TRANSACTION_FRAGMENT_ID ++
    include_join (mf_include_receipt self) RECEIPT_FRAGMENT_ID ++
    include_join (mf_include_events self) EVENT_FRAGMENT_ID ++
    include_join (mf_include_siblings self) MESSAGE_FRAGMENT_ID ++
    include_join (mf_include_transaction_trace self) TRACE_FRAGMENT_ID in
  Ok (mkFilter (mf_id self) MESSAGE_FRAGMENT_ID conditions joins).

Definition compile_storage_diff_filter (self : StorageDiffFilter) : outcome Status Filter :=
  Ok (mkFilter (sf_id self) STORAGE_DIFF_FRAGMENT_ID
        (field_condition INDEX_STORAGE_DIFF_BY_CONTRACT_ADDRESS (sf_contract_address self)) []).

Definition change_type (change : ChangeFilter) : ContractChangeType :=
  match change with
  | FilterDeclaredClass => ChangeDeclaredClass
  | FilterDeployedContract => ChangeDeployed
  | FilterReplacedClass => ChangeReplaced
  end.

Definition compile_contract_change_filter (self : ContractChangeFilter) : outcome Status Filter :=
  Ok (mkFilter (cf_id self) CONTRACT_CHANGE_FRAGMENT_ID
        match cf_change self with
        | Some change => [mkCondition INDEX_CONTRACT_CHANGE_BY_TYPE (contract_change_value (change_type change))]
        | None => []
        end []).

Definition compile_nonce_update_filter (self : NonceUpdateFilter) : outcome Status Filter :=
  Ok (mkFilter (nf_id self) NONCE_UPDATE_FRAGMENT_ID
        (field_condition INDEX_NONCE_UPDATE_BY_CONTRACT_ADDRESS (nf_contract_address self)) []).

(** ** Requests *)

(** One of the loops [for filter in ...: block_filter.add_filter(...)]. *)
Definition add_filters {A} (compile : A -> outcome Status Filter) (block_filter : BlockFilter) (l : list A) :
    outcome Status BlockFilter :=
  ofold (fun bf f => filter ← compile f; Ok (add_filter bf filter)) block_filter l.

Definition compile_header_filter (header : Z) : HeaderFilter :=
  match header_filter_of_i32 header with
  | Some HeaderAlways => Always
  | Some HeaderOnData => OnData
  | Some HeaderOnDataOrOnNewBlock => OnDataOrOnNewBlock
  | _ => header_filter block_filter_default
  end.

Definition compile_to_block_filter (self : ProtoFilter) : outcome Status BlockFilter :=
  let block_filter := set_header_filter block_filter_default (compile_header_filter (pf_header self)) in
  block_filter ← add_filters compile_transaction_filter block_filter (pf_transactions self);
  block_filter ← add_filters compile_event_filter block_filter (pf_events self);
  block_filter ← add_filters compile_message_filter block_filter (pf_messages self);
  block_filter ← add_filters compile_storage_diff_filter block_filter (pf_storage_diffs self);
  block_filter ← add_filters compile_contract_change_filter block_filter (pf_contract_changes self);
  add_filters compile_nonce_update_filter block_filter (pf_nonce_updates self).

(** [StarknetFilterFactory::create_block_filter]. *)
Definition create_block_filter `{FilterDecoding} (filters : list (list byte)) : outcome Status (list BlockFilter) :=
  proto_filters ← omapM (fun bytes => ok_or InvalidArgument (decode_filter bytes)) filters;
  if bool_decide (proto_filters = []) then Err InvalidArgument
  else if 5 <? Z.of_nat (length proto_filters) then Err InvalidArgument
  else
    filters ← omapM compile_to_block_filter proto_filters;
    if existsb can_produce_data filters then Ok filters else Err InvalidArgument.

#[export] Instance starknet_filter_factory `{FilterDecoding} : BlockFilterFactory := {|
  factory_create := create_block_filter |}.
