(* ===== verification/StarknetIngestion.v ===== *)
(** * Starknet ingestion (starknet/src/ingestion.rs and provider)

    A block of the node becomes one body fragment, one index fragment and one
    join fragment per kind of data.  The loop over the transactions fills the
    tables below; the second part builds the fragments from them.  The requests
    to the node are the interface [NodeClient]. *)

From S2P Require Import Prelude External Text Core Chain Cloud Models Index Query Starknet StarknetProto StarknetFilter Ingestion.

(** ** Tables *)

Record TransactionTables := mkTransactionTables {
  xt_transactions : list Transaction;
  xt_receipts : list Starknet.TransactionReceipt;
  xt_by_status : BitmapIndexBuilder;
  xt_by_type : BitmapIndexBuilder;
  xt_to_receipt : JoinToOneIndexBuilder;
  xt_to_events : JoinToManyIndexBuilder;
  xt_to_messages : JoinToManyIndexBuilder }.

Record EventTables := mkEventTables {
  et_events : list Starknet.Event;
  et_by_address : BitmapIndexBuilder;
  et_by_key0 : BitmapIndexBuilder;
  et_by_key1 : BitmapIndexBuilder;
  et_by_key2 : BitmapIndexBuilder;
  et_by_key3 : BitmapIndexBuilder;
  et_by_key_length : BitmapIndexBuilder;
  et_by_status : BitmapIndexBuilder;
  et_to_transaction : JoinToOneIndexBuilder;
  et_to_receipt : JoinToOneIndexBuilder;
  et_to_siblings : JoinToManyIndexBuilder;
  et_to_messages : JoinToManyIndexBuilder;
  et_to_trace : JoinToOneIndexBuilder }.

Record MessageTables := mkMessageTables {
  mt_messages : list MessageToL1;
  mt_by_from_address : BitmapIndexBuilder;
  mt_by_to_address : BitmapIndexBuilder;
  mt_by_status : BitmapIndexBuilder;
  mt_to_transaction : JoinToOneIndexBuilder;
  mt_to_receipt : JoinToOneIndexBuilder;
  mt_to_events : JoinToManyIndexBuilder;
  mt_to_siblings : JoinToManyIndexBuilder;
  mt_to_trace : JoinToOneIndexBuilder }.

Record BodyTables := mkBodyTables {
  bt_transactions : TransactionTables; bt_events : EventTables; bt_messages : MessageTables }.

Definition body_tables_default : BodyTables :=
  mkBodyTables (mkTransactionTables [] [] ∅ ∅ ∅ ∅ ∅)
    (mkEventTables [] ∅ ∅ ∅ ∅ ∅ ∅ ∅ ∅ ∅ ∅ ∅ ∅) (mkMessageTables [] ∅ ∅ ∅ ∅ ∅ ∅ ∅ ∅).

(** [vec.len() as u32]. *)
Definition len32 {A} (l : list A) : Z := wrap32 (Z.of_nat (length l)).

(** [if let Some(value) = value: index.insert(B256(value), row)]. *)
Definition insert_field (index : BitmapIndexBuilder) (value : option FieldElement) (row : Z) : BitmapIndexBuilder :=
  match value with Some v => bitmap_insert index (B256 (field_to_bytes v)) row | None => index end.

(** ** Traces *)

Definition set_trace_index (index : Z) (trace : Starknet.TransactionTrace) : Starknet.TransactionTrace :=
  mkTransactionTrace (tt_filter_ids trace) index (tt_transaction_hash trace) (tt_trace_root trace).

(** One iteration of the loop over the traces. *)
Definition collect_trace (acc : list Starknet.TransactionTrace * JoinToOneIndexBuilder)
    (transaction_trace : TransactionTraceWithHash) : list Starknet.TransactionTrace * JoinToOneIndexBuilder :=
  let transaction_index := len32 acc.1 in
  (acc.1 ++ [set_trace_index transaction_index (to_proto transaction_trace)],
   join_one_insert acc.2 transaction_index transaction_index).

Definition collect_traces (traces : list TransactionTraceWithHash) :=
  foldl collect_trace ([], ∅) traces.

(** ** Events *)

Definition receipt_status (receipt : Models.TransactionReceipt) : Z :=
  match execution_result receipt with
  | Succeeded => TransactionStatus_Succeeded
  | Reverted _ => TransactionStatus_Reverted
  end.

(** The fields that ingestion sets on an event. *)
Definition place_event (e : Starknet.Event) (index transaction_index : Z) (transaction_hash : FieldElement)
    (status index_in_transaction : Z) : Starknet.Event :=
  Starknet.mkEvent (event_filter_ids e) (event_from_address e) (event_keys e) (event_data e) index
    transaction_index (Some transaction_hash) status index_in_transaction.

(** The state of the loop over the events of a transaction: the table of the
    events, the join from the transaction to its events, and their ids. *)
Record EventLoop := mkEventLoop {
  el_tables : EventTables; el_to_events : JoinToManyIndexBuilder; el_ids : list Z }.

Definition collect_event (has_traces : bool) (transaction_index : Z) (transaction_hash : FieldElement)
    (status : Z) (st : EventLoop) (entry : Z * Models.Event) : EventLoop :=
  let t := el_tables st in
  let row := len32 (et_events t) in
  let event := place_event (to_proto entry.2) row transaction_index transaction_hash status (wrap32 entry.1) in
  mkEventLoop
    (mkEventTables (et_events t ++ [event])
       (insert_field (et_by_address t) (event_from_address event) row)
       (insert_field (et_by_key0 t) (event_keys event !! 0%nat) row)
       (insert_field (et_by_key1 t) (event_keys event !! 1%nat) row)
       (insert_field (et_by_key2 t) (event_keys event !! 2%nat) row)
       (insert_field (et_by_key3 t) (event_keys event !! 3%nat) row)
       (bitmap_insert (et_by_key_length t) (Uint32 (len32 (event_keys event))) row)
       (bitmap_insert (et_by_status t) (Int32 status) row)
       (join_one_insert (et_to_transaction t) row transaction_index)
       (join_one_insert (et_to_receipt t) row transaction_index)
       (et_to_siblings t) (et_to_messages t)
       (if has_traces then join_one_insert (et_to_trace t) row transaction_index else et_to_trace t))
    (join_many_insert (el_to_events st) transaction_index row)
    (el_ids st ++ [row]).

(** ** Messages *)

Definition place_message (m : MessageToL1) (index transaction_index : Z) (transaction_hash : FieldElement)
    (status index_in_transaction : Z) : MessageToL1 :=
  mkMessageToL1 (message_filter_ids m) (message_from_address m) (message_to_address m) (message_payload m)
    index transaction_index (Some transaction_hash) status index_in_transaction.

Record MessageLoop := mkMessageLoop {
  ml_tables : MessageTables; ml_to_messages : JoinToManyIndexBuilder; ml_ids : list Z }.

Definition collect_message (has_traces : bool) (transaction_index : Z) (transaction_hash : FieldElement)
    (status : Z) (st : MessageLoop) (entry : Z * MsgToL1) : MessageLoop :=
  let t := ml_tables st in
  let row := len32 (mt_messages t) in
  let message := place_message (to_proto entry.2) row transaction_index transaction_hash status (wrap32 entry.1) in
  mkMessageLoop
    (mkMessageTables (mt_messages t ++ [message])
       (insert_field (mt_by_from_address t) (message_from_address message) row)
       (insert_field (mt_by_to_address t) (message_to_address message) row)
       (bitmap_insert (mt_by_status t) (Int32 status) row)
       (join_one_insert (mt_to_transaction t) row transaction_index)
       (join_one_insert (mt_to_receipt t) row transaction_index)
       (mt_to_events t) (mt_to_siblings t)
       (if has_traces then join_one_insert (mt_to_trace t) row transaction_index else mt_to_trace t))
    (join_many_insert (ml_to_messages st) transaction_index row)
    (ml_ids st ++ [row]).

(** ** Siblings *)

(** [for id in ids: for sibling in ids: if id != sibling: insert both ways]. *)
Definition link_sibling (id : Z) (joins : JoinToManyIndexBuilder) (sibling : Z) : JoinToManyIndexBuilder :=
  if id =? sibling then joins else join_many_insert (join_many_insert joins id sibling) sibling id.

Definition link_siblings (ids : list Z) (joins : JoinToManyIndexBuilder) : JoinToManyIndexBuilder :=
  foldl (fun joins id => foldl (link_sibling id) joins ids) joins ids.

(** The events and the messages of a transaction.  The code does this in the
    loop over the events, after their siblings; the two fill different
    builders. *)
Definition link_message (event_id : Z) (joins : JoinToManyIndexBuilder * JoinToManyIndexBuilder)
    (message_id : Z) : JoinToManyIndexBuilder * JoinToManyIndexBuilder :=
  (join_many_insert joins.1 event_id message_id, join_many_insert joins.2 message_id event_id).

Definition link_messages (event_ids message_ids : list Z)
    (joins : JoinToManyIndexBuilder * JoinToManyIndexBuilder) :
    JoinToManyIndexBuilder * JoinToManyIndexBuilder :=
  foldl (fun joins event_id => foldl (link_message event_id) joins message_ids) joins event_ids.

(** ** Transactions *)

Definition set_transaction_meta (transaction : Transaction) (transaction_hash : FieldElement) (index status : Z) :
    Transaction :=
  match tx_meta transaction with
  | None => transaction
  | Some _ => mkTransaction (tx_filter_ids transaction)
                (Some (mkTransactionMeta index (Some transaction_hash) status)) (tx_transaction transaction)
  end.

Definition set_receipt_transaction_index (receipt : Starknet.TransactionReceipt) (index : Z) :
    Starknet.TransactionReceipt :=
  match rx_meta receipt with
  | None => receipt
  | Some meta =>
      mkTransactionReceipt (rx_filter_ids receipt)
        (Some (mkReceiptMeta index (rm_transaction_hash meta) (rm_actual_fee meta)
                 (rm_execution_resources meta) (rm_execution_result meta))) (rx_receipt receipt)
  end.

Definition transaction_type (transaction : Transaction) : option TransactionType :=
  match tx_transaction transaction with
  | Some (TxInvokeV0 _) => Some TypeInvokeV0
  | Some (TxInvokeV1 _) => Some TypeInvokeV1
  | Some (TxInvokeV3 _) => Some TypeInvokeV3
  | Some (TxDeploy _) => Some TypeDeploy
  | Some (TxDeclareV0 _) => Some TypeDeclareV0
  | Some (TxDeclareV1 _) => Some TypeDeclareV1
  | Some (TxDeclareV2 _) => Some TypeDeclareV2
  | Some (TxDeclareV3 _) => Some TypeDeclareV3
  | Some (TxL1Handler _) => Some TypeL1Handler
  | Some (TxDeployAccountV1 _) => Some TypeDeployAccountV1
  | Some (TxDeployAccountV3 _) => Some TypeDeployAccountV3
  | None => None
  end.

(** One iteration of the loop over the transactions. *)
Definition collect_transaction (has_traces : bool) (t : BodyTables) (entry : Z * TransactionWithReceipt) :
    BodyTables :=
  let transaction_index := wrap32 entry.1 in
  let receipt := tr_receipt entry.2 in
  let hash : FieldElement := to_proto (transaction_hash receipt) in
  let status := receipt_status receipt in
  let xt := bt_transactions t in
  let el := foldl (collect_event has_traces transaction_index hash status)
    (mkEventLoop (bt_events t) (xt_to_events xt) []) (enumerate (rx_events (receipt_fields receipt))) in
  let ml := foldl (collect_message has_traces transaction_index hash status)
    (mkMessageLoop (bt_messages t) (xt_to_messages xt) []) (enumerate (rx_messages_sent (receipt_fields receipt))) in
  let et := el_tables el in
  let mt := ml_tables ml in
  let across := link_messages (el_ids el) (ml_ids ml) (et_to_messages et, mt_to_events mt) in
  let transaction := set_transaction_meta (to_proto (tr_transaction entry.2)) hash transaction_index status in
  mkBodyTables
    (mkTransactionTables (xt_transactions xt ++ [transaction])
       (xt_receipts xt ++ [set_receipt_transaction_index (to_proto receipt) transaction_index])
       (bitmap_insert (xt_by_status xt) (Int32 status) transaction_index)
       match transaction_type transaction with
       | Some type => bitmap_insert (xt_by_type xt) (transaction_type_value type) transaction_index
       | None => xt_by_type xt
       end
       (join_one_insert (xt_to_receipt xt) transaction_index transaction_index)
       (el_to_events el) (ml_to_messages ml))
    (mkEventTables (et_events et) (et_by_address et) (et_by_key0 et) (et_by_key1 et) (et_by_key2 et)
       (et_by_key3 et) (et_by_key_length et) (et_by_status et) (et_to_transaction et) (et_to_receipt et)
       (link_siblings (el_ids el) (et_to_siblings et)) across.1 (et_to_trace et))
    (mkMessageTables (mt_messages mt) (mt_by_from_address mt) (mt_by_to_address mt) (mt_by_status mt)
       (mt_to_transaction mt) (mt_to_receipt mt) across.2
       (link_siblings (ml_ids ml) (mt_to_siblings mt)) (mt_to_trace mt)).

Definition collect_transactions (has_traces : bool) (transactions : list TransactionWithReceipt) : BodyTables :=
  foldl (collect_transaction has_traces) body_tables_default (enumerate transactions).

(** [slice::sort_by_key], which is stable. *)
Fixpoint insert_by_key {A} (key : A -> Z) (x : A) (l : list A) : list A :=
  match l with
  | [] => [x]
  | y :: l' => if key x <=? key y then x :: l else y :: insert_by_key key x l'
  end.

Definition sort_by_key {A} (key : A -> Z) (l : list A) : list A := foldr (insert_by_key key) [] l.

Definition transaction_key (tx : Transaction) : Z := default 0 (tm_transaction_index <$> tx_meta tx).
Definition receipt_key (rx : Starknet.TransactionReceipt) : Z := default 0 (rm_transaction_index <$> rx_meta rx).

(** ** Fragments *)

Record BlockIngestionResult := mkIngestionResult {
  ir_body : list BodyFragment; ir_index : list IndexFragment; ir_join : list JoinFragment }.

Section fragments.
Context `{!Roaring, !StarknetEncoding}.

Definition built_index (index_id : Z) (builder : BitmapIndexBuilder) : outcome IngestionError FragmentIndex :=
  index ← change_context Indexing (bitmap_build builder);
  Ok (mkFragmentIndex index_id (BitmapIdx index)).

Definition one_join (to_fragment_id : Z) (builder : JoinToOneIndexBuilder) : FragmentJoin :=
  mkFragmentJoin to_fragment_id (JoinOne (join_one_build builder)).

Definition many_join (to_fragment_id : Z) (builder : JoinToManyIndexBuilder) : outcome IngestionError FragmentJoin :=
  index ← change_context Indexing (join_many_build builder);
  Ok (mkFragmentJoin to_fragment_id (JoinMany index)).

Definition transaction_fragments (t : TransactionTables) (to_trace : JoinToOneIndexBuilder)
    (block_transactions : list Transaction) : outcome IngestionError (IndexFragment * JoinFragment * BodyFragment) :=
  by_status ← built_index INDEX_TRANSACTION_BY_STATUS (xt_by_status t);
  by_type ← built_index INDEX_TRANSACTION_BY_TYPE (xt_by_type t);
  to_events ← many_join EVENT_FRAGMENT_ID (xt_to_events t);
  to_messages ← many_join MESSAGE_FRAGMENT_ID (xt_to_messages t);
  Ok (mkIndexFragment TRANSACTION_FRAGMENT_ID 0 (len32 block_transactions) [by_status; by_type],
      mkJoinFragment TRANSACTION_FRAGMENT_ID
        [one_join RECEIPT_FRAGMENT_ID (xt_to_receipt t); to_events; to_messages;
         one_join TRACE_FRAGMENT_ID to_trace],
      mkBodyFragment TRANSACTION_FRAGMENT_ID TRANSACTION_FRAGMENT_NAME (encode_transaction <$> block_transactions)).

Definition event_fragments (t : EventTables) (block_events : list Starknet.Event) :
    outcome IngestionError (IndexFragment * JoinFragment * BodyFragment) :=
  by_address ← built_index INDEX_EVENT_BY_ADDRESS (et_by_address t);
  by_key0 ← built_index INDEX_EVENT_BY_KEY0 (et_by_key0 t);
  by_key1 ← built_index INDEX_EVENT_BY_KEY1 (et_by_key1 t);
  by_key2 ← built_index INDEX_EVENT_BY_KEY2 (et_by_key2 t);
  by_key3 ← built_index INDEX_EVENT_BY_KEY3 (et_by_key3 t);
  by_key_length ← built_index INDEX_EVENT_BY_KEY_LENGTH (et_by_key_length t);
  by_status ← built_index INDEX_EVENT_BY_TRANSACTION_STATUS (et_by_status t);
  to_siblings ← many_join EVENT_FRAGMENT_ID (et_to_siblings t);
  to_messages ← many_join MESSAGE_FRAGMENT_ID (et_to_messages t);
  Ok (mkIndexFragment EVENT_FRAGMENT_ID 0 (len32 block_events)
        [by_address; by_key0; by_key1; by_key2; by_key3; by_key_length; by_status],
      mkJoinFragment EVENT_FRAGMENT_ID
        [one_join TRANSACTION_FRAGMENT_ID (et_to_transaction t); one_join RECEIPT_FRAGMENT_ID (et_to_receipt t);
         to_siblings; to_messages; one_join TRACE_FRAGMENT_ID (et_to_trace t)],
      mkBodyFragment EVENT_FRAGMENT_ID EVENT_FRAGMENT_NAME (encode_event <$> block_events)).

Definition message_fragments (t : MessageTables) (block_messages : list MessageToL1) :
    outcome IngestionError (IndexFragment * JoinFragment * BodyFragment) :=
  by_from_address ← built_index INDEX_MESSAGE_BY_FROM_ADDRESS (mt_by_from_address t);
  by_to_address ← built_index INDEX_MESSAGE_BY_TO_ADDRESS (mt_by_to_address t);
  by_status ← built_index INDEX_MESSAGE_BY_TRANSACTION_STATUS (mt_by_status t);
  to_events ← many_join EVENT_FRAGMENT_ID (mt_to_events t);
  to_siblings ← many_join MESSAGE_FRAGMENT_ID (mt_to_siblings t);
  Ok (mkIndexFragment MESSAGE_FRAGMENT_ID 0 (len32 block_messages) [by_from_address; by_to_address; by_status],
      mkJoinFragment MESSAGE_FRAGMENT_ID
        [one_join TRANSACTION_FRAGMENT_ID (mt_to_transaction t); one_join RECEIPT_FRAGMENT_ID (mt_to_receipt t);
         to_events; to_siblings; one_join TRACE_FRAGMENT_ID (mt_to_trace t)],
      mkBodyFragment MESSAGE_FRAGMENT_ID MESSAGE_FRAGMENT_NAME (encode_message <$> block_messages)).

(** A fragment without filters: it has no index and no join of its own. *)
Definition plain_fragments (fragment_id : Z) (name : string) (data : list (list byte)) :
    IndexFragment * JoinFragment * BodyFragment :=
  (mkIndexFragment fragment_id 0 (len32 data) [], mkJoinFragment fragment_id [],
   mkBodyFragment fragment_id name data).

Definition ingestion_result (fragments : list (IndexFragment * JoinFragment * BodyFragment)) : BlockIngestionResult :=
  mkIngestionResult (snd <$> fragments) ((fun f => f.1.1) <$> fragments) ((fun f => f.1.2) <$> fragments).

Definition collect_block_body_and_index (transactions : list TransactionWithReceipt)
    (transaction_traces : list TransactionTraceWithHash) : outcome IngestionError BlockIngestionResult :=
  let '(block_traces, to_trace) := collect_traces transaction_traces in
  let t := collect_transactions (negb (bool_decide (block_traces = []))) transactions in
  let block_events := sort_by_key event_index (et_events (bt_events t)) in
  let block_transactions := sort_by_key transaction_key (xt_transactions (bt_transactions t)) in
  let block_receipts := sort_by_key receipt_key (xt_receipts (bt_transactions t)) in
  let block_messages := sort_by_key message_index (mt_messages (bt_messages t)) in
  transaction ← transaction_fragments (bt_transactions t) to_trace block_transactions;
  let receipt := plain_fragments RECEIPT_FRAGMENT_ID RECEIPT_FRAGMENT_NAME (encode_receipt <$> block_receipts) in
  event ← event_fragments (bt_events t) block_events;
  message ← message_fragments (bt_messages t) block_messages;
  let trace := plain_fragments TRACE_FRAGMENT_ID TRACE_FRAGMENT_NAME (encode_trace <$> block_traces) in
  Ok (ingestion_result [transaction; receipt; event; message; trace]).

(** ** State updates *)

Definition collect_storage_diff (acc : list StorageDiff * BitmapIndexBuilder) (item : ContractStorageDiffItem) :
    list StorageDiff * BitmapIndexBuilder :=
  let index := len32 acc.1 in
  let storage_diff : StorageDiff := to_proto item in
  (acc.1 ++ [storage_diff], insert_field acc.2 (sd_contract_address storage_diff) index).

Definition collect_nonce_update (acc : list Starknet.NonceUpdate * BitmapIndexBuilder) (item : Models.NonceUpdate) :
    list Starknet.NonceUpdate * BitmapIndexBuilder :=
  let index := len32 acc.1 in
  let nonce_update : Starknet.NonceUpdate := to_proto item in
  (acc.1 ++ [nonce_update], insert_field acc.2 (Starknet.nu_contract_address nonce_update) index).

(** The body of the four loops over the changes of contracts. *)
Definition collect_change {A} (type : ContractChangeType) (change : A -> Change)
    (acc : list ContractChange * BitmapIndexBuilder) (item : A) : list ContractChange * BitmapIndexBuilder :=
  let index := len32 acc.1 in
  (acc.1 ++ [mkContractChange [] (Some (change item))],
   bitmap_insert acc.2 (contract_change_value type) index).

Definition collect_changes (state_diff : StateDiff) : list ContractChange * BitmapIndexBuilder :=
  let acc := foldl (collect_change ChangeDeclaredClass (fun class_hash : Felt => DeclaredClass (Some (to_proto class_hash)) None))
    ([], ∅) (df_deprecated_declared_classes state_diff) in
  let acc := foldl (collect_change ChangeDeclaredClass to_proto) acc (df_declared_classes state_diff) in
  let acc := foldl (collect_change ChangeReplaced to_proto) acc (df_replaced_classes state_diff) in
  foldl (collect_change ChangeDeployed to_proto) acc (df_deployed_contracts state_diff).

(** A fragment with one index and no join. *)
Definition indexed_fragments (fragment_id : Z) (name : string) (index_id : Z) (builder : BitmapIndexBuilder)
    (data : list (list byte)) : outcome IngestionError (IndexFragment * JoinFragment * BodyFragment) :=
  index ← built_index index_id builder;
  Ok (mkIndexFragment fragment_id 0 (len32 data) [index], mkJoinFragment fragment_id [],
      mkBodyFragment fragment_id name data).

Definition collect_state_update_body_and_index (state_diff : StateDiff) :
    outcome IngestionError BlockIngestionResult :=
  let '(block_storage_diffs, by_storage_address) := foldl collect_storage_diff ([], ∅) (df_storage_diffs state_diff) in
  let '(block_contract_changes, by_type) := collect_changes state_diff in
  let '(block_nonce_updates, by_nonce_address) := foldl collect_nonce_update ([], ∅) (df_nonces state_diff) in
  storage_diff ← indexed_fragments STORAGE_DIFF_FRAGMENT_ID STORAGE_DIFF_FRAGMENT_NAME
    INDEX_STORAGE_DIFF_BY_CONTRACT_ADDRESS by_storage_address (encode_storage_diff <$> block_storage_diffs);
  contract_change ← indexed_fragments CONTRACT_CHANGE_FRAGMENT_ID CONTRACT_CHANGE_FRAGMENT_NAME
    INDEX_CONTRACT_CHANGE_BY_TYPE by_type (encode_contract_change <$> block_contract_changes);
  nonce_update ← indexed_fragments NONCE_UPDATE_FRAGMENT_ID NONCE_UPDATE_FRAGMENT_NAME
    INDEX_NONCE_UPDATE_BY_CONTRACT_ADDRESS by_nonce_address (encode_nonce_update <$> block_nonce_updates);
  Ok (ingestion_result [storage_diff; contract_change; nonce_update]).

(** The span [index_block]: the fragments of the transactions, then those of the
    state update. *)
Definition index_block (header : BlockHeader) (transactions : list TransactionWithReceipt)
    (transaction_traces : list TransactionTraceWithHash) (state_diff : StateDiff) : outcome IngestionError Block :=
  body ← collect_block_body_and_index transactions transaction_traces;
  state_update ← collect_state_update_body_and_index state_diff;
  Ok (mkBlock (mkHeaderFragment (encode_header_message header))
        (mkIndexGroup (ir_index body ++ ir_index state_update))
        (mkJoinGroup (ir_join body ++ ir_join state_update))
        (ir_body body ++ ir_body state_update)).

End fragments.

(** ** The provider (provider/http.rs) *)

Inductive StarknetProviderError := ProviderRequest | ProviderTimeout | ProviderNotFound | ProviderConfiguration.

Inductive BlockId := IdHead | IdPending | IdNumber (n : Z) | IdHash (hash : Felt) | IdFinalized.

(** The identifiers of the client library. *)
Inductive ConfirmedBlockId := ConfirmedLatest | ConfirmedL1Accepted | ConfirmedNumber (n : Z) | ConfirmedHash (hash : Felt).

Inductive RpcBlockId := Confirmed (id : ConfirmedBlockId) | PreConfirmedTag.

Definition rpc_block_id (v : BlockId) : RpcBlockId :=
  match v with
  | IdHead => Confirmed ConfirmedLatest
  | IdPending => PreConfirmedTag
  | IdNumber number => Confirmed (ConfirmedNumber number)
  | IdHash hash => Confirmed (ConfirmedHash hash)
  | IdFinalized => Confirmed ConfirmedL1Accepted
  end.

Definition confirmed_block_id (v : BlockId) : outcome StarknetProviderError ConfirmedBlockId :=
  match v with
  | IdHead => Ok ConfirmedLatest
  | IdPending => Err ProviderRequest
  | IdNumber number => Ok (ConfirmedNumber number)
  | IdHash hash => Ok (ConfirmedHash hash)
  | IdFinalized => Ok ConfirmedL1Accepted
  end.

(** How a request ends after its retries. *)
Inductive RequestFailure := Elapsed | ErrorBlockNotFound | ErrorOther.

(** The client of the node, with the retries and the timeout. *)
Class NodeClient (W : Type) := {
  node_block_with_tx_hashes : RpcBlockId -> prog W RequestFailure MaybePreConfirmedBlockWithTxHashes;
  node_block_with_receipts : RpcBlockId -> prog W RequestFailure MaybePreConfirmedBlockWithReceipts;
  node_state_update : RpcBlockId -> prog W RequestFailure MaybePreConfirmedStateUpdate;
  node_traces : ConfirmedBlockId -> prog W RequestFailure (list TransactionTraceWithHash) }.

Definition convert_error (e : RequestFailure) : StarknetProviderError :=
  match e with
  | Elapsed => ProviderTimeout
  | ErrorBlockNotFound => ProviderNotFound
  | ErrorOther => ProviderRequest
  end.

Definition is_not_found (e : StarknetProviderError) : bool :=
  match e with ProviderNotFound => true | _ => false end.

Definition map_err {S E E' A} (f : E -> E') (m : prog S E A) : prog S E' A := fun s =>
  match m s with
  | (Ok a, s') => (Ok a, s')
  | (Err e, s') => (Err (f e), s')
  | (Panic, s') => (Panic, s')
  end.

Section provider.
Context {W : Type} `{!NodeClient W}.

Definition get_block_with_tx_hashes (block_id : BlockId) :=
  map_err convert_error (node_block_with_tx_hashes (rpc_block_id block_id)).

Definition get_block_with_receipts (block_id : BlockId) :=
  map_err convert_error (node_block_with_receipts (rpc_block_id block_id)).

Definition get_state_update (block_id : BlockId) :=
  map_err convert_error (node_state_update (rpc_block_id block_id)).

Definition get_block_transaction_traces (block_id : BlockId) :
    prog W StarknetProviderError (list TransactionTraceWithHash) :=
  starknet_block_id ← lift (confirmed_block_id block_id);
  map_err convert_error (node_traces starknet_block_id).

(** ** StarknetBlockIngestion *)

Record StarknetBlockIngestionOptions := mkStarknetOptions { ingest_pending : bool; ingest_traces : bool }.

Context `{!Roaring, !StarknetEncoding}.
Variable options : StarknetBlockIngestionOptions.

Definition get_head_cursor : prog W IngestionError Cursor :=
  block ← pcontext RpcRequest (get_block_with_tx_hashes IdHead);
  lift (ok_or RpcRequest (block_ext_cursor block)).

Definition starknet_finalized_cursor : prog W IngestionError Cursor :=
  block ← pcontext RpcRequest (get_block_with_tx_hashes IdFinalized);
  lift (ok_or RpcRequest (block_ext_cursor block)).

(** The error of a request for a block by number. *)
Definition by_number_error (e : StarknetProviderError) : IngestionError :=
  if is_not_found e then BlockNotFound else RpcRequest.

Definition get_block_info_by_number (block_number : Z) : prog W IngestionError BlockInfo :=
  block ← map_err by_number_error (get_block_with_tx_hashes (IdNumber block_number));
  match block with
  | HashesPreConfirmed => fail RpcRequest
  | HashesBlock block =>
      mret (mkBlockInfo (bh_block_number block) (to_bytes_be (bh_block_hash block)) (to_bytes_be (bh_parent_hash block)))
  end.

(** The two spawned requests, and the wait for both: the state update first.  A
    task that panics is a [JoinError]. *)
Definition spawn {A} (m : prog W StarknetProviderError A) :
    prog W IngestionError (outcome StarknetProviderError A) := fun w =>
  let '(r, w') := m w in (Ok r, w').

Definition await {A} (r : outcome StarknetProviderError A) : outcome IngestionError A :=
  match r with Ok a => Ok a | _ => Err RpcRequest end.

Definition requests (block_id : BlockId) :
    prog W IngestionError (outcome IngestionError MaybePreConfirmedStateUpdate *
                           outcome IngestionError (list TransactionTraceWithHash)) :=
  state_update ← spawn (get_state_update block_id);
  traces ← (if ingest_traces options then spawn (get_block_transaction_traces block_id) else mret (Ok []));
  mret (await state_update, await traces).

Definition starknet_ingest_block_by_number (block_number : Z) : prog W IngestionError (BlockInfo * Block) :=
  block ← map_err by_number_error (get_block_with_receipts (IdNumber block_number));
  match block with
  | ReceiptsPreConfirmed _ => fail RpcRequest
  | ReceiptsBlock block =>
      r ← requests (IdHash (bk_block_hash block));
      state_update ← lift r.1;
      match state_update with
      | PreConfirmedUpdate _ => fail RpcRequest
      | Update state_diff =>
          transaction_traces ← lift r.2;
          let block_info := mkBlockInfo (bk_block_number block) (to_bytes_be (bk_block_hash block))
                              (to_bytes_be (bk_parent_hash block)) in
          indexed ← lift (index_block (convert_block_header block) (bk_transactions block) transaction_traces state_diff);
          mret (block_info, indexed)
      end
  end.

Definition starknet_ingest_pending_block (parent : Cursor) (generation : Z) :
    prog W IngestionError (option (PendingBlockInfo * Block)) :=
  block ← try (get_block_with_receipts IdPending);
  match block with
  | Err err => if is_not_found err then mret None else fail RpcRequest
  | Panic => lift Panic
  | Ok (ReceiptsBlock _) => fail RpcRequest
  | Ok (ReceiptsPreConfirmed block) =>
      if negb (pc_block_number block =? add64 (number parent) 1) then mret None
      else
        r ← requests IdPending;
        state_update ← lift r.1;
        match state_update with
        | Update _ => fail RpcRequest
        | PreConfirmedUpdate state_diff =>
            transaction_traces ← lift r.2;
            let block_info := mkPendingBlockInfo (pc_block_number block) generation (hash parent) in
            indexed ← lift (index_block (convert_pre_confirmed_block_header block) (pc_transactions block)
                              transaction_traces state_diff);
            mret (Some (block_info, indexed))
        end
  end.

(** The ingestion of Starknet blocks as the service uses it. *)
#[export] Instance starknet_block_ingestion : BlockIngestion W := {|
  supports_pending := ingest_pending options;
  rpc_head_cursor := get_head_cursor;
  rpc_finalized_cursor := starknet_finalized_cursor;
  rpc_block_info := get_block_info_by_number;
  rpc_ingest_block := starknet_ingest_block_by_number;
  rpc_ingest_pending := starknet_ingest_pending_block |}.

End provider.

(** ** New heads (provider/ws.rs) *)

(** The JSON of a message: the number and the hash of the block, if it has
    parameters. *)
Class WsJson := { parse_ws_message : RString -> option (option (Z * RString)) }.

Record NewHeadMessage := mkNewHead { nh_block_number : Z; nh_block_hash : Hash }.

Definition new_head_cursor (self : NewHeadMessage) : Cursor := mkCursor (nh_block_number self) (nh_block_hash self).

(** [str::trim_start_matches("0x")] removes every repetition of the prefix. *)
Fixpoint trim_0x (fuel : nat) (s : RString) : RString :=
  match fuel with
  | O => s
  | S fuel => if bool_decide (str "0x" `prefix_of` s) then trim_0x fuel (drop 2 s) else s
  end.

Definition decode_hex_felt (hex : RString) : option (list byte) :=
  let hex := trim_0x (length hex) hex in
  if (length hex mod 2 =? 1)%nat then hex_decode (str "0" ++ hex) else hex_decode hex.

(** A message of the websocket: a text, or something else. *)
Definition try_from_message `{WsJson} (msg : option RString) :
    outcome StarknetProviderError (option NewHeadMessage) :=
  match msg with
  | None => Ok None
  | Some text =>
      params ← ok_or ProviderRequest (parse_ws_message text);
      match params with
      | None => Ok None
      | Some (block_number, block_hash_hex) =>
          block_hash ← ok_or ProviderRequest (decode_hex_felt block_hash_hex);
          Ok (Some (mkNewHead block_number block_hash))
      end
  end.

Inductive Poll (A : Type) := PollPending | PollReady (a : A).
Arguments PollPending {A}.
Arguments PollReady {A} _.

(** [NewHeadsStream::poll_next], given what the socket answers. *)
Definition poll_next `{WsJson} (inner : Poll (option (outcome StarknetProviderError (option RString)))) :
    Poll (option (outcome StarknetProviderError NewHeadMessage)) :=
  match inner with
  | PollPending => PollPending
  | PollReady None => PollReady None
  | PollReady (Some (Ok msg)) =>
      match try_from_message msg with
      | Ok None => PollPending
      | Ok (Some msg) => PollReady (Some (Ok msg))
      | Err e => PollReady (Some (Err e))
      | Panic => PollReady (Some Panic)
      end
  | PollReady (Some _) => PollReady (Some (Err ProviderRequest))
  end.

(** [StarknetBlockIngestion::new_heads_stream]: an item of the stream of heads,
    or a timeout, as the service sees it. *)
Definition new_heads_item (message : option (outcome StarknetProviderError NewHeadMessage)) :
    outcome IngestionError Cursor :=
  match message with
  | Some (Ok head) => Ok (new_head_cursor head)
  | Some (Err _) => Err RpcRequest
  | Some Panic => Panic
  | None => Err RpcRequest
  end.
