(* ===== verification/StarknetFacts.v ===== *)
(** * Facts about the Starknet ingestion

    Field elements, the tables that the loop over the transactions fills, and
    the fragments that are built from them. *)

From S2P Require Import Prelude External Text Core Models Index IndexSpec Query QuerySpec Starknet StarknetProto StarknetFilter.
From S2P Require Import Ingestion StarknetIngestion.

(** ** Field elements *)

Lemma be_bytes_slice bytes start :
  (start + 8 <= length bytes)%nat -> be_bytes 8 (from_be_bytes_slice bytes start) = take 8 (drop start bytes).
Proof. intros Hl. apply be_bytes_value. rewrite length_take, length_drop. lia. Qed.

Lemma field_to_from_bytes bytes : length bytes = 32%nat -> field_to_bytes (field_from_bytes bytes) = bytes.
Proof.
  intros Hl. unfold field_to_bytes, field_from_bytes. cbn [fe_x0 fe_x1 fe_x2 fe_x3].
  rewrite !be_bytes_slice by lia. do 33 (destruct bytes as [|? bytes]; [try done|]); done.
Qed.

Definition field_ok (f : FieldElement) : Prop :=
  is_u64 (fe_x0 f) /\ is_u64 (fe_x1 f) /\ is_u64 (fe_x2 f) /\ is_u64 (fe_x3 f).

Lemma be_bytes_app_inj a b x y :
  is_u64 a -> is_u64 b -> be_bytes 8 a ++ x = be_bytes 8 b ++ y -> a = b /\ x = y.
Proof.
  intros Ha Hb Heq. apply app_inj_1 in Heq as [Heq ->]; [|by rewrite !length_be_bytes]. split; [|done].
  by apply (be_bytes_inj 8).
Qed.

Lemma field_to_bytes_inj a b : field_ok a -> field_ok b -> field_to_bytes a = field_to_bytes b -> a = b.
Proof.
  intros (A0 & A1 & A2 & A3) (B0 & B1 & B2 & B3) Heq. destruct a, b. unfold field_to_bytes in Heq. cbn in *.
  apply be_bytes_app_inj in Heq as [-> Heq]; [|done..]. apply be_bytes_app_inj in Heq as [-> Heq]; [|done..].
  apply be_bytes_app_inj in Heq as [-> Heq]; [|done..].
  apply (be_bytes_app_inj _ _ [] []) in Heq as [-> _]; [done..| |]; by rewrite ?app_nil_r.
Qed.

Lemma field_from_bytes_ok bytes : length bytes = 32%nat -> field_ok (field_from_bytes bytes).
Proof.
  intros Hl. assert (forall start, is_u64 (from_be_bytes_slice bytes start)) as Hs; [|repeat split; apply Hs].
  intros start. unfold from_be_bytes_slice. pose proof (be_value_bound (take 8 (drop start bytes))) as Hb.
  assert (256 ^ Z.of_nat (length (take 8 (drop start bytes))) <= U64); [|unfold is_u64; lia].
  change U64 with (256 ^ 8). apply Z.pow_le_mono_r; [lia|]. rewrite length_take. lia.
Qed.

(** The key of a felt in an index. *)
Lemma felt_key f : field_to_bytes (to_proto f) = to_bytes_be f.
Proof. exact (field_to_from_bytes (to_bytes_be f) (length_be_bytes 32 f)). Qed.

Lemma felt_proto_ok (f : Felt) : field_ok (to_proto f).
Proof. exact (field_from_bytes_ok (to_bytes_be f) (length_be_bytes 32 f)). Qed.

(** A client asks for the value of a felt. *)
Lemma field_key_eq k (f : Felt) : field_ok k -> field_to_bytes k = to_bytes_be f <-> k = to_proto f.
Proof.
  intros Hk. split; [|by intros ->; apply felt_key]. rewrite <- felt_key. intros Heq.
  apply field_to_bytes_inj; [done|apply felt_proto_ok|done].
Qed.

(** ** Hexadecimal *)

Lemma hex_value_digit d : 0 <= d < 16 -> hex_value (hex_digit d) = Some d.
Proof.
  intros Hd. assert (d = 0 \/ d = 1 \/ d = 2 \/ d = 3 \/ d = 4 \/ d = 5 \/ d = 6 \/ d = 7 \/ d = 8 \/ d = 9 \/
    d = 10 \/ d = 11 \/ d = 12 \/ d = 13 \/ d = 14 \/ d = 15) as Hc by lia.
  by destruct_or! Hc; subst.
Qed.

Lemma hex_decode_encode bytes : hex_decode (hex_encode bytes) = Some bytes.
Proof.
  induction bytes as [|b bytes IH]; [done|]. pose proof (byte_val_range b) as Hb.
  change (hex_encode (b :: bytes)) with (hex_digit (byte_val b / 16) :: hex_digit (byte_val b mod 16) :: hex_encode bytes).
  cbn [hex_decode]. rewrite !hex_value_digit.
  - cbn. rewrite IH. cbn. do 2 f_equal. apply byte_val_inj. rewrite <- (Z.div_mod (byte_val b) 16) by lia.
    by rewrite Reference.byte_val_of_Z.
  - split; [apply Z.div_pos; lia|apply Z.div_lt_upper_bound; lia].
  - apply Z.mod_pos_bound. lia.
Qed.

(** ** Sorting *)

Lemma insert_by_key_first {A} (key : A -> Z) x l :
  (forall y, head l = Some y -> key x <= key y) -> insert_by_key key x l = x :: l.
Proof. destruct l as [|y l]; [done|]. intros Hy. cbn. by rewrite (proj2 (Z.leb_le _ _)) by (by apply Hy). Qed.

Lemma sort_by_key_sorted {A} (key : A -> Z) l :
  (forall i x y, l !! i = Some x -> l !! S i = Some y -> key x <= key y) -> sort_by_key key l = l.
Proof.
  induction l as [|x l IH]; [done|]. intros Hs.
  change (sort_by_key key (x :: l)) with (insert_by_key key x (sort_by_key key l)).
  rewrite IH by (intros i; apply (Hs (S i))).
  apply insert_by_key_first. destruct l as [|y l]; [done|]. intros ? [= <-]. by apply (Hs 0%nat).
Qed.

(** ** Rows *)

(** The rows of an index on a list: the key of each element, if it has one, with
    its position. *)
Definition rows_of {A} (key : A -> option ScalarValue) (l : list A) : list (ScalarValue * Z) :=
  omap (fun p => (fun k => (k, wrap32 p.1)) <$> key p.2) (enumerate l).

(** The pairs of a position and a value of its element, and the other way. *)
Definition pairs_of {A} (value : A -> Z) (l : list A) : list (Z * Z) :=
  (fun p => (wrap32 p.1, value p.2)) <$> enumerate l.

Definition groups_of {A} (value : A -> Z) (l : list A) : list (Z * Z) :=
  (fun p => (value p.2, wrap32 p.1)) <$> enumerate l.

Lemma enumerate_snoc {A} (l : list A) x : enumerate (l ++ [x]) = enumerate l ++ [(Z.of_nat (length l), x)].
Proof. unfold enumerate. by rewrite enumerate_from_app. Qed.

Lemma rows_of_snoc {A} (key : A -> option ScalarValue) l x :
  rows_of key (l ++ [x]) = rows_of key l ++ match key x with Some k => [(k, len32 l)] | None => [] end.
Proof. unfold rows_of. rewrite enumerate_snoc, omap_app. f_equal. cbn. by destruct (key x). Qed.

Lemma pairs_of_snoc {A} (value : A -> Z) l x : pairs_of value (l ++ [x]) = pairs_of value l ++ [(len32 l, value x)].
Proof. unfold pairs_of. by rewrite enumerate_snoc, fmap_app. Qed.

Lemma groups_of_snoc {A} (value : A -> Z) l x : groups_of value (l ++ [x]) = groups_of value l ++ [(value x, len32 l)].
Proof. unfold groups_of. by rewrite enumerate_snoc, fmap_app. Qed.

Lemma bitmap_of_rows_snoc rows k r : bitmap_of_rows (rows ++ [(k, r)]) = bitmap_insert (bitmap_of_rows rows) k r.
Proof. unfold bitmap_of_rows. by rewrite foldl_app. Qed.

Lemma join_one_of_rows_snoc rows a b : join_one_of_rows (rows ++ [(a, b)]) = join_one_insert (join_one_of_rows rows) a b.
Proof. unfold join_one_of_rows. by rewrite foldl_app. Qed.

Lemma join_many_of_rows_snoc rows a b : join_many_of_rows (rows ++ [(a, b)]) = join_many_insert (join_many_of_rows rows) a b.
Proof. unfold join_many_of_rows. by rewrite foldl_app. Qed.

Definition field_value (f : option FieldElement) : option ScalarValue := (B256 ∘ field_to_bytes) <$> f.

Lemma insert_field_rows {A} (field : A -> option FieldElement) l x :
  insert_field (bitmap_of_rows (rows_of (field_value ∘ field) l)) (field x) (len32 l) =
  bitmap_of_rows (rows_of (field_value ∘ field) (l ++ [x])).
Proof.
  rewrite rows_of_snoc. unfold insert_field, compose, field_value. destruct (field x) as [v|]; cbn; [|by rewrite app_nil_r].
  by rewrite bitmap_of_rows_snoc.
Qed.

Lemma insert_value_rows {A} (value : A -> ScalarValue) l x :
  bitmap_insert (bitmap_of_rows (rows_of (Some ∘ value) l)) (value x) (len32 l) =
  bitmap_of_rows (rows_of (Some ∘ value) (l ++ [x])).
Proof. rewrite rows_of_snoc. cbn. by rewrite bitmap_of_rows_snoc. Qed.

Lemma insert_pair_rows {A} (value : A -> Z) l x :
  join_one_insert (join_one_of_rows (pairs_of value l)) (len32 l) (value x) = join_one_of_rows (pairs_of value (l ++ [x])).
Proof. by rewrite pairs_of_snoc, join_one_of_rows_snoc. Qed.

Lemma insert_group_rows {A} (value : A -> Z) l x :
  join_many_insert (join_many_of_rows (groups_of value l)) (value x) (len32 l) = join_many_of_rows (groups_of value (l ++ [x])).
Proof. by rewrite groups_of_snoc, join_many_of_rows_snoc. Qed.

(** ** The table of the events *)

Definition event_address (e : Starknet.Event) : option ScalarValue := field_value (event_from_address e).
Definition event_key (i : nat) (e : Starknet.Event) : option ScalarValue := field_value (event_keys e !! i).
Definition event_key_length (e : Starknet.Event) : ScalarValue := Uint32 (len32 (event_keys e)).
Definition event_status (e : Starknet.Event) : ScalarValue := Int32 (event_transaction_status e).

(** Each index and join is the one of the events so far. *)
Record event_tables_ok (has_traces : bool) (t : EventTables) : Prop := {
  eo_address : et_by_address t = bitmap_of_rows (rows_of event_address (et_events t));
  eo_key0 : et_by_key0 t = bitmap_of_rows (rows_of (event_key 0) (et_events t));
  eo_key1 : et_by_key1 t = bitmap_of_rows (rows_of (event_key 1) (et_events t));
  eo_key2 : et_by_key2 t = bitmap_of_rows (rows_of (event_key 2) (et_events t));
  eo_key3 : et_by_key3 t = bitmap_of_rows (rows_of (event_key 3) (et_events t));
  eo_key_length : et_by_key_length t = bitmap_of_rows (rows_of (Some ∘ event_key_length) (et_events t));
  eo_status : et_by_status t = bitmap_of_rows (rows_of (Some ∘ event_status) (et_events t));
  eo_transaction : et_to_transaction t = join_one_of_rows (pairs_of event_transaction_index (et_events t));
  eo_receipt : et_to_receipt t = join_one_of_rows (pairs_of event_transaction_index (et_events t));
  eo_trace : et_to_trace t =
    if has_traces then join_one_of_rows (pairs_of event_transaction_index (et_events t)) else ∅ }.

Lemma collect_event_ok has_traces tx hash status st entry :
  event_tables_ok has_traces (el_tables st) ->
  el_to_events st = join_many_of_rows (groups_of event_transaction_index (et_events (el_tables st))) ->
  let st' := collect_event has_traces tx hash status st entry in
  event_tables_ok has_traces (el_tables st') /\
  el_to_events st' = join_many_of_rows (groups_of event_transaction_index (et_events (el_tables st'))).
Proof.
  intros [E1 E2 E3 E4 E5 E6 E7 E8 E9 E10] Hg st'. subst st'.
  set (e := place_event (to_proto entry.2) (len32 (et_events (el_tables st))) tx hash status (wrap32 entry.1)).
  split; [constructor|]; cbn [collect_event el_tables el_to_events et_events et_by_address et_by_key0 et_by_key1
    et_by_key2 et_by_key3 et_by_key_length et_by_status et_to_transaction et_to_receipt et_to_trace]; fold e.
  - rewrite E1. exact (insert_field_rows event_from_address _ e).
  - rewrite E2. exact (insert_field_rows (fun e => event_keys e !! 0%nat) _ e).
  - rewrite E3. exact (insert_field_rows (fun e => event_keys e !! 1%nat) _ e).
  - rewrite E4. exact (insert_field_rows (fun e => event_keys e !! 2%nat) _ e).
  - rewrite E5. exact (insert_field_rows (fun e => event_keys e !! 3%nat) _ e).
  - rewrite E6. exact (insert_value_rows event_key_length _ e).
  - rewrite E7. exact (insert_value_rows event_status _ e).
  - rewrite E8. exact (insert_pair_rows event_transaction_index _ e).
  - rewrite E9. exact (insert_pair_rows event_transaction_index _ e).
  - rewrite E10. destruct has_traces; [|done]. exact (insert_pair_rows event_transaction_index _ e).
  - rewrite Hg. exact (insert_group_rows event_transaction_index _ e).
Qed.

(** ** The table of the messages *)

Definition message_from (m : MessageToL1) : option ScalarValue := field_value (message_from_address m).
Definition message_to (m : MessageToL1) : option ScalarValue := field_value (message_to_address m).
Definition message_status (m : MessageToL1) : ScalarValue := Int32 (message_transaction_status m).

Record message_tables_ok (has_traces : bool) (t : MessageTables) : Prop := {
  mo_from : mt_by_from_address t = bitmap_of_rows (rows_of message_from (mt_messages t));
  mo_to : mt_by_to_address t = bitmap_of_rows (rows_of message_to (mt_messages t));
  mo_status : mt_by_status t = bitmap_of_rows (rows_of (Some ∘ message_status) (mt_messages t));
  mo_transaction : mt_to_transaction t = join_one_of_rows (pairs_of message_transaction_index (mt_messages t));
  mo_receipt : mt_to_receipt t = join_one_of_rows (pairs_of message_transaction_index (mt_messages t));
  mo_trace : mt_to_trace t =
    if has_traces then join_one_of_rows (pairs_of message_transaction_index (mt_messages t)) else ∅ }.

Lemma collect_message_ok has_traces tx hash status st entry :
  message_tables_ok has_traces (ml_tables st) ->
  ml_to_messages st = join_many_of_rows (groups_of message_transaction_index (mt_messages (ml_tables st))) ->
  let st' := collect_message has_traces tx hash status st entry in
  message_tables_ok has_traces (ml_tables st') /\
  ml_to_messages st' = join_many_of_rows (groups_of message_transaction_index (mt_messages (ml_tables st'))).
Proof.
  intros [E1 E2 E3 E4 E5 E6] Hg st'. subst st'.
  set (m := place_message (to_proto entry.2) (len32 (mt_messages (ml_tables st))) tx hash status (wrap32 entry.1)).
  split; [constructor|]; cbn [collect_message ml_tables ml_to_messages mt_messages mt_by_from_address mt_by_to_address
    mt_by_status mt_to_transaction mt_to_receipt mt_to_trace]; fold m.
  - rewrite E1. exact (insert_field_rows message_from_address _ m).
  - rewrite E2. exact (insert_field_rows message_to_address _ m).
  - rewrite E3. exact (insert_value_rows message_status _ m).
  - rewrite E4. exact (insert_pair_rows message_transaction_index _ m).
  - rewrite E5. exact (insert_pair_rows message_transaction_index _ m).
  - rewrite E6. destruct has_traces; [|done]. exact (insert_pair_rows message_transaction_index _ m).
  - rewrite Hg. exact (insert_group_rows message_transaction_index _ m).
Qed.
