(* ===== verification/StarknetTables.v ===== *)
(** * The tables of a block

    What the loop over the transactions leaves in the tables: the events and
    messages of all the transactions in order, their indexes, and the joins
    between the data of the same transaction. *)

From S2P Require Import Prelude External Text Core Models Index IndexSpec Query QuerySpec Starknet StarknetProto StarknetFilter.
From S2P Require Import Ingestion StarknetIngestion StarknetFacts.

(** ** Positions *)

(** The element of a row. *)
Definition at_row {A} (l : list A) (row : Z) (x : A) : Prop := 0 <= row /\ l !! Z.to_nat row = Some x.

Lemma at_row_app {A} (l1 l2 : list A) row x :
  at_row (l1 ++ l2) row x <-> at_row l1 row x \/ (Z.of_nat (length l1) <= row /\ at_row l2 (row - Z.of_nat (length l1)) x).
Proof.
  unfold at_row. rewrite lookup_app_Some. split.
  - intros (H0 & [Hl|[Hle Hl]]); [by left|right]. split; [lia|]. split; [lia|].
    by replace (Z.to_nat (row - Z.of_nat (length l1))) with (Z.to_nat row - length l1)%nat by lia.
  - intros [[H0 Hl]|(Hle & H0 & Hl)]; [by split; [|left]|]. split; [lia|right]. split; [lia|].
    by replace (Z.to_nat row - length l1)%nat with (Z.to_nat (row - Z.of_nat (length l1))) by lia.
Qed.

Lemma at_row_range {A} (l : list A) row x : at_row l row x -> 0 <= row < Z.of_nat (length l).
Proof. intros [H0 Hl%lookup_lt_Some]. lia. Qed.

Lemma at_row_exists {A} (l : list A) row : 0 <= row < Z.of_nat (length l) -> exists x, at_row l row x.
Proof. intros Hr. destruct (lookup_lt_is_Some_2 l (Z.to_nat row)) as [x Hx]; [lia|]. exists x. split; [lia|done]. Qed.

Lemma enumerate_from_fmap {A B} (g : Z * A -> B) i j (l : list A) :
  enumerate_from i (g <$> enumerate_from j l) = (fun q => (i + (q.1 - j), g q)) <$> enumerate_from j l.
Proof.
  revert i j. induction l as [|x l IH]; intros i j; [done|]. cbn [enumerate_from fmap list_fmap fst].
  rewrite IH. f_equal; [by rewrite Z.sub_diag, Z.add_0_r|]. apply list_fmap_ext. intros k [a y] Hk.
  cbn. f_equal. lia.
Qed.

Lemma enumerate_app_fmap {A B} (l1 : list B) (g : Z * A -> B) (l2 : list A) :
  enumerate (l1 ++ (g <$> enumerate l2)) = enumerate l1 ++ ((fun q => (Z.of_nat (length l1) + q.1, g q)) <$> enumerate l2).
Proof.
  unfold enumerate. rewrite enumerate_from_app, enumerate_from_fmap. f_equal. apply list_fmap_ext. intros k [a y] _.
  cbn. f_equal. lia.
Qed.

(** ** Joins between the rows of one transaction *)

(** Two rows belong to the same transaction. *)
Definition together {A B} (f : A -> Z) (g : B -> Z) (xs : list A) (ys : list B) (a b : Z) : Prop :=
  exists x y, at_row xs a x /\ at_row ys b y /\ f x = g y.

(** The rows of one more transaction [t] are appended. *)
Lemma together_app {A B} (f : A -> Z) (g : B -> Z) xs xs' ys ys' t a b :
  Forall (fun x => f x < t) xs -> Forall (fun y => g y < t) ys ->
  Forall (fun x => f x = t) xs' -> Forall (fun y => g y = t) ys' ->
  together f g (xs ++ xs') (ys ++ ys') a b <->
  together f g xs ys a b \/
  (Z.of_nat (length xs) <= a < Z.of_nat (length xs) + Z.of_nat (length xs') /\
   Z.of_nat (length ys) <= b < Z.of_nat (length ys) + Z.of_nat (length ys')).
Proof.
  rewrite !Forall_lookup. intros Hx Hy Hx' Hy'. split.
  - intros (x & y & Ha & Hb & Heq). apply at_row_app in Ha as [Ha|[Hla Ha]], Hb as [Hb|[Hlb Hb]].
    + left. by exists x, y.
    + pose proof (Hx _ _ (proj2 Ha)). pose proof (Hy' _ _ (proj2 Hb)). lia.
    + pose proof (Hx' _ _ (proj2 Ha)). pose proof (Hy _ _ (proj2 Hb)). lia.
    + right. apply at_row_range in Ha, Hb. lia.
  - intros [(x & y & Ha & Hb & Heq)|[Ha Hb]].
    + exists x, y. split; [apply at_row_app; by left|split; [apply at_row_app; by left|done]].
    + destruct (at_row_exists xs' (a - Z.of_nat (length xs))) as [x Ha']; [lia|].
      destruct (at_row_exists ys' (b - Z.of_nat (length ys))) as [y Hb']; [lia|].
      exists x, y. split; [apply at_row_app; right; split; [lia|done]|split; [apply at_row_app; right; split; [lia|done]|]].
      by rewrite (Hx' _ _ (proj2 Ha')), (Hy' _ _ (proj2 Hb')).
Qed.

(** A join that holds the pairs of a relation. *)
Definition join_of (R : Z -> Z -> Prop) (joins : JoinToManyIndexBuilder) : Prop :=
  exists rows, joins = join_many_of_rows rows /\ forall a b, (a, b) ∈ rows <-> R a b.

Lemma join_of_iff (R R' : Z -> Z -> Prop) joins : (forall a b, R a b <-> R' a b) -> join_of R joins -> join_of R' joins.
Proof. intros HR (rows & -> & Hr). exists rows. split; [done|]. intros a b. by rewrite Hr, HR. Qed.

Lemma join_of_insert R joins a b :
  join_of R joins -> join_of (fun x y => R x y \/ (x = a /\ y = b)) (join_many_insert joins a b).
Proof.
  intros (rows & -> & Hr). exists (rows ++ [(a, b)]). rewrite join_many_of_rows_snoc. split; [done|].
  intros x y. rewrite elem_of_app, Hr. set_solver.
Qed.

Lemma join_of_fold {A} (f : JoinToManyIndexBuilder -> A -> JoinToManyIndexBuilder) (S : A -> Z -> Z -> Prop) R l joins :
  (forall R joins x, x ∈ l -> join_of R joins -> join_of (fun a b => R a b \/ S x a b) (f joins x)) ->
  join_of R joins -> join_of (fun a b => R a b \/ exists x, x ∈ l /\ S x a b) (foldl f joins l).
Proof.
  revert R joins. induction l as [|x l IH]; intros R joins Hf HR; cbn [foldl].
  { eapply join_of_iff; [|done]. set_solver. }
  eapply join_of_iff; [|apply IH; [|apply Hf; [|done]]]; [set_solver| |set_solver].
  intros R' joins' y Hy. apply Hf. set_solver.
Qed.

Lemma link_siblings_spec ids R joins :
  join_of R joins ->
  join_of (fun a b => R a b \/ (a ∈ ids /\ b ∈ ids /\ a <> b)) (link_siblings ids joins).
Proof.
  intros HR. unfold link_siblings.
  eapply join_of_iff; [|apply (join_of_fold _ (fun id a b => exists sibling, sibling ∈ ids /\
    id <> sibling /\ ((a = id /\ b = sibling) \/ (a = sibling /\ b = id)))); [|done]].
  - intros a b. split.
    + intros [HR'|(id & Hid & s & Hs & Hne & [[-> ->]|[-> ->]])]; [by left|right..]; split_and!; auto.
    + intros [HR'|(Ha & Hb & Hne)]; [by left|right]. exists a. split; [done|]. exists b. auto.
  - intros R' joins' id Hid HR'.
    apply (join_of_fold (link_sibling id) (fun sibling a b => id <> sibling /\
      ((a = id /\ b = sibling) \/ (a = sibling /\ b = id)))); [|exact HR'].
    intros R2 j2 s Hs HR2. unfold link_sibling. destruct (Z.eqb_spec id s) as [->|Hne].
    + eapply join_of_iff; [|done]. naive_solver.
    + eapply join_of_iff; [|apply join_of_insert, join_of_insert, HR2]. naive_solver.
Qed.

Lemma fold_pair {A} (f g : JoinToManyIndexBuilder -> A -> JoinToManyIndexBuilder) l p :
  foldl (fun p x => (f p.1 x, g p.2 x)) p l = (foldl f p.1 l, foldl g p.2 l).
Proof. revert p. induction l as [|x l IH]; intros p; [by destruct p|]. cbn [foldl]. by rewrite IH. Qed.

Lemma link_messages_eq es ms p :
  link_messages es ms p =
  (foldl (fun j e => foldl (fun j m => join_many_insert j e m) j ms) p.1 es,
   foldl (fun j e => foldl (fun j m => join_many_insert j m e) j ms) p.2 es).
Proof.
  unfold link_messages. rewrite <- fold_pair. revert p. induction es as [|e es IH]; intros p; [done|].
  cbn [foldl]. rewrite IH. f_equal. exact (fold_pair (fun j m => join_many_insert j e m) (fun j m => join_many_insert j m e) ms p).
Qed.

Lemma link_messages_spec es ms R R' p :
  join_of R p.1 -> join_of R' p.2 ->
  join_of (fun a b => R a b \/ (a ∈ es /\ b ∈ ms)) (link_messages es ms p).1 /\
  join_of (fun a b => R' a b \/ (a ∈ ms /\ b ∈ es)) (link_messages es ms p).2.
Proof.
  intros HR HR'. rewrite link_messages_eq. cbn [fst snd]. split.
  - eapply join_of_iff; [|apply (join_of_fold _ (fun e a b => exists m, m ∈ ms /\ a = e /\ b = m)); [|exact HR]].
    + set_solver.
    + intros R2 j e He HR2. apply (join_of_fold _ (fun m a b => a = e /\ b = m)); [|done].
      intros R3 j3 m Hm HR3. by apply join_of_insert.
  - eapply join_of_iff; [|apply (join_of_fold _ (fun e a b => exists m, m ∈ ms /\ a = m /\ b = e)); [|exact HR']].
    + set_solver.
    + intros R2 j e He HR2. apply (join_of_fold _ (fun m a b => a = m /\ b = e)); [|done].
      intros R3 j3 m Hm HR3. by apply join_of_insert.
Qed.

(** ** The events and messages of a block *)

Definition tx_events (tx : TransactionWithReceipt) : list Models.Event := rx_events (receipt_fields (tr_receipt tx)).
Definition tx_messages (tx : TransactionWithReceipt) : list MsgToL1 := rx_messages_sent (receipt_fields (tr_receipt tx)).
Definition tx_hash (tx : TransactionWithReceipt) : FieldElement := to_proto (transaction_hash (tr_receipt tx)).
Definition tx_status (tx : TransactionWithReceipt) : Z := receipt_status (tr_receipt tx).

(** Where an item comes from: its transaction and its position in it. *)
Record origin (A : Type) := mkOrigin { or_index : Z; or_tx : TransactionWithReceipt; or_position : Z; or_item : A }.
Arguments mkOrigin {A} _ _ _ _.
Arguments or_index {A} _.
Arguments or_tx {A} _.
Arguments or_position {A} _.
Arguments or_item {A} _.

Definition tx_origins {A} (items : TransactionWithReceipt -> list A) (p : Z * TransactionWithReceipt) : list (origin A) :=
  (fun q => mkOrigin p.1 p.2 q.1 q.2) <$> enumerate (items p.2).

Definition origins {A} (items : TransactionWithReceipt -> list A) (txs : list TransactionWithReceipt) : list (origin A) :=
  enumerate txs ≫= tx_origins items.

Lemma origins_snoc {A} (items : TransactionWithReceipt -> list A) txs tx :
  origins items (txs ++ [tx]) = origins items txs ++ tx_origins items (Z.of_nat (length txs), tx).
Proof. unfold origins. rewrite enumerate_snoc, bind_app. cbn. by rewrite app_nil_r. Qed.

(** The message of an item at a row. *)
Definition placed_event (p : Z * origin Models.Event) : Starknet.Event :=
  place_event (to_proto (or_item p.2)) (wrap32 p.1) (wrap32 (or_index p.2)) (tx_hash (or_tx p.2))
    (tx_status (or_tx p.2)) (wrap32 (or_position p.2)).

Definition placed_message (p : Z * origin MsgToL1) : MessageToL1 :=
  place_message (to_proto (or_item p.2)) (wrap32 p.1) (wrap32 (or_index p.2)) (tx_hash (or_tx p.2))
    (tx_status (or_tx p.2)) (wrap32 (or_position p.2)).

Definition block_events (txs : list TransactionWithReceipt) : list Starknet.Event :=
  placed_event <$> enumerate (origins tx_events txs).

Definition block_messages (txs : list TransactionWithReceipt) : list MessageToL1 :=
  placed_message <$> enumerate (origins tx_messages txs).

(** The rows that one more transaction adds. *)
Definition new_events (start : nat) (p : Z * TransactionWithReceipt) : list Starknet.Event :=
  (fun q => placed_event (Z.of_nat start + q.1, mkOrigin p.1 p.2 q.1 q.2)) <$> enumerate (tx_events p.2).

Definition new_messages (start : nat) (p : Z * TransactionWithReceipt) : list MessageToL1 :=
  (fun q => placed_message (Z.of_nat start + q.1, mkOrigin p.1 p.2 q.1 q.2)) <$> enumerate (tx_messages p.2).

Lemma length_enumerate {A} (l : list A) : length (enumerate l) = length l.
Proof. apply length_enumerate_from. Qed.

Lemma block_events_snoc txs tx :
  block_events (txs ++ [tx]) =
  block_events txs ++ new_events (length (block_events txs)) (Z.of_nat (length txs), tx).
Proof.
  unfold block_events, new_events. rewrite origins_snoc. unfold tx_origins. rewrite enumerate_app_fmap, fmap_app.
  f_equal. rewrite <- list_fmap_compose, length_fmap, length_enumerate. done.
Qed.

Lemma block_messages_snoc txs tx :
  block_messages (txs ++ [tx]) =
  block_messages txs ++ new_messages (length (block_messages txs)) (Z.of_nat (length txs), tx).
Proof.
  unfold block_messages, new_messages. rewrite origins_snoc. unfold tx_origins. rewrite enumerate_app_fmap, fmap_app.
  f_equal. rewrite <- list_fmap_compose, length_fmap, length_enumerate. done.
Qed.

(** ** The loops over the events and messages of a transaction *)

Lemma collect_events_spec has_traces i tx et to_events :
  event_tables_ok has_traces et -> to_events = join_many_of_rows (groups_of event_transaction_index (et_events et)) ->
  let el := foldl (collect_event has_traces (wrap32 i) (tx_hash tx) (tx_status tx)) (mkEventLoop et to_events [])
    (enumerate (tx_events tx)) in
  event_tables_ok has_traces (el_tables el) /\
  el_to_events el = join_many_of_rows (groups_of event_transaction_index (et_events (el_tables el))) /\
  et_events (el_tables el) = et_events et ++ new_events (length (et_events et)) (i, tx) /\
  el_ids el = wrap32 <$> seqZ (Z.of_nat (length (et_events et))) (Z.of_nat (length (tx_events tx))) /\
  et_to_siblings (el_tables el) = et_to_siblings et /\ et_to_messages (el_tables el) = et_to_messages et.
Proof.
  intros Hok Hto. unfold new_events. cbn [snd fst]. induction (tx_events tx) as [|e l IH] using rev_ind.
  { cbn. rewrite app_nil_r. by split_and!. }
  rewrite !enumerate_snoc, foldl_app, !fmap_app, length_app. cbn zeta in IH.
  set (el := foldl _ _ (enumerate l)) in *. destruct IH as (I1 & I2 & I3 & I4 & I5 & I6).
  assert (len32 (et_events (el_tables el)) = wrap32 (Z.of_nat (length (et_events et)) + Z.of_nat (length l))) as Hlen.
  { unfold len32. rewrite I3, length_app, length_fmap, length_enumerate. f_equal. lia. }
  destruct (collect_event_ok has_traces (wrap32 i) (tx_hash tx) (tx_status tx) el (Z.of_nat (length l), e) I1 I2) as [J1 J2].
  split_and!; [done|done| | |done|done]; cbn [foldl collect_event el_tables el_ids et_events fmap list_fmap]; rewrite Hlen.
  - rewrite I3, <- (assoc_L (++)). done.
  - rewrite I4. replace (Z.of_nat (length l + length [e])) with (Z.of_nat (length l) + 1) by (cbn; lia).
    rewrite seqZ_app, fmap_app by lia. done.
Qed.

Lemma collect_messages_spec has_traces i tx mt to_messages :
  message_tables_ok has_traces mt -> to_messages = join_many_of_rows (groups_of message_transaction_index (mt_messages mt)) ->
  let ml := foldl (collect_message has_traces (wrap32 i) (tx_hash tx) (tx_status tx)) (mkMessageLoop mt to_messages [])
    (enumerate (tx_messages tx)) in
  message_tables_ok has_traces (ml_tables ml) /\
  ml_to_messages ml = join_many_of_rows (groups_of message_transaction_index (mt_messages (ml_tables ml))) /\
  mt_messages (ml_tables ml) = mt_messages mt ++ new_messages (length (mt_messages mt)) (i, tx) /\
  ml_ids ml = wrap32 <$> seqZ (Z.of_nat (length (mt_messages mt))) (Z.of_nat (length (tx_messages tx))) /\
  mt_to_siblings (ml_tables ml) = mt_to_siblings mt /\ mt_to_events (ml_tables ml) = mt_to_events mt.
Proof.
  intros Hok Hto. unfold new_messages. cbn [snd fst]. induction (tx_messages tx) as [|e l IH] using rev_ind.
  { cbn. rewrite app_nil_r. by split_and!. }
  rewrite !enumerate_snoc, foldl_app, !fmap_app, length_app. cbn zeta in IH.
  set (ml := foldl _ _ (enumerate l)) in *. destruct IH as (I1 & I2 & I3 & I4 & I5 & I6).
  assert (len32 (mt_messages (ml_tables ml)) = wrap32 (Z.of_nat (length (mt_messages mt)) + Z.of_nat (length l))) as Hlen.
  { unfold len32. rewrite I3, length_app, length_fmap, length_enumerate. f_equal. lia. }
  destruct (collect_message_ok has_traces (wrap32 i) (tx_hash tx) (tx_status tx) ml (Z.of_nat (length l), e) I1 I2) as [J1 J2].
  split_and!; [done|done| | |done|done]; cbn [foldl collect_message ml_tables ml_ids mt_messages fmap list_fmap]; rewrite Hlen.
  - rewrite I3, <- (assoc_L (++)). done.
  - rewrite I4. replace (Z.of_nat (length l + length [e])) with (Z.of_nat (length l) + 1) by (cbn; lia).
    rewrite seqZ_app, fmap_app by lia. done.
Qed.

(** ** The loop over the transactions *)

Definition placed_transaction (p : Z * TransactionWithReceipt) : Transaction :=
  set_transaction_meta (to_proto (tr_transaction p.2)) (tx_hash p.2) (wrap32 p.1) (tx_status p.2).

Definition placed_receipt (p : Z * TransactionWithReceipt) : Starknet.TransactionReceipt :=
  set_receipt_transaction_index (to_proto (tr_receipt p.2)) (wrap32 p.1).

Definition block_transactions (txs : list TransactionWithReceipt) : list Transaction := placed_transaction <$> enumerate txs.
Definition block_receipts (txs : list TransactionWithReceipt) : list Starknet.TransactionReceipt := placed_receipt <$> enumerate txs.

Definition transaction_status (tx : Transaction) : ScalarValue := Int32 (default 0 (tm_transaction_status <$> tx_meta tx)).
Definition transaction_type_key (tx : Transaction) : option ScalarValue := transaction_type_value <$> transaction_type tx.

(** A block within the range of the row numbers. *)
Definition fits (txs : list TransactionWithReceipt) : Prop :=
  Z.of_nat (length txs) < U32 /\ Z.of_nat (length (origins tx_events txs)) < U32 /\
  Z.of_nat (length (origins tx_messages txs)) < U32.

Record body_tables_ok (has_traces : bool) (txs : list TransactionWithReceipt) (t : BodyTables) : Prop := {
  bo_transactions : xt_transactions (bt_transactions t) = block_transactions txs;
  bo_receipts : xt_receipts (bt_transactions t) = block_receipts txs;
  bo_events : et_events (bt_events t) = block_events txs;
  bo_messages : mt_messages (bt_messages t) = block_messages txs;
  bo_by_status : xt_by_status (bt_transactions t) = bitmap_of_rows (rows_of (Some ∘ transaction_status) (block_transactions txs));
  bo_by_type : xt_by_type (bt_transactions t) = bitmap_of_rows (rows_of transaction_type_key (block_transactions txs));
  bo_to_receipt : xt_to_receipt (bt_transactions t) = join_one_of_rows (pairs_of transaction_key (block_transactions txs));
  bo_to_events : xt_to_events (bt_transactions t) = join_many_of_rows (groups_of event_transaction_index (block_events txs));
  bo_to_messages : xt_to_messages (bt_transactions t) = join_many_of_rows (groups_of message_transaction_index (block_messages txs));
  bo_event_tables : event_tables_ok has_traces (bt_events t);
  bo_message_tables : message_tables_ok has_traces (bt_messages t);
  bo_event_siblings : join_of (fun a b => a <> b /\
    together event_transaction_index event_transaction_index (block_events txs) (block_events txs) a b)
    (et_to_siblings (bt_events t));
  bo_message_siblings : join_of (fun a b => a <> b /\
    together message_transaction_index message_transaction_index (block_messages txs) (block_messages txs) a b)
    (mt_to_siblings (bt_messages t));
  bo_event_messages : join_of
    (together event_transaction_index message_transaction_index (block_events txs) (block_messages txs))
    (et_to_messages (bt_events t));
  bo_message_events : join_of
    (together message_transaction_index event_transaction_index (block_messages txs) (block_events txs))
    (mt_to_events (bt_messages t)) }.

Lemma placed_transaction_meta p :
  tx_meta (placed_transaction p) = Some (mkTransactionMeta (wrap32 p.1) (Some (tx_hash p.2)) (tx_status p.2)).
Proof. unfold placed_transaction. destruct (tr_transaction p.2) as [[]| |[]| |[]]; done. Qed.

Lemma placed_receipt_meta p : receipt_key (placed_receipt p) = wrap32 p.1.
Proof. unfold placed_receipt. destruct (tr_receipt p.2); done. Qed.

(** Earlier transactions have smaller numbers. *)
Lemma origins_before {A} (items : TransactionWithReceipt -> list A) txs :
  Forall (fun o => 0 <= or_index o < Z.of_nat (length txs)) (origins items txs).
Proof.
  apply Forall_forall. intros o ([i tx] & Hp & Ho)%list_elem_of_bind.
  apply elem_of_enumerate_from in Ho as [Hi Hl%lookup_lt_Some]. apply list_elem_of_fmap in Hp as ([j x] & -> & _). cbn in *. lia.
Qed.

Lemma events_before txs :
  Z.of_nat (length txs) < U32 -> Forall (fun e => event_transaction_index e < Z.of_nat (length txs)) (block_events txs).
Proof.
  intros Hf. unfold block_events. apply Forall_fmap, Forall_forall. intros [i o] [Hi Ho]%elem_of_enumerate_from. cbn.
  pose proof (origins_before tx_events txs) as Hb. rewrite Forall_lookup in Hb. specialize (Hb _ _ Ho). cbn in Hb.
  rewrite wrap32_id by (unfold is_u32; lia). lia.
Qed.

Lemma messages_before txs :
  Z.of_nat (length txs) < U32 -> Forall (fun m => message_transaction_index m < Z.of_nat (length txs)) (block_messages txs).
Proof.
  intros Hf. unfold block_messages. apply Forall_fmap, Forall_forall. intros [i o] [Hi Ho]%elem_of_enumerate_from. cbn.
  pose proof (origins_before tx_messages txs) as Hb. rewrite Forall_lookup in Hb. specialize (Hb _ _ Ho). cbn in Hb.
  rewrite wrap32_id by (unfold is_u32; lia). lia.
Qed.

Lemma new_events_tx start i tx : is_u32 i -> Forall (fun e => event_transaction_index e = i) (new_events start (i, tx)).
Proof. intros Hi. unfold new_events. apply Forall_fmap, Forall_true. intros q. cbn. by apply wrap32_id. Qed.

Lemma new_messages_tx start i tx : is_u32 i -> Forall (fun m => message_transaction_index m = i) (new_messages start (i, tx)).
Proof. intros Hi. unfold new_messages. apply Forall_fmap, Forall_true. intros q. cbn. by apply wrap32_id. Qed.

Lemma length_new_events start p : length (new_events start p) = length (tx_events p.2).
Proof. unfold new_events. by rewrite length_fmap, length_enumerate. Qed.

Lemma length_new_messages start p : length (new_messages start p) = length (tx_messages p.2).
Proof. unfold new_messages. by rewrite length_fmap, length_enumerate. Qed.

Lemma wrap32_seqZ start n : 0 <= start -> start + n < U32 -> wrap32 <$> seqZ start n = seqZ start n.
Proof.
  intros Hs Hn. rewrite <- (list_fmap_id (seqZ start n)) at 2. apply list_fmap_ext. intros i x Hx%list_elem_of_lookup_2%elem_of_seqZ.
  cbn. apply wrap32_id. unfold is_u32. lia.
Qed.

Lemma length_block_events txs : length (block_events txs) = length (origins tx_events txs).
Proof. unfold block_events. by rewrite length_fmap, length_enumerate. Qed.

Lemma length_block_messages txs : length (block_messages txs) = length (origins tx_messages txs).
Proof. unfold block_messages. by rewrite length_fmap, length_enumerate. Qed.

Lemma collect_transactions_default has_traces : body_tables_ok has_traces [] body_tables_default.
Proof.
  assert (forall R : Z -> Z -> Prop, (forall a b, ~ R a b) -> join_of R ∅) as Hnil.
  { intros R HR. exists []. split; [done|]. intros a b. rewrite elem_of_nil. naive_solver. }
  assert (forall {A B} (f : A -> Z) (g : B -> Z) a b, ~ together f g [] [] a b) as Ht.
  { intros A B f g a b (x & y & [_ Hx] & _). by rewrite lookup_nil in Hx. }
  constructor; cbn; try done; try (apply Hnil; naive_solver).
  - by constructor; destruct has_traces.
  - by constructor; destruct has_traces.
Qed.

Lemma fits_snoc txs tx :
  fits (txs ++ [tx]) ->
  fits txs /\ is_u32 (Z.of_nat (length txs)) /\
  Z.of_nat (length (block_events txs)) + Z.of_nat (length (tx_events tx)) < U32 /\
  Z.of_nat (length (block_messages txs)) + Z.of_nat (length (tx_messages tx)) < U32.
Proof.
  intros (H1 & H2 & H3). rewrite !origins_snoc, !length_app in *. unfold tx_origins in *.
  rewrite !length_fmap, !length_enumerate in *. rewrite length_block_events, length_block_messages.
  cbn [length snd] in *. unfold fits, is_u32. lia.
Qed.

(** The rows of the new transaction, as the loop numbered them. *)
Lemma elem_of_new_rows n k a : 0 <= n -> n + k < U32 -> a ∈ wrap32 <$> seqZ n k <-> n <= a < n + k.
Proof. intros Hn Hk. rewrite wrap32_seqZ by done. apply elem_of_seqZ. Qed.

Lemma siblings_step {A} (f : A -> Z) xs xs' t R joins :
  Forall (fun x => f x < t) xs -> Forall (fun x => f x = t) xs' -> Z.of_nat (length xs) + Z.of_nat (length xs') < U32 ->
  (forall a b, R a b <-> a <> b /\ together f f xs xs a b) -> join_of R joins ->
  join_of (fun a b => a <> b /\ together f f (xs ++ xs') (xs ++ xs') a b)
    (link_siblings (wrap32 <$> seqZ (Z.of_nat (length xs)) (Z.of_nat (length xs'))) joins).
Proof.
  intros Hb Hn Hl HR Hj. eapply join_of_iff; [|by apply link_siblings_spec]. intros a b. cbn beta.
  rewrite HR, !elem_of_new_rows by lia. rewrite (together_app f f xs xs' xs xs' t) by done. naive_solver.
Qed.

Lemma across_step {A B} (f : A -> Z) (g : B -> Z) xs xs' ys ys' t p :
  Forall (fun x => f x < t) xs -> Forall (fun x => f x = t) xs' ->
  Forall (fun y => g y < t) ys -> Forall (fun y => g y = t) ys' ->
  Z.of_nat (length xs) + Z.of_nat (length xs') < U32 -> Z.of_nat (length ys) + Z.of_nat (length ys') < U32 ->
  join_of (together f g xs ys) p.1 -> join_of (together g f ys xs) p.2 ->
  let q := link_messages (wrap32 <$> seqZ (Z.of_nat (length xs)) (Z.of_nat (length xs')))
    (wrap32 <$> seqZ (Z.of_nat (length ys)) (Z.of_nat (length ys'))) p in
  join_of (together f g (xs ++ xs') (ys ++ ys')) q.1 /\ join_of (together g f (ys ++ ys') (xs ++ xs')) q.2.
Proof.
  intros F1 F2 G1 G2 L1 L2 H1 H2 q. destruct (link_messages_spec (wrap32 <$> seqZ (Z.of_nat (length xs)) (Z.of_nat (length xs')))
    (wrap32 <$> seqZ (Z.of_nat (length ys)) (Z.of_nat (length ys'))) _ _ p H1 H2) as [J1 J2].
  split; (eapply join_of_iff; [|done]); intros a b; cbn beta; rewrite !elem_of_new_rows by lia.
  - rewrite (together_app f g xs xs' ys ys' t) by done. tauto.
  - rewrite (together_app g f ys ys' xs xs' t) by done. tauto.
Qed.

Lemma collect_transaction_ok has_traces txs tx t :
  fits (txs ++ [tx]) -> body_tables_ok has_traces txs t ->
  body_tables_ok has_traces (txs ++ [tx]) (collect_transaction has_traces t (Z.of_nat (length txs), tx)).
Proof.
  intros (Hf & Hi & Hle & Hlm)%fits_snoc [T1 T2 T3 T4 T5 T6 T7 T8 T9 T10 T11 T12 T13 T14 T15].
  unfold collect_transaction. cbn [fst snd].
  change (rx_events (receipt_fields (tr_receipt tx))) with (tx_events tx).
  change (rx_messages_sent (receipt_fields (tr_receipt tx))) with (tx_messages tx).
  change (to_proto (transaction_hash (tr_receipt tx))) with (tx_hash tx). change (receipt_status (tr_receipt tx)) with (tx_status tx).
  rewrite <- T3 in T8. rewrite <- T4 in T9.
  destruct (collect_events_spec has_traces (Z.of_nat (length txs)) tx _ _ T10 T8) as (E1 & E2 & E3 & E4 & E5 & E6).
  destruct (collect_messages_spec has_traces (Z.of_nat (length txs)) tx _ _ T11 T9) as (M1 & M2 & M3 & M4 & M5 & M6).
  set (el := foldl (collect_event _ _ _ _) _ _) in *. set (ml := foldl (collect_message _ _ _ _) _ _) in *.
  rewrite T3 in E3, E4. rewrite T4 in M3, M4.
  set (ne := new_events (length (block_events txs)) (Z.of_nat (length txs), tx)) in *.
  set (nm := new_messages (length (block_messages txs)) (Z.of_nat (length txs), tx)) in *.
  assert (length ne = length (tx_events tx)) as Hne by apply length_new_events.
  assert (length nm = length (tx_messages tx)) as Hnm by apply length_new_messages.
  rewrite <- Hne in E4, Hle. rewrite <- Hnm in M4, Hlm.
  assert (Forall (fun e => event_transaction_index e < Z.of_nat (length txs)) (block_events txs)) as Hbe by (apply events_before, Hf).
  assert (Forall (fun m => message_transaction_index m < Z.of_nat (length txs)) (block_messages txs)) as Hbm by (apply messages_before, Hf).
  assert (Forall (fun e => event_transaction_index e = Z.of_nat (length txs)) ne) as Hee by (by apply new_events_tx).
  assert (Forall (fun m => message_transaction_index m = Z.of_nat (length txs)) nm) as Hmm by (by apply new_messages_tx).
  rewrite <- E6 in T14. rewrite <- M6 in T15. rewrite <- E5 in T12. rewrite <- M5 in T13.
  destruct (across_step event_transaction_index message_transaction_index _ ne _ nm (Z.of_nat (length txs))
    (et_to_messages (el_tables el), mt_to_events (ml_tables ml)) Hbe Hee Hbm Hmm Hle Hlm T14 T15) as [X1 X2].
  set (x := placed_transaction (Z.of_nat (length txs), tx)).
  assert (transaction_key x = len32 (block_transactions txs)) as Hkey.
  { unfold transaction_key, x, len32, block_transactions. rewrite placed_transaction_meta, length_fmap, length_enumerate. done. }
  assert (wrap32 (Z.of_nat (length txs)) = len32 (block_transactions txs)) as Hrow.
  { unfold len32, block_transactions. by rewrite length_fmap, length_enumerate. }
  assert (block_transactions (txs ++ [tx]) = block_transactions txs ++ [x]) as Hbt.
  { unfold block_transactions. by rewrite enumerate_snoc, fmap_app. }
  constructor; cbn [bt_transactions bt_events bt_messages xt_transactions xt_receipts xt_by_status xt_by_type xt_to_receipt
    xt_to_events xt_to_messages et_events et_to_siblings et_to_messages mt_messages mt_to_siblings mt_to_events];
    rewrite ?block_events_snoc, ?block_messages_snoc; fold ne nm; rewrite ?E3, ?M3, ?Hbt.
  - by rewrite T1.
  - rewrite T2. unfold block_receipts. by rewrite enumerate_snoc, fmap_app.
  - done.
  - done.
  - rewrite T5, Hrow. replace (Int32 (tx_status tx)) with (transaction_status x)
      by (unfold transaction_status, x; by rewrite placed_transaction_meta). apply insert_value_rows.
  - change (set_transaction_meta _ _ _ _) with x. rewrite T6, Hrow, rows_of_snoc.
    destruct (transaction_type x) as [type|] eqn:Htype.
    + replace (transaction_type_key x) with (Some (transaction_type_value type)) by (unfold transaction_type_key; by rewrite Htype).
      by rewrite bitmap_of_rows_snoc.
    + replace (transaction_type_key x) with (@None ScalarValue) by (unfold transaction_type_key; by rewrite Htype).
      by rewrite app_nil_r.
  - rewrite T7, Hrow. rewrite <- Hkey at 2. apply insert_pair_rows.
  - by rewrite <- E3.
  - by rewrite <- M3.
  - rewrite <- E3. destruct E1. by constructor.
  - rewrite <- M3. destruct M1. by constructor.
  - rewrite E4. by eapply siblings_step; [exact Hbe|exact Hee|done| |exact T12].
  - rewrite M4. by eapply siblings_step; [exact Hbm|exact Hmm|done| |exact T13].
  - rewrite E4, M4. exact X1.
  - rewrite E4, M4. exact X2.
Qed.

Lemma collect_transactions_ok has_traces txs :
  fits txs -> body_tables_ok has_traces txs (collect_transactions has_traces txs).
Proof.
  unfold collect_transactions. induction txs as [|tx txs IH] using rev_ind; intros Hf.
  { apply collect_transactions_default. }
  rewrite enumerate_snoc, foldl_app. cbn [foldl]. apply collect_transaction_ok; [done|]. apply IH. by apply fits_snoc in Hf as [? _].
Qed.
