(* ===== verification/StarknetBlock.v ===== *)
(** * The fragments of a Starknet block

    The fragments of a block as a function of what the node returned
    ([starknet_models]), and the proof that ingestion writes exactly these: the
    indexes and joins can be built, and reading the stored block gives them
    back. *)

From S2P Require Import Prelude External Text Core Models Index IndexSpec Query QuerySpec Encoding EncodingSpec.
From S2P Require Import FragmentAccess FilterBlock FilterBlockFacts FilterBlockSpec Compaction CompactionFacts.
From S2P Require Import Starknet StarknetProto StarknetFilter Ingestion StarknetIngestion StarknetFacts StarknetTables.

(** ** Rows *)

Lemma elem_of_enumerate {A} (l : list A) i x : (i, x) ∈ enumerate l <-> at_row l i x.
Proof.
  unfold enumerate, at_row. rewrite elem_of_enumerate_from. by replace (Z.to_nat (i - 0)) with (Z.to_nat i) by lia.
Qed.

(** All the rows of the same transaction in two tables. *)
Definition rows_together {A B} (f : A -> Z) (g : B -> Z) (xs : list A) (ys : list B) : list (Z * Z) :=
  enumerate xs ≫= fun p => enumerate ys ≫= fun q => if f p.2 =? g q.2 then [(p.1, q.1)] else [].

(** The other rows of the same transaction. *)
Definition sibling_rows {A} (f : A -> Z) (xs : list A) : list (Z * Z) :=
  filter (fun p => p.1 <> p.2) (rows_together f f xs xs).

Lemma elem_of_rows_together {A B} (f : A -> Z) (g : B -> Z) xs ys a b :
  (a, b) ∈ rows_together f g xs ys <-> together f g xs ys a b.
Proof.
  unfold rows_together, together. rewrite list_elem_of_bind. split.
  - intros ([i x] & Hq & Hp%elem_of_enumerate). apply list_elem_of_bind in Hq as ([j y] & Hq & Hy%elem_of_enumerate).
    cbn [fst snd] in Hq. destruct (Z.eqb_spec (f x) (g y)) as [Heq|]; [|by apply not_elem_of_nil in Hq].
    apply list_elem_of_singleton in Hq as [= -> ->]. by exists x, y.
  - intros (x & y & Hx & Hy & Heq). exists (a, x). split; [|by apply elem_of_enumerate].
    apply list_elem_of_bind. exists (b, y). split; [|by apply elem_of_enumerate].
    cbn [fst snd]. rewrite (proj2 (Z.eqb_eq _ _) Heq). by apply list_elem_of_singleton.
Qed.

Lemma elem_of_sibling_rows {A} (f : A -> Z) xs a b :
  (a, b) ∈ sibling_rows f xs <-> a <> b /\ together f f xs xs a b.
Proof. unfold sibling_rows. by rewrite list_elem_of_filter, elem_of_rows_together. Qed.

(** A join to many rows depends on the pairs only. *)
Lemma join_many_of_rows_is_Some rows k : is_Some (join_many_of_rows rows !! k) <-> exists r, (k, r) ∈ rows.
Proof.
  induction rows as [|[a b] rows IH] using rev_ind.
  { unfold join_many_of_rows. cbn [foldl]. rewrite lookup_empty. split; [by intros []|set_solver]. }
  rewrite join_many_of_rows_snoc. unfold join_many_insert at 1. destruct (decide (k = a)) as [->|].
  - rewrite lookup_insert_eq. set_solver.
  - rewrite lookup_insert_ne by done. rewrite IH. set_solver.
Qed.

Lemma join_many_of_rows_ext rows rows' :
  (forall a b, (a, b) ∈ rows <-> (a, b) ∈ rows') -> join_many_of_rows rows = join_many_of_rows rows'.
Proof.
  intros Hext. apply map_eq. intros k.
  pose proof (join_many_of_rows_is_Some rows k) as H1. pose proof (join_many_of_rows_is_Some rows' k) as H2.
  setoid_rewrite Hext in H1. rewrite <- H2 in H1.
  pose proof (fun r => join_many_of_rows_spec rows k r) as S1. pose proof (fun r => join_many_of_rows_spec rows' k r) as S2.
  setoid_rewrite Hext in S1. setoid_rewrite <- S2 in S1.
  destruct (join_many_of_rows rows !! k) as [x|], (join_many_of_rows rows' !! k) as [y|]; cbn in *.
  - f_equal. by apply set_eq.
  - by destruct (proj1 H1) as [? ?]; [eexists|].
  - by destruct (proj2 H1) as [? ?]; [eexists|].
  - done.
Qed.

Lemma join_of_rows R joins rows :
  join_of R joins -> (forall a b, (a, b) ∈ rows <-> R a b) -> joins = join_many_of_rows rows.
Proof. intros (rows' & -> & Hr) Hrows. apply join_many_of_rows_ext. intros a b. by rewrite Hr, Hrows. Qed.

Lemma elem_of_rows_of {A} (key : A -> option ScalarValue) l k r :
  Z.of_nat (length l) < U32 -> (k, r) ∈ rows_of key l <-> exists x, at_row l r x /\ key x = Some k.
Proof.
  intros Hl. unfold rows_of. rewrite list_elem_of_omap. split.
  - intros ([i x] & Hi%elem_of_enumerate & Hk). cbn [fst snd] in Hk. pose proof (at_row_range _ _ _ Hi).
    destruct (key x) as [k'|] eqn:Hx; [|done]. cbn in Hk. injection Hk as -> <-.
    rewrite wrap32_id by (unfold is_u32; lia). by exists x.
  - intros (x & Hx & Hk). exists (r, x). split; [by apply elem_of_enumerate|]. pose proof (at_row_range _ _ _ Hx).
    cbn [fst snd]. rewrite Hk. cbn. by rewrite wrap32_id by (unfold is_u32; lia).
Qed.

Lemma elem_of_pairs_of {A} (value : A -> Z) l a b :
  Z.of_nat (length l) < U32 -> (a, b) ∈ pairs_of value l <-> exists x, at_row l a x /\ value x = b.
Proof.
  intros Hl. unfold pairs_of. rewrite list_elem_of_fmap. split.
  - intros ([i x] & [= -> ->] & Hi%elem_of_enumerate). pose proof (at_row_range _ _ _ Hi).
    rewrite wrap32_id by (unfold is_u32; lia). by exists x.
  - intros (x & Hx & <-). exists (a, x). split; [|by apply elem_of_enumerate]. pose proof (at_row_range _ _ _ Hx).
    cbn [fst snd]. by rewrite wrap32_id by (unfold is_u32; lia).
Qed.

Lemma elem_of_groups_of {A} (value : A -> Z) l a b :
  Z.of_nat (length l) < U32 -> (a, b) ∈ groups_of value l <-> exists x, at_row l b x /\ value x = a.
Proof.
  intros Hl. rewrite <- elem_of_pairs_of by done. unfold groups_of, pairs_of. rewrite !list_elem_of_fmap. naive_solver.
Qed.

(** The rows of an index have keys of one variant. *)
Lemma same_variant_rows_of {A} (key : A -> option ScalarValue) l rank :
  (forall x k, key x = Some k -> scalar_rank k = rank) -> same_variant (rows_of key l).
Proof.
  intros Hk. assert (forall e, e ∈ rows_of key l -> scalar_rank e.1 = rank) as He.
  { intros [k r] ([i x] & _ & Hx)%list_elem_of_omap. cbn in Hx. destruct (key x) as [k'|] eqn:Hkx; [|done].
    cbn in Hx. injection Hx as -> _. by eapply Hk. }
  intros a b Ha Hb. by rewrite (He a), (He b).
Qed.

Lemma field_value_rank f k : field_value f = Some k -> scalar_rank k = scalar_rank (B256 []).
Proof. destruct f; cbn; [by intros [= <-]|done]. Qed.

(** A row of an index holds the key of its element. *)
Lemma joins_to_one rows row row' :
  joins_to (OneRows rows) row row' -> (row, row') ∈ rows.
Proof.
  cbn. destruct (last _) as [[a b]|] eqn:Hl; [|done]. intros [= <-]. apply last_Some_elem_of in Hl.
  apply list_elem_of_filter in Hl as [Ha Hin]. cbn in Ha. by subst.
Qed.

(** ** A block from its parts *)

(** The index, the joins and the body of one fragment, as ingestion builds
    them. *)
Abbreviation block_part := (IndexFragment * JoinFragment * BodyFragment)%type.

Definition model_id (fm : fragment_model) : Z := bf_fragment_id (fm_body fm).

Definition models_map (fms : list fragment_model) : gmap Z fragment_model :=
  list_to_map ((fun fm => (model_id fm, fm)) <$> fms).

Definition block_of_parts (header : HeaderFragment) (parts : list block_part) : Block :=
  mkBlock header (mkIndexGroup ((fun p => p.1.1) <$> parts)) (mkJoinGroup ((fun p => p.1.2) <$> parts)) (snd <$> parts).

Section parts.
Context `{!Roaring, !BlockArchives}.

Record part_of (fm : fragment_model) (p : block_part) : Prop := {
  po_body : p.2 = fm_body fm;
  po_index_id : if_fragment_id p.1.1 = model_id fm;
  po_join_id : jf_fragment_id p.1.2 = model_id fm;
  po_range : if_range_start p.1.1 = 0 /\ if_range_len p.1.1 = fm_len fm;
  po_indexes : indexes_model (fm_indexes fm) (if_indexes p.1.1);
  po_joins : Forall2 join_built (fm_joins fm) (jf_joins p.1.2) }.

Lemma models_map_lookup fms fid fm :
  NoDup (model_id <$> fms) -> models_map fms !! fid = Some fm <-> fm ∈ fms /\ model_id fm = fid.
Proof.
  intros Hnd. unfold models_map. rewrite <- elem_of_list_to_map by (by rewrite <- list_fmap_compose).
  rewrite list_elem_of_fmap. naive_solver.
Qed.

Lemma find_part {B} (id : B -> Z) (proj : block_part -> B) fms parts fm :
  Forall2 (fun fm p => id (proj p) = model_id fm) fms parts -> NoDup (model_id <$> fms) -> fm ∈ fms ->
  forall p, (exists i, fms !! i = Some fm /\ parts !! i = Some p) ->
  find_first (fun f => id f =? model_id fm) (proj <$> parts) = Some (proj p).
Proof.
  intros H2 Hnd Hin p (i & Hfm & Hp). unfold find_first.
  assert (list_find (fun f => (id f =? model_id fm) = true) (proj <$> parts) = Some (i, proj p)) as ->; [|done].
  apply list_find_Some. rewrite list_lookup_fmap, Hp. cbn. split; [done|].
  pose proof (Forall2_lookup_lr _ _ _ _ _ _ H2 Hfm Hp) as Hid. cbn in Hid. rewrite Hid. split; [apply Z.eqb_refl|].
  intros j y Hy Hj Heq%Z.eqb_eq. rewrite list_lookup_fmap in Hy. destruct (parts !! j) as [q|] eqn:Hq; [|done].
  cbn in Hy. injection Hy as <-. destruct (Forall2_lookup_r _ _ _ _ _ H2 Hq) as (fm' & Hfm' & Hid'). cbn in Hid'.
  assert (j = i); [|lia]. apply (NoDup_lookup _ _ _ (model_id fm) Hnd); rewrite list_lookup_fmap; [rewrite Hfm'|rewrite Hfm]; cbn;
    congruence.
Qed.

Lemma block_of_parts_readable header fms parts :
  Forall2 part_of fms parts -> NoDup (model_id <$> fms) ->
  Forall (fun fm => fm_len fm < U32 /\ 1 < model_id fm < 255) fms ->
  (forall fm t jm row row', fm ∈ fms -> (t, jm) ∈ fm_joins fm -> joins_to jm row row' ->
    exists tm, tm ∈ fms /\ model_id tm = t /\ 0 <= row' < fm_len tm) ->
  block_readable (AccessBlock (to_bytes (block_of_parts header parts))) (models_map fms) header.
Proof.
  intros H2 Hnd Hlen Hj. constructor.
  - intros fid fm [Hin <-]%models_map_lookup; [|done]. rewrite Forall_forall in Hlen. destruct (Hlen fm Hin) as [Hl Hid].
    split; [|by split]. apply list_elem_of_lookup in Hin as [i Hi]. pose proof (list_elem_of_lookup_2 _ _ _ Hi) as Hin.
    destruct (Forall2_lookup_l _ _ _ _ _ H2 Hi) as (p & Hp & [P1 P2 P3 [P4 P5] P6 P7]).
    assert (exists i, fms !! i = Some fm /\ parts !! i = Some p) as Hex by eauto.
    constructor.
    + exists p.1.1. rewrite block_index_eq. cbn [blk_index ig_indexes block_of_parts].
      rewrite (find_part if_fragment_id (fun p => p.1.1) fms parts fm) with (p := p); [done| |done..].
      eapply Forall2_impl; [done|]. by intros ? ? [].
    + exists p.1.2. rewrite block_join_eq. cbn [blk_join jg_joins block_of_parts].
      rewrite (find_part jf_fragment_id (fun p => p.1.2) fms parts fm) with (p := p); [done| |done..].
      eapply Forall2_impl; [done|]. by intros ? ? [].
    + rewrite block_body_eq. cbn [blk_body block_of_parts].
      rewrite (find_part bf_fragment_id snd fms parts fm) with (p := p); [by rewrite P1| |done..].
      eapply Forall2_impl; [done|]. intros ? ? [-> _ _ _ _ _]. done.
  - apply block_header_eq.
  - intros s fm t jm row row' [Hin _]%models_map_lookup Hjm Hto; [|done].
    destruct (Hj fm t jm row row' Hin Hjm Hto) as (tm & Htm & Hid & Hr). exists tm. split; [|done].
    by apply models_map_lookup.
Qed.

Lemma block_of_parts_names names header fms parts :
  Forall2 part_of fms parts -> NoDup (model_id <$> fms) ->
  (forall fid name, names !! fid = Some name /\ ~ reserved fid <->
     exists fm, fm ∈ fms /\ model_id fm = fid /\ bf_name (fm_body fm) = name) ->
  block_ok names (block_of_parts header parts) /\
  length (ig_indexes (blk_index (block_of_parts header parts))) = length (blk_body (block_of_parts header parts)).
Proof.
  intros H2 Hnd Hn. assert (snd <$> parts = fm_body <$> fms) as Hb.
  { clear - H2. induction H2 as [|fm p fms parts [Hp _ _ _ _ _] H2 IH]; [done|]. by rewrite !fmap_cons, Hp, IH. }
  split; [|cbn; by rewrite !length_fmap]. constructor; unfold block_of_parts; cbn [blk_body]; rewrite Hb.
  - by rewrite <- list_fmap_compose.
  - intros f (fm & -> & Hin)%list_elem_of_fmap. apply Hn. by exists fm.
  - intros fid [name Hname] Hr. destruct (proj1 (Hn fid name)) as (fm & Hin & <- & _); [done|].
    rewrite <- list_fmap_compose. apply list_elem_of_fmap. by exists fm.
Qed.
End parts.

(** ** The data of a block *)

Definition placed_trace (p : Z * TransactionTraceWithHash) : Starknet.TransactionTrace :=
  set_trace_index (wrap32 p.1) (to_proto p.2).

Definition block_traces (traces : list TransactionTraceWithHash) : list Starknet.TransactionTrace :=
  placed_trace <$> enumerate traces.

Definition block_storage_diffs (sd : StateDiff) : list StorageDiff := to_proto <$> df_storage_diffs sd.

Definition block_nonce_updates (sd : StateDiff) : list Starknet.NonceUpdate := to_proto <$> df_nonces sd.

(** The classes of Cairo 0 are declared without a compiled class. *)
Definition deprecated_class (class_hash : Felt) : Change := DeclaredClass (Some (to_proto class_hash)) None.

Definition block_changes (sd : StateDiff) : list ContractChange :=
  mkContractChange [] ∘ Some <$>
    (deprecated_class <$> df_deprecated_declared_classes sd) ++ (to_proto <$> df_declared_classes sd) ++
    (to_proto <$> df_replaced_classes sd) ++ (to_proto <$> df_deployed_contracts sd).

Definition change_kind (change : Change) : ContractChangeType :=
  match change with
  | DeclaredClass _ _ => ChangeDeclaredClass
  | ReplacedClass _ _ => ChangeReplaced
  | DeployedContract _ _ => ChangeDeployed
  end.

Definition contract_change_key (c : ContractChange) : option ScalarValue :=
  (contract_change_value ∘ change_kind) <$> cc_change c.

Definition storage_diff_address (s : StorageDiff) : option ScalarValue := field_value (sd_contract_address s).
Definition nonce_update_address (n : Starknet.NonceUpdate) : option ScalarValue := field_value (Starknet.nu_contract_address n).

(** ** The loops over the traces and the state update *)

Lemma collect_traces_eq traces :
  collect_traces traces =
  (block_traces traces, join_one_of_rows (pairs_of tt_transaction_index (block_traces traces))).
Proof.
  unfold collect_traces, block_traces. induction traces as [|t traces IH] using rev_ind; [done|].
  rewrite foldl_app, IH, enumerate_snoc, fmap_app. cbn [foldl fmap list_fmap]. unfold collect_trace. cbn [fst snd].
  rewrite pairs_of_snoc, join_one_of_rows_snoc. unfold len32. by rewrite length_fmap, length_enumerate.
Qed.

Lemma collect_storage_diffs_eq items :
  foldl collect_storage_diff ([], ∅) items =
  (to_proto <$> items, bitmap_of_rows (rows_of storage_diff_address (to_proto <$> items))).
Proof.
  induction items as [|item items IH] using rev_ind; [done|]. rewrite foldl_app, IH, fmap_app. cbn [foldl].
  unfold collect_storage_diff. cbn [fst snd]. f_equal. exact (insert_field_rows sd_contract_address _ (to_proto item)).
Qed.

Lemma collect_nonce_updates_eq items :
  foldl collect_nonce_update ([], ∅) items =
  (to_proto <$> items, bitmap_of_rows (rows_of nonce_update_address (to_proto <$> items))).
Proof.
  induction items as [|item items IH] using rev_ind; [done|]. rewrite foldl_app, IH, fmap_app. cbn [foldl].
  unfold collect_nonce_update. cbn [fst snd]. f_equal. exact (insert_field_rows Starknet.nu_contract_address _ (to_proto item)).
Qed.

Lemma collect_change_eq {A} type (change : A -> Change) l items :
  (forall x, change_kind (change x) = type) ->
  foldl (collect_change type change) (l, bitmap_of_rows (rows_of contract_change_key l)) items =
  (l ++ (mkContractChange [] ∘ Some ∘ change <$> items),
   bitmap_of_rows (rows_of contract_change_key (l ++ (mkContractChange [] ∘ Some ∘ change <$> items)))).
Proof.
  intros Hk. induction items as [|item items IH] using rev_ind; [by rewrite app_nil_r|].
  rewrite foldl_app, IH, fmap_app, (assoc_L (++)). cbn [foldl]. unfold collect_change at 1. cbn [fst snd].
  f_equal. cbn [fmap list_fmap]. rewrite rows_of_snoc. unfold contract_change_key at 3. cbn. rewrite Hk.
  by rewrite bitmap_of_rows_snoc.
Qed.

Lemma collect_changes_eq sd :
  collect_changes sd = (block_changes sd, bitmap_of_rows (rows_of contract_change_key (block_changes sd))).
Proof.
  unfold collect_changes. change (@empty BitmapIndexBuilder _) with (bitmap_of_rows (rows_of contract_change_key [])).
  rewrite (collect_change_eq _ deprecated_class) by done.
  do 3 (rewrite collect_change_eq by done). unfold block_changes. rewrite !fmap_app, <- !list_fmap_compose, !(assoc_L (++)). done.
Qed.

(** ** The fragments *)

Section models.
Context `{!Roaring, !StarknetEncoding, !BlockArchives}.
Variables (txs : list TransactionWithReceipt) (traces : list TransactionTraceWithHash) (sd : StateDiff).

(** The join from events and messages to traces is only filled when the block
    has traces. *)
Definition to_traces {A} (f : A -> Z) (l : list A) : list (Z * Z) :=
  if bool_decide (traces = []) then [] else pairs_of f l.

Definition transaction_fragment : fragment_model :=
  let T := block_transactions txs in
  mkFragmentModel [Some (rows_of (Some ∘ transaction_status) T); Some (rows_of transaction_type_key T)]
    [(RECEIPT_FRAGMENT_ID, OneRows (pairs_of transaction_key T));
     (EVENT_FRAGMENT_ID, ManyRows (groups_of event_transaction_index (block_events txs)));
     (MESSAGE_FRAGMENT_ID, ManyRows (groups_of message_transaction_index (block_messages txs)));
     (TRACE_FRAGMENT_ID, OneRows (pairs_of tt_transaction_index (block_traces traces)))]
    (mkBodyFragment TRANSACTION_FRAGMENT_ID TRANSACTION_FRAGMENT_NAME (encode_transaction <$> T)).

Definition receipt_fragment : fragment_model :=
  mkFragmentModel [] []
    (mkBodyFragment RECEIPT_FRAGMENT_ID RECEIPT_FRAGMENT_NAME (encode_receipt <$> block_receipts txs)).

Definition event_fragment : fragment_model :=
  let E := block_events txs in
  mkFragmentModel
    [Some (rows_of event_address E); Some (rows_of (event_key 0) E); Some (rows_of (event_key 1) E);
     Some (rows_of (event_key 2) E); Some (rows_of (event_key 3) E); Some (rows_of (Some ∘ event_key_length) E);
     Some (rows_of (Some ∘ event_status) E)]
    [(TRANSACTION_FRAGMENT_ID, OneRows (pairs_of event_transaction_index E));
     (RECEIPT_FRAGMENT_ID, OneRows (pairs_of event_transaction_index E));
     (EVENT_FRAGMENT_ID, ManyRows (sibling_rows event_transaction_index E));
     (MESSAGE_FRAGMENT_ID, ManyRows (rows_together event_transaction_index message_transaction_index E (block_messages txs)));
     (TRACE_FRAGMENT_ID, OneRows (to_traces event_transaction_index E))]
    (mkBodyFragment EVENT_FRAGMENT_ID EVENT_FRAGMENT_NAME (encode_event <$> E)).

Definition message_fragment : fragment_model :=
  let M := block_messages txs in
  mkFragmentModel
    [Some (rows_of message_from M); Some (rows_of message_to M); Some (rows_of (Some ∘ message_status) M)]
    [(TRANSACTION_FRAGMENT_ID, OneRows (pairs_of message_transaction_index M));
     (RECEIPT_FRAGMENT_ID, OneRows (pairs_of message_transaction_index M));
     (EVENT_FRAGMENT_ID, ManyRows (rows_together message_transaction_index event_transaction_index M (block_events txs)));
     (MESSAGE_FRAGMENT_ID, ManyRows (sibling_rows message_transaction_index M));
     (TRACE_FRAGMENT_ID, OneRows (to_traces message_transaction_index M))]
    (mkBodyFragment MESSAGE_FRAGMENT_ID MESSAGE_FRAGMENT_NAME (encode_message <$> M)).

Definition trace_fragment : fragment_model :=
  mkFragmentModel [] [] (mkBodyFragment TRACE_FRAGMENT_ID TRACE_FRAGMENT_NAME (encode_trace <$> block_traces traces)).

(** A fragment with one index. *)
Definition indexed_fragment {A} (id : Z) (name : string) (key : A -> option ScalarValue) (encode : A -> list byte)
    (l : list A) : fragment_model :=
  mkFragmentModel [Some (rows_of key l)] [] (mkBodyFragment id name (encode <$> l)).

Definition storage_diff_fragment : fragment_model :=
  indexed_fragment STORAGE_DIFF_FRAGMENT_ID STORAGE_DIFF_FRAGMENT_NAME storage_diff_address encode_storage_diff
    (block_storage_diffs sd).

Definition contract_change_fragment : fragment_model :=
  indexed_fragment CONTRACT_CHANGE_FRAGMENT_ID CONTRACT_CHANGE_FRAGMENT_NAME contract_change_key encode_contract_change
    (block_changes sd).

Definition nonce_update_fragment : fragment_model :=
  indexed_fragment NONCE_UPDATE_FRAGMENT_ID NONCE_UPDATE_FRAGMENT_NAME nonce_update_address encode_nonce_update
    (block_nonce_updates sd).

Definition starknet_models : list fragment_model :=
  [transaction_fragment; receipt_fragment; event_fragment; message_fragment; trace_fragment;
   storage_diff_fragment; contract_change_fragment; nonce_update_fragment].

(** The block is within the range of the row numbers, and has a trace for
    every transaction or none. *)
Definition block_fits : Prop :=
  fits txs /\ Z.of_nat (length traces) < U32 /\ (traces = [] \/ length traces = length txs) /\
  Z.of_nat (length (block_storage_diffs sd)) < U32 /\ Z.of_nat (length (block_changes sd)) < U32 /\
  Z.of_nat (length (block_nonce_updates sd)) < U32.

(** ** Building the indexes and joins *)

Definition index_built (rows : list (ScalarValue * Z)) (id : Z) (idx : FragmentIndex) : Prop :=
  exists bitmap, idx = mkFragmentIndex id (BitmapIdx bitmap) /\ bitmap_build (bitmap_of_rows rows) = Ok bitmap.

Lemma built_index_ok id builder rows :
  builder = bitmap_of_rows rows -> same_variant rows ->
  exists idx, built_index id builder = Ok idx /\ index_built rows id idx.
Proof.
  intros -> Hv. destruct (bitmap_build_get (bitmap_of_rows rows)) as (bitmap & Hb & _); [by apply bitmap_of_rows_homogeneous|].
  exists (mkFragmentIndex id (BitmapIdx bitmap)). unfold built_index. rewrite Hb. split; [done|]. by exists bitmap.
Qed.

Lemma index_built_model rows id idx :
  same_variant rows -> index_built rows id idx ->
  match fi_index idx with BitmapIdx bitmap => same_variant rows /\ bitmap_build (bitmap_of_rows rows) = Ok bitmap | _ => False end.
Proof. intros Hv (bitmap & -> & Hb). by split. Qed.

Lemma many_join_ok id builder rows :
  builder = join_many_of_rows rows -> exists j, many_join id builder = Ok j /\ join_built (id, ManyRows rows) j.
Proof.
  intros ->. destruct (join_many_build_get (join_many_of_rows rows)) as (idx & Hb & _).
  exists (mkFragmentJoin id (JoinMany idx)). unfold many_join. rewrite Hb. done.
Qed.

Lemma one_join_built id builder rows :
  builder = join_one_of_rows rows -> join_built (id, OneRows rows) (one_join id builder).
Proof. by intros ->. Qed.

Lemma same_variant_field {A} (field : A -> option FieldElement) l : same_variant (rows_of (fun x => field_value (field x)) l).
Proof. eapply same_variant_rows_of. intros x k. apply field_value_rank. Qed.

Lemma same_variant_value {A} (value : A -> ScalarValue) l :
  (forall x y, scalar_rank (value x) = scalar_rank (value y)) -> same_variant (rows_of (Some ∘ value) l).
Proof.
  intros Hv a b ([i x] & _ & Ha)%list_elem_of_omap ([j y] & _ & Hb)%list_elem_of_omap. cbn in Ha, Hb.
  injection Ha as <-. injection Hb as <-. apply Hv.
Qed.

Lemma len32_data {A} (encode : A -> list byte) (l : list A) id name indexes joins :
  Z.of_nat (length l) < U32 ->
  len32 l = fm_len (mkFragmentModel indexes joins (mkBodyFragment id name (encode <$> l))).
Proof. intros Hl. unfold len32, fm_len. cbn. rewrite length_fmap. apply wrap32_id. unfold is_u32. lia. Qed.

(** ** The parts *)

Definition has_traces : bool := negb (bool_decide (block_traces traces = [])).

Lemma to_traces_eq {A} (f : A -> Z) (l : list A) :
  (if has_traces then join_one_of_rows (pairs_of f l) else ∅) = join_one_of_rows (to_traces f l).
Proof.
  unfold has_traces, to_traces. rewrite (bool_decide_ext (block_traces traces = []) (traces = [])); [by case_bool_decide|].
  by destruct traces.
Qed.

Variable t : BodyTables.
Hypothesis tables : body_tables_ok has_traces txs t.
Hypothesis fits_in : block_fits.

Lemma transaction_fragments_ok :
  exists p, transaction_fragments (bt_transactions t) (join_one_of_rows (pairs_of tt_transaction_index (block_traces traces)))
    (block_transactions txs) = Ok p /\ part_of transaction_fragment p.
Proof using tables fits_in.
  destruct tables. destruct fits_in as ((Hl & _) & _). unfold transaction_fragments.
  assert (same_variant (rows_of (Some ∘ transaction_status) (block_transactions txs))) as V1 by (by apply same_variant_value).
  assert (same_variant (rows_of transaction_type_key (block_transactions txs))) as V2.
  { eapply (same_variant_rows_of _ _ (scalar_rank (Uint32 0))). intros x k. unfold transaction_type_key.
    destruct (transaction_type x); [by intros [= <-]|done]. }
  destruct (built_index_ok INDEX_TRANSACTION_BY_STATUS _ _ bo_by_status V1) as (i1 & -> & I1).
  destruct (built_index_ok INDEX_TRANSACTION_BY_TYPE _ _ bo_by_type V2) as (i2 & -> & I2).
  destruct (many_join_ok EVENT_FRAGMENT_ID _ _ bo_to_events) as (j1 & -> & J1).
  destruct (many_join_ok MESSAGE_FRAGMENT_ID _ _ bo_to_messages) as (j2 & -> & J2).
  eexists. split; [reflexivity|]. constructor; cbn [fst snd if_fragment_id jf_fragment_id if_range_start if_range_len if_indexes jf_joins].
  - done.
  - done.
  - done.
  - split; [done|]. apply len32_data. unfold block_transactions. by rewrite length_fmap, length_enumerate.
  - repeat (constructor; [by eapply index_built_model|]). constructor.
  - repeat (constructor; [by first [exact J1|exact J2|by apply one_join_built]|]). constructor.
Qed.

Lemma event_fragments_ok :
  exists p, event_fragments (bt_events t) (block_events txs) = Ok p /\ part_of event_fragment p.
Proof using tables fits_in.
  destruct tables as [_ _ Hev _ _ _ _ _ _ [E1 E2 E3 E4 E5 E6 E7 E8 E9 E10] _ Hs _ Hm _].
  destruct fits_in as ((_ & Hl & _) & _). rewrite <- length_block_events in Hl. unfold event_fragments.
  rewrite Hev in E1, E2, E3, E4, E5, E6, E7, E8, E9, E10. rewrite to_traces_eq in E10.
  pose proof (fun i => same_variant_field (fun e => event_keys e !! i) (block_events txs)) as VK.
  pose proof (same_variant_field event_from_address (block_events txs)) as VA.
  assert (same_variant (rows_of (Some ∘ event_key_length) (block_events txs))) as VL by (by apply same_variant_value).
  assert (same_variant (rows_of (Some ∘ event_status) (block_events txs))) as VS by (by apply same_variant_value).
  destruct (built_index_ok INDEX_EVENT_BY_ADDRESS _ _ E1 VA) as (i1 & -> & I1).
  destruct (built_index_ok INDEX_EVENT_BY_KEY0 _ _ E2 (VK _)) as (i2 & -> & I2).
  destruct (built_index_ok INDEX_EVENT_BY_KEY1 _ _ E3 (VK _)) as (i3 & -> & I3).
  destruct (built_index_ok INDEX_EVENT_BY_KEY2 _ _ E4 (VK _)) as (i4 & -> & I4).
  destruct (built_index_ok INDEX_EVENT_BY_KEY3 _ _ E5 (VK _)) as (i5 & -> & I5).
  destruct (built_index_ok INDEX_EVENT_BY_KEY_LENGTH _ _ E6 VL) as (i6 & -> & I6).
  destruct (built_index_ok INDEX_EVENT_BY_TRANSACTION_STATUS _ _ E7 VS) as (i7 & -> & I7).
  destruct (many_join_ok EVENT_FRAGMENT_ID _ _ (join_of_rows _ _ _ Hs (elem_of_sibling_rows _ _))) as (j1 & -> & J1).
  destruct (many_join_ok MESSAGE_FRAGMENT_ID _ _ (join_of_rows _ _ _ Hm (elem_of_rows_together _ _ _ _))) as (j2 & -> & J2).
  eexists. split; [reflexivity|]. constructor; cbn [fst snd if_fragment_id jf_fragment_id if_range_start if_range_len if_indexes jf_joins].
  - done.
  - done.
  - done.
  - split; [done|]. by apply len32_data.
  - repeat (constructor; [by eapply index_built_model; [first [apply VK|apply VA|apply VL|apply VS]|]|]). constructor.
  - repeat (constructor; [first [exact J1|exact J2|by apply one_join_built]|]). constructor.
Qed.

Lemma message_fragments_ok :
  exists p, message_fragments (bt_messages t) (block_messages txs) = Ok p /\ part_of message_fragment p.
Proof using tables fits_in.
  destruct tables as [_ _ _ Hmsg _ _ _ _ _ _ [E1 E2 E3 E4 E5 E6] _ Hs _ Hm].
  destruct fits_in as ((_ & _ & Hl) & _). rewrite <- length_block_messages in Hl. unfold message_fragments.
  rewrite Hmsg in E1, E2, E3, E4, E5, E6. rewrite to_traces_eq in E6.
  pose proof (same_variant_field message_from_address (block_messages txs)) as VF.
  pose proof (same_variant_field message_to_address (block_messages txs)) as VT.
  assert (same_variant (rows_of (Some ∘ message_status) (block_messages txs))) as VS by (by apply same_variant_value).
  destruct (built_index_ok INDEX_MESSAGE_BY_FROM_ADDRESS _ _ E1 VF) as (i1 & -> & I1).
  destruct (built_index_ok INDEX_MESSAGE_BY_TO_ADDRESS _ _ E2 VT) as (i2 & -> & I2).
  destruct (built_index_ok INDEX_MESSAGE_BY_TRANSACTION_STATUS _ _ E3 VS) as (i3 & -> & I3).
  destruct (many_join_ok EVENT_FRAGMENT_ID _ _ (join_of_rows _ _ _ Hm (elem_of_rows_together _ _ _ _))) as (j1 & -> & J1).
  destruct (many_join_ok MESSAGE_FRAGMENT_ID _ _ (join_of_rows _ _ _ Hs (elem_of_sibling_rows _ _))) as (j2 & -> & J2).
  eexists. split; [reflexivity|]. constructor; cbn [fst snd if_fragment_id jf_fragment_id if_range_start if_range_len if_indexes jf_joins].
  - done.
  - done.
  - done.
  - split; [done|]. by apply len32_data.
  - repeat (constructor; [by eapply index_built_model; [first [apply VF|apply VT|apply VS]|]|]). constructor.
  - repeat (constructor; [first [exact J1|exact J2|by apply one_join_built]|]). constructor.
Qed.

Lemma plain_fragments_ok {A} id name (encode : A -> list byte) (l : list A) :
  Z.of_nat (length l) < U32 ->
  part_of (mkFragmentModel [] [] (mkBodyFragment id name (encode <$> l))) (plain_fragments id name (encode <$> l)).
Proof.
  intros Hl. constructor; cbn; [done..| |constructor|constructor]. split; [done|]. unfold len32, fm_len. cbn.
  rewrite length_fmap. apply wrap32_id. unfold is_u32. lia.
Qed.

Lemma indexed_fragments_ok {A} id name index_id (key : A -> option ScalarValue) (encode : A -> list byte) (l : list A) :
  Z.of_nat (length l) < U32 -> same_variant (rows_of key l) ->
  exists p, indexed_fragments id name index_id (bitmap_of_rows (rows_of key l)) (encode <$> l) = Ok p /\
    part_of (indexed_fragment id name key encode l) p.
Proof.
  intros Hl Hv. unfold indexed_fragments. destruct (built_index_ok index_id _ _ eq_refl Hv) as (i & -> & I).
  eexists. split; [reflexivity|]. constructor; cbn [fst snd if_fragment_id jf_fragment_id if_range_start if_range_len if_indexes jf_joins].
  - done.
  - done.
  - done.
  - split; [done|]. unfold len32, fm_len. cbn. rewrite length_fmap. apply wrap32_id. unfold is_u32. lia.
  - constructor; [by eapply index_built_model|constructor].
  - constructor.
Qed.
End models.

(** ** The block *)

Lemma sort_placed {A B} (key : B -> Z) (place : Z * A -> B) (l : list A) :
  (forall p, key (place p) = wrap32 p.1) -> Z.of_nat (length l) < U32 ->
  sort_by_key key (place <$> enumerate l) = place <$> enumerate l.
Proof.
  intros Hk Hl. apply sort_by_key_sorted. intros i x y Hx Hy. unfold enumerate in *.
  rewrite list_lookup_fmap, lookup_enumerate_from in Hx, Hy.
  destruct (l !! i) as [a|] eqn:Ha; [|done]. destruct (l !! S i) as [b|] eqn:Hb; [|done]. cbn in Hx, Hy.
  injection Hx as <-. injection Hy as <-. rewrite !Hk. cbn [fst]. apply lookup_lt_Some in Hb.
  rewrite !wrap32_id by (unfold is_u32; lia). lia.
Qed.

Section block.
Context `{!Roaring, !StarknetEncoding, !BlockArchives}.

Lemma collect_block_ok txs traces sd :
  block_fits txs traces sd ->
  exists parts, collect_block_body_and_index txs traces = Ok (ingestion_result parts) /\
    Forall2 part_of [transaction_fragment txs traces; receipt_fragment txs; event_fragment txs traces;
      message_fragment txs traces; trace_fragment traces] parts.
Proof.
  intros Hfit. pose proof Hfit as ((F1 & F2 & F3) & F4 & _). unfold collect_block_body_and_index.
  rewrite collect_traces_eq. fold (has_traces traces).
  pose proof (collect_transactions_ok (has_traces traces) txs (proj1 Hfit)) as Ht.
  set (t := collect_transactions _ txs) in *.
  rewrite (bo_events _ _ _ Ht), (bo_messages _ _ _ Ht), (bo_transactions _ _ _ Ht), (bo_receipts _ _ _ Ht).
  unfold block_events at 1, block_messages at 1, block_transactions at 1, block_receipts at 1.
  rewrite (sort_placed event_index placed_event), (sort_placed message_index placed_message) by done.
  rewrite (sort_placed transaction_key placed_transaction)
    by (done || (intros p; unfold transaction_key; by rewrite placed_transaction_meta)).
  rewrite (sort_placed receipt_key placed_receipt) by (done || apply placed_receipt_meta).
  fold (block_events txs) (block_messages txs) (block_transactions txs) (block_receipts txs).
  destruct (transaction_fragments_ok txs traces sd t Ht Hfit) as (p1 & -> & P1).
  destruct (event_fragments_ok txs traces sd t Ht Hfit) as (p2 & -> & P2).
  destruct (message_fragments_ok txs traces sd t Ht Hfit) as (p3 & -> & P3).
  eexists. split; [reflexivity|]. constructor; [done|]. constructor.
  { apply plain_fragments_ok. unfold block_receipts. by rewrite length_fmap, length_enumerate. }
  constructor; [done|]. constructor; [done|]. constructor; [|constructor].
  apply plain_fragments_ok. unfold block_traces. by rewrite length_fmap, length_enumerate.
Qed.

Lemma collect_state_update_ok txs traces sd :
  block_fits txs traces sd ->
  exists parts, collect_state_update_body_and_index sd = Ok (ingestion_result parts) /\
    Forall2 part_of [storage_diff_fragment sd; contract_change_fragment sd; nonce_update_fragment sd] parts.
Proof.
  intros (_ & _ & _ & F1 & F2 & F3). unfold collect_state_update_body_and_index.
  rewrite collect_storage_diffs_eq, collect_changes_eq, collect_nonce_updates_eq.
  fold (block_storage_diffs sd) (block_nonce_updates sd).
  assert (same_variant (rows_of contract_change_key (block_changes sd))) as VC.
  { eapply (same_variant_rows_of _ _ (scalar_rank (Uint32 0))). intros c k. unfold contract_change_key.
    destruct (cc_change c); [by intros [= <-]|done]. }
  destruct (indexed_fragments_ok STORAGE_DIFF_FRAGMENT_ID STORAGE_DIFF_FRAGMENT_NAME INDEX_STORAGE_DIFF_BY_CONTRACT_ADDRESS
    storage_diff_address encode_storage_diff _ F1 (same_variant_field sd_contract_address _)) as (p1 & -> & P1).
  destruct (indexed_fragments_ok CONTRACT_CHANGE_FRAGMENT_ID CONTRACT_CHANGE_FRAGMENT_NAME INDEX_CONTRACT_CHANGE_BY_TYPE
    contract_change_key encode_contract_change _ F2 VC) as (p2 & -> & P2).
  destruct (indexed_fragments_ok NONCE_UPDATE_FRAGMENT_ID NONCE_UPDATE_FRAGMENT_NAME INDEX_NONCE_UPDATE_BY_CONTRACT_ADDRESS
    nonce_update_address encode_nonce_update _ F3 (same_variant_field Starknet.nu_contract_address _)) as (p3 & -> & P3).
  eexists. split; [reflexivity|]. do 3 (constructor; [done|]). constructor.
Qed.

Lemma index_block_ok header txs traces sd :
  block_fits txs traces sd ->
  exists parts, index_block header txs traces sd =
      Ok (block_of_parts (mkHeaderFragment (encode_header_message header)) parts) /\
    Forall2 part_of (starknet_models txs traces sd) parts.
Proof.
  intros Hfit. destruct (collect_block_ok txs traces sd Hfit) as (p1 & R1 & P1).
  destruct (collect_state_update_ok txs traces sd Hfit) as (p2 & R2 & P2).
  exists (p1 ++ p2). split; [|exact (Forall2_app P1 P2)].
  unfold index_block. rewrite R1, R2. unfold block_of_parts. by rewrite !fmap_app.
Qed.

(** Every join of the block leads to a row of the block. *)
Lemma event_transaction_range txs a e : fits txs -> at_row (block_events txs) a e -> 0 <= event_transaction_index e < Z.of_nat (length txs).
Proof.
  intros (Hl & _ & _) [_ Ha]. pose proof (events_before txs Hl) as Hb. rewrite Forall_lookup in Hb.
  split; [|by eapply Hb]. unfold block_events in Ha. rewrite list_lookup_fmap in Ha. destruct (enumerate _ !! _) as [p|]; [|done].
  cbn in Ha. injection Ha as <-. apply wrap32_range.
Qed.

Lemma message_transaction_range txs a m : fits txs -> at_row (block_messages txs) a m -> 0 <= message_transaction_index m < Z.of_nat (length txs).
Proof.
  intros (Hl & _ & _) [_ Ha]. pose proof (messages_before txs Hl) as Hb. rewrite Forall_lookup in Hb.
  split; [|by eapply Hb]. unfold block_messages in Ha. rewrite list_lookup_fmap in Ha. destruct (enumerate _ !! _) as [p|]; [|done].
  cbn in Ha. injection Ha as <-. apply wrap32_range.
Qed.

Lemma transaction_key_at txs a x : Z.of_nat (length txs) < U32 -> at_row (block_transactions txs) a x -> transaction_key x = a.
Proof.
  intros Hl [Ha Hx]. pose proof (lookup_lt_Some _ _ _ Hx) as Hlt. unfold block_transactions, enumerate in *.
  rewrite length_fmap, length_enumerate_from in Hlt. rewrite list_lookup_fmap, lookup_enumerate_from in Hx.
  destruct (txs !! _) as [tx|]; [|done]. cbn [fmap option_fmap option_map] in Hx. injection Hx as <-.
  unfold transaction_key. rewrite placed_transaction_meta. cbn. rewrite wrap32_id by (unfold is_u32; lia). lia.
Qed.

Lemma trace_index_at traces a x : Z.of_nat (length traces) < U32 -> at_row (block_traces traces) a x -> tt_transaction_index x = a.
Proof.
  intros Hl [Ha Hx]. pose proof (lookup_lt_Some _ _ _ Hx) as Hlt. unfold block_traces, enumerate in *.
  rewrite length_fmap, length_enumerate_from in Hlt. rewrite list_lookup_fmap, lookup_enumerate_from in Hx.
  destruct (traces !! _) as [tx|]; [|done]. cbn [fmap option_fmap option_map] in Hx. injection Hx as <-.
  unfold placed_trace, set_trace_index. cbn. rewrite wrap32_id by (unfold is_u32; lia). lia.
Qed.
End block.
