(* ===== verification/StarknetQuery.v ===== *)
(** * What a Starknet request asks for

    The reference meaning of a request on the data of the node: which rows each
    filter selects ([item_matches]) and which rows belong to the same
    transaction ([of_transaction]).  The compiled request only uses fragments,
    indexes and joins that a block has, and means the same. *)

From S2P Require Import Prelude External Text Core Models Index IndexSpec Query QuerySpec Encoding EncodingSpec.
From S2P Require Import FragmentAccess FilterBlock FilterBlockFacts FilterBlockSpec Compaction CompactionFacts.
From S2P Require Import Server Starknet StarknetProto StarknetFilter Ingestion StarknetIngestion StarknetFacts StarknetTables StarknetBlock.

(** ** Rows of the same transaction *)

(** Row [row] of fragment [fid] belongs to transaction [i] of the block. *)
Inductive of_transaction (txs : list TransactionWithReceipt) (traces : list TransactionTraceWithHash) : Z -> Z -> Z -> Prop :=
| of_transaction_itself i :
    0 <= i < Z.of_nat (length txs) -> of_transaction txs traces TRANSACTION_FRAGMENT_ID i i
| of_transaction_receipt i :
    0 <= i < Z.of_nat (length txs) -> of_transaction txs traces RECEIPT_FRAGMENT_ID i i
| of_transaction_event row e :
    at_row (block_events txs) row e -> of_transaction txs traces EVENT_FRAGMENT_ID row (event_transaction_index e)
| of_transaction_message row m :
    at_row (block_messages txs) row m -> of_transaction txs traces MESSAGE_FRAGMENT_ID row (message_transaction_index m)
| of_transaction_trace i :
    0 <= i < Z.of_nat (length traces) -> of_transaction txs traces TRACE_FRAGMENT_ID i i.

(** Two rows of one transaction; a row is not its own sibling. *)
Definition linked txs traces (s t row row' : Z) : Prop :=
  exists i, of_transaction txs traces s row i /\ of_transaction txs traces t row' i /\ (s = t -> row <> row').

Lemma linked_ne txs traces s t row row' :
  s <> t -> linked txs traces s t row row' <->
  exists i, of_transaction txs traces s row i /\ of_transaction txs traces t row' i.
Proof. unfold linked. naive_solver. Qed.

Section of_transaction.
Variables (txs : list TransactionWithReceipt) (traces : list TransactionTraceWithHash).

Lemma of_transaction_tx row i :
  of_transaction txs traces TRANSACTION_FRAGMENT_ID row i <-> row = i /\ 0 <= i < Z.of_nat (length txs).
Proof. split; [intros Ho; by inversion Ho; subst|]. intros [-> Hi]. by constructor. Qed.

Lemma of_transaction_rx row i :
  of_transaction txs traces RECEIPT_FRAGMENT_ID row i <-> row = i /\ 0 <= i < Z.of_nat (length txs).
Proof. split; [intros Ho; by inversion Ho; subst|]. intros [-> Hi]. by constructor. Qed.

Lemma of_transaction_ev row i :
  of_transaction txs traces EVENT_FRAGMENT_ID row i <-> exists e, at_row (block_events txs) row e /\ event_transaction_index e = i.
Proof. split; [intros Ho; inversion Ho; subst; by eexists|]. intros (e & He & <-). by constructor. Qed.

Lemma of_transaction_msg row i :
  of_transaction txs traces MESSAGE_FRAGMENT_ID row i <->
  exists m, at_row (block_messages txs) row m /\ message_transaction_index m = i.
Proof. split; [intros Ho; inversion Ho; subst; by eexists|]. intros (e & He & <-). by constructor. Qed.

Lemma of_transaction_tt row i :
  of_transaction txs traces TRACE_FRAGMENT_ID row i <-> row = i /\ 0 <= i < Z.of_nat (length traces).
Proof. split; [intros Ho; by inversion Ho; subst|]. intros [-> Hi]. by constructor. Qed.

Hypothesis fits_txs : fits txs.

Lemma joins_to_pairs {A} (value : A -> Z) l row row' :
  Z.of_nat (length l) < U32 ->
  joins_to (OneRows (pairs_of value l)) row row' <-> exists x, at_row l row x /\ value x = row'.
Proof.
  intros Hl. split.
  - intros Hj%joins_to_one. by apply elem_of_pairs_of in Hj.
  - intros (x & Hx & <-). cbn. assert ((row, value x) ∈ pairs_of value l) as Hin by (apply elem_of_pairs_of; eauto).
    destruct (last (filter (fun e : Z * Z => e.1 = row) (pairs_of value l))) as [[a b]|] eqn:Hlast; cbn.
    + apply last_Some_elem_of, list_elem_of_filter in Hlast as [Ha Hab]. cbn in Ha. subst a.
      apply elem_of_pairs_of in Hab as (y & Hy & <-); [|done]. destruct Hx as [_ Hx], Hy as [_ Hy]. congruence.
    + exfalso. apply last_None in Hlast. apply (filter_nil_not_elem_of _ _ (row, value x)) in Hlast; [|done]. done.
Qed.

(** The rows of the events and messages of each transaction. *)
Lemma event_rows row row' : (row, row') ∈ groups_of event_transaction_index (block_events txs) <->
  exists e, at_row (block_events txs) row' e /\ event_transaction_index e = row.
Proof using fits_txs. destruct fits_txs as (_ & He & _). rewrite <- length_block_events in He. by apply elem_of_groups_of. Qed.

Lemma message_rows row row' : (row, row') ∈ groups_of message_transaction_index (block_messages txs) <->
  exists m, at_row (block_messages txs) row' m /\ message_transaction_index m = row.
Proof using fits_txs. destruct fits_txs as (_ & _ & Hm). rewrite <- length_block_messages in Hm. by apply elem_of_groups_of. Qed.
End of_transaction.

Section joins.
Context `{!Roaring, !StarknetEncoding, !BlockArchives}.
Variables (txs : list TransactionWithReceipt) (traces : list TransactionTraceWithHash) (sd : StateDiff).
Hypothesis fit : block_fits txs traces sd.

Lemma transaction_joins t jm row row' :
  (t, jm) ∈ fm_joins (transaction_fragment txs traces) ->
  joins_to jm row row' <-> linked txs traces TRANSACTION_FRAGMENT_ID t row row'.
Proof using fit.
  destruct fit as (Hfit & Ht & Heq & _). pose proof Hfit as (Hx & _ & _).
  assert (Z.of_nat (length (block_transactions txs)) < U32) as HX by (unfold block_transactions; by rewrite length_fmap, length_enumerate).
  assert (Z.of_nat (length (block_traces traces)) < U32) as HT by (unfold block_traces; by rewrite length_fmap, length_enumerate).
  intros Hin. cbn [fm_joins transaction_fragment] in Hin. set_unfold in Hin.
  destruct_or! Hin; injection Hin as -> ->; rewrite linked_ne by discriminate.
  - rewrite joins_to_pairs by done. setoid_rewrite of_transaction_tx. setoid_rewrite of_transaction_rx. split.
    + intros (x & Hx' & <-). pose proof (at_row_range _ _ _ Hx') as Hr. rewrite (transaction_key_at txs row x Hx Hx').
      unfold block_transactions in Hr. rewrite length_fmap, length_enumerate in Hr. exists row. naive_solver.
    + intros (i & [-> Hi] & [-> _]). destruct (at_row_exists (block_transactions txs) i) as [x Hx'].
      { unfold block_transactions. by rewrite length_fmap, length_enumerate. }
      exists x. split; [done|]. by apply (transaction_key_at txs).
  - cbn [joins_to]. rewrite (event_rows txs Hfit). setoid_rewrite of_transaction_tx. setoid_rewrite of_transaction_ev. split.
    + intros (e & He & <-). eexists. split; [split; [done|by eapply event_transaction_range]|]. by exists e.
    + by intros (i & [-> Hi] & He).
  - cbn [joins_to]. rewrite (message_rows txs Hfit). setoid_rewrite of_transaction_tx. setoid_rewrite of_transaction_msg. split.
    + intros (e & He & <-). eexists. split; [split; [done|by eapply message_transaction_range]|]. by exists e.
    + by intros (i & [-> Hi] & He).
  - rewrite joins_to_pairs by done. setoid_rewrite of_transaction_tx. setoid_rewrite of_transaction_tt. split.
    + intros (x & Hx' & <-). pose proof (at_row_range _ _ _ Hx') as Hr. rewrite (trace_index_at traces row x Ht Hx').
      unfold block_traces in Hr. rewrite length_fmap, length_enumerate in Hr. exists row.
      destruct Heq as [->|Heq]; [cbn in Hr; lia|]. rewrite <- Heq. naive_solver.
    + intros (i & [-> Hi] & [-> Hi']). destruct (at_row_exists (block_traces traces) i) as [x Hx'].
      { unfold block_traces. by rewrite length_fmap, length_enumerate. }
      exists x. split; [done|]. by apply (trace_index_at traces).
Qed.

(** The rows of the traces of the transactions of a table. *)
Lemma to_traces_rows {A} (f : A -> Z) (l : list A) row row' :
  Z.of_nat (length l) < U32 -> (forall x, at_row l row x -> 0 <= f x < Z.of_nat (length txs)) ->
  joins_to (OneRows (to_traces traces f l)) row row' <->
  exists i, (exists x, at_row l row x /\ f x = i) /\ row' = i /\ 0 <= i < Z.of_nat (length traces).
Proof using fit.
  destruct fit as (_ & _ & Heq & _). intros Hl Hr. unfold to_traces. case_bool_decide as Hn.
  - subst traces. cbn. split; [done|]. intros (i & _ & _ & Hi). cbn in Hi. lia.
  - destruct Heq as [Heq|Heq]; [done|]. rewrite joins_to_pairs, Heq by done. naive_solver.
Qed.

Lemma together_linked {A B} (f : A -> Z) (g : B -> Z) (xs : list A) (ys : list B) row row' :
  together f g xs ys row row' <->
  exists i, (exists x, at_row xs row x /\ f x = i) /\ (exists y, at_row ys row' y /\ g y = i).
Proof. unfold together. naive_solver. Qed.

Lemma event_joins t jm row row' :
  (t, jm) ∈ fm_joins (event_fragment txs traces) ->
  joins_to jm row row' <-> linked txs traces EVENT_FRAGMENT_ID t row row'.
Proof using fit.
  pose proof (fun e => event_transaction_range txs row e (proj1 fit)) as Hr.
  assert (Z.of_nat (length (block_events txs)) < U32) as HE by (rewrite length_block_events; apply (proj1 fit)).
  intros Hin. cbn [fm_joins event_fragment] in Hin. set_unfold in Hin.
  destruct_or! Hin; injection Hin as -> ->.
  - rewrite linked_ne by discriminate. setoid_rewrite of_transaction_ev. rewrite joins_to_pairs by done. setoid_rewrite of_transaction_tx. split.
    + intros (e & He & <-). eexists. split; [by exists e|]. by split; [|apply Hr].
    + by intros (i & He & [-> _]).
  - rewrite linked_ne by discriminate. setoid_rewrite of_transaction_ev. rewrite joins_to_pairs by done. setoid_rewrite of_transaction_rx. split.
    + intros (e & He & <-). eexists. split; [by exists e|]. by split; [|apply Hr].
    + by intros (i & He & [-> _]).
  - unfold linked. cbn [joins_to]. rewrite elem_of_sibling_rows, together_linked. setoid_rewrite of_transaction_ev. naive_solver.
  - rewrite linked_ne by discriminate. setoid_rewrite of_transaction_ev. cbn [joins_to]. rewrite elem_of_rows_together, together_linked. setoid_rewrite of_transaction_msg. naive_solver.
  - rewrite linked_ne by discriminate. setoid_rewrite of_transaction_ev. rewrite to_traces_rows by done. setoid_rewrite of_transaction_tt. naive_solver.
Qed.

Lemma message_joins t jm row row' :
  (t, jm) ∈ fm_joins (message_fragment txs traces) ->
  joins_to jm row row' <-> linked txs traces MESSAGE_FRAGMENT_ID t row row'.
Proof using fit.
  pose proof (fun e => message_transaction_range txs row e (proj1 fit)) as Hr.
  assert (Z.of_nat (length (block_messages txs)) < U32) as HE by (rewrite length_block_messages; apply (proj1 fit)).
  intros Hin. cbn [fm_joins message_fragment] in Hin. set_unfold in Hin.
  destruct_or! Hin; injection Hin as -> ->.
  - rewrite linked_ne by discriminate. setoid_rewrite of_transaction_msg. rewrite joins_to_pairs by done. setoid_rewrite of_transaction_tx. split.
    + intros (e & He & <-). eexists. split; [by exists e|]. by split; [|apply Hr].
    + by intros (i & He & [-> _]).
  - rewrite linked_ne by discriminate. setoid_rewrite of_transaction_msg. rewrite joins_to_pairs by done. setoid_rewrite of_transaction_rx. split.
    + intros (e & He & <-). eexists. split; [by exists e|]. by split; [|apply Hr].
    + by intros (i & He & [-> _]).
  - rewrite linked_ne by discriminate. setoid_rewrite of_transaction_msg. cbn [joins_to]. rewrite elem_of_rows_together, together_linked. setoid_rewrite of_transaction_ev. naive_solver.
  - unfold linked. cbn [joins_to]. rewrite elem_of_sibling_rows, together_linked. setoid_rewrite of_transaction_msg. naive_solver.
  - rewrite linked_ne by discriminate. setoid_rewrite of_transaction_msg. rewrite to_traces_rows by done. setoid_rewrite of_transaction_tt. naive_solver.
Qed.
End joins.

(** ** Filters on the data of the node *)

(** One filter of a request. *)
Inductive RequestItem :=
| ItemTransaction (f : TransactionFilter)
| ItemEvent (f : EventFilter)
| ItemMessage (f : MessageToL1Filter)
| ItemStorageDiff (f : StorageDiffFilter)
| ItemContractChange (f : ContractChangeFilter)
| ItemNonceUpdate (f : NonceUpdateFilter).

(** The filters of a request, in the order in which they are compiled. *)
Definition request_items (self : ProtoFilter) : list RequestItem :=
  (ItemTransaction <$> pf_transactions self) ++ (ItemEvent <$> pf_events self) ++ (ItemMessage <$> pf_messages self) ++
  (ItemStorageDiff <$> pf_storage_diffs self) ++ (ItemContractChange <$> pf_contract_changes self) ++
  (ItemNonceUpdate <$> pf_nonce_updates self).

Definition compile_item (i : RequestItem) : outcome Status Filter :=
  match i with
  | ItemTransaction f => compile_transaction_filter f
  | ItemEvent f => compile_event_filter f
  | ItemMessage f => compile_message_filter f
  | ItemStorageDiff f => compile_storage_diff_filter f
  | ItemContractChange f => compile_contract_change_filter f
  | ItemNonceUpdate f => compile_nonce_update_filter f
  end.

Definition item_id (i : RequestItem) : Z :=
  match i with
  | ItemTransaction f => tf_id f
  | ItemEvent f => ef_id f
  | ItemMessage f => mf_id f
  | ItemStorageDiff f => sf_id f
  | ItemContractChange f => cf_id f
  | ItemNonceUpdate f => nf_id f
  end.

Definition item_fragment (i : RequestItem) : Z :=
  match i with
  | ItemTransaction _ => TRANSACTION_FRAGMENT_ID
  | ItemEvent _ => EVENT_FRAGMENT_ID
  | ItemMessage _ => MESSAGE_FRAGMENT_ID
  | ItemStorageDiff _ => STORAGE_DIFF_FRAGMENT_ID
  | ItemContractChange _ => CONTRACT_CHANGE_FRAGMENT_ID
  | ItemNonceUpdate _ => NONCE_UPDATE_FRAGMENT_ID
  end.

(** The related data that the client wants as well. *)
Definition item_includes (i : RequestItem) (t : Z) : Prop :=
  match i with
  | ItemTransaction f =>
      (t = RECEIPT_FRAGMENT_ID /\ tf_include_receipt f = Some true) \/
      (t = EVENT_FRAGMENT_ID /\ tf_include_events f = Some true) \/
      (t = MESSAGE_FRAGMENT_ID /\ tf_include_messages f = Some true) \/
      (t = TRACE_FRAGMENT_ID /\ tf_include_trace f = Some true)
  | ItemEvent f =>
      (t = TRANSACTION_FRAGMENT_ID /\ ef_include_transaction f = Some true) \/
      (t = RECEIPT_FRAGMENT_ID /\ ef_include_receipt f = Some true) \/
      (t = MESSAGE_FRAGMENT_ID /\ ef_include_messages f = Some true) \/
      (t = EVENT_FRAGMENT_ID /\ ef_include_siblings f = Some true) \/
      (t = TRACE_FRAGMENT_ID /\ ef_include_transaction_trace f = Some true)
  | ItemMessage f =>
      (t = TRANSACTION_FRAGMENT_ID /\ mf_include_transaction f = Some true) \/
      (t = RECEIPT_FRAGMENT_ID /\ mf_include_receipt f = Some true) \/
      (t = EVENT_FRAGMENT_ID /\ mf_include_events f = Some true) \/
      (t = MESSAGE_FRAGMENT_ID /\ mf_include_siblings f = Some true) \/
      (t = TRACE_FRAGMENT_ID /\ mf_include_transaction_trace f = Some true)
  | _ => False
  end.

(** A field of the filter, when it is set, has the bytes of the felt. *)
Definition felt_matches (want : option FieldElement) (felt : Felt) : Prop :=
  forall f, want = Some f -> field_to_bytes f = to_bytes_be felt.

(** The status of the transaction: only the successful ones when the filter does
    not say. *)
Definition status_matches (want : option Z) (tx : TransactionWithReceipt) : Prop :=
  match want with
  | None | Some 1 => execution_result (tr_receipt tx) = Succeeded
  | Some 2 => execution_result (tr_receipt tx) <> Succeeded
  | _ => True
  end.

Definition content_type (tx : TransactionContent) : TransactionType :=
  match tx with
  | Invoke (InvokeV0 _) => TypeInvokeV0
  | Invoke (InvokeV1 _) => TypeInvokeV1
  | Invoke (InvokeV3 _) => TypeInvokeV3
  | L1Handler _ => TypeL1Handler
  | DeclareTx (DeclareV0 _) => TypeDeclareV0
  | DeclareTx (DeclareV1 _) => TypeDeclareV1
  | DeclareTx (DeclareV2 _) => TypeDeclareV2
  | DeclareTx (DeclareV3 _) => TypeDeclareV3
  | Deploy _ => TypeDeploy
  | DeployAccount (DeployAccountV1 _) => TypeDeployAccountV1
  | DeployAccount (DeployAccountV3 _) => TypeDeployAccountV3
  end.

(** The keys of an event, as the protocol documents them: as many as in the filter when
    it is strict (the lengths are 32-bit numbers), and those of the filter that are set
    match the keys of the event at the same place. *)
Definition keys_match (f : EventFilter) (keys : list Felt) : Prop :=
  (ef_strict f = Some true -> len32 keys = len32 (ef_keys f)) /\
  forall i k, filter_key f i = Some k ->
    exists felt, keys !! i = Some felt /\ field_to_bytes k = to_bytes_be felt.

(** What the indexes can tell of it: there is one for each of the first four keys, and
    the others are ignored. *)
Definition indexed_keys_match (f : EventFilter) (keys : list Felt) : Prop :=
  (ef_strict f = Some true -> len32 keys = len32 (ef_keys f)) /\
  forall i k, (i < 4)%nat -> filter_key f i = Some k ->
    exists felt, keys !! i = Some felt /\ field_to_bytes k = to_bytes_be felt.

Lemma keys_match_indexed f keys : keys_match f keys -> indexed_keys_match f keys.
Proof. intros [Hs Hk]. split; [done|]. intros i k _. apply Hk. Qed.

Lemma few_keys_match f keys : (length (ef_keys f) <= 4)%nat -> indexed_keys_match f keys -> keys_match f keys.
Proof.
  intros Hl [Hs Hk]. split; [done|]. intros i k Hi. apply Hk; [|done]. unfold filter_key in Hi.
  destruct (ef_keys f !! i) eqn:He; [|done]. apply lookup_lt_Some in He. lia.
Qed.

Definition changed_kinds (sd : StateDiff) : list ContractChangeType :=
  ((fun _ => ChangeDeclaredClass) <$> df_deprecated_declared_classes sd) ++
  ((fun _ => ChangeDeclaredClass) <$> df_declared_classes sd) ++
  ((fun _ => ChangeReplaced) <$> df_replaced_classes sd) ++
  ((fun _ => ChangeDeployed) <$> df_deployed_contracts sd).

(** The filter selects the data at this row, with the given meaning of the keys. *)
Definition item_matches_by (keys_ok : EventFilter -> list Felt -> Prop) (txs : list TransactionWithReceipt) (sd : StateDiff) (i : RequestItem) (row : Z) : Prop :=
  match i with
  | ItemTransaction f =>
      exists tx, at_row txs row tx /\ status_matches (tf_transaction_status f) tx /\
        forall inner, tf_inner f = Some inner -> content_type (tr_transaction tx) = inner_type inner
  | ItemEvent f =>
      exists o, at_row (origins tx_events txs) row o /\ status_matches (ef_transaction_status f) (or_tx o) /\
        felt_matches (ef_address f) (ev_from_address (or_item o)) /\ keys_ok f (ev_keys (or_item o))
  | ItemMessage f =>
      exists o, at_row (origins tx_messages txs) row o /\ status_matches (mf_transaction_status f) (or_tx o) /\
        felt_matches (mf_from_address f) (msg_from_address (or_item o)) /\
        felt_matches (mf_to_address f) (msg_to_address (or_item o))
  | ItemStorageDiff f =>
      exists d, at_row (df_storage_diffs sd) row d /\ felt_matches (sf_contract_address f) (sd_address d)
  | ItemContractChange f =>
      exists k, at_row (changed_kinds sd) row k /\ forall c, cf_change f = Some c -> k = change_type c
  | ItemNonceUpdate f =>
      exists n, at_row (df_nonces sd) row n /\ felt_matches (nf_contract_address f) (Models.nu_contract_address n)
  end.

(** What the filter asks for, and what the indexes select. *)
Definition item_matches := item_matches_by keys_match.
Definition item_selected := item_matches_by indexed_keys_match.

(** A filter whose keys all have an index. *)
Definition few_keys (i : RequestItem) : Prop :=
  match i with ItemEvent f => (length (ef_keys f) <= 4)%nat | _ => True end.

Lemma item_matches_selected txs sd i row : item_matches txs sd i row -> item_selected txs sd i row.
Proof.
  destruct i as [f|f|f|f|f|f]; try done. intros (o & Ho & Hs & Ha & Hk). exists o. eauto using keys_match_indexed.
Qed.

Lemma item_selected_matches txs sd i row : few_keys i -> item_selected txs sd i row -> item_matches txs sd i row.
Proof.
  intros Hf. destruct i as [f|f|f|f|f|f]; try done. intros (o & Ho & Hs & Ha & Hk). exists o. eauto using few_keys_match.
Qed.

(** ** Conditions *)

Lemma at_row_fmap {A B} (f : A -> B) l row y : at_row (f <$> l) row y <-> exists x, at_row l row x /\ y = f x.
Proof. unfold at_row. rewrite list_lookup_fmap. destruct (l !! Z.to_nat row); cbn; naive_solver. Qed.

Lemma at_row_placed {A B} (place : Z * A -> B) l row y :
  at_row (place <$> enumerate l) row y <-> exists x, at_row l row x /\ y = place (row, x).
Proof.
  unfold at_row, enumerate. rewrite list_lookup_fmap, lookup_enumerate_from.
  destruct (l !! Z.to_nat row) as [a|]; cbn; [|naive_solver].
  split.
  - intros [Hr [= <-]]. exists a. split; [done|]. do 2 f_equal. lia.
  - intros (x & [Hr [= ->]] & ->). split; [done|]. do 3 f_equal. lia.
Qed.

Lemma felt_matches_iff want felt :
  (forall f, want = Some f -> exists v, Some felt = Some v /\ field_to_bytes f = to_bytes_be v) <-> felt_matches want felt.
Proof.
  unfold felt_matches. split; intros Hf f Hw; [|by exists felt; split; [|apply Hf]].
  destruct (Hf f Hw) as (v & [= <-] & Hv). exact Hv.
Qed.

Lemma b256_eq (a b : list byte) : Some (B256 a) = Some (B256 b) <-> a = b.
Proof. naive_solver. Qed.

Section conditions.
Context {A : Type} (models : list (option (list (ScalarValue * Z)))) (l : list A) (row : Z) (x : A).
Hypothesis short : Z.of_nat (length l) < U32.
Hypothesis here : at_row l row x.

(** A condition on an index of the table holds of the row's own key. *)
Lemma satisfies_key (key : A -> option ScalarValue) id k :
  models !! Z.to_nat id = Some (Some (rows_of key l)) -> satisfies models row (mkCondition id k) <-> key x = Some k.
Proof using short here.
  intros Hm. unfold satisfies. cbn [index_id Query.key]. rewrite Hm, elem_of_rows_of by done. split.
  - intros (y & Hy & Hk). destruct here as [_ Hx], Hy as [_ Hy]. congruence.
  - intros Hk. by exists x.
Qed.

Lemma field_condition_felt (field : A -> option FieldElement) id want (felt : option Felt) :
  models !! Z.to_nat id = Some (Some (rows_of (fun y => field_value (field y)) l)) ->
  field x = to_proto <$> felt ->
  Forall (satisfies models row) (field_condition id want) <->
  forall f, want = Some f -> exists v, felt = Some v /\ field_to_bytes f = to_bytes_be v.
Proof using short here.
  intros Hm Hx. unfold field_condition. destruct want as [f|]; [|split; [done|intros _; constructor]].
  rewrite Forall_singleton, satisfies_key by done. cbn beta. rewrite Hx. destruct felt as [v|]; cbn [fmap option_fmap option_map field_value].
  - unfold compose. rewrite felt_key, b256_eq. split.
    + intros Heq f' [= <-]. exists v. by split.
    + intros Hf. by destruct (Hf f eq_refl) as (v' & [= <-] & ->).
  - split; [done|]. intros Hf. by destruct (Hf f eq_refl) as (v' & ? & _).
Qed.

Lemma status_condition_matches id want status tx :
  models !! Z.to_nat id = Some (Some (rows_of (fun y => Some (Int32 (status y))) l)) ->
  status x = tx_status tx ->
  match transaction_status_filter want with
  | Ok s => Forall (satisfies models row) (status_condition id s) <-> status_matches want tx
  | _ => True
  end.
Proof using short here.
  intros Hm Hs. unfold transaction_status_filter, status_filter_of_i32, tx_status, receipt_status in *.
  assert (forall s, satisfies models row (mkCondition id (Int32 s)) <-> status x = s) as Hc.
  { intros s. rewrite (satisfies_key (fun y => Some (Int32 (status y)))) by done. naive_solver. }
  unfold TransactionStatus_Succeeded, TransactionStatus_Reverted in *.
  destruct want as [z|]; cbn.
  2:{ rewrite Forall_singleton, Hc, Hs. by destruct (execution_result _). }
  destruct (Z.eqb_spec z 0) as [->|]; cbn; [split; [done|constructor]|].
  destruct (Z.eqb_spec z 1) as [->|]; cbn; [rewrite Forall_singleton, Hc, Hs; by destruct (execution_result _)|].
  destruct (Z.eqb_spec z 2) as [->|]; cbn; [rewrite Forall_singleton, Hc, Hs; by destruct (execution_result _)|].
  destruct (Z.eqb_spec z 3) as [->|]; cbn; [split; [done|constructor]|done].
Qed.
End conditions.

(** ** Compiled filters *)

Section filters.
Context `{!Roaring, !StarknetEncoding, !BlockArchives}.
Variables (txs : list TransactionWithReceipt) (traces : list TransactionTraceWithHash) (sd : StateDiff).
Hypothesis fit : block_fits txs traces sd.
Abbreviation frags := (models_map (starknet_models txs traces sd)).

Lemma starknet_models_nodup : NoDup (model_id <$> starknet_models txs traces sd).
Proof. change (NoDup [2; 3; 4; 5; 9; 6; 7; 8]). apply (bool_decide_unpack (NoDup [2; 3; 4; 5; 9; 6; 7; 8])). vm_compute. exact I. Qed.

Lemma starknet_fragment fm : fm ∈ starknet_models txs traces sd -> frags !! model_id fm = Some fm.
Proof. intros Hin. apply models_map_lookup; [apply starknet_models_nodup|done]. Qed.

(** The rows of a fragment, one for each element of a list. *)
Lemma row_selected_iff {A} f fm (l : list A) row (P : A -> Prop) :
  fm ∈ starknet_models txs traces sd -> fragment_id f = model_id fm -> fm_len fm = Z.of_nat (length l) ->
  (forall x, at_row l row x -> Forall (satisfies (fm_indexes fm) row) (conditions f) <-> P x) ->
  row_selected frags f row <-> exists x, at_row l row x /\ P x.
Proof.
  intros Hfm%starknet_fragment Hid Hlen HP. rewrite <- Hid in Hfm. unfold row_selected. split.
  - intros (fm' & Hfm' & Hr & Hc). rewrite Hfm in Hfm'. injection Hfm' as <-. rewrite Hlen in Hr.
    destruct (at_row_exists l row Hr) as [x Hx]. exists x. split; [done|]. by apply HP.
  - intros (x & Hx & Hc). exists fm. rewrite Hlen. split; [done|]. split; [by eapply at_row_range|]. by apply (HP x).
Qed.

(** What a compiled filter is. *)
Record item_ok (i : RequestItem) (f : Filter) : Prop := {
  it_fragment : fragment_id f = item_fragment i;
  it_id : filter_id f = item_id i;
  it_joins : forall t, t ∈ joins f <-> item_includes i t;
  it_valid : exists fm, frags !! item_fragment i = Some fm /\ Forall (valid_condition (fm_indexes fm)) (conditions f);
  it_rows : forall row, row_selected frags f row <-> item_selected txs sd i row }.

Lemma fm_len_rows {A} (encode : A -> list byte) indexes js id name (l : list A) :
  fm_len (mkFragmentModel indexes js (mkBodyFragment id name (encode <$> l))) = Z.of_nat (length l).
Proof. unfold fm_len. cbn. by rewrite length_fmap. Qed.

Lemma elem_of_include include fid t : t ∈ include_join include fid <-> t = fid /\ include = Some true.
Proof.
  unfold include_join. destruct include as [[]|]; [|set_solver|set_solver].
  rewrite list_elem_of_singleton. naive_solver.
Qed.

Lemma valid_field_condition models id want :
  is_Some (models !! Z.to_nat id) -> Forall (valid_condition models) (field_condition id want).
Proof. intros Hm. destruct want; cbn; [by apply Forall_singleton|constructor]. Qed.

Lemma valid_status_condition models id s :
  is_Some (models !! Z.to_nat id) -> Forall (valid_condition models) (status_condition id s).
Proof. intros Hm. destruct s; cbn; (by apply Forall_singleton) || constructor. Qed.

Lemma placed_transaction_type p : transaction_type (placed_transaction p) = Some (content_type (tr_transaction p.2)).
Proof. unfold placed_transaction. by destruct (tr_transaction p.2) as [[]| |[]| |[]]. Qed.

Lemma transaction_type_value_inj a b : transaction_type_value a = transaction_type_value b -> a = b.
Proof. by destruct a, b. Qed.

Lemma compile_transaction_ok f c : compile_transaction_filter f = Ok c -> item_ok (ItemTransaction f) c.
Proof using fit.
  unfold compile_transaction_filter. destruct (transaction_status_filter (tf_transaction_status f)) as [s| |] eqn:Hs; [|done..].
  intros [= <-]. pose proof (starknet_fragment (transaction_fragment txs traces) ltac:(set_solver)) as Hfm.
  constructor; [done|done| | |].
  - intros t. cbn [joins item_includes]. rewrite !elem_of_app, !elem_of_include. tauto.
  - eexists. split; [exact Hfm|]. cbn [conditions]. apply Forall_app. split; [by apply valid_status_condition|].
    destruct (tf_inner f); [|constructor]. apply Forall_singleton. by eexists.
  - intros row. cbn [item_selected item_matches_by]. apply (row_selected_iff _ (transaction_fragment txs traces) txs row);
      [set_solver|done|unfold transaction_fragment, block_transactions; by rewrite fm_len_rows, length_fmap, length_enumerate|].
    intros tx Htx. cbn [conditions]. set (models := fm_indexes _).
    assert (at_row (block_transactions txs) row (placed_transaction (row, tx))) as Hat by (apply at_row_placed; by exists tx).
    assert (Z.of_nat (length (block_transactions txs)) < U32) as HX.
    { unfold block_transactions. rewrite length_fmap, length_enumerate. apply fit. }
    assert (default 0 (tm_transaction_status <$> tx_meta (placed_transaction (row, tx))) = tx_status tx) as Hmeta
      by (by rewrite placed_transaction_meta).
    pose proof (status_condition_matches models _ row _ HX Hat INDEX_TRANSACTION_BY_STATUS (tf_transaction_status f)
      (fun y => default 0 (tm_transaction_status <$> tx_meta y)) tx eq_refl Hmeta) as Hst.
    rewrite Hs in Hst. rewrite Forall_app, Hst. apply and_iff_compat_l.
    destruct (tf_inner f) as [inner|]; [|split; [done|constructor]].
    rewrite Forall_singleton, (satisfies_key models _ row _ HX Hat transaction_type_key) by reflexivity.
    unfold transaction_type_key. rewrite placed_transaction_type. cbn [fmap option_fmap option_map]. split.
    + intros Heq%(inj Some)%transaction_type_value_inj inner' [= <-]. done.
    + intros Hi. by rewrite <- (Hi inner eq_refl).
Qed.

Lemma compile_event_ok f c : compile_event_filter f = Ok c -> item_ok (ItemEvent f) c.
Proof using fit.
  unfold compile_event_filter. destruct (transaction_status_filter (ef_transaction_status f)) as [s| |] eqn:Hs; [|done..].
  intros [= <-]. pose proof (starknet_fragment (event_fragment txs traces) ltac:(set_solver)) as Hfm.
  constructor; [done|done| | |].
  - intros t. cbn [joins item_includes]. rewrite !elem_of_app, !elem_of_include. tauto.
  - eexists. split; [exact Hfm|]. cbn [conditions]. rewrite !Forall_app.
    split; [|by apply valid_status_condition]. split; [by apply valid_field_condition|].
    split; [destruct (ef_strict f) as [[]|]; try constructor; [by eexists|constructor]|].
    split_and!; by apply valid_field_condition.
  - intros row. cbn [item_selected item_matches_by]. apply (row_selected_iff _ (event_fragment txs traces) (origins tx_events txs) row);
      [set_solver|done|unfold event_fragment; by rewrite fm_len_rows, length_block_events|].
    intros o Ho. cbn [conditions]. set (models := fm_indexes _). set (e := or_item o).
    assert (Z.of_nat (length (block_events txs)) < U32) as HX by (rewrite length_block_events; apply fit).
    assert (at_row (block_events txs) row (placed_event (row, o))) as Hat by (apply at_row_placed; by exists o).
    pose proof (status_condition_matches models _ row _ HX Hat INDEX_EVENT_BY_TRANSACTION_STATUS (ef_transaction_status f)
      event_transaction_status (or_tx o) eq_refl eq_refl) as Hst. rewrite Hs in Hst.
    pose proof (fun i => list_lookup_fmap (to_proto : Felt -> FieldElement) (ev_keys e) i) as Hk.
    rewrite !Forall_app, Hst.
    rewrite (field_condition_felt models _ row _ HX Hat event_from_address INDEX_EVENT_BY_ADDRESS (ef_address f)
      (Some (ev_from_address e)) eq_refl eq_refl).
    rewrite (field_condition_felt models _ row _ HX Hat (fun e => event_keys e !! 0%nat) INDEX_EVENT_BY_KEY0 _ _ eq_refl (Hk 0%nat)).
    rewrite (field_condition_felt models _ row _ HX Hat (fun e => event_keys e !! 1%nat) INDEX_EVENT_BY_KEY1 _ _ eq_refl (Hk 1%nat)).
    rewrite (field_condition_felt models _ row _ HX Hat (fun e => event_keys e !! 2%nat) INDEX_EVENT_BY_KEY2 _ _ eq_refl (Hk 2%nat)).
    rewrite (field_condition_felt models _ row _ HX Hat (fun e => event_keys e !! 3%nat) INDEX_EVENT_BY_KEY3 _ _ eq_refl (Hk 3%nat)).
    assert (Forall (satisfies models row)
        match ef_strict f with
        | Some true => [mkCondition INDEX_EVENT_BY_KEY_LENGTH (Uint32 (wrap32 (Z.of_nat (length (ef_keys f)))))]
        | _ => []
        end <-> (ef_strict f = Some true -> len32 (ev_keys e) = len32 (ef_keys f))) as Hstrict.
    { destruct (ef_strict f) as [[]|]; [|by split; [|constructor]..].
      rewrite Forall_singleton, (satisfies_key models _ row _ HX Hat (Some ∘ event_key_length)) by reflexivity.
      assert (event_key_length (placed_event (row, o)) = Uint32 (len32 (ev_keys e))) as Hl.
      { unfold event_key_length, len32. do 3 f_equal. exact (length_fmap (to_proto : Felt -> FieldElement) (ev_keys e)). }
      unfold compose. rewrite Hl. fold (len32 (ef_keys f)). split.
      - intros Heq _. by injection Heq.
      - intros Heq. by rewrite (Heq eq_refl). }
    rewrite Hstrict, felt_matches_iff. unfold indexed_keys_match. split.
    + intros ((Ha & Hn & K0 & K1 & K2 & K3) & Hstat). split; [done|]. split; [done|]. split; [done|].
      intros [|[|[|[|i]]]] k Hi; [exact (K0 k)|exact (K1 k)|exact (K2 k)|exact (K3 k)|lia].
    + intros (Hstat & Ha & Hn & HK). split; [|done]. split; [done|]. split; [done|].
      split_and!; intros k Hkey; apply HK; (lia || done).
Qed.

Lemma compile_message_ok f c : compile_message_filter f = Ok c -> item_ok (ItemMessage f) c.
Proof using fit.
  unfold compile_message_filter. destruct (transaction_status_filter (mf_transaction_status f)) as [s| |] eqn:Hs; [|done..].
  intros [= <-]. pose proof (starknet_fragment (message_fragment txs traces) ltac:(set_solver)) as Hfm.
  constructor; [done|done| | |].
  - intros t. cbn [joins item_includes]. rewrite !elem_of_app, !elem_of_include. tauto.
  - eexists. split; [exact Hfm|]. cbn [conditions]. rewrite !Forall_app.
    split; [|by apply valid_status_condition]. split; by apply valid_field_condition.
  - intros row. cbn [item_selected item_matches_by]. apply (row_selected_iff _ (message_fragment txs traces) (origins tx_messages txs) row);
      [set_solver|done|unfold message_fragment; by rewrite fm_len_rows, length_block_messages|].
    intros o Ho. cbn [conditions]. set (models := fm_indexes _). set (m := or_item o).
    assert (Z.of_nat (length (block_messages txs)) < U32) as HX by (rewrite length_block_messages; apply fit).
    assert (at_row (block_messages txs) row (placed_message (row, o))) as Hat by (apply at_row_placed; by exists o).
    pose proof (status_condition_matches models _ row _ HX Hat INDEX_MESSAGE_BY_TRANSACTION_STATUS (mf_transaction_status f)
      message_transaction_status (or_tx o) eq_refl eq_refl) as Hst. rewrite Hs in Hst.
    rewrite !Forall_app, Hst.
    rewrite (field_condition_felt models _ row _ HX Hat message_from_address INDEX_MESSAGE_BY_FROM_ADDRESS (mf_from_address f)
      (Some (msg_from_address m)) eq_refl eq_refl).
    rewrite (field_condition_felt models _ row _ HX Hat message_to_address INDEX_MESSAGE_BY_TO_ADDRESS (mf_to_address f)
      (Some (msg_to_address m)) eq_refl eq_refl).
    rewrite !felt_matches_iff. tauto.
Qed.

Lemma compile_storage_diff_ok f c : compile_storage_diff_filter f = Ok c -> item_ok (ItemStorageDiff f) c.
Proof using fit.
  intros [= <-]. pose proof (starknet_fragment (storage_diff_fragment sd) ltac:(set_solver)) as Hfm.
  destruct fit as (_ & _ & _ & Hl & _). constructor; [done|done| | |].
  - intros t. cbn. set_solver.
  - eexists. split; [exact Hfm|]. by apply valid_field_condition.
  - intros row. cbn [item_selected item_matches_by]. apply (row_selected_iff _ (storage_diff_fragment sd) (df_storage_diffs sd) row);
      [set_solver|done|unfold storage_diff_fragment, indexed_fragment, block_storage_diffs; by rewrite fm_len_rows, length_fmap|].
    intros d Hd. assert (at_row (block_storage_diffs sd) row (to_proto d)) as Hat by (apply at_row_fmap; by exists d).
    cbn [conditions]. rewrite (field_condition_felt (fm_indexes (storage_diff_fragment sd)) _ row _ Hl Hat sd_contract_address INDEX_STORAGE_DIFF_BY_CONTRACT_ADDRESS
      (sf_contract_address f) (Some (sd_address d)) eq_refl eq_refl).
    rewrite !felt_matches_iff. tauto.
Qed.

Lemma compile_nonce_update_ok f c : compile_nonce_update_filter f = Ok c -> item_ok (ItemNonceUpdate f) c.
Proof using fit.
  intros [= <-]. pose proof (starknet_fragment (nonce_update_fragment sd) ltac:(set_solver)) as Hfm.
  destruct fit as (_ & _ & _ & _ & _ & Hl). constructor; [done|done| | |].
  - intros t. cbn. set_solver.
  - eexists. split; [exact Hfm|]. by apply valid_field_condition.
  - intros row. cbn [item_selected item_matches_by]. apply (row_selected_iff _ (nonce_update_fragment sd) (df_nonces sd) row);
      [set_solver|done|unfold nonce_update_fragment, indexed_fragment, block_nonce_updates; by rewrite fm_len_rows, length_fmap|].
    intros d Hd. assert (at_row (block_nonce_updates sd) row (to_proto d)) as Hat by (apply at_row_fmap; by exists d).
    cbn [conditions]. rewrite (field_condition_felt (fm_indexes (nonce_update_fragment sd)) _ row _ Hl Hat Starknet.nu_contract_address INDEX_NONCE_UPDATE_BY_CONTRACT_ADDRESS
      (nf_contract_address f) (Some (Models.nu_contract_address d)) eq_refl eq_refl).
    rewrite !felt_matches_iff. tauto.
Qed.

Lemma changed_kinds_eq : Some <$> changed_kinds sd = (fun c => change_kind <$> cc_change c) <$> block_changes sd.
Proof. unfold changed_kinds, block_changes. by rewrite !fmap_app, <- !list_fmap_compose. Qed.

Lemma contract_change_value_inj a b : contract_change_value a = contract_change_value b -> a = b.
Proof. by destruct a, b. Qed.

Lemma compile_contract_change_ok f c : compile_contract_change_filter f = Ok c -> item_ok (ItemContractChange f) c.
Proof using fit.
  intros [= <-]. pose proof (starknet_fragment (contract_change_fragment sd) ltac:(set_solver)) as Hfm.
  destruct fit as (_ & _ & _ & _ & Hl & _). constructor; [done|done| | |].
  - intros t. cbn. set_solver.
  - eexists. split; [exact Hfm|]. cbn [conditions]. destruct (cf_change f); [|constructor]. apply Forall_singleton. by eexists.
  - intros row. cbn [item_selected item_matches_by]. apply (row_selected_iff _ (contract_change_fragment sd) (changed_kinds sd) row); [set_solver|done| |].
    { unfold contract_change_fragment, indexed_fragment. rewrite fm_len_rows.
      by rewrite <- (length_fmap Some (changed_kinds sd)), changed_kinds_eq, length_fmap. }
    intros k Hk. assert (at_row (Some <$> changed_kinds sd) row (Some k)) as Hk' by (apply at_row_fmap; by exists k).
    rewrite changed_kinds_eq in Hk'. apply at_row_fmap in Hk' as (x & Hat & Hx). cbn [conditions].
    destruct (cf_change f) as [change|]; [|by split; [|constructor]].
    rewrite Forall_singleton, (satisfies_key _ _ row _ Hl Hat contract_change_key) by reflexivity.
    unfold contract_change_key. rewrite option_fmap_compose. cbn beta in Hx. rewrite <- Hx. cbn [fmap option_fmap option_map]. split.
    + intros Heq%(inj Some)%contract_change_value_inj c [= <-]. done.
    + intros Hc. by rewrite (Hc change eq_refl).
Qed.

Lemma compile_item_ok i c : compile_item i = Ok c -> item_ok i c.
Proof using fit.
  destruct i; cbn [compile_item];
    [apply compile_transaction_ok|apply compile_event_ok|apply compile_message_ok|apply compile_storage_diff_ok|
     apply compile_contract_change_ok|apply compile_nonce_update_ok].
Qed.
End filters.

(** ** Requests *)

Section requests.
Context `{!Roaring, !StarknetEncoding, !BlockArchives}.

Lemma add_filters_app {A} (compile : A -> outcome Status Filter) bf l k :
  add_filters compile bf (l ++ k) = bf' ← add_filters compile bf l; add_filters compile bf' k.
Proof.
  unfold add_filters. revert bf. induction l as [|x l IH]; intros bf; [done|]. cbn [ofold app].
  destruct (compile x) as [f| |]; cbn; [apply IH|done|done].
Qed.

Lemma add_filters_fmap {A} (item : A -> RequestItem) (compile : A -> outcome Status Filter) bf l :
  (forall x, compile_item (item x) = compile x) -> add_filters compile bf l = add_filters compile_item bf (item <$> l).
Proof.
  intros Hc. unfold add_filters. revert bf. induction l as [|x l IH]; intros bf; [done|]. cbn [ofold fmap list_fmap]. rewrite Hc.
  destruct (compile x) as [f| |]; cbn; [apply IH|done|done].
Qed.

(** The six loops of the compilation are one loop over the filters. *)
Lemma compile_to_block_filter_eq self :
  compile_to_block_filter self =
  add_filters compile_item (set_header_filter block_filter_default (compile_header_filter (pf_header self))) (request_items self).
Proof.
  unfold compile_to_block_filter, request_items. cbn zeta. rewrite add_filters_app.
  rewrite (add_filters_fmap ItemTransaction) by done.
  destruct (add_filters _ _ (ItemTransaction <$> _)) as [b1| |]; cbn [mbind outcome_bind]; [|done..].
  rewrite add_filters_app, (add_filters_fmap ItemEvent) by done.
  destruct (add_filters _ _ (ItemEvent <$> _)) as [b2| |]; cbn [mbind outcome_bind]; [|done..].
  rewrite add_filters_app, (add_filters_fmap ItemMessage) by done.
  destruct (add_filters _ _ (ItemMessage <$> _)) as [b3| |]; cbn [mbind outcome_bind]; [|done..].
  rewrite add_filters_app, (add_filters_fmap ItemStorageDiff) by done.
  destruct (add_filters _ _ (ItemStorageDiff <$> _)) as [b4| |]; cbn [mbind outcome_bind]; [|done..].
  rewrite add_filters_app, (add_filters_fmap ItemContractChange) by done.
  destruct (add_filters _ _ (ItemContractChange <$> _)) as [b5| |]; cbn [mbind outcome_bind]; [|done..].
  by apply add_filters_fmap.
Qed.

Lemma has_add_filter bf f s g : has_filter (add_filter bf f) s g <-> has_filter bf s g \/ (g = f /\ s = fragment_id f).
Proof.
  unfold has_filter. rewrite add_filter_lookup. case_decide as Hs.
  - subst s. destruct (filters bf !! fragment_id f) as [fs|] eqn:Hfs; cbn [default].
    + split; [intros (? & [= <-] & Hg); apply elem_of_app in Hg as [Hg|Hg%list_elem_of_singleton]; eauto|].
      intros [(? & [= <-] & Hg)|[-> _]]; eexists; (split; [done|]); apply elem_of_app; [by left|right; by apply list_elem_of_singleton].
    + split; [intros (? & [= <-] & Hg%list_elem_of_singleton); auto|].
      intros [(? & ? & _)|[-> _]]; [done|]. eexists. split; [done|]. by apply list_elem_of_singleton.
  - naive_solver.
Qed.

Lemma add_filters_Ok items bf0 bf :
  add_filters compile_item bf0 items = Ok bf ->
  header_filter bf = header_filter bf0 /\
  (forall s f, has_filter bf s f <-> has_filter bf0 s f \/ (fragment_id f = s /\ exists i, i ∈ items /\ compile_item i = Ok f)) /\
  ((forall s, filters bf0 !! s <> Some []) -> forall s, filters bf !! s <> Some []) /\
  (items <> [] -> filters bf <> ∅) /\ Forall (fun i => exists f, compile_item i = Ok f) items.
Proof.
  revert bf0. unfold add_filters. induction items as [|i items IH]; intros bf0; cbn [ofold].
  { intros [= <-]. split_and!; [done| |done|done|constructor].
    intros s f. split; [by left|]. intros [?|(_ & i & Hi & _)]; [done|]. by apply not_elem_of_nil in Hi. }
  destruct (compile_item i) as [f| |] eqn:Hi; cbn [mbind outcome_bind]; [|done..]. intros Hl.
  destruct (IH _ Hl) as (I1 & I2 & I3 & I4 & I5). split_and!.
  - by rewrite I1.
  - intros s g. rewrite I2, has_add_filter. split.
    + intros [[Hb|[-> ->]]|(Hs & j & Hj & Hc)]; [by left|right..]; (split; [done|]).
      * exists i. split; [apply list_elem_of_here|done].
      * exists j. split; [by apply list_elem_of_further|done].
    + intros [Hb|(Hs & j & [->|Hj]%elem_of_cons & Hc)]; [by left; left|left; right|right].
      * rewrite Hi in Hc. injection Hc as <-. done.
      * split; [done|]. by exists j.
  - intros Hb. apply I3. intros s. rewrite add_filter_lookup. case_decide; [|apply Hb].
    intros [= Hn]. by apply app_eq_nil in Hn as [_ ?].
  - intros _ Hn. assert (has_filter bf (fragment_id f) f) as (fs & Hfs & _).
    { apply I2. left. apply has_add_filter. auto. }
    rewrite Hn, lookup_empty in Hfs. done.
  - constructor; [by exists f|done].
Qed.
End requests.

(** ** A request on a block *)

Definition starknet_names : gmap Z string :=
  match fragment_names fragment_info with Ok names => names | _ => ∅ end.

Lemma starknet_names_eq : fragment_names fragment_info = Ok starknet_names.
Proof. vm_compute. reflexivity. Qed.

Lemma starknet_names_list :
  map_to_list starknet_names =
  [(JOIN_FRAGMENT_ID, JOIN_NAME); (CONTRACT_CHANGE_FRAGMENT_ID, CONTRACT_CHANGE_FRAGMENT_NAME);
   (TRACE_FRAGMENT_ID, TRACE_FRAGMENT_NAME); (MESSAGE_FRAGMENT_ID, MESSAGE_FRAGMENT_NAME);
   (RECEIPT_FRAGMENT_ID, RECEIPT_FRAGMENT_NAME); (STORAGE_DIFF_FRAGMENT_ID, STORAGE_DIFF_FRAGMENT_NAME);
   (NONCE_UPDATE_FRAGMENT_ID, NONCE_UPDATE_FRAGMENT_NAME); (EVENT_FRAGMENT_ID, EVENT_FRAGMENT_NAME);
   (TRANSACTION_FRAGMENT_ID, TRANSACTION_FRAGMENT_NAME); (HEADER_FRAGMENT_ID, HEADER_NAME);
   (INDEX_FRAGMENT_ID, INDEX_NAME)].
Proof. vm_compute. reflexivity. Qed.

(** The rows of a request, in terms of the data of the node: those that match, and what
    belongs to the same transaction. *)
Definition rows_of_request (matches : list TransactionWithReceipt -> StateDiff -> RequestItem -> Z -> Prop)
    txs traces sd (self : ProtoFilter) (fid row id : Z) : Prop :=
  exists i, i ∈ request_items self /\ item_id i = id /\
    ((fid = item_fragment i /\ matches txs sd i row) \/
     (item_includes i fid /\ exists row', matches txs sd i row' /\ linked txs traces (item_fragment i) fid row' row)).

(** What it asks for, and what the indexes select. *)
Definition asked := rows_of_request item_matches.
Definition answered := rows_of_request item_selected.

Lemma asked_answered txs traces sd self fid row id : asked txs traces sd self fid row id -> answered txs traces sd self fid row id.
Proof.
  intros (i & Hi & Hid & Hm). exists i. split; [done|]. split; [done|].
  destruct Hm as [[-> Hm]|(Hinc & row' & Hm & Hl)]; [left|right]; eauto using item_matches_selected.
Qed.

Lemma answered_asked txs traces sd self fid row id :
  Forall few_keys (request_items self) -> answered txs traces sd self fid row id -> asked txs traces sd self fid row id.
Proof.
  intros Hf (i & Hi & Hid & Hm). rewrite Forall_forall in Hf. specialize (Hf i Hi). exists i. split; [done|]. split; [done|].
  destruct Hm as [[-> Hm]|(Hinc & row' & Hm & Hl)]; [left|right]; eauto 10 using item_selected_matches.
Qed.

Section block.
Context `{!Roaring, !StarknetEncoding, !BlockArchives}.
Variables (txs : list TransactionWithReceipt) (traces : list TransactionTraceWithHash) (sd : StateDiff).
Hypothesis fit : block_fits txs traces sd.
Abbreviation frags := (models_map (starknet_models txs traces sd)).

(** The fragment of a row of a transaction. *)
Lemma of_transaction_row t row i :
  of_transaction txs traces t row i ->
  exists tm, tm ∈ starknet_models txs traces sd /\ model_id tm = t /\ 0 <= row < fm_len tm.
Proof.
  intros Ho. destruct Ho as [i Hi|i Hi|row e He|row m Hm|i Hi].
  - exists (transaction_fragment txs traces). split; [set_solver|]. split; [done|].
    unfold transaction_fragment, block_transactions. by rewrite fm_len_rows, length_fmap, length_enumerate.
  - exists (receipt_fragment txs). split; [set_solver|]. split; [done|].
    unfold receipt_fragment, block_receipts. by rewrite fm_len_rows, length_fmap, length_enumerate.
  - exists (event_fragment txs traces). split; [set_solver|]. split; [done|].
    unfold event_fragment. rewrite fm_len_rows. by eapply at_row_range.
  - exists (message_fragment txs traces). split; [set_solver|]. split; [done|].
    unfold message_fragment. rewrite fm_len_rows. by eapply at_row_range.
  - exists (trace_fragment traces). split; [set_solver|]. split; [done|].
    unfold trace_fragment, block_traces. by rewrite fm_len_rows, length_fmap, length_enumerate.
Qed.

(** The joins of every fragment. *)
Lemma fragment_joins fm t jm row row' :
  fm ∈ starknet_models txs traces sd -> (t, jm) ∈ fm_joins fm ->
  joins_to jm row row' <-> linked txs traces (model_id fm) t row row'.
Proof using fit.
  intros Hfm Hjm. unfold starknet_models in Hfm. set_unfold in Hfm. destruct_or! Hfm; subst fm;
    try (cbn in Hjm; by apply not_elem_of_nil in Hjm).
  - by eapply transaction_joins.
  - by eapply event_joins.
  - by eapply message_joins.
Qed.

Lemma find_join_elem fm t jm : find_join fm t = Some jm -> (t, jm) ∈ fm_joins fm.
Proof.
  unfold find_join, find_first. destruct (list_find _ _) as [[k [t' jm']]|] eqn:Hl; [|done]. cbn. intros [= <-].
  apply list_find_Some in Hl as (Hk & Ht%Z.eqb_eq & _). cbn in Ht. subst. by eapply list_elem_of_lookup_2.
Qed.

(** What a filter includes is joined to its fragment. *)
Lemma included_join i t :
  item_includes i t ->
  exists fm jm, fm ∈ starknet_models txs traces sd /\ model_id fm = item_fragment i /\ find_join fm t = Some jm /\
    t ∈ [TRANSACTION_FRAGMENT_ID; RECEIPT_FRAGMENT_ID; EVENT_FRAGMENT_ID; MESSAGE_FRAGMENT_ID; TRACE_FRAGMENT_ID].
Proof.
  destruct i as [f|f|f|f|f|f]; cbn [item_includes item_fragment]; intros Ht; [| | |done..].
  - exists (transaction_fragment txs traces). destruct_or! Ht; destruct Ht as [-> _];
      eexists; (split; [set_solver|]); (split; [reflexivity|]); (split; [reflexivity|]); set_solver.
  - exists (event_fragment txs traces). destruct_or! Ht; destruct Ht as [-> _];
      eexists; (split; [set_solver|]); (split; [reflexivity|]); (split; [reflexivity|]); set_solver.
  - exists (message_fragment txs traces). destruct_or! Ht; destruct Ht as [-> _];
      eexists; (split; [set_solver|]); (split; [reflexivity|]); (split; [reflexivity|]); set_solver.
Qed.

Lemma row_joined_linked i t row row' :
  item_includes i t -> row_joined frags (item_fragment i) t row row' <-> linked txs traces (item_fragment i) t row row'.
Proof using fit.
  intros Hi. destruct (included_join i t Hi) as (fm & jm & Hfm & Hid & Hj & _).
  rewrite <- Hid.
  rewrite <- (fragment_joins fm t jm row row' Hfm (find_join_elem _ _ _ Hj)). unfold row_joined. split.
  - intros (fm' & jm' & Hfm' & Hj' & Hto). rewrite (starknet_fragment txs traces sd fm Hfm) in Hfm'. injection Hfm' as <-.
    rewrite Hj in Hj'. by injection Hj' as <-.
  - intros Hto. exists fm, jm. split; [|done]. by apply starknet_fragment.
Qed.

(** ** Reading the stored block *)

Lemma starknet_block_readable_ok header parts :
  Forall2 part_of (starknet_models txs traces sd) parts ->
  block_readable (AccessBlock (to_bytes (block_of_parts header parts))) frags header.
Proof using fit.
  intros Hparts. apply block_of_parts_readable; [done|apply starknet_models_nodup| |].
  - pose proof fit as ((F1 & F2 & F3) & F4 & _ & F5 & F6 & F7).
    rewrite <- length_block_events in F2. rewrite <- length_block_messages in F3.
    unfold starknet_models, transaction_fragment, receipt_fragment, event_fragment, message_fragment, trace_fragment,
      storage_diff_fragment, contract_change_fragment, nonce_update_fragment, indexed_fragment, block_transactions,
      block_receipts, block_traces.
    repeat (constructor; [rewrite fm_len_rows, ?length_fmap, ?length_enumerate; by split|]). constructor.
  - intros fm t jm row row' Hfm Hjm Hto. apply (fragment_joins fm t jm row row' Hfm Hjm) in Hto as (i & _ & Ho & _).
    by eapply of_transaction_row.
Qed.

Lemma starknet_block_named header parts :
  Forall2 part_of (starknet_models txs traces sd) parts ->
  block_ok starknet_names (block_of_parts header parts) /\
  length (ig_indexes (blk_index (block_of_parts header parts))) = length (blk_body (block_of_parts header parts)).
Proof.
  intros Hparts. eapply block_of_parts_names; [done|apply starknet_models_nodup|]. intros fid name. split.
  - intros [Hn Hr]. apply elem_of_map_to_list in Hn. rewrite starknet_names_list in Hn. unfold reserved in Hr.
    set_unfold in Hn. destruct_or! Hn; injection Hn as -> ->; try (exfalso; apply Hr; by auto);
      let use fm := (exists fm; split; [unfold starknet_models; set_solver|split; reflexivity]) in
      first [use (transaction_fragment txs traces)|use (receipt_fragment txs)|use (event_fragment txs traces)|
             use (message_fragment txs traces)|use (trace_fragment traces)|use (storage_diff_fragment sd)|
             use (contract_change_fragment sd)|use (nonce_update_fragment sd)].
  - intros (fm & Hfm & <- & <-). unfold starknet_models in Hfm. set_unfold in Hfm.
    destruct_or! Hfm; subst fm; (split; [reflexivity|]); intros [?|[?|?]]; discriminate.
Qed.

(** ** The compiled request *)

Variables (self : ProtoFilter) (bf : BlockFilter).
Hypothesis compiled : compile_to_block_filter self = Ok bf.
Hypothesis ids : Forall (fun i => is_u32 (item_id i)) (request_items self).

Lemma request_filter s f :
  has_filter bf s f <-> fragment_id f = s /\ exists i, i ∈ request_items self /\ compile_item i = Ok f.
Proof using compiled.
  rewrite compile_to_block_filter_eq in compiled. apply add_filters_Ok in compiled as (_ & Hf & _). rewrite Hf.
  split; [|by right]. intros [(fs & Hfs & _)|?]; [|done]. cbn in Hfs. by rewrite lookup_empty in Hfs.
Qed.

Lemma starknet_named fm : fm ∈ starknet_models txs traces sd -> is_Some (starknet_names !! model_id fm).
Proof. intros Hfm. unfold starknet_models in Hfm. set_unfold in Hfm. destruct_or! Hfm; subst fm; by eexists. Qed.

Lemma request_valid : valid_request frags starknet_names bf.
Proof using fit compiled ids.
  split.
  { pose proof compiled as Hc. rewrite compile_to_block_filter_eq in Hc. apply add_filters_Ok in Hc as (_ & _ & Hn & _).
    apply Hn. intros s. cbn. by rewrite lookup_empty. }
  intros s f (Hs & i & Hi & Hc)%request_filter. destruct (compile_item_ok txs traces sd fit i f Hc) as [T1 T2 T3 T4 T5].
  split; [done|]. split; [rewrite T2; rewrite Forall_forall in ids; by apply ids|].
  destruct T4 as (fm & Hfm & Hv). exists fm. rewrite <- Hs, T1. split; [done|].
  pose proof Hfm as [Hin Hid]%models_map_lookup; [|apply starknet_models_nodup].
  split; [rewrite <- Hid; by apply starknet_named|]. split; [done|].
  intros t Ht%T3. destruct (included_join i t Ht) as (fm' & jm & Hfm' & Hid' & Hj & Htt).
  assert (fm' = fm) as ->.
  { pose proof (starknet_fragment txs traces sd fm' Hfm') as Hl. rewrite Hid', Hfm in Hl. by injection Hl. }
  split; [by eexists|]. assert (exists tm, tm ∈ starknet_models txs traces sd /\ model_id tm = t) as (tm & Htm & <-).
  { set_unfold in Htt. destruct_or! Htt; subst t; [exists (transaction_fragment txs traces)|exists (receipt_fragment txs)|
      exists (event_fragment txs traces)|exists (message_fragment txs traces)|exists (trace_fragment traces)]; split; (set_solver || done). }
  split; [eexists; by apply starknet_fragment|by apply starknet_named].
Qed.

Lemma request_wanted fid row id : wanted frags bf fid row id <-> answered txs traces sd self fid row id.
Proof using fit compiled.
  unfold wanted, answered, rows_of_request. split.
  - intros (s & f & (Hs & i & Hi & Hc)%request_filter & Hid & Hw).
    destruct (compile_item_ok txs traces sd fit i f Hc) as [T1 T2 T3 T4 T5]. exists i. split; [done|]. split; [congruence|].
    destruct Hw as [[-> Hr]|(Ht & row' & Hr & Hj)]; [left|right].
    + split; [congruence|]. by apply T5.
    + apply T3 in Ht. split; [done|]. exists row'. split; [by apply T5|]. rewrite <- Hs, T1 in Hj.
      by apply (row_joined_linked i fid row' row Ht).
  - intros (i & Hi & Hid & Hw). pose proof compiled as Hcp. rewrite compile_to_block_filter_eq in Hcp.
    apply add_filters_Ok in Hcp as (_ & _ & _ & _ & Hok). rewrite Forall_forall in Hok. destruct (Hok i Hi) as [f Hc].
    destruct (compile_item_ok txs traces sd fit i f Hc) as [T1 T2 T3 T4 T5]. exists (fragment_id f), f.
    split; [apply request_filter; eauto|]. split; [congruence|]. destruct Hw as [[-> Hr]|(Ht & row' & Hr & Hj)]; [left|right].
    + split; [done|]. by apply T5.
    + split; [by apply T3|]. exists row'. split; [by apply T5|]. rewrite T1. by apply (row_joined_linked i fid row' row Ht).
Qed.
End block.
