(* ===== verification/StarknetNode.v ===== *)
(** * Starknet: the node as the ingestion sees it

    What the client of the node promises ([NodeClientLaws]), and that the
    ingestion of Starknet blocks is then one that the ingestion service can run
    on ([BlockIngestionLaws]). *)

From S2P Require Import Prelude External Text Core Cloud Chain ChainFacts Models Index Query CompactionServiceFacts.
From S2P Require Import Starknet StarknetProto StarknetFilter Ingestion IngestionFacts IngestionSystem StarknetIngestion StarknetFacts.

(** Requests to the node store nothing; the blocks it returns have a number with
    a successor and a hash that is not zero. *)
Class NodeClientLaws (W : Type) `{Cloud W} `{!NodeClient W} := {
  node_hashes_reads : forall id, preserves same_data (node_block_with_tx_hashes id);
  node_receipts_reads : forall id, preserves same_data (node_block_with_receipts id);
  node_update_reads : forall id, preserves same_data (node_state_update id);
  node_traces_reads : forall id, preserves same_data (node_traces id);
  node_hashes_range : forall id w block w',
    node_block_with_tx_hashes id w = (Ok (HashesBlock block), w') ->
    0 <= bh_block_number block /\ bh_block_number block + 1 < U64;
  node_block_valid : forall id w block w',
    node_block_with_receipts id w = (Ok (ReceiptsBlock block), w') ->
    (0 <= bk_block_number block /\ bk_block_number block + 1 < U64) /\
    is_felt (bk_block_hash block) /\ bk_block_hash block <> 0;
  node_pending_range : forall id w block w',
    node_block_with_receipts id w = (Ok (ReceiptsPreConfirmed block), w') -> is_u64 (pc_block_number block) }.

(** A result of a program comes from results of its parts. *)
Lemma bind_Ok_inv {S E A B} (m : prog S E A) (f : A -> prog S E B) s b s' :
  mbind f m s = (Ok b, s') -> exists a s1, m s = (Ok a, s1) /\ f a s1 = (Ok b, s').
Proof. unfold mbind, prog_bind. destruct (m s) as [[a|e|] s1]; try done. intros Hf. by exists a, s1. Qed.

Lemma map_err_Ok_inv {S E E' A} (g : E -> E') (m : prog S E A) s a s' :
  map_err g m s = (Ok a, s') -> m s = (Ok a, s').
Proof. unfold map_err. destruct (m s) as [[a1|e|] s1]; by intros [= <- <-]. Qed.

Lemma pcontext_Ok_inv {S E E' A} (e : E') (m : prog S E A) s a s' :
  pcontext e m s = (Ok a, s') -> m s = (Ok a, s').
Proof. unfold pcontext. destruct (m s) as [[a1|e'|] s1]; by intros [= <- <-]. Qed.

Lemma lift_Ok_inv {S E A} (o : outcome E A) (s : S) a s' : lift o s = (Ok a, s') -> o = Ok a /\ s' = s.
Proof. by intros [= -> ->]. Qed.

(** A felt that is not zero has bytes that are not all zero. *)
Lemma felt_hash_nonzero f : is_felt f -> f <> 0 -> hash_is_zero (to_bytes_be f) = false.
Proof.
  intros Hf Hne. apply not_true_iff_false. intros Hz%hash_is_zero_spec. apply Hne.
  apply to_bytes_be_inj; [done|done|]. rewrite Hz. unfold to_bytes_be. rewrite length_be_bytes. done.
Qed.

Section node.
Context {W : Type} `{Cloud W} `{!NodeClient W, !NodeClientLaws W, !Roaring, !StarknetEncoding}.
Variable options : StarknetBlockIngestionOptions.

Lemma preserves_map_err {E E' A} (g : E -> E') (m : prog W E A) :
  preserves same_data m -> preserves same_data (map_err g m).
Proof.
  intros Hm w r w'. unfold map_err. destruct (m w) as [r1 w1] eqn:Hr. specialize (Hm _ _ _ Hr).
  by destruct r1; intros [= <- <-].
Qed.

Lemma preserves_spawn {A} (m : prog W StarknetProviderError A) :
  preserves same_data m -> preserves same_data (spawn m).
Proof.
  intros Hm w r w'. unfold spawn. destruct (m w) as [r1 w1] eqn:Hr. specialize (Hm _ _ _ Hr). by intros [= <- <-].
Qed.

Lemma preserves_try {E A} (m : prog W E A) :
  preserves same_data m -> preserves (E := IngestionError) same_data (try m).
Proof.
  intros Hm w r w'. unfold try. destruct (m w) as [r1 w1] eqn:Hr. specialize (Hm _ _ _ Hr).
  by destruct r1; intros [= <- <-].
Qed.

Create HintDb node.
Hint Resolve preserves_map_err preserves_spawn preserves_try preserves_pcontext : node.
Hint Resolve node_hashes_reads node_receipts_reads node_update_reads node_traces_reads : node.

Lemma requests_reads id : preserves same_data (requests options id).
Proof.
  unfold requests. apply preserves_bind; [apply _|by apply preserves_spawn, preserves_map_err, node_update_reads|].
  intros r1. apply preserves_bind; [apply _| |intros ?; apply preserves_ret, _].
  destruct (ingest_traces options); [|apply preserves_ret, _]. apply preserves_spawn.
  apply preserves_bind; [apply _|apply preserves_lift, _|]. intros ?. apply preserves_map_err, node_traces_reads.
Qed.

Lemma ingest_block_reads n : preserves same_data (starknet_ingest_block_by_number options n).
Proof.
  apply preserves_bind; [apply _|unfold get_block_with_receipts; eauto with node|].
  intros [block|block]; [|apply preserves_fail, _]. apply preserves_bind; [apply _|apply requests_reads|].
  intros r. apply preserves_bind; [apply _|apply preserves_lift, _|]. intros [sd|sd]; [|apply preserves_fail, _].
  apply preserves_bind; [apply _|apply preserves_lift, _|]. intros traces.
  apply preserves_bind; [apply _|apply preserves_lift, _|]. intros ?. apply preserves_ret, _.
Qed.

Lemma ingest_pending_reads parent generation :
  preserves same_data (starknet_ingest_pending_block options parent generation).
Proof.
  apply preserves_bind; [apply _|unfold get_block_with_receipts; eauto with node|].
  intros [[block|block]|e|]; [apply preserves_fail, _| | |apply preserves_lift, _].
  2: { destruct (is_not_found e); [apply preserves_ret, _|apply preserves_fail, _]. }
  destruct (negb _); [apply preserves_ret, _|]. apply preserves_bind; [apply _|apply requests_reads|].
  intros r. apply preserves_bind; [apply _|apply preserves_lift, _|]. intros [sd|sd]; [apply preserves_fail, _|].
  apply preserves_bind; [apply _|apply preserves_lift, _|]. intros traces.
  apply preserves_bind; [apply _|apply preserves_lift, _|]. intros ?. apply preserves_ret, _.
Qed.

(** A block that was ingested is one of the node. *)
Lemma ingest_block_inv n w info blk w' :
  starknet_ingest_block_by_number options n w = (Ok (info, blk), w') ->
  exists block w1, node_block_with_receipts (Confirmed (ConfirmedNumber n)) w = (Ok (ReceiptsBlock block), w1) /\
    info = mkBlockInfo (bk_block_number block) (to_bytes_be (bk_block_hash block)) (to_bytes_be (bk_parent_hash block)).
Proof.
  intros Hi. apply bind_Ok_inv in Hi as (m & w1 & Hm & Hi). apply map_err_Ok_inv, map_err_Ok_inv in Hm.
  destruct m as [block|block]; [|done]. exists block, w1. split; [done|].
  apply bind_Ok_inv in Hi as (r & w2 & _ & Hi). apply bind_Ok_inv in Hi as (u & w3 & _ & Hi).
  destruct u as [sd|sd]; [|done]. apply bind_Ok_inv in Hi as (traces & w4 & _ & Hi).
  apply bind_Ok_inv in Hi as (b & w5 & _ & Hi). by injection Hi as -> _ _.
Qed.

Lemma ingest_pending_inv parent generation w info blk w' :
  starknet_ingest_pending_block options parent generation w = (Ok (Some (info, blk)), w') ->
  exists block w1, node_block_with_receipts PreConfirmedTag w = (Ok (ReceiptsPreConfirmed block), w1) /\
    info = mkPendingBlockInfo (pc_block_number block) generation (hash parent).
Proof.
  intros Hi. apply bind_Ok_inv in Hi as (r & w1 & Hr & Hi). unfold try in Hr.
  destruct (get_block_with_receipts IdPending w) as [[m|e|] w2] eqn:Hg; [|injection Hr as <- <-; by destruct (is_not_found e)|done].
  injection Hr as <- <-. apply map_err_Ok_inv in Hg.
  destruct m as [block|block]; [done|]. exists block, w2. split; [done|]. destruct (negb _); [done|].
  apply bind_Ok_inv in Hi as (r & w2' & _ & Hi). apply bind_Ok_inv in Hi as (u & w3 & _ & Hi).
  destruct u as [sd|sd]; [done|]. apply bind_Ok_inv in Hi as (traces & w4 & _ & Hi).
  apply bind_Ok_inv in Hi as (b & w5 & _ & Hi). by injection Hi as -> _ _.
Qed.

#[export] Instance starknet_ingestion_laws :
  BlockIngestionLaws W (BlockIngestion0 := starknet_block_ingestion options).
Proof.
  split; cbn [rpc_head_cursor rpc_finalized_cursor rpc_block_info rpc_ingest_block rpc_ingest_pending starknet_block_ingestion].
  - apply preserves_bind; [apply _|unfold get_block_with_tx_hashes; eauto with node|]. intros ?. apply preserves_lift, _.
  - apply preserves_bind; [apply _|unfold get_block_with_tx_hashes; eauto with node|]. intros ?. apply preserves_lift, _.
  - intros n. apply preserves_bind; [apply _|unfold get_block_with_tx_hashes; eauto with node|].
    intros [block|]; [apply preserves_ret, _|apply preserves_fail, _].
  - apply ingest_block_reads.
  - apply ingest_pending_reads.
  - intros w c w' Hc. apply bind_Ok_inv in Hc as (m & w1 & Hm & Hc). apply pcontext_Ok_inv, map_err_Ok_inv in Hm.
    destruct m as [block|]; [|done]. injection Hc as <- _. by eapply node_hashes_range.
  - intros n w info blk w' (block & w1 & Hb & ->)%ingest_block_inv.
    destruct (node_block_valid _ _ _ _ Hb) as ([? ?] & Hf & Hne). split; [done|]. split; [done|].
    by apply felt_hash_nonzero.
  - intros c g w info blk w' Hg (block & w1 & Hb & ->)%ingest_pending_inv.
    split; [by eapply node_pending_range|done].
Qed.
End node.
