(* ===== verification/StarknetSpec.v ===== *)
(** * Starknet: properties

    - a block of the node is stored so that every fragment reads back, with an
      index for each filter and a join for each kind of related data;
    - a client receives of a block the data of the node that its request asks for,
      and no other unless an event filter has more than four keys;
    - a request is refused when it cannot be decoded, is empty, too large, names
      an unknown status or can produce no data, and for no other reason;
    - field elements survive their textual form;
    - where the code differs from what it means to do: pending blocks with
      traces, heads from the websocket. *)

From S2P Require Import Prelude External Text Core Cloud Chain ChainFacts Models Index IndexSpec Query QuerySpec Encoding EncodingSpec.
From S2P Require Import FragmentAccess FilterBlock FilterBlockFacts FilterBlockSpec Compaction CompactionFacts CompactionServiceFacts.
From S2P Require Import Server Starknet StarknetProto StarknetFilter Ingestion IngestionSystem StarknetIngestion StarknetFacts StarknetTables.
From S2P Require Import StarknetBlock StarknetQuery StarknetNode.

(** ** Blocks *)

Section stored.
Context `{!Roaring, !StarknetEncoding, !BlockArchives}.

(** (C7) A block of the node can always be stored: with fewer than 2^32 rows of
    each kind and a trace for each transaction or none, every index and join is
    built, and the stored block, read back, shows the fragments of the data of
    the node ([starknet_models]): the encoded rows, the keys of every row in
    every index, the rows that every row is joined to, all of them in range.  It
    has one fragment for each name that the server knows, and as many indexes as
    bodies, which is what the ingestion service checks before it writes. *)
Theorem starknet_block_stored header txs traces sd :
  block_fits txs traces sd ->
  exists blk, index_block header txs traces sd = Ok blk /\
    block_readable (AccessBlock (to_bytes blk)) (models_map (starknet_models txs traces sd))
      (mkHeaderFragment (encode_header_message header)) /\
    block_ok starknet_names blk /\ length (ig_indexes (blk_index blk)) = length (blk_body blk).
Proof.
  intros Hfit. destruct (index_block_ok header txs traces sd Hfit) as (parts & Hb & Hp). eexists. split; [exact Hb|].
  split; [by apply starknet_block_readable_ok|]. by apply (starknet_block_named txs traces sd).
Qed.

(** When the header of the block is part of the answer, for the rows of a request. *)
Definition header_with (rows : Z -> Z -> Z -> Prop) (self : ProtoFilter) (is_live : bool) : Prop :=
  match compile_header_filter (pf_header self) with
  | Always => True
  | OnData => exists fid row id, rows fid row id
  | OnDataOrOnNewBlock => is_live = true \/ exists fid row id, rows fid row id
  end.

(** An answer with some rows of a request, and the header that goes with them. *)
Definition answer_with (rows : Z -> Z -> Z -> Prop) (is_live : bool) (self : ProtoFilter) (a : gmap Z FilterMatch * bool) : Prop :=
  (forall fid row id, id ∈ ids_in a.1 fid row <-> rows fid row id) /\ (a.2 = true <-> header_with rows self is_live).

(** The answer has all the rows that the request asks for; it has no other when no event
    filter has more than four keys; and in general the others match the first four keys
    of an event filter. *)
Definition answers_request txs traces sd (is_live : bool) (self : ProtoFilter) (a : gmap Z FilterMatch * bool) : Prop :=
  answer_with (answered txs traces sd self) is_live self a /\
  (forall fid row id, asked txs traces sd self fid row id -> id ∈ ids_in a.1 fid row) /\
  (Forall few_keys (request_items self) -> answer_with (asked txs traces sd self) is_live self a).
End stored.

Section answers.
Context `{!Roaring, !StarknetEncoding, !BlockArchives, !Prost, !HashOrder Z}.

Lemma is_answer_request txs traces sd is_live self bf a :
  block_fits txs traces sd -> compile_to_block_filter self = Ok bf ->
  is_answer (models_map (starknet_models txs traces sd)) is_live bf a -> answers_request txs traces sd is_live self a.
Proof.
  intros Hfit Hc [[_ Hm] Hs]. pose proof (request_wanted txs traces sd Hfit self bf Hc) as Hw.
  assert (header_filter bf = compile_header_filter (pf_header self)) as Hh.
  { rewrite compile_to_block_filter_eq in Hc. by apply add_filters_Ok in Hc as [-> _]. }
  assert (answer_with (answered txs traces sd self) is_live self a) as Ha.
  { split; [intros fid row id; by rewrite Hm, Hw|]. rewrite Hs. unfold header_wanted, header_with. rewrite Hh.
    destruct (compile_header_filter (pf_header self)); [done|by setoid_rewrite Hw..]. }
  split; [done|]. split; [intros fid row id Hq; by apply Ha, asked_answered|]. intros Hf.
  assert (forall fid row id, answered txs traces sd self fid row id <-> asked txs traces sd self fid row id) as Hiff.
  { intros fid row id. split; [by apply answered_asked|apply asked_answered]. }
  destruct Ha as [Hr Hhead]. split; [intros fid row id; by rewrite Hr|]. rewrite Hhead. unfold header_with.
  destruct (compile_header_filter (pf_header self)); [done|by setoid_rewrite Hiff..].
Qed.

(** (C6) What a client receives of a Starknet block.  For any block of the node
    within range and any request whose filters compile, the block is stored and
    filtered, one message for each filter of the request.  The message carries
    all the rows that the filter asks for: the transactions, events, messages,
    storage diffs, contract changes and nonce updates of the node that match, with
    their ids, and, of the related data that the filter includes, what belongs to
    the same transaction as a match.  It carries no other row, and the header
    exactly when the filter asks for it, if no event filter has more than four
    keys; of an event filter with more, which the protocol says to match them all,
    only the first four count.  Each row is the encoding of the data of the node. *)
Theorem starknet_answer header txs traces sd requests bfs is_live :
  block_fits txs traces sd -> Forall2 (fun self bf => compile_to_block_filter self = Ok bf) requests bfs ->
  Forall (fun self => Forall (fun i => is_u32 (item_id i)) (request_items self)) requests ->
  exists blk answers, index_block header txs traces sd = Ok blk /\
    Forall2 (answers_request txs traces sd is_live) requests answers /\
    let frags := models_map (starknet_models txs traces sd) in
    let head := mkHeaderFragment (encode_header_message header) in
    (Forall (fun a => zlen (answer_bytes frags head a) < U64) answers ->
     filter_fragment bfs starknet_names (AccessBlock (to_bytes blk)) is_live =
       Ok (existsb nonempty (answer_bytes frags head <$> answers), answer_bytes frags head <$> answers) /\
     Forall (fun a => read_fields (length (answer_bytes frags head a)) (answer_bytes frags head a) =
       Some (answer_fields frags head a)) answers).
Proof.
  intros Hfit Hc Hids. destruct (index_block_ok header txs traces sd Hfit) as (parts & Hb & Hp).
  set (frags := models_map _). set (head := mkHeaderFragment _).
  pose proof (starknet_block_readable_ok txs traces sd Hfit head parts Hp) as Hr.
  assert (Forall (valid_request frags starknet_names) bfs) as Hv.
  { clear - Hc Hids Hfit. induction Hc as [|self bf selfs bfs Hself Hc IH]; [constructor|].
    apply Forall_cons in Hids as [Hid Hids]. constructor; [|by apply IH]. by apply (request_valid txs traces sd Hfit self bf). }
  destruct (filter_fragment_answers _ frags head starknet_names bfs is_live Hr Hv) as (answers & Ha & Hout).
  eexists _, answers. split; [exact Hb|]. split.
  { apply Forall2_same_length_lookup in Ha as [Hl Ha]. apply Forall2_same_length_lookup. split.
    { by rewrite <- Hl, (Forall2_length _ _ _ Hc). }
    intros i self a Hs Hai. destruct (Forall2_lookup_l _ _ _ _ _ Hc Hs) as (bf & Hbf & Hself).
    eapply is_answer_request; [done|exact Hself|by eapply Ha]. }
  cbn zeta. intros Hz. destruct (Hout Hz) as [Hf Hfs]. split; [done|].
  apply Forall_lookup. intros i a Hai. destruct (Forall2_lookup_r _ _ _ _ _ Hfs Hai) as (bf & _ & _ & Hread). done.
Qed.
End answers.

(** ** Requests *)

Section requests.
Context `{!FilterDecoding}.

(** A filter that can produce data. *)
Definition produces (self : ProtoFilter) : Prop :=
  compile_header_filter (pf_header self) = Always \/ request_items self <> [].

(** The status that a filter asks for is one that exists. *)
Definition known_status (i : RequestItem) : Prop :=
  let known (s : option Z) := forall z, s = Some z -> 0 <= z <= 3 in
  match i with
  | ItemTransaction f => known (tf_transaction_status f)
  | ItemEvent f => known (ef_transaction_status f)
  | ItemMessage f => known (mf_transaction_status f)
  | _ => True
  end.

Lemma status_filter_known s :
  (exists r, transaction_status_filter s = Ok r) <-> forall z, s = Some z -> 0 <= z <= 3.
Proof.
  unfold transaction_status_filter, status_filter_of_i32. destruct s as [z|]; [|naive_solver].
  destruct (Z.eqb_spec z 0), (Z.eqb_spec z 1), (Z.eqb_spec z 2), (Z.eqb_spec z 3); cbn; split;
    try (intros _ ? [= <-]; lia); try (intros _; by eexists); try (intros [r Hr]; done).
  intros Hz. specialize (Hz z eq_refl). lia.
Qed.

Lemma compile_item_known i : (exists f, compile_item i = Ok f) <-> known_status i.
Proof.
  destruct i as [f|f|f|f|f|f]; cbn [compile_item known_status].
  1-3: rewrite <- status_filter_known; unfold compile_transaction_filter, compile_event_filter, compile_message_filter;
    destruct (transaction_status_filter _) as [r| |]; cbn; split; intros [? ?]; (done || by eexists).
  all: split; [done|intros _; by eexists].
Qed.

Lemma compile_item_fails i : compile_item i = Err InvalidArgument \/ exists f, compile_item i = Ok f.
Proof.
  assert (forall s, transaction_status_filter s = Err InvalidArgument \/ exists r, transaction_status_filter s = Ok r) as Hs.
  { intros s. unfold transaction_status_filter. destruct s as [z|]; [|right; by eexists].
    destruct (status_filter_of_i32 z); cbn; [right; by eexists|by left]. }
  destruct i as [f|f|f|f|f|f]; cbn [compile_item]; [| | |right; by eexists..].
  1: unfold compile_transaction_filter; destruct (Hs (tf_transaction_status f)) as [->|[r ->]].
  3: unfold compile_event_filter; destruct (Hs (ef_transaction_status f)) as [->|[r ->]].
  5: unfold compile_message_filter; destruct (Hs (mf_transaction_status f)) as [->|[r ->]].
  all: (by left) || (right; by eexists).
Qed.

Lemma add_filters_total bf items :
  add_filters compile_item bf items = Err InvalidArgument \/
  (Forall known_status items /\ exists bf', add_filters compile_item bf items = Ok bf').
Proof.
  unfold add_filters. revert bf. induction items as [|i items IH]; intros bf; cbn [ofold].
  { right. split; [constructor|by eexists]. }
  destruct (compile_item_fails i) as [Hi|[f Hi]]; rewrite Hi; cbn [mbind outcome_bind]; [by left|].
  destruct (IH (add_filter bf f)) as [->|[Hk Hbf]]; [by left|right]. split; [|done].
  constructor; [|done]. apply compile_item_known. by eexists.
Qed.

Lemma compile_request self :
  (Forall known_status (request_items self) /\ exists bf, compile_to_block_filter self = Ok bf) \/
  (~ Forall known_status (request_items self) /\ compile_to_block_filter self = Err InvalidArgument).
Proof.
  rewrite compile_to_block_filter_eq. destruct (add_filters_total (set_header_filter block_filter_default
    (compile_header_filter (pf_header self))) (request_items self)) as [He|?]; [right|by left]. split; [|done].
  intros Hk. assert (exists bf, add_filters compile_item (set_header_filter block_filter_default
    (compile_header_filter (pf_header self))) (request_items self) = Ok bf) as [bf Hbf]; [|congruence].
  clear He. generalize (set_header_filter block_filter_default (compile_header_filter (pf_header self))). unfold add_filters.
  induction Hk as [|i items Hi Hk IH]; intros bf; [by eexists|]. apply compile_item_known in Hi as [f Hf].
  cbn [ofold]. rewrite Hf. apply IH.
Qed.

Lemma compiled_produces self bf : compile_to_block_filter self = Ok bf -> can_produce_data bf = true <-> produces self.
Proof.
  rewrite compile_to_block_filter_eq. intros Hc. pose proof Hc as (Hh & _ & _ & Hn & _)%add_filters_Ok.
  unfold can_produce_data, produces, always_include_header, block_filter_is_empty. rewrite Hh.
  cbn [header_filter set_header_filter]. rewrite orb_true_iff, negb_true_iff, bool_decide_eq_false. split.
  - intros [Ha|Hne]; [left; by destruct (compile_header_filter _)|right]. intros He. rewrite He in Hc.
    injection Hc as <-. by apply Hne.
  - intros [->|Hne]; [by left|right]. by apply Hn.
Qed.

(** The requests that are accepted. *)
Definition acceptable (filters : list (list byte)) (requests : list ProtoFilter) : Prop :=
  Forall2 (fun bytes self => decode_filter bytes = Some self) filters requests /\
  (1 <= length requests <= 5)%nat /\ Forall (fun self => Forall known_status (request_items self)) requests /\
  Exists produces requests.

Lemma decode_filters filters :
  (exists requests, Forall2 (fun bytes self => decode_filter bytes = Some self) filters requests /\
     omapM (fun bytes => ok_or InvalidArgument (decode_filter bytes)) filters = Ok requests) \/
  ((forall requests, ~ Forall2 (fun bytes self => decode_filter bytes = Some self) filters requests) /\
   omapM (fun bytes => ok_or InvalidArgument (decode_filter bytes)) filters = Err InvalidArgument).
Proof.
  induction filters as [|bytes filters IH]; [left; exists []; by split; [constructor|]|]. cbn [omapM].
  destruct (decode_filter bytes) as [self|] eqn:Hd; cbn [ok_or mbind outcome_bind].
  - destruct IH as [(requests & H2 & ->)|[Hno ->]]; [left|right].
    + exists (self :: requests). split; [by constructor|done].
    + split; [|done]. intros requests (x & l & Hx & Hl & ->)%Forall2_cons_inv_l. by apply (Hno l).
  - right. split; [|done]. intros requests (x & l & Hx & Hl & ->)%Forall2_cons_inv_l. congruence.
Qed.

Lemma compile_requests requests :
  (Forall (fun self => Forall known_status (request_items self)) requests /\
   exists bfs, Forall2 (fun self bf => compile_to_block_filter self = Ok bf) requests bfs /\
     omapM compile_to_block_filter requests = Ok bfs) \/
  (~ Forall (fun self => Forall known_status (request_items self)) requests /\
   omapM compile_to_block_filter requests = Err InvalidArgument).
Proof.
  induction requests as [|self requests IH]; [left; split; [constructor|exists []; by split; [constructor|]]|]. cbn [omapM].
  destruct (compile_request self) as [[Hk [bf Hbf]]|[Hk He]].
  - rewrite Hbf. cbn [mbind outcome_bind]. destruct IH as [(Hks & bfs & H2 & ->)|[Hks ->]]; [left|right].
    + split; [by constructor|]. exists (bf :: bfs). split; [by constructor|done].
    + split; [|done]. by intros [_ ?]%Forall_cons.
  - rewrite He. right. split; [|done]. by intros [? _]%Forall_cons.
Qed.

(** (C37) Which requests are accepted: those of one to five filters that all
    decode, whose statuses exist, and of which at least one can produce data,
    either by a filter on the data or because it always wants the header.  They
    are compiled filter by filter; every other request is refused as an invalid
    argument, and none makes the server panic. *)
Theorem create_block_filter_checked filters :
  (exists requests bfs, acceptable filters requests /\ create_block_filter filters = Ok bfs /\
     Forall2 (fun self bf => compile_to_block_filter self = Ok bf) requests bfs) \/
  ((forall requests, ~ acceptable filters requests) /\ create_block_filter filters = Err InvalidArgument).
Proof.
  unfold create_block_filter, acceptable. destruct (decode_filters filters) as [(requests & Hd & ->)|[Hno ->]];
    cbn [mbind outcome_bind]; [|right; split; [|done]; intros requests [? _]; by eapply Hno].
  assert (forall requests', Forall2 (fun bytes self => decode_filter bytes = Some self) filters requests' -> requests' = requests) as Hu.
  { clear - Hd. intros r Hr. revert r Hr. induction Hd as [|b s fs rs Hs Hd IH]; intros r Hr; [by apply Forall2_nil_inv_l in Hr|].
    apply Forall2_cons_inv_l in Hr as (x & l & Hx & Hl & ->). f_equal; [congruence|by apply IH]. }
  case_bool_decide as Hn.
  { right. split; [|done]. intros r (Hr & Hlen & _). apply Hu in Hr. subst. cbn in Hlen. lia. }
  destruct (Z.ltb_spec 5 (Z.of_nat (length requests))) as [Hl|Hl].
  { right. split; [|done]. intros r (Hr & Hlen & _). apply Hu in Hr. subst. lia. }
  destruct (compile_requests requests) as [(Hk & bfs & Hc & ->)|[Hk ->]]; cbn [mbind outcome_bind];
    [|right; split; [|done]; intros r (Hr & _ & Hks & _); apply Hu in Hr; by subst].
  assert (existsb can_produce_data bfs = true <-> Exists produces requests) as Hp.
  { clear - Hc. induction Hc as [|self bf rs bfs Hs Hc IH]; cbn [existsb]; [rewrite Exists_nil; done|].
    by rewrite orb_true_iff, Exists_cons, (compiled_produces self bf Hs), IH. }
  destruct (existsb can_produce_data bfs); [left|right].
  - exists requests, bfs. split; [|done]. split; [done|]. split; [|split; [done|by apply Hp]].
    destruct requests; [done|]. cbn in *. lia.
  - split; [|done]. intros r (Hr & _ & _ & He). apply Hu in Hr. subst r. by apply Hp in He.
Qed.
End requests.

(** ** Rows *)

Lemma tx_origins_length {A} (items : TransactionWithReceipt -> list A) txs i tx :
  at_row txs i tx -> (length (items tx) <= length (origins items txs))%nat.
Proof.
  intros Hi%elem_of_enumerate. unfold origins. apply list_elem_of_split in Hi as (l1 & l2 & ->).
  rewrite bind_app, bind_cons, !length_app. unfold tx_origins at 2. cbn [snd]. rewrite length_fmap, length_enumerate. lia.
Qed.

(** An origin names its transaction and its position in it. *)
Lemma at_origin {A} (items : TransactionWithReceipt -> list A) txs row o :
  at_row (origins items txs) row o ->
  at_row txs (or_index o) (or_tx o) /\ at_row (items (or_tx o)) (or_position o) (or_item o).
Proof.
  intros [_ Ho%list_elem_of_lookup_2]. unfold origins in Ho. apply list_elem_of_bind in Ho as ([i tx] & Ho & Hi).
  unfold tx_origins in Ho. apply list_elem_of_fmap in Ho as ([j x] & -> & Hj). cbn [or_index or_tx or_position or_item fst snd] in *.
  by apply elem_of_enumerate in Hi, Hj.
Qed.

(** A stored event is well typed and knows where it comes from. *)
Record event_typed (txs : list TransactionWithReceipt) (row : Z) (e : Starknet.Event) (i j : Z)
    (tx : TransactionWithReceipt) (ev : Models.Event) : Prop := {
  et_tx : at_row txs i tx;
  et_ev : at_row (tx_events tx) j ev;
  et_positions : event_index e = row /\ event_transaction_index e = i /\ event_index_in_transaction e = j;
  et_widths : is_u32 row /\ is_u32 i /\ is_u32 j;
  et_hash : event_transaction_hash e = Some (to_proto (transaction_hash (tr_receipt tx)));
  et_data : event_from_address e = Some (to_proto (ev_from_address ev)) /\ event_keys e = to_proto <$> ev_keys ev /\
    event_data e = to_proto <$> ev_data ev;
  et_fields : Forall field_ok (event_keys e) /\ Forall field_ok (event_data e) /\
    forall f, event_from_address e = Some f -> field_ok f }.

(** (C38) The table of the events is well typed.  Whatever transactions a block
    has, as long as there are fewer than 2^32 rows of each kind, every event that
    the ingestion collects is an event of a transaction of the block: its index
    is its row, its transaction index and its index in the transaction lead back
    to it without wrapping around, it carries the hash of its transaction, and
    all its field elements consist of 64 bit words. *)
Theorem collected_events_typed has_traces txs row e :
  fits txs -> at_row (et_events (bt_events (collect_transactions has_traces txs))) row e ->
  exists i j tx ev, event_typed txs row e i j tx ev.
Proof.
  intros Hfit He. rewrite (bo_events _ _ _ (collect_transactions_ok has_traces txs Hfit)) in He.
  pose proof (at_row_range _ _ _ He) as Hr. rewrite length_block_events in Hr.
  apply at_row_placed in He as (o & Ho & ->). destruct (at_origin _ _ _ _ Ho) as [Htx Hev].
  destruct Hfit as (F1 & F2 & _). pose proof (at_row_range _ _ _ Htx) as Hi. pose proof (at_row_range _ _ _ Hev) as Hj.
  pose proof (tx_origins_length tx_events txs _ _ Htx) as Hl.
  assert (forall l : list Felt, Forall field_ok (to_proto <$> l)) as Hok.
  { intros l. apply Forall_fmap, Forall_true. intros f. apply felt_proto_ok. }
  exists (or_index o), (or_position o), (or_tx o), (or_item o). constructor; [done|done| | |done|done|].
  - unfold placed_event, place_event. cbn [event_index event_transaction_index event_index_in_transaction fst snd].
    rewrite !wrap32_id by (unfold is_u32; lia). done.
  - unfold is_u32. lia.
  - split; [apply Hok|]. split; [apply Hok|]. intros f [= <-]. apply felt_proto_ok.
Qed.

(** ** Field elements *)

Lemma field_from_to_bytes f : field_ok f -> field_from_bytes (field_to_bytes f) = f.
Proof.
  intros Hf. apply field_to_bytes_inj; [apply field_from_bytes_ok; done|done|]. by apply field_to_from_bytes.
Qed.

(** A field element is the same after it was written in hexadecimal and
    read back; so is a value of fewer bytes, which is padded on the left.  A text
    of more than 32 bytes, without the prefix or with other characters is
    refused. *)
Theorem field_hex_roundtrip f bytes :
  field_ok f ->
  from_hex (to_hex f) = Ok f /\
  from_hex (str "0x" ++ hex_encode bytes) =
    (if (32 <? length bytes)%nat then Err SizeTooBig else Ok (field_from_bytes (replicate (32 - length bytes) x00 ++ bytes))).
Proof.
  intros Hf. assert (forall bytes, from_hex (str "0x" ++ hex_encode bytes) = from_slice bytes) as Hhex.
  { intros b. unfold from_hex. rewrite bool_decide_eq_true_2 by (by exists (hex_encode b)). cbn [negb].
    change (drop 2 (str "0x" ++ hex_encode b)) with (hex_encode b).
    assert ((length (str "0x" ++ hex_encode b) mod 2 =? 1)%nat = false) as ->.
    { rewrite length_app, hex_encode_length. cbn [length]. apply Nat.eqb_neq. change (length (str "0x")) with 2%nat.
      replace (2 + 2 * length b)%nat with ((1 + length b) * 2)%nat by lia. rewrite Nat.Div0.mod_mul. done. }
    by rewrite hex_decode_encode. }
  split; [|apply Hhex]. unfold to_hex. rewrite Hhex. unfold from_slice. cbn [negb].
  change (length (field_to_bytes f)) with 32%nat. cbn [Nat.ltb Nat.leb]. rewrite Nat.sub_diag. cbn [replicate app].
  by rewrite field_from_to_bytes.
Qed.

(** ** Ingestion *)

Section ingestion.
Context {W : Type} `{!NodeClient W, !Roaring, !StarknetEncoding, !BlockArchives}.
Variable options : StarknetBlockIngestionOptions.

(** The traces of a block, if they are ingested. *)
Definition traces_answer (hash : Felt) (w : W) : outcome RequestFailure (list TransactionTraceWithHash) :=
  if ingest_traces options then (node_traces (ConfirmedHash hash) w).1 else Ok [].

(** Whatever the node answers, the indexes and joins of the block can be built. *)
Lemma built_index_total id builder : exists idx, built_index id builder = Ok idx.
Proof.
  unfold built_index. destruct (bitmap_build_fold (btree_iter builder) (mkBitmapIndex [] [])) as (vs & Hf & _).
  unfold bitmap_build. rewrite Hf. by eexists.
Qed.

Lemma many_join_total id builder : exists j, many_join id builder = Ok j.
Proof. unfold many_join. destruct (join_many_build_get builder) as (idx & -> & _). by eexists. Qed.

(** The next index or join is built. *)
Ltac build_next :=
  match goal with
  | |- context [built_index ?id ?b] => let H := fresh in destruct (built_index_total id b) as [? H]; rewrite H
  | |- context [many_join ?id ?b] => let H := fresh in destruct (many_join_total id b) as [? H]; rewrite H
  end; cbn [mbind outcome_bind].

Lemma index_block_total header txs traces sd :
  exists blk, index_block header txs traces sd = Ok blk /\
    blk_header blk = mkHeaderFragment (encode_header_message header).
Proof.
  assert (exists body, collect_block_body_and_index txs traces = Ok body) as [body Hbody].
  { unfold collect_block_body_and_index. destruct (collect_traces traces) as [block_traces to_trace].
    unfold transaction_fragments, event_fragments, message_fragments. repeat build_next. by eexists. }
  assert (exists update, collect_state_update_body_and_index sd = Ok update) as [update Hupdate].
  { unfold collect_state_update_body_and_index. destruct (foldl collect_storage_diff _ _), (collect_changes sd).
    destruct (foldl collect_nonce_update _ _). unfold indexed_fragments. repeat build_next. by eexists. }
  eexists. unfold index_block. rewrite Hbody, Hupdate. split; [reflexivity|done].
Qed.

(** The block of the node, as the information and the block that are returned;
    within the range of the row numbers, and with a trace for every transaction or
    none, the fragments read back as the data of the node. *)
Record stores (block : BlockWithReceipts) traces sd (info : BlockInfo) (blk : Block) : Prop := {
  sto_number : bi_number info = bk_block_number block;
  sto_hash : bi_hash info = to_bytes_be (bk_block_hash block);
  sto_parent : bi_parent info = to_bytes_be (bk_parent_hash block);
  sto_header : blk_header blk = mkHeaderFragment (encode_header_message (convert_block_header block));
  sto_names : block_fits (bk_transactions block) traces sd -> block_ok starknet_names blk;
  sto_readable : block_fits (bk_transactions block) traces sd ->
    block_readable (AccessBlock (to_bytes blk)) (models_map (starknet_models (bk_transactions block) traces sd))
      (mkHeaderFragment (encode_header_message (convert_block_header block))) }.

(** What the ingestion of a block returns, given the answers of the node. *)
Definition ingestion_answer (n : Z) (w : W) (r : outcome IngestionError (BlockInfo * Block)) : Prop :=
  match node_block_with_receipts (Confirmed (ConfirmedNumber n)) w with
  | (Panic, _) => r = Panic
  | (Err ErrorBlockNotFound, _) => r = Err BlockNotFound
  | (Err _, _) | (Ok (ReceiptsPreConfirmed _), _) => r = Err RpcRequest
  | (Ok (ReceiptsBlock block), w1) =>
      let '(update, w2) := node_state_update (Confirmed (ConfirmedHash (bk_block_hash block))) w1 in
      match update, traces_answer (bk_block_hash block) w2 with
      | Ok (Update sd), Ok traces => exists info blk, r = Ok (info, blk) /\ stores block traces sd info blk
      | _, _ => r = Err RpcRequest
      end
  end.

Lemma requests_run id w :
  requests options (IdHash id) w =
    let '(u, w2) := node_state_update (Confirmed (ConfirmedHash id)) w in
    (Ok (await (match u with Ok a => Ok a | Err e => Err (convert_error e) | Panic => Panic end),
         await (match traces_answer id w2 with Ok a => Ok a | Err e => Err (convert_error e) | Panic => Panic end)),
     if ingest_traces options then (node_traces (ConfirmedHash id) w2).2 else w2).
Proof.
  unfold requests, traces_answer, spawn, get_state_update, get_block_transaction_traces, map_err, mbind, prog_bind, lift.
  cbn [rpc_block_id confirmed_block_id]. destruct (node_state_update _ w) as [u w2].
  destruct u; destruct (ingest_traces options); try reflexivity.
  all: destruct (node_traces (ConfirmedHash id) w2) as [[t|e'|] w3]; reflexivity.
Qed.

(** (C36) What the ingestion of a block by number returns, for every answer of
    the node.  A block that the node does not have is reported as not found,
    which is what makes the service look for a reorg.  Every other error of the
    block, and every failure of its state update or its traces, is a failed
    request, also when one of the two requests that run beside each other panics;
    a panic of the request for the block itself is one of the ingestion.  When the
    node answers all of them, a block is returned, with the number, the hashes and
    the header of the node; and if it has fewer than 2^32 rows of each kind, and a
    trace for every transaction or none, its fragments read back as the data of
    the node.  (The counts are not checked: with other numbers of traces the block
    is returned as well, and nothing is said of its fragments.) *)
Theorem starknet_ingest_answers n w : ingestion_answer n w (starknet_ingest_block_by_number options n w).1.
Proof.
  unfold ingestion_answer, starknet_ingest_block_by_number, get_block_with_receipts, map_err. cbn [rpc_block_id].
  rewrite bind_eq. destruct (node_block_with_receipts _ w) as [[[block|block]|e|] w1];
    [|done|by destruct e|done]. cbn beta iota.
  rewrite bind_eq, requests_run. destruct (node_state_update _ w1) as [u w2]. cbn beta iota.
  destruct u as [[sd|sd]|e|]; [|by destruct (traces_answer _ w2)|by destruct (traces_answer _ w2)|by destruct (traces_answer _ w2)].
  destruct (traces_answer _ w2) as [traces|e|]; [|done|done].
  destruct (index_block_total (convert_block_header block) (bk_transactions block) traces sd) as (blk & Hb & Hh).
  unfold mbind, prog_bind, lift, await. cbn [fst snd]. rewrite Hb. cbn [fst]. eexists _, _. split; [reflexivity|].
  constructor; [done|done|done|done|..]; intros Hfit;
    destruct (index_block_ok (convert_block_header block) (bk_transactions block) traces sd Hfit) as (parts & Hb' & Hp);
    rewrite Hb in Hb'; injection Hb' as ->.
  - by apply (starknet_block_named _ _ _ Hfit _ _ Hp).
  - by apply starknet_block_readable_ok.
Qed.

(** With traces enabled no pending block is ever ingested.  The traces are
    asked for by the identifier of the pending block, which cannot be converted,
    so that whenever the node has a pending block on top of the parent, the
    ingestion fails, whatever the node answers to the other requests. *)
Theorem pending_with_traces_fails parent generation w block w1 :
  ingest_traces options = true ->
  node_block_with_receipts PreConfirmedTag w = (Ok (ReceiptsPreConfirmed block), w1) ->
  pc_block_number block = add64 (number parent) 1 ->
  (starknet_ingest_pending_block options parent generation w).1 = Err RpcRequest.
Proof.
  intros Ht Hb Hn. unfold starknet_ingest_pending_block, get_block_with_receipts, map_err, try. cbn [rpc_block_id].
  rewrite bind_eq, Hb, Hn, Z.eqb_refl. cbn [negb].
  unfold requests, spawn, get_state_update, get_block_transaction_traces, map_err, mbind, prog_bind, lift. rewrite Ht.
  cbn [rpc_block_id confirmed_block_id]. by destruct (node_state_update _ w1) as [[[sd|sd]|e|] w2].
Qed.
End ingestion.

(** ** Heads of the websocket *)

Lemma shorter_hash h k bytes : to_bytes_be h = replicate (S k) x00 ++ bytes -> bytes <> to_bytes_be h.
Proof.
  intros Hh Heq. apply (f_equal length) in Hh. rewrite <- Heq, length_app, length_replicate in Hh. lia.
Qed.

Lemma shorter_same_value h k bytes : to_bytes_be h = replicate k x00 ++ bytes -> be_value bytes = be_value (to_bytes_be h).
Proof. intros ->. by rewrite be_value_app, be_value_zeros. Qed.

Section heads.
Context {W : Type} `{!WsJson}.

(** A head of the websocket can send the service into a recovery although
    nothing changed.  The node leaves out the leading zeros of a hash, and the
    websocket client does not put them back as the http client does.  A message
    for the very block that is the head of the service, with such a hash, names
    the same block for [is_equivalent], and yet the service takes it for a block
    that replaced its head and goes back to look for the common ancestor. *)
Theorem websocket_head_recovers text n hex bytes h k options state (s : Service W) :
  parse_ws_message text = Some (Some (n, hex)) -> decode_hex_felt hex = Some bytes ->
  to_bytes_be h = replicate (S k) x00 ++ bytes ->
  in_head state = mkCursor n (to_bytes_be h) -> n <= number (in_last_ingested state) ->
  exists head, poll_next (PollReady (Some (Ok (Some text)))) = PollReady (Some (Ok head)) /\
    new_heads_item (Some (Ok head)) = Ok (new_head_cursor head) /\
    is_equivalent (new_head_cursor head) (in_head state) = true /\
    tick_refresh_head options state (new_head_cursor head) s = (Ok (recover_from state), s).
Proof.
  intros Hp Hd Hh Hhead Hn. exists (mkNewHead n bytes). unfold poll_next, try_from_message. rewrite Hp.
  cbn [ok_or mbind outcome_bind]. rewrite Hd. cbn [ok_or mbind outcome_bind]. split; [done|]. split; [done|].
  unfold new_head_cursor. cbn [nh_block_number nh_block_hash]. rewrite Hhead. split.
  - apply is_equivalent_same_block. split; [done|]. right. right. by apply (shorter_same_value h (S k)).
  - pose proof (shorter_hash _ _ _ Hh) as Hne. unfold tick_refresh_head. rewrite Hhead. cbn [number hash].
    rewrite bool_decide_eq_false_2 by congruence. rewrite Z.eqb_refl, bool_decide_eq_false_2 by congruence.
    cbn [negb andb]. rewrite orb_true_r, andb_true_r. by destruct (Z.leb_spec n (number (in_last_ingested state))); [|lia].
Qed.
End heads.

(** ** Witnesses *)

Module StarknetWitness.
Import External.Reference ReferenceArchives.

(** One byte for each row: the examples show which rows are sent. *)
#[local] Instance encoding : StarknetEncoding := {|
  encode_header_message _ := [x00];
  encode_transaction _ := [x01];
  encode_receipt _ := [x02];
  encode_event _ := [x03];
  encode_message _ := [x04];
  encode_trace _ := [x05];
  encode_storage_diff _ := [x06];
  encode_contract_change _ := [x07];
  encode_nonce_update _ := [x08] |}.

(** A transaction with two events, and a change of state. *)
Definition example_events : list Models.Event := [Models.mkEvent 10 [5; 6] [1]; Models.mkEvent 11 [7] []].
Definition example_tx : TransactionWithReceipt :=
  mkTransactionWithReceipt (L1Handler (Models.mkL1Handler 0 10 3 []))
    (Models.L1HandlerReceipt (mkReceiptFields 99 (Models.mkFeePayment 1 Wei) (Models.mkExecutionResources 1 2 3) Succeeded
       example_events [mkMsgToL1 10 20 [4]]) []).
Definition example_diff : StateDiff :=
  mkStateDiff [mkStorageDiffItem 10 [Models.mkStorageEntry 1 2]] [8] [] [] [] [Models.mkNonceUpdate 10 1].
Definition example_node_block : BlockWithReceipts :=
  mkBlockWithReceipts 77 76 5 0 0 0 (Models.mkResourcePrice 1 2) (Models.mkResourcePrice 3 4) (Models.mkResourcePrice 5 6)
    Blob "" [example_tx].
Abbreviation example_header := (convert_block_header example_node_block).

Lemma example_fits : block_fits [example_tx] [] example_diff.
Proof. vm_compute. repeat split; by left. Qed.

(** The events whose first key is 5, with their transaction. *)
Definition example_event_filter : EventFilter :=
  Starknet.mkEventFilter 1 None [mkKey (Some (to_proto (5 : Felt)))] None None (Some true) None None None None.
Definition example_proto_filter : ProtoFilter := mkProtoFilter 0 [] [example_event_filter] [] [] [] [].
Definition example_filters : list BlockFilter :=
  match compile_to_block_filter example_proto_filter with Ok bf => [bf] | _ => [] end.

Lemma example_compiles :
  Forall2 (fun self bf => compile_to_block_filter self = Ok bf) [example_proto_filter] example_filters.
Proof.
  unfold example_filters. destruct (compile_to_block_filter example_proto_filter) as [bf|e|] eqn:Hc.
  - by repeat constructor.
  - exfalso. revert Hc. vm_compute. discriminate.
  - exfalso. revert Hc. vm_compute. discriminate.
Qed.

Lemma starknet_block_stored_witness :
  exists blk, index_block example_header [example_tx] [] example_diff = Ok blk /\ block_ok starknet_names blk.
Proof.
  destruct (starknet_block_stored example_header [example_tx] [] example_diff example_fits) as (blk & Hb & _ & Hok & _).
  exists blk. split; [exact Hb|exact Hok].
Defined.

Lemma starknet_answer_witness :
  exists blk answers, index_block example_header [example_tx] [] example_diff = Ok blk /\
    Forall2 (answers_request [example_tx] [] example_diff false) [example_proto_filter] answers.
Proof.
  destruct (starknet_answer example_header [example_tx] [] example_diff [example_proto_filter] example_filters false
    example_fits example_compiles ltac:(repeat constructor; done)) as (blk & answers & Hb & Ha & _).
  exists blk, answers. split; [exact Hb|exact Ha].
Defined.

Lemma collected_events_typed_witness :
  exists e i j tx ev,
    et_events (bt_events (collect_transactions false [example_tx])) !! 1%nat = Some e /\
    event_typed [example_tx] 1 e i j tx ev.
Proof.
  destruct (et_events (bt_events (collect_transactions false [example_tx])) !! 1%nat) as [e|] eqn:He;
    [|exfalso; revert He; vm_compute; discriminate].
  destruct (collected_events_typed false [example_tx] 1 e (proj1 example_fits)) as (i & j & tx & ev & Ht);
    [split; [by vm_compute|exact He]|].
  exists e, i, j, tx, ev. split; [reflexivity|exact Ht].
Defined.

Lemma field_hex_roundtrip_witness :
  from_hex (to_hex (mkFieldElement 0 0 0 5)) = Ok (mkFieldElement 0 0 0 5).
Proof. apply (field_hex_roundtrip (mkFieldElement 0 0 0 5) []). vm_compute. repeat split; done. Defined.

(** A node with a pending block on top of block 5. *)
Definition example_pending : PreConfirmedBlockWithReceipts :=
  mkPreConfirmedBlock 6 0 0 (Models.mkResourcePrice 1 2) (Models.mkResourcePrice 3 4) (Models.mkResourcePrice 5 6)
    Blob "" [example_tx].

#[local] Instance example_node : NodeClient unit := {|
  node_block_with_tx_hashes _ w := (Ok (HashesBlock (mkBlockWithTxHashes AcceptedOnL1 77 76 5)), w);
  node_block_with_receipts id w :=
    (Ok (match id with PreConfirmedTag => ReceiptsPreConfirmed example_pending | _ => ReceiptsBlock example_node_block end), w);
  node_state_update id w :=
    (Ok (match id with PreConfirmedTag => PreConfirmedUpdate example_diff | _ => Update example_diff end), w);
  node_traces _ w := (Ok [], w) |}.

Lemma pending_with_traces_fails_witness :
  (starknet_ingest_pending_block (mkStarknetOptions true true) (mkCursor 5 (to_bytes_be 77)) 0 tt).1 = Err RpcRequest.
Proof.
  by apply (pending_with_traces_fails (mkStarknetOptions true true) (mkCursor 5 (to_bytes_be 77)) 0 tt example_pending tt).
Defined.

(** The head of the service is block 5 with the hash 0x4d; the message says so. *)
#[local] Instance example_json : WsJson := {| parse_ws_message text := Some (Some (5, text)) |}.

Lemma websocket_head_recovers_witness :
  exists head,
    poll_next (PollReady (Some (Ok (Some (str "0x4d"))))) = PollReady (Some (Ok head)) /\
    let c := mkCursor 5 (to_bytes_be 77) in
    let state := ingest_from c c c in
    (tick_refresh_head (mkIngestionOptions 2 10 1 None) state (new_head_cursor head)
      (service_new tt 0 [])).1 = Ok (recover_from state).
Proof.
  set (c := mkCursor 5 (to_bytes_be 77)).
  destruct (websocket_head_recovers (str "0x4d") 5 (str "0x4d") [byte_of_Z 77] 77 30 (mkIngestionOptions 2 10 1 None)
    (ingest_from c c c) (service_new tt 0 [])) as (head & Hp & _ & _ & Ht);
    [reflexivity|vm_compute; reflexivity|vm_compute; reflexivity|reflexivity|by vm_compute|].
  exists head. split; [exact Hp|]. cbn zeta. by rewrite Ht.
Defined.
End StarknetWitness.
