(* ===== verification/Canon.v ===== *)
(** * The recovery of the chain by hand (starknet/src/cli/canon.rs)

    A reorganisation that is deeper than the recent segment needs an operator:
    [canon recover] reads the last completed segment and the recent one from
    files, restores the builder from the first, grows it with the blocks of the
    second, shrinks it to the new head, and writes the segment that the ingester
    should start from.  The files are those of the object store.  The file system
    is an interface. *)

From S2P Require Import Prelude External Text Core Chain Cloud ObjectStore Starknet.

Inductive StarknetError := StarknetErr.

(** [tokio::fs::read] and [tokio::fs::write]. *)
Class FileSystem (W : Type) := {
  fs_read : RString -> prog W IoError (list byte);
  fs_write : RString -> list byte -> prog W IoError unit }.

(** [str::split] at a character. *)
Fixpoint split_at (sep : byte) (s : RString) : list RString :=
  match s with
  | [] => [[]]
  | b :: s =>
      if bool_decide (b = sep) then [] :: split_at sep s
      else match split_at sep s with part :: parts => (b :: part) :: parts | [] => [[b]] end
  end.

(** [str::strip_prefix]. *)
Definition strip_prefix (prefix s : RString) : option RString :=
  if bool_decide (prefix `prefix_of` s) then Some (drop (length prefix) s) else None.

(** A cursor from a string "block_number:block_hash". *)
Definition parse_cursor (s : RString) : outcome StarknetError Cursor :=
  match split_at x3a s with
  | [number_part; hash_hex] =>
      number ← ok_or StarknetErr (parse_u64 number_part);
      hash_bytes ← ok_or StarknetErr
        (match strip_prefix (str "0x") hash_hex with
         | Some stripped => hex_decode stripped
         | None => hex_decode hash_hex
         end);
      Ok (mkCursor number hash_bytes)
  | _ => Err StarknetErr
  end.

(** The block of the recent segment at an index, as a block of the chain: its
    parent is the block before it, the last completed block for the first. *)
Definition recent_block (completed_last_hash : Hash) (recent_segment : CanonicalChainSegment) (i : Z) (block : CanonicalBlock) :
    outcome StarknetError BlockInfo :=
  let block_number := add64 (number (first_block (seg_info recent_segment))) i in
  parent ← (if i =? 0 then Ok completed_last_hash
            else previous ← index_vec (seg_canonical recent_segment) (i - 1); Ok (cb_hash previous));
  Ok (mkBlockInfo block_number (cb_hash block) parent).

(** The loop that grows the chain. *)
Fixpoint grow_recent (completed_last_hash : Hash) (recent_segment : CanonicalChainSegment)
    (entries : list (Z * CanonicalBlock)) (builder : CanonicalChainBuilder) : outcome StarknetError CanonicalChainBuilder :=
  match entries with
  | [] => Ok builder
  | (i, block) :: entries =>
      block_info ← recent_block completed_last_hash recent_segment i block;
      builder ← change_context StarknetErr (grow builder block_info);
      grow_recent completed_last_hash recent_segment entries builder
  end.

(** The recovered segment, once the files were read. *)
Definition recovered_segment (completed_segment recent_segment : CanonicalChainSegment) (new_head : Cursor) :
    outcome StarknetError CanonicalChainSegment :=
  let completed_first := number (first_block (seg_info completed_segment)) in
  let completed_last := number (last_block (seg_info completed_segment)) in
  let completed_last_hash := hash (last_block (seg_info completed_segment)) in
  if (number new_head <? completed_first) || (completed_last <? number new_head) then Err StarknetErr
  else
    builder ← change_context StarknetErr (restore_from_segment completed_segment);
    builder ← grow_recent completed_last_hash recent_segment (enumerate (seg_canonical recent_segment)) builder;
    shrunk ← change_context StarknetErr (shrink builder new_head);
    change_context StarknetErr (current_segment shrunk.2).

Section canon.
Context `{!Codec, !Archive CanonicalChainSegment} {W : Type} `{!FileSystem W}.

(** The file is opened as the object store does, with the same checks. *)
Definition read_segment_from_path (path : RString) : prog W StarknetError CanonicalChainSegment :=
  compressed ← pcontext StarknetErr (fs_read path);
  data ← lift (change_context StarknetErr (open_body compressed));
  lift (ok_or StarknetErr (from_bytes data)).

Definition write_segment_to_path (path : RString) (segment : CanonicalChainSegment) : prog W StarknetError unit :=
  compressed ← lift (change_context StarknetErr (seal_body (to_bytes segment)));
  pcontext StarknetErr (fs_write path compressed).

(** [CanonCommand::Recover]: the segment that was written. *)
Definition canon_recover (completed recent head out : RString) : prog W StarknetError CanonicalChainSegment :=
  new_head ← lift (parse_cursor head);
  completed_segment ← read_segment_from_path completed;
  recent_segment ← read_segment_from_path recent;
  final_segment ← lift (recovered_segment completed_segment recent_segment new_head);
  _ ← write_segment_to_path out final_segment;
  mret final_segment.
End canon.
