(* ===== verification/CanonSpec.v ===== *)
(** * Correctness of the recovery of the chain

    What [canon recover] writes, for a completed and a recent segment that
    follow each other: the chain up to the new head, with a way back for every
    client on a removed block. *)

From S2P Require Import Prelude External Text Core Chain ChainFacts ChainSpec Cloud ObjectStore StoreFacts StoreSpec Starknet StarknetFacts Canon.

(** ** Parsing a cursor *)

Lemma split_at_none sep s : sep ∉ s -> split_at sep s = [s].
Proof.
  induction s as [|b s IH]; [done|]. intros [Hne Hs]%not_elem_of_cons. cbn [split_at].
  rewrite bool_decide_eq_false_2 by congruence. by rewrite IH.
Qed.

Lemma split_at_cons sep a s : sep ∉ a -> split_at sep (a ++ sep :: s) = a :: split_at sep s.
Proof.
  induction a as [|b a IH]; cbn [app split_at].
  - intros _. by rewrite bool_decide_eq_true_2.
  - intros [Hne Hs]%not_elem_of_cons. rewrite bool_decide_eq_false_2 by congruence. by rewrite IH.
Qed.

Lemma digits_no_colon s : forallb is_digit s = true -> x3a ∉ s.
Proof.
  intros Hs Hin. rewrite forallb_forall in Hs. specialize (Hs x3a).
  rewrite <- list_elem_of_In in Hs. apply Hs in Hin. by vm_compute in Hin.
Qed.

Lemma hex_digit_no_colon d : 0 <= d < 16 -> hex_digit d <> x3a.
Proof.
  intros Hd Heq. apply (f_equal byte_val) in Heq. unfold hex_digit in Heq. change (byte_val x3a) with 58 in Heq.
  destruct (Z.ltb_spec d 10); rewrite Reference.byte_val_of_Z in Heq by lia; lia.
Qed.

Lemma hex_encode_no_colon bs : x3a ∉ hex_encode bs.
Proof.
  unfold hex_encode. intros (b & Hin & _)%list_elem_of_bind. revert Hin. pose proof (byte_val_range b) as Hb.
  intros [Heq|[Heq|[]%elem_of_nil]%elem_of_cons]%elem_of_cons; symmetry in Heq; apply hex_digit_no_colon in Heq; try done;
    [split; [apply Z.div_pos; lia|apply Z.div_lt_upper_bound; lia]|apply Z.mod_pos_bound; lia].
Qed.

Lemma strip_prefix_app prefix s : strip_prefix prefix (prefix ++ s) = Some s.
Proof. unfold strip_prefix. rewrite bool_decide_eq_true_2 by (by eexists). by rewrite drop_app_length. Qed.

(** The text of a cursor on the command line. *)
Definition cursor_text (c : Cursor) : RString := dec (number c) ++ x3a :: str "0x" ++ hex_encode (hash c).

Lemma parse_cursor_text c : is_u64 (number c) -> parse_cursor (cursor_text c) = Ok c.
Proof.
  intros Hn. unfold parse_cursor, cursor_text. rewrite split_at_cons by (apply digits_no_colon, dec_is_digits, Hn).
  rewrite split_at_none.
  2: { intros [Hin|Hin]%elem_of_app; [|by apply hex_encode_no_colon in Hin].
       by repeat (apply elem_of_cons in Hin as [Hin|Hin]; [discriminate Hin|]); apply elem_of_nil in Hin. }
  rewrite parse_dec by done. cbn [ok_or]. rewrite bind_Ok_l, strip_prefix_app, hex_decode_encode. by destruct c.
Qed.

(** ** Growing a chain by the blocks of a segment *)

(** The chain [b] with the blocks [hs] on top. *)
Definition extended (b : building) (hs : list Hash) : building :=
  match last hs with
  | None => b
  | Some h => mkBuilding (previous_segment b)
      (mkSegmentInfo (first_block (info b)) (mkCursor (last_number b + Z.of_nat (length hs)) h)) (blocks b ++ hs) (reorgs b)
  end.

Lemma extended_cons b h hs :
  extended b (h :: hs) = extended (grown b (mkBlockInfo (last_number b + 1) h (hash (last_block (info b))))) hs.
Proof.
  unfold extended. rewrite last_cons. destruct (last hs) as [h'|] eqn:Hl.
  - cbn [grown previous_segment info first_block blocks reorgs bi_hash length]. unfold last_number at 2.
    cbn [grown info last_block block_cursor bi_number number]. f_equal; [do 2 f_equal; lia|by rewrite <- app_assoc].
  - apply last_None in Hl as ->. done.
Qed.

Lemma grow_recent_extends completed_last recent pre hs b :
  wf_building b -> cb_hash <$> seg_canonical recent = pre ++ hs ->
  Forall (fun h => hash_is_zero h = false) hs -> last_number b + Z.of_nat (length hs) + 1 < U64 ->
  number (first_block (seg_info recent)) + Z.of_nat (length pre) = last_number b + 1 ->
  hash (last_block (info b)) = default completed_last (last pre) ->
  grow_recent completed_last recent (enumerate_from (Z.of_nat (length pre)) (drop (length pre) (seg_canonical recent))) (Building b) =
    Ok (Building (extended b hs)) /\ wf_building (extended b hs).
Proof.
  revert pre b. induction hs as [|h hs IH]; intros pre b Hwf Hpre Hz Hlast Hfirst Hparent.
  { rewrite app_nil_r in Hpre. rewrite drop_ge; [done|]. by rewrite <- Hpre, length_fmap. }
  apply Forall_cons in Hz as [Hh Hz]. cbn [length] in Hlast. pose proof (wf_range _ Hwf).
  assert (Hl : (cb_hash <$> seg_canonical recent) !! length pre = Some h) by (rewrite Hpre; apply list_lookup_middle; done).
  rewrite list_lookup_fmap in Hl. destruct (seg_canonical recent !! length pre) as [cb|] eqn:Hcb; [|done].
  injection Hl as Hl. rewrite (drop_S _ cb) by done. cbn [enumerate_from grow_recent].
  assert (recent_block completed_last recent (Z.of_nat (length pre)) cb =
    Ok (mkBlockInfo (last_number b + 1) h (hash (last_block (info b))))) as ->.
  { unfold recent_block. rewrite add64_id by lia. rewrite Hfirst, Hl, Hparent.
    destruct pre as [|p0 pre'] using rev_ind; [done|]. rewrite last_snoc, length_app. cbn [length].
    destruct (Z.eqb_spec (Z.of_nat (length pre' + 1)) 0); [lia|].
    assert (Hp : (cb_hash <$> seg_canonical recent) !! length pre' = Some p0).
    { rewrite Hpre, <- app_assoc. by apply list_lookup_middle. }
    rewrite list_lookup_fmap in Hp. destruct (seg_canonical recent !! length pre') as [cb'|] eqn:Hcb'; [|done].
    injection Hp as Hp. unfold index_vec. destruct (Z.ltb_spec (Z.of_nat (length pre' + 1) - 1) 0); [lia|].
    replace (Z.to_nat (Z.of_nat (length pre' + 1) - 1)) with (length pre') by lia. rewrite Hcb'. simpl. by rewrite Hp. }
  rewrite bind_Ok_l. set (blk := mkBlockInfo _ _ _).
  assert (Hg : grow (Building b) blk = Ok (Building (grown b blk))).
  { apply grow_building. split; [|done]. by apply can_grow_building. }
  assert (Hwf' : wf_building (grown b blk)).
  { apply (grow_wf (Building b) blk (Building (grown b blk))); [done| |done]. unfold valid_block. cbn [blk bi_number bi_hash]. split_and!; [lia|lia|done]. }
  rewrite Hg. cbn [change_context]. rewrite bind_Ok_l, extended_cons.
  destruct (IH (pre ++ [h]) (grown b blk)) as [IH1 IH2]; [done|by rewrite <- app_assoc|done| | | |].
  - change (last_number (grown b blk)) with (last_number b + 1). lia.
  - change (last_number (grown b blk)) with (last_number b + 1). rewrite length_app. cbn [length]. lia.
  - by rewrite last_snoc.
  - rewrite length_app in IH1. cbn [length] in IH1. replace (Z.of_nat (length pre + 1)) with (Z.of_nat (length pre) + 1) in IH1 by lia.
    rewrite Nat.add_1_r in IH1. by split.
Qed.

Lemma segment_hashes b : cb_hash <$> seg_canonical (segment_of b) = blocks b.
Proof.
  cbn [segment_of seg_canonical]. rewrite <- list_fmap_compose. apply list_eq. intros i. rewrite list_lookup_fmap.
  unfold enumerate. rewrite lookup_enumerate_from. by destruct (blocks b !! i).
Qed.

(** Two segments of which the second follows the first. *)
Section follows.
Variables b1 b2 : building.
Hypotheses (wf1 : wf_building b1) (wf2 : wf_building b2) (Hnext : first_number b2 = last_number b1 + 1).

Lemma extended_last r : last_number (extended (restored b1 r) (blocks b2)) = last_number b2.
Proof.
  unfold extended. rewrite (wf_tail _ wf2). unfold last_number at 1. cbn [info last_block number].
  rewrite (wf_len _ wf2). change (last_number (restored b1 r)) with (last_number b1). lia.
Qed.

Lemma block_at_extended r n :
  block_at (extended (restored b1 r) (blocks b2)) n = if decide (n <= last_number b1) then block_at b1 n else block_at b2 n.
Proof.
  pose proof (wf_range _ wf1). pose proof (wf_len _ wf1). unfold extended. rewrite (wf_tail _ wf2). unfold block_at.
  change (first_number (mkBuilding _ _ _ _)) with (first_number b1). cbn [blocks restored].
  destruct (Z.ltb_spec n (first_number b1)) as [Hlt|Hge]; [rewrite decide_True by lia; done|]. case_decide as Hle.
  - rewrite lookup_app_l by lia. done.
  - destruct (Z.ltb_spec n (first_number b2)); [lia|]. rewrite lookup_app_r by lia. f_equal. lia.
Qed.

(** The chain that the recovery grows. *)
Lemma recovered_grows : exists r, restored_reorgs b1 r /\ wf_building (extended (restored b1 r) (blocks b2)) /\
  restore_from_segment (segment_of b1) = Ok (Building (restored b1 r)) /\
  grow_recent (hash (last_block (info b1))) (segment_of b2) (enumerate (seg_canonical (segment_of b2))) (Building (restored b1 r)) =
    Ok (Building (extended (restored b1 r) (blocks b2))).
Proof.
  destruct (restore_ok b1 wf1) as (r & Hr & Hrr). exists r. split; [done|].
  destruct (grow_recent_extends (hash (last_block (info b1))) (segment_of b2) [] (blocks b2) (restored b1 r)) as [Hg Hw].
  - by apply restored_wf.
  - apply segment_hashes.
  - apply (wf_hashes _ wf2).
  - change (last_number (restored b1 r)) with (last_number b1). pose proof (wf_len _ wf2). pose proof (wf_last _ wf2). lia.
  - change (last_number (restored b1 r)) with (last_number b1). cbn [length]. change (number (first_block (seg_info (segment_of b2)))) with (first_number b2). lia.
  - done.
  - by split_and!.
Qed.

Lemma recovered_segment_ok c : block_at b1 (number c) = Some (hash c) -> exists r r',
  restored_reorgs b1 r /\ wf_building (extended (restored b1 r) (blocks b2)) /\
  shrunk_reorgs (extended (restored b1 r) (blocks b2)) c r' /\
  recovered_segment (segment_of b1) (segment_of b2) c = Ok (segment_of (shrunk (extended (restored b1 r) (blocks b2)) c r')).
Proof.
  intros Hc. pose proof (block_at_range _ _ _ wf1 Hc). destruct recovered_grows as (r & Hr & Hw & Hrest & Hgrow).
  destruct (shrink_ok (extended (restored b1 r) (blocks b2)) c Hw) as (r' & Hs & Hr'); [by rewrite block_at_extended, decide_True by lia|].
  exists r, r'. split_and!; [done..|]. unfold recovered_segment. cbn [seg_info segment_of].
  fold (first_number b1) (last_number b1). rewrite !(proj2 (Z.ltb_ge _ _)) by lia. cbn [orb].
  rewrite Hrest. cbn [change_context]. rewrite bind_Ok_l, Hgrow, bind_Ok_l, Hs. cbn [change_context]. rewrite bind_Ok_l. cbn [snd].
  by rewrite current_segment_building.
Qed.

Lemma recovered_segment_err c : block_at b1 (number c) <> Some (hash c) ->
  recovered_segment (segment_of b1) (segment_of b2) c = Err StarknetErr.
Proof.
  intros Hc. destruct recovered_grows as (r & Hr & Hw & Hrest & Hgrow). unfold recovered_segment. cbn [seg_info segment_of].
  fold (first_number b1) (last_number b1). destruct (Z.ltb_spec (number c) (first_number b1)); [done|].
  destruct (Z.ltb_spec (last_number b1) (number c)); [done|]. cbn [orb].
  rewrite Hrest. cbn [change_context]. rewrite bind_Ok_l, Hgrow, bind_Ok_l. rewrite shrink_err; [done|done|].
  intros ? [= <-]. by rewrite block_at_extended, decide_True by lia.
Qed.

(** What a recovered segment tells: the chain up to the new head; what the
    completed segment told about the blocks up to there; the way to the new head
    for the blocks that were removed; and what the completed segment told about
    its reorganised blocks, but nothing about those of the recent segment. *)
Record recovered (c : Cursor) (seg : CanonicalChainSegment) : Prop := {
  rec_previous : seg_previous_segment seg = previous_segment b1;
  rec_info : seg_info seg = mkSegmentInfo (first_block (info b1)) c;
  rec_canonical : forall n, canonical seg n = if n <=? number c then canonical (segment_of b1) n else Err View;
  rec_kept : forall x, number x <= number c -> reconnect seg x = reconnect (segment_of b1) x;
  rec_removed : forall x, number c < number x <= last_number b2 ->
    reconnect seg x = Ok (
      if decide (block_at b1 (number x) = Some (hash x) \/ block_at b2 (number x) = Some (hash x)) then OfflineReorg c
      else match reorg_at (reorgs b1) (number x) (hash x) with
           | Some t => if number x <=? last_number b1 then OfflineReorg t else Unknown
           | None => Unknown
           end);
  rec_above : forall x, last_number b2 < number x -> reconnect seg x = Err View }.

Lemma extended_reorgs r : reorgs (extended (restored b1 r) (blocks b2)) = r.
Proof. unfold extended. by destruct (last (blocks b2)). Qed.

Lemma extended_first r : first_number (extended (restored b1 r) (blocks b2)) = first_number b1.
Proof. unfold extended. by destruct (last (blocks b2)). Qed.

Lemma extended_info r : first_block (info (extended (restored b1 r) (blocks b2))) = first_block (info b1) /\
  previous_segment (extended (restored b1 r) (blocks b2)) = previous_segment b1.
Proof. unfold extended. by destruct (last (blocks b2)). Qed.

(** A block of the grown chain is one of either segment. *)
Lemma block_at_either r x : block_at (extended (restored b1 r) (blocks b2)) (number x) = Some (hash x) <->
  block_at b1 (number x) = Some (hash x) \/ block_at b2 (number x) = Some (hash x).
Proof.
  rewrite block_at_extended. pose proof (block_at_range b1 (number x) (hash x) wf1). pose proof (block_at_range b2 (number x) (hash x) wf2).
  case_decide; split; [by left|intros [?|?]; [done|exfalso; naive_solver lia]|by right|intros [?|?]; [exfalso; naive_solver lia|done]].
Qed.

Lemma recovered_holds c r r' : block_at b1 (number c) = Some (hash c) ->
  restored_reorgs b1 r -> wf_building (extended (restored b1 r) (blocks b2)) ->
  shrunk_reorgs (extended (restored b1 r) (blocks b2)) c r' ->
  recovered c (segment_of (shrunk (extended (restored b1 r) (blocks b2)) c r')).
Proof.
  intros Hc Hr Hw Hr'. pose proof (block_at_range _ _ _ wf1 Hc) as Hcr. pose proof (extended_last r) as Hlast.
  set (B := extended (restored b1 r) (blocks b2)) in *.
  assert (HcB : block_at B (number c) = Some (hash c)) by (unfold B; by rewrite block_at_extended, decide_True by lia).
  pose proof (shrunk_wf B c r' Hw HcB Hr') as Hws. destruct Hr' as (Hat & Hdom & Hout).
  assert (HfS : first_number (shrunk B c r') = first_number b1) by apply extended_first.
  assert (HS : forall n, n <= number c -> block_at (shrunk B c r') n = block_at b1 n).
  { intros n Hn. rewrite block_at_shrunk, decide_True by done. unfold B. by rewrite block_at_extended, decide_True by lia. }
  assert (HrB : forall n h, reorg_at (reorgs B) n h = if decide (first_number b1 <= n <= last_number b1) then reorg_at (reorgs b1) n h else None).
  { intros n h. unfold B. rewrite extended_reorgs. by apply restored_reorg_at. }
  constructor.
  - apply extended_info.
  - cbn [segment_of seg_info shrunk info]. unfold B. by destruct (extended_info r) as [-> _].
  - intros n. rewrite canonical_in by done. destruct (Z.leb_spec n (number c)).
    + by rewrite canonical_in, HS by done.
    + by rewrite block_at_shrunk, decide_False by (done || lia).
  - intros x Hx. destruct (Z.lt_ge_cases (number x) (first_number b1)); [by rewrite !reconnect_below by lia|].
    destruct (proj2 (block_at_is_Some b1 (number x) wf1)) as [h Hh]; [lia|].
    rewrite (reconnect_in b1 x h), (reconnect_in (shrunk B c r') x h) by (done || by rewrite HS).
    cbn [shrunk reorgs]. rewrite Hat, decide_False by lia. by rewrite HrB, decide_True by lia.
  - intros x Hx. rewrite reconnect_above by (done || (change (last_number (shrunk B c r')) with (number c); lia)). cbn [shrunk reorgs].
    destruct (proj2 (Hdom (number x))) as [m Hm]; [right; lia|]. rewrite Hm. f_equal.
    specialize (Hat (number x) (hash x)). unfold reorg_at at 1 in Hat. rewrite Hm in Hat. simpl in Hat. unfold reorg_action. rewrite Hat, HrB.
    pose proof (block_at_either r x) as He. fold B in He.
    destruct (decide (_ \/ _)) as [Hd|Hd].
    + by rewrite decide_True by (split; [lia|by apply He]).
    + rewrite decide_False by (intros [_ ?%He]; done). destruct (Z.leb_spec (number x) (last_number b1)).
      * by rewrite decide_True by lia.
      * rewrite decide_False by lia. by destruct (reorg_at (reorgs b1) (number x) (hash x)).
  - intros x Hx. pose proof (wf_range _ wf2). rewrite reconnect_above by (done || (change (last_number (shrunk B c r')) with (number c); lia)). cbn [shrunk reorgs].
    destruct (r' !! number x) as [m|] eqn:Hm; [|done].
    destruct (proj1 (Hdom (number x))) as [[m' Hm']|?]; [by eexists| |lia].
    unfold B in Hm'. rewrite extended_reorgs, Hr in Hm'. case_decide; [lia|done].
Qed.
End follows.

(** ** The command *)

Section canon.
Context `{!Codec, !Archive CanonicalChainSegment} {W : Type} `{!FileSystem W}.

Lemma read_segment_ok path segment raw w w' :
  seal_body (to_bytes segment) = Ok raw -> fs_read path w = (Ok raw, w') -> read_segment_from_path path w = (Ok segment, w').
Proof.
  intros Hs Hr. unfold read_segment_from_path. rewrite bind_eq. unfold pcontext. rewrite Hr. cbn [change_context].
  rewrite bind_eq. unfold lift. rewrite (open_seal _ _ Hs). cbn [change_context]. by rewrite from_to_bytes.
Qed.

(** (C27) [canon recover] undoes a deep reorganisation.  For a completed segment
    and a recent segment that follow each other, with any history of
    reorganisations, and a new head: if the head is a canonical block of the
    completed segment, the command writes, with a checksum and compressed as the
    object store does, a segment whose chain is that of the completed segment up
    to the head.  It answers for the blocks up to the head as the completed
    segment does; every client on a canonical block above it, of either segment,
    is sent to the head; a client on a block of the completed segment that was
    reorganised before is sent where it was sent before; but the reorganised
    blocks of the recent segment are forgotten.  Any other head is refused, and
    nothing is written. *)
Theorem canon_recover_restores b1 b2 c completed recent out raw1 raw2 (w w1 w2 : W) :
  wf_building b1 -> wf_building b2 -> first_number b2 = last_number b1 + 1 -> is_u64 (number c) ->
  seal_body (to_bytes (segment_of b1)) = Ok raw1 -> seal_body (to_bytes (segment_of b2)) = Ok raw2 ->
  fs_read completed w = (Ok raw1, w1) -> fs_read recent w1 = (Ok raw2, w2) ->
  if decide (block_at b1 (number c) = Some (hash c)) then
    exists seg, recovered b1 b2 c seg /\
      forall raw, seal_body (to_bytes seg) = Ok raw ->
        open_body raw = Ok (to_bytes seg) /\
        canon_recover completed recent (cursor_text c) out w =
          (let '(r, w3) := fs_write out raw w2 in (_ ← change_context StarknetErr r; Ok seg, w3))
  else canon_recover completed recent (cursor_text c) out w = (Err StarknetErr, w2).
Proof.
  intros Hw1 Hw2 Hnext Hn Hs1 Hs2 Hr1 Hr2.
  assert (Hrun : canon_recover completed recent (cursor_text c) out w =
    (final ← lift (recovered_segment (segment_of b1) (segment_of b2) c); _ ← write_segment_to_path out final; mret final) w2).
  { unfold canon_recover. rewrite bind_eq. unfold lift at 1. rewrite parse_cursor_text by done.
    rewrite bind_eq, (read_segment_ok _ _ _ _ _ Hs1 Hr1). by rewrite bind_eq, (read_segment_ok _ _ _ _ _ Hs2 Hr2). }
  rewrite Hrun. case_decide as Hc.
  - destruct (recovered_segment_ok b1 b2 Hw1 Hw2 Hnext c Hc) as (r & r' & Hr & Hw & Hr' & Heq).
    eexists. split; [by apply recovered_holds|]. intros raw Hraw. split; [by apply open_seal|].
    rewrite bind_eq. unfold lift at 1. rewrite Heq. rewrite bind_eq. unfold write_segment_to_path. rewrite bind_eq. unfold lift.
    rewrite Hraw. cbn [change_context]. unfold pcontext. destruct (fs_write out raw w2) as [[[]|e|] w3]; done.
  - rewrite bind_eq. unfold lift. by rewrite recovered_segment_err.
Qed.
End canon.

(** ** A witness *)

Module CanonWitness.
Import ReferenceCodec StoreSpec.StoreWitness.

Abbreviation Files := (gmap RString (list byte)).

#[export] Instance files : FileSystem Files := {|
  fs_read path w := (ok_or IoErr (w !! path), w);
  fs_write path body w := (Ok tt, <[path := body]> w) |}.

(** A chain of one-byte hashes. *)
Definition chain (previous : option CanonicalChainSegmentInfo) (first : Z) (h : byte) (hs : list byte) : building :=
  mkBuilding previous
    (mkSegmentInfo (mkCursor first [h]) (mkCursor (first + Z.of_nat (length hs)) [default h (last hs)]))
    ((fun h => [h]) <$> h :: hs) ∅.

Definition completed_chain : building := chain None 10 x0a [x0b; x0c].
Definition recent_chain : building := chain (Some (info completed_chain)) 13 x0d [x0e].

Lemma completed_wf : wf_building completed_chain.
Proof. split; try done; try (vm_compute; (congruence || done)); repeat constructor. Qed.

Lemma recent_wf : wf_building recent_chain.
Proof.
  split; try done; try (vm_compute; (congruence || done)); [repeat constructor|]. intros i [= <-]. reflexivity.
Qed.

(** The file of a segment. *)
Definition file_of (data : list byte) : list byte := data ++ put_u32 (crc32 data).

Lemma seal_file data : seal_body data = Ok (file_of data).
Proof. reflexivity. Qed.

Definition sealed (b : building) : list byte := file_of (to_bytes (segment_of b)).
Definition world : Files := <[str "completed" := sealed completed_chain]> (<[str "recent" := sealed recent_chain]> ∅).
Definition new_head : Cursor := mkCursor 11 [x0b].
Definition recovery := canon_recover (str "completed") (str "recent") (str "11:0x0b") (str "out") world.

Lemma read_completed : fs_read (str "completed") world = (Ok (sealed completed_chain), world).
Proof. cbn [fs_read files]. unfold world. by rewrite lookup_insert_eq. Qed.

Lemma read_recent : fs_read (str "recent") world = (Ok (sealed recent_chain), world).
Proof. cbn [fs_read files]. unfold world. rewrite lookup_insert_ne by (vm_compute; discriminate). by rewrite lookup_insert_eq. Qed.

Lemma head_text : str "11:0x0b" = cursor_text new_head.
Proof. vm_compute. reflexivity. Qed.

Lemma canon_recover_restores_witness : exists seg,
  recovered completed_chain recent_chain new_head seg /\ recovery.1 = Ok seg /\
  reconnect seg (mkCursor 14 [x0e]) = Ok (OfflineReorg new_head).
Proof.
  pose proof (canon_recover_restores completed_chain recent_chain new_head (str "completed") (str "recent") (str "out")
    (sealed completed_chain) (sealed recent_chain) world world world completed_wf recent_wf eq_refl
    ltac:(vm_compute; split; [discriminate|reflexivity]) (seal_file _) (seal_file _) read_completed read_recent) as H.
  rewrite decide_True in H by reflexivity. destruct H as (seg & Hseg & Hrun). exists seg. split; [exact Hseg|]. split.
  - destruct (Hrun _ (seal_file (to_bytes seg))) as [_ Hrec]. unfold recovery. rewrite head_text, Hrec. reflexivity.
  - rewrite (rec_removed _ _ _ _ Hseg); [|vm_compute; split; [reflexivity|discriminate]].
    rewrite decide_True; [reflexivity|]. right. reflexivity.
Defined.
End CanonWitness.
