(* ===== verification/Wire.v ===== *)
(** * The JSON form of the stream messages (protocol/src/dna.rs)

    [Cursor] and [DataFinality] of the stream protocol are written and read by
    hand.  The JSON library is outside: an object is the list of its fields in
    the order of the text; [JsonTagged] is an object of one field, whose value may
    be null.  A reader is given the fields by a deserializer, which lends it a
    string of the text or, when the text has escapes or is not in memory, gives it
    a copy. *)

From S2P Require Import Prelude External Text Core Cloud StateClient ObjectStore Chain ChainView Index Query.
From S2P Require Import Encoding FragmentAccess FilterBlock BlockStore Compaction CompactionService DataStream Server Starknet Canon.

Inductive JsonError := JsonErr.

Inductive JsonValue :=
| JsonNumber (n : Z)
| JsonString (s : RString)
| JsonTagged (tag : RString) (null : bool)
| JsonOther.

Abbreviation JsonObject := (list (RString * JsonValue)).

(** A field as a deserializer gives it: its name and its value, each with whether
    it is lent. *)
Record FieldAccess := mkFieldAccess {
  name_lent : bool; field_name : RString; value_lent : bool; field_value : JsonValue }.

(** ** DataFinality *)

Definition finality_is_pending (self : DataFinality) : bool := bool_decide (self = FinalityPending).
Definition finality_is_accepted (self : DataFinality) : bool := bool_decide (self = FinalityAccepted).
Definition finality_is_finalized (self : DataFinality) : bool := bool_decide (self = FinalityFinalized).

(** [Display], and the string that is serialized. *)
Definition finality_text (self : DataFinality) : RString :=
  match self with
  | FinalityUnknown => str "unknown"
  | FinalityPending => str "pending"
  | FinalityAccepted => str "accepted"
  | FinalityFinalized => str "finalized"
  end.

Definition finality_serialize (self : DataFinality) : JsonValue := JsonString (finality_text self).

(** The names of the variants of the inner enumeration. *)
Definition finality_variant (s : RString) : option DataFinality :=
  if bool_decide (s ∈ [str "Unknown"; str "unknown"; str "UNKNOWN"]) then Some FinalityUnknown
  else if bool_decide (s ∈ [str "Pending"; str "pending"; str "PENDING"]) then Some FinalityPending
  else if bool_decide (s ∈ [str "Accepted"; str "accepted"; str "ACCEPTED"]) then Some FinalityAccepted
  else if bool_decide (s ∈ [str "Finalized"; str "finalized"; str "FINALIZED"]) then Some FinalityFinalized
  else None.

Definition finality_deserialize (v : JsonValue) : outcome JsonError DataFinality :=
  match v with
  | JsonString s => ok_or JsonErr (finality_variant s)
  | JsonTagged s true => ok_or JsonErr (finality_variant s)
  | _ => Err JsonErr
  end.

(** ** Cursor *)

(** A cursor from which the stream starts at a block. *)
Definition new_with_block_number (block_number : Z) : option ProtoCursor :=
  if block_number =? 0 then None else Some (mkProtoCursor (Z.max 0 (block_number - 1)) []).

Definition proto_new_finalized (order_key : Z) : ProtoCursor := mkProtoCursor order_key [].

Definition hex_key (key : list byte) : RString := str "0x" ++ hex_encode key.

Definition cursor_serialize (self : ProtoCursor) : JsonObject :=
  [(str "orderKey", JsonNumber (order_key self));
   (str "uniqueKey", JsonString (hex_key (unique_key self)))].

(** [Display]. *)
Definition cursor_display (self : ProtoCursor) : RString :=
  str "Cursor(" ++ dec (order_key self) ++ str ", 0x" ++ hex_encode (unique_key self) ++ str ")".

(** [map.next_value::<u64>()]. *)
Definition json_u64 (v : JsonValue) : outcome JsonError Z :=
  match v with
  | JsonNumber n => if (0 <=? n) && (n <? U64) then Ok n else Err JsonErr
  | _ => Err JsonErr
  end.

(** [map.next_value::<&str>()]: a copy cannot be borrowed. *)
Definition json_str (lent : bool) (v : JsonValue) : outcome JsonError RString :=
  match v with
  | JsonString s => if lent then Ok s else Err JsonErr
  | _ => Err JsonErr
  end.

(** One iteration of the loop of [visit_map].  The names of the fields are
    borrowed too. *)
Definition visit_field (acc : option Z * option (list byte)) (field : FieldAccess) :
    outcome JsonError (option Z * option (list byte)) :=
  if negb (name_lent field) then Err JsonErr
  else if bool_decide (field_name field = str "orderKey") then
    order_key ← json_u64 (field_value field); Ok (Some order_key, acc.2)
  else if bool_decide (field_name field = str "uniqueKey") then
    hex_value ← json_str (value_lent field) (field_value field);
    stripped ← ok_or JsonErr (strip_prefix (str "0x") hex_value);
    decoded ← ok_or JsonErr (hex_decode stripped);
    Ok (acc.1, Some decoded)
  else Err JsonErr.

Definition visit_map (fields : list FieldAccess) : outcome JsonError ProtoCursor :=
  acc ← ofold visit_field (None, None) fields;
  order_key ← ok_or JsonErr acc.1;
  unique_key ← ok_or JsonErr acc.2;
  Ok (mkProtoCursor order_key unique_key).

(** ** What the logs print of a request *)

(** [PrettyCursor] and [PrettyFilter]. *)
Definition pretty_cursor (cursor : option ProtoCursor) : RString :=
  match cursor with
  | Some cursor => cursor_display cursor
  | None => str "None"
  end.

Definition pretty_filter (filter : list byte) : RString := str "<" ++ dec (Z.of_nat (length filter)) ++ str " bytes>".

(** The fields of [Debug for StreamDataRequest]: the filters are not printed, only
    their sizes. *)
Definition request_debug (self : StreamDataRequest) : RString * option Z * list RString * option ProtoDuration :=
  (pretty_cursor (rq_starting_cursor self), rq_finality self, pretty_filter <$> rq_filter self, rq_heartbeat_interval self).
