(* ===== verification/WireSpec.v ===== *)
(** * The JSON form of the stream messages: properties *)

From S2P Require Import Prelude External Text Core Chain ChainView CompactionServiceFacts DataStream Starknet StarknetFacts Canon CanonSpec Wire.

(** What a field says of the order key, and of the unique key. *)
Definition field_order (field : FieldAccess) : option Z :=
  if name_lent field && bool_decide (field_name field = str "orderKey") then
    match field_value field with JsonNumber n => if (0 <=? n) && (n <? U64) then Some n else None | _ => None end
  else None.

Definition field_key (field : FieldAccess) : option (list byte) :=
  if name_lent field && bool_decide (field_name field = str "uniqueKey") then
    match field_value field with
    | JsonString s => if value_lent field then stripped ← strip_prefix (str "0x") s; hex_decode stripped else None
    | _ => None
    end
  else None.

(** A field that is understood. *)
Definition field_known (field : FieldAccess) : Prop := is_Some (field_order field) \/ is_Some (field_key field).

Lemma visit_field_spec acc field acc' :
  visit_field acc field = Ok acc' <->
  field_known field /\ acc' = (field_order field ∪ acc.1, field_key field ∪ acc.2).
Proof.
  destruct acc as [o k], field as [b name lent v]. unfold visit_field, field_known, field_order, field_key.
  cbn [fst snd name_lent field_name value_lent field_value].
  destruct b; cbn [negb andb]; [|split; [done|by intros [[[? [=]]|[? [=]]] _]]].
  destruct (bool_decide_reflect (name = str "orderKey")) as [->|Ho].
  - rewrite bool_decide_eq_false_2 by (vm_compute; discriminate).
    destruct v as [n|?|? ?|]; cbn; try (split; [done|by intros [[[? [=]]|[? [=]]] _]]).
    destruct ((0 <=? n) && (n <? U64)); cbn; [|split; [done|by intros [[[? [=]]|[? [=]]] _]]].
    destruct o, k; (split; [intros [= <-]; split; [left; by eexists|done]|by intros [_ ->]]).
  - destruct (bool_decide_reflect (name = str "uniqueKey")) as [->|Hk].
    2: { cbn. split; [done|by intros [[[? [=]]|[? [=]]] _]]. }
    destruct v as [n|s|? ?|]; cbn; try (split; [done|by intros [[[? [=]]|[? [=]]] _]]).
    destruct lent; cbn; [|split; [done|by intros [[[? [=]]|[? [=]]] _]]].
    destruct (strip_prefix _ s) as [stripped|]; cbn; [|split; [done|by intros [[[? [=]]|[? [=]]] _]]].
    destruct (hex_decode stripped) as [key|]; cbn; [|split; [done|by intros [[[? [=]]|[? [=]]] _]]].
    destruct o, k; (split; [intros [= <-]; split; [right; by eexists|done]|by intros [_ ->]]).
Qed.

Lemma last_omap_cons {A B} (f : A -> option B) x l : last (omap f (x :: l)) = last (omap f l) ∪ f x.
Proof. cbn. destruct (f x) as [y|]; [|by destruct (last _)]. rewrite last_cons. by destruct (last (omap f l)). Qed.

Lemma option_union_assoc {A} (a b c : option A) : a ∪ (b ∪ c) = (a ∪ b) ∪ c.
Proof. by destruct a, b, c. Qed.

Lemma option_union_None {A} (a : option A) : a ∪ None = a.
Proof. by destruct a. Qed.

Lemma visit_fields_spec acc fields acc' :
  ofold visit_field acc fields = Ok acc' <->
  Forall field_known fields /\
  acc' = (last (omap field_order fields) ∪ acc.1, last (omap field_key fields) ∪ acc.2).
Proof.
  revert acc. induction fields as [|field fields IH]; intros acc.
  { cbn [ofold]. destruct acc as [o k]. split; [intros [= <-]; split; [constructor|by destruct o, k]|].
    intros [_ ->]. by destruct o, k. }
  cbn [ofold]. rewrite bind_Ok, !last_omap_cons, Forall_cons. split.
  - intros (acc1 & [Hf ->]%visit_field_spec & [Hfs ->]%IH). split; [done|]. cbn [fst snd]. by rewrite !option_union_assoc.
  - intros [[Hf Hfs] ->]. eexists. split; [apply visit_field_spec; by split|]. apply IH. split; [done|]. cbn [fst snd]. by rewrite !option_union_assoc.
Qed.

(** The spellings of a finality. *)
Definition spellings (f : DataFinality) : list RString :=
  match f with
  | FinalityUnknown => [str "Unknown"; str "unknown"; str "UNKNOWN"]
  | FinalityPending => [str "Pending"; str "pending"; str "PENDING"]
  | FinalityAccepted => [str "Accepted"; str "accepted"; str "ACCEPTED"]
  | FinalityFinalized => [str "Finalized"; str "finalized"; str "FINALIZED"]
  end.

Lemma finality_variant_spec s f : finality_variant s = Some f <-> s ∈ spellings f.
Proof.
  split.
  - unfold finality_variant. repeat case_bool_decide; intros [= <-]; assumption.
  - destruct f; cbn [spellings]; intros Hs; repeat (apply elem_of_cons in Hs as [->|Hs]; [vm_compute; reflexivity|]); by apply elem_of_nil in Hs.
Qed.

(** The text that a deserializer reads from, and whether it lends all strings. *)
Definition text_of (fields : list FieldAccess) : JsonObject := (fun f => (field_name f, field_value f)) <$> fields.

Definition is_text (v : JsonValue) : bool := match v with JsonString _ => true | _ => false end.

Definition lent (field : FieldAccess) : bool := name_lent field && (value_lent field || negb (is_text (field_value field))).

(** The two fields of a cursor that was written, as they are given back. *)
Lemma order_field c field : is_u64 (order_key c) ->
  (field_name field, field_value field) = (str "orderKey", JsonNumber (order_key c)) ->
  field_order field = (if lent field then Some (order_key c) else None) /\ field_key field = None.
Proof.
  intros [H0 H1] [= Hn Hv]. unfold field_order, field_key, lent. rewrite Hn, Hv. cbn [is_text negb].
  rewrite (bool_decide_eq_true_2 (str "orderKey" = str "orderKey")) by done.
  rewrite (bool_decide_eq_false_2 (str "orderKey" = str "uniqueKey")) by (vm_compute; discriminate).
  rewrite (proj2 (Z.leb_le _ _) H0), (proj2 (Z.ltb_lt _ _) H1). by destruct (name_lent field), (value_lent field).
Qed.

Lemma key_field c field :
  (field_name field, field_value field) = (str "uniqueKey", JsonString (hex_key (unique_key c))) ->
  field_order field = None /\ field_key field = if lent field then Some (unique_key c) else None.
Proof.
  intros [= Hn Hv]. unfold field_order, field_key, lent. rewrite Hn, Hv. cbn [is_text negb].
  rewrite (bool_decide_eq_true_2 (str "uniqueKey" = str "uniqueKey")) by done.
  rewrite (bool_decide_eq_false_2 (str "uniqueKey" = str "orderKey")) by (vm_compute; discriminate).
  unfold hex_key. rewrite strip_prefix_app. cbn [mbind option_bind]. rewrite hex_decode_encode.
  by destruct (name_lent field), (value_lent field).
Qed.

(** A field that is not understood refuses the object. *)
Lemma visit_field_outcome acc field : visit_field acc field = Err JsonErr \/ exists acc', visit_field acc field = Ok acc'.
Proof.
  unfold visit_field. destruct (negb _); [by left|]. destruct (bool_decide _).
  { destruct (json_u64 (field_value field)) as [|[]|] eqn:Hu; cbn; eauto.
    unfold json_u64 in Hu. destruct (field_value field); try done. by destruct (_ && _). }
  destruct (bool_decide _); [|by left].
  destruct (json_str (value_lent field) (field_value field)) as [s|[]|] eqn:Hs; cbn; eauto.
  - destruct (strip_prefix _ s) as [t|]; cbn; [|by left]. destruct (hex_decode t); cbn; eauto.
  - unfold json_str in Hs. destruct (field_value field); try done. by destruct (value_lent field).
Qed.

Lemma visit_unknown fields : ~ Forall field_known fields -> visit_map fields = Err JsonErr.
Proof.
  intros Hn. unfold visit_map. assert (ofold visit_field (None, None) fields = Err JsonErr) as ->; [|done].
  generalize (@None Z, @None (list byte)). induction fields as [|field fields IH]; intros acc; [by destruct Hn|].
  cbn [ofold]. destruct (visit_field_outcome acc field) as [->|[acc' Hf]]; [done|]. rewrite Hf. cbn.
  apply IH. intros Hfs. apply Hn. constructor; [|done]. by apply visit_field_spec in Hf as [Hf _].
Qed.

(** (C35) The JSON form of the messages.  A cursor is read from the fields that a
    deserializer gives exactly when every one of them is understood (its name and, in
    the case of a unique key, its value being lent) and both keys are among them; a
    key that is there more than once has the last value.  So a cursor that was
    written is read back, whatever the order of the fields, when the deserializer
    lends the strings of the text, and refused when it gives a copy of one of them.
    A finality that was written is read back in either case, and only its three
    spellings, or an object of one of them and null, are accepted. *)
Theorem json_roundtrip :
  (forall fields c, visit_map fields = Ok c <->
     Forall field_known fields /\ last (omap field_order fields) = Some (order_key c) /\
     last (omap field_key fields) = Some (unique_key c)) /\
  (forall c fields, is_u64 (order_key c) -> text_of fields ≡ₚ cursor_serialize c ->
     visit_map fields = if forallb lent fields then Ok c else Err JsonErr) /\
  (forall f v, finality_deserialize v = Ok f <->
     exists s, s ∈ spellings f /\ (v = JsonTagged s true \/ v = JsonString s)) /\
  (forall f, finality_deserialize (finality_serialize f) = Ok f).
Proof.
  assert (Hread : forall fields c, visit_map fields = Ok c <->
     Forall field_known fields /\ last (omap field_order fields) = Some (order_key c) /\
     last (omap field_key fields) = Some (unique_key c)).
  { intros fields [o k]. unfold visit_map. rewrite bind_Ok. split.
    - intros (acc & [Hf ->]%visit_fields_spec & Hacc). cbn [fst snd] in Hacc. invert_ok.
      by rewrite !option_union_None in *.
    - intros (Hf & Ho & Hk). eexists. split; [apply visit_fields_spec; split; [done|reflexivity]|].
      cbn [fst snd]. by rewrite Ho, Hk. }
  split; [done|]. split; [|split].
  - intros c fields Hc Hp.
    assert (exists f1 f2, (fields = [f1; f2] \/ fields = [f2; f1]) /\
      (field_name f1, field_value f1) = (str "orderKey", JsonNumber (order_key c)) /\
      (field_name f2, field_value f2) = (str "uniqueKey", JsonString (hex_key (unique_key c))))
      as (f1 & f2 & Hfields & H1 & H2).
    { apply Permutation_sym, Permutation_length_2_inv in Hp. unfold text_of in Hp.
      destruct fields as [|fa [|fb [|? ?]]]; cbn in Hp; try (by destruct Hp).
      destruct Hp as [[= Ha1 Ha2 Hb1 Hb2]|[= Ha1 Ha2 Hb1 Hb2]]; [exists fa, fb|exists fb, fa]; rewrite Ha1, Ha2, Hb1, Hb2; eauto. }
    destruct (order_field c f1 Hc H1) as [Ho1 Hk1]. destruct (key_field c f2 H2) as [Ho2 Hk2].
    assert (forallb lent fields = lent f1 && lent f2) as ->.
    { destruct Hfields as [->| ->]; cbn; rewrite andb_true_r; [done|apply andb_comm]. }
    destruct (lent f1) eqn:Hl1; [destruct (lent f2) eqn:Hl2|]; cbn [andb].
    + apply Hread. destruct Hfields as [-> | ->]; rewrite !last_omap_cons, Ho1, Ho2, Hk1, Hk2;
        (split; [|done]); rewrite !Forall_cons, Forall_nil; unfold field_known; rewrite ?Ho1, ?Ho2, ?Hk1, ?Hk2; eauto 10.
    + apply visit_unknown. intros Hall. assert (field_known f2) as [Hf|Hf]; [|by rewrite Ho2 in Hf; destruct Hf|by rewrite Hk2 in Hf; destruct Hf].
      destruct Hfields as [-> | ->]; rewrite !Forall_cons in Hall; apply Hall.
    + apply visit_unknown. intros Hall. assert (field_known f1) as [Hf|Hf]; [|by rewrite Ho1 in Hf; destruct Hf|by rewrite Hk1 in Hf; destruct Hf].
      destruct Hfields as [-> | ->]; rewrite !Forall_cons in Hall; apply Hall.
  - intros f v. unfold finality_deserialize. split.
    + destruct v as [n|s|s []|]; try done; intros Hv%ok_or_Ok%finality_variant_spec; exists s; eauto.
    + intros (s & Hs%finality_variant_spec & [->| ->]); by rewrite Hs.
  - by intros [].
Qed.

(** ** A witness *)

Module WireWitness.

Definition example_cursor : ProtoCursor := mkProtoCursor 1 [x00; x01; x02; x03].

(** The fields of an object, all lent or all copied. *)
Definition given (lent : bool) (fields : JsonObject) : list FieldAccess :=
  (fun f => mkFieldAccess lent f.1 lent f.2) <$> fields.

(** The example of the tests, with the fields in the other order. *)
Lemma json_roundtrip_witness :
  cursor_serialize example_cursor =
    [(str "orderKey", JsonNumber 1); (str "uniqueKey", JsonString (str "0x00010203"))] /\
  visit_map (given true (reverse (cursor_serialize example_cursor))) = Ok example_cursor /\
  visit_map (given false (cursor_serialize example_cursor)) = Err JsonErr.
Proof.
  assert (is_u64 (order_key example_cursor)) as Hu by (vm_compute; split; [discriminate|reflexivity]).
  destruct json_roundtrip as (_ & Hc & _). split; [vm_compute; reflexivity|]. split.
  - rewrite (Hc example_cursor _ Hu); [vm_compute; reflexivity|]. vm_compute. constructor.
  - rewrite (Hc example_cursor _ Hu); [vm_compute; reflexivity|]. vm_compute. reflexivity.
Defined.
End WireWitness.
