(* ===== verification/Start.v ===== *)
(** * The start of the server (common/src/lib.rs, the arguments of the command line
    and etcd/src/client.rs)

    [run_server] builds the clients and the cache from the arguments, spawns the tasks
    of the program one after the other and waits for the first that ends.  Each task
    is the component of its own file; here it is what was spawned, with its arguments.
    Parsers of libraries, the environment and the constructors of the clients are the
    interface [StartOps]. *)

From S2P Require Import Prelude External Text Core Cloud StateClient ObjectStore Chain ChainView Index Query.
From S2P Require Import Encoding FragmentAccess FilterBlock BlockStore Compaction CompactionService DataStream Ingestion ChainSync Lock Server StreamPool.

(** ** Arguments *)

Record ObjectStoreArgs := mkObjectStoreArgs {
  s3_backend : RString;
  s3_bucket : RString;
  s3_prefix : option RString;
  s3_endpoint : option RString;
  s3_region : option RString }.

Record EtcdArgs := mkEtcdArgs {
  etcd_endpoints : list RString;
  etcd_prefix : option RString;
  etcd_user : option RString;
  etcd_password : option RString;
  etcd_auth_token_ttl : Z }.

Record IngestionArgs := mkIngestionArgs {
  ingestion_enabled : bool;
  ingestion_max_concurrent_tasks : Z;
  ingestion_chain_segment_size : Z;
  ingestion_dangerously_override_starting_block : option Z;
  ingestion_pending_refresh_interval : RString;
  ingestion_head_refresh_interval : RString;
  ingestion_finalized_refresh_interval : RString }.

Record CompactionArgs := mkCompactionArgs {
  compaction_enabled : bool;
  compaction_segment_size : Z;
  compaction_group_size : Z }.

Record ServerArgs := mkServerArgs {
  server_enabled : bool;
  server_address : RString;
  server_max_concurrent_streams : Z;
  server_prefetch_segment_count : Z;
  server_channel_size : Z }.

Record FileCacheArgs := mkFileCacheArgs {
  cache_dir : option RString;
  cache_data_disk_size : RString;
  cache_data_block_size : RString;
  cache_data_memory_size : RString;
  cache_index_disk_size : RString;
  cache_index_block_size : RString;
  cache_index_memory_size : RString;
  cache_admission_rate_limit : option RString;
  cache_compression : RString;
  cache_flush : bool;
  cache_flusher_count : Z;
  cache_flush_buffer_pool_size : RString }.

Record StartArgs := mkStartArgs {
  sa_object_store : ObjectStoreArgs;
  sa_etcd : EtcdArgs;
  sa_ingestion : IngestionArgs;
  sa_compaction : CompactionArgs;
  sa_server : ServerArgs;
  sa_cache : FileCacheArgs }.

(** ** What they become *)

Inductive CloudLocation := LocationCustom (account uri : RString) | LocationPublic (account : RString).
Inductive StorageCredentials := AccessKey (account key : RString) | TokenCredential.

(** The client of an object store, by what it is built from. *)
Inductive Backend :=
| BackendS3 (region endpoint : option RString)
| BackendAzureBlob (location : CloudLocation) (credentials : StorageCredentials)
| BackendGcs (project_id endpoint : option RString).

Record AuthOptions := mkAuthOptions { auth_user : RString; auth_password : RString; token_ttl : Z }.

Record EtcdClientOptions := mkEtcdClientOptions { eo_prefix : option RString; eo_auth : option AuthOptions }.

Record EtcdClient := mkEtcdClient { ec_auth : option AuthOptions; ec_prefix : RString }.

Definition kv_client (self : EtcdClient) : KvClient := mkKvClient (ec_prefix self).
Definition watch_client (self : EtcdClient) : WatchClient := mkWatchClient (ec_prefix self).
Definition lock_client (self : EtcdClient) (options : LockOptions) : LockClient := mkLockClient (ec_prefix self) options.

(** How often the blocks are asked for. *)
Record RefreshIntervals := mkRefreshIntervals {
  pending_refresh_interval : Z; head_refresh_interval : Z; finalized_refresh_interval : Z }.

Record CompactionServiceOptions := mkCompactionServiceOptions { co_segment_size : Z; co_group_size : Z }.

Record ServerOptions := mkServerOptions { address : RString; stream_service_options : StreamServiceOptions }.

Inductive Compression := CompressionNone | CompressionLz4 | CompressionZstd.

Inductive FileCacheError := FileCacheConfig | FileCacheFoyer.

(** One cache of the library foyer. *)
Record CacheConfig := mkCacheConfig {
  cc_name : RString;
  cc_dir : RString;
  cc_capacity : Z;
  cc_memory : Z;
  cc_compression : Compression;
  cc_block_size : Z;
  cc_flushers : Z;
  cc_buffer_pool_size : Z }.

Record FileCache := mkFileCache { fc_general : CacheConfig; fc_index : CacheConfig }.

(** ** What is outside *)

Class StartOps (W : Type) := {
  (** [std::env::var(..).ok()] *)
  env_var : RString -> option RString;
  (** [azure_identity::create_credential] *)
  create_credential : prog W ObjectStoreError unit;
  (** [GcsClient::new] *)
  gcs_new : option RString -> option RString -> prog W ObjectStoreError unit;
  (** [ObjectStore::ensure_bucket] *)
  start_ensure_bucket : Backend -> ObjectStore -> prog W ObjectStoreError unit;
  (** [etcd_client::Client::connect] and [status] *)
  etcd_connect : list RString -> option (RString * RString) -> prog W EtcdError unit;
  etcd_status : prog W EtcdError unit;
  (** [duration_str::parse_std], [byte_unit::Byte::from_str] and
      [str::parse::<SocketAddr>] *)
  parse_duration : RString -> option Z;
  parse_byte : RString -> option Z;
  parse_socket_addr : RString -> option RString;
  (** [dirs::data_local_dir] *)
  data_local_dir : option RString;
  (** [FsDeviceBuilder] and [HybridCacheBuilder] *)
  build_device : RString -> Z -> prog W FileCacheError unit;
  build_cache : CacheConfig -> prog W FileCacheError unit }.

Section start.
Context {W : Type} `{!StartOps W}.

(** ** The object store (common/src/cli.rs) *)

Definition into_azure_blob_object_store_client (self : ObjectStoreArgs) : prog W ObjectStoreError (Backend * ObjectStore) :=
  account ← lift (ok_or Configuration (env_var (str "AZURE_STORAGE_ACCOUNT_ID")));
  credentials ←
    match env_var (str "AZURE_STORAGE_ACCESS_KEY") with
    | Some access_key => mret (AccessKey account access_key)
    | None => _ ← pcontext Configuration create_credential; mret TokenCredential
    end;
  let location :=
    match s3_endpoint self with
    | Some endpoint_url => LocationCustom account endpoint_url
    | None => LocationPublic account
    end in
  mret (BackendAzureBlob location credentials, object_store_new (s3_bucket self) (s3_prefix self)).

Definition into_gcs_object_store_client (self : ObjectStoreArgs) : prog W ObjectStoreError (Backend * ObjectStore) :=
  let project_id := env_var (str "GOOGLE_CLOUD_PROJECT") in
  _ ← gcs_new project_id (s3_endpoint self);
  mret (BackendGcs project_id (s3_endpoint self), object_store_new (s3_bucket self) (s3_prefix self)).

Definition into_s3_object_store_client (self : ObjectStoreArgs) : Backend * ObjectStore :=
  (BackendS3 (s3_region self) (s3_endpoint self), object_store_new (s3_bucket self) (s3_prefix self)).

Definition into_object_store_client (self : ObjectStoreArgs) : prog W ObjectStoreError (Backend * ObjectStore) :=
  if bool_decide (s3_backend self = str "azure-blob") then into_azure_blob_object_store_client self
  else if bool_decide (s3_backend self = str "gcs") then into_gcs_object_store_client self
  else mret (into_s3_object_store_client self).

(** ** etcd *)

(** [EtcdClient::connect]. *)
Definition etcd_client_connect (endpoints : list RString) (options : EtcdClientOptions) : prog W EtcdClientError EtcdClient :=
  let connect_options := (fun auth => (auth_user auth, auth_password auth)) <$> eo_auth options in
  _ ← pcontext EtcdClientErr (etcd_connect endpoints connect_options);
  mret (mkEtcdClient (eo_auth options) (normalize_prefix (eo_prefix options))).

Definition into_etcd_client (self : EtcdArgs) : prog W EtcdClientError EtcdClient :=
  let auth :=
    match etcd_user self, etcd_password self with
    | Some user, Some password => Some (mkAuthOptions user password (from_secs (etcd_auth_token_ttl self)))
    | _, _ => None
    end in
  etcd_client_connect (etcd_endpoints self) (mkEtcdClientOptions (etcd_prefix self) auth).

(** ** Options of the services *)

Definition to_ingestion_service_options (self : IngestionArgs) : outcome IngestionError (IngestionServiceOptions * RefreshIntervals) :=
  pending ← ok_or Options (parse_duration (ingestion_pending_refresh_interval self));
  head ← ok_or Options (parse_duration (ingestion_head_refresh_interval self));
  finalized ← ok_or Options (parse_duration (ingestion_finalized_refresh_interval self));
  Ok (mkIngestionOptions (ingestion_max_concurrent_tasks self) (ingestion_chain_segment_size self) 100
        (ingestion_dangerously_override_starting_block self),
      mkRefreshIntervals pending head finalized).

Definition to_compaction_options (self : CompactionArgs) : CompactionServiceOptions :=
  mkCompactionServiceOptions (compaction_segment_size self) (compaction_group_size self).

Definition to_server_options (self : ServerArgs) : outcome ServerError ServerOptions :=
  address ← ok_or ServerErr (parse_socket_addr (server_address self));
  Ok (mkServerOptions address
        (mkStreamServiceOptions (server_max_concurrent_streams self) (server_prefetch_segment_count self)
           (server_channel_size self))).

(** ** The caches (common/src/file_cache.rs) *)

(** [Path::join] with a relative path. *)
Definition path_join (base path : RString) : RString :=
  if bool_decide (base = []) || bool_decide (last base = Some x2f) then base ++ path else base ++ str "/" ++ path.

Definition parse_compression (compression : RString) : outcome FileCacheError Compression :=
  if bool_decide (compression = str "none") then Ok CompressionNone
  else if bool_decide (compression = str "lz4") then Ok CompressionLz4
  else if bool_decide (compression = str "zstd") then Ok CompressionZstd
  else Err FileCacheConfig.

Definition parse_size (size : RString) : outcome FileCacheError Z := ok_or FileCacheConfig (parse_byte size).

(** The two blocks of [to_file_cache] differ in their sizes and in their name, which is
    also that of the directory. *)
Definition open_cache (name memory disk block dir : RString) (compression : Compression) (flushers buffer_pool : Z) :
    prog W FileCacheError CacheConfig :=
  max_size_memory_bytes ← lift (parse_size memory);
  max_size_disk_bytes ← lift (parse_size disk);
  block_size ← lift (parse_size block);
  let dir := path_join dir name in
  _ ← pcontext FileCacheFoyer (build_device dir max_size_disk_bytes);
  let config := mkCacheConfig name dir max_size_disk_bytes max_size_memory_bytes compression block_size flushers buffer_pool in
  _ ← pcontext FileCacheFoyer (build_cache config);
  mret config.

Definition to_file_cache (self : FileCacheArgs) : prog W FileCacheError FileCache :=
  dir ← lift (match cache_dir self with
    | Some cache_dir => Ok cache_dir
    | None => dir ← ok_or FileCacheConfig data_local_dir; Ok (path_join dir (str "dna"))
    end);
  compression ← lift (parse_compression (cache_compression self));
  flush_buffer_pool_size ← lift (parse_size (cache_flush_buffer_pool_size self));
  general ← open_cache (str "general") (cache_data_memory_size self) (cache_data_disk_size self)
    (cache_data_block_size self) dir compression (cache_flusher_count self) flush_buffer_pool_size;
  index ← open_cache (str "index") (cache_index_memory_size self) (cache_index_disk_size self)
    (cache_index_block_size self) dir compression (cache_flusher_count self) flush_buffer_pool_size;
  mret (mkFileCache general index).

(** ** [run_server] *)

(** A task that was spawned. *)
Inductive Task :=
| TaskRenewToken (etcd : EtcdClient)
| TaskIngestion (etcd : EtcdClient) (store : ObjectStore) (cache : FileCache) (options : IngestionServiceOptions * RefreshIntervals)
| TaskSync (etcd : EtcdClient) (store : ObjectStore) (cache : FileCache)
| TaskCompaction (etcd : EtcdClient) (store : ObjectStore) (options : CompactionServiceOptions)
| TaskServer (names : gmap Z string) (store : ObjectStore) (cache : FileCache) (options : ServerOptions)
(** a service that is not enabled waits for the end *)
| TaskIdle.

Record Process := mkProcess { ps_world : W; ps_tasks : list Task }.

(** An operation on what is outside, and [tokio::spawn]. *)
Definition outside {E A} (m : prog W E A) : prog Process ServerError A := fun s =>
  let '(r, w) := m (ps_world s) in (change_context ServerErr r, mkProcess w (ps_tasks s)).

Definition spawn (task : Task) : prog Process ServerError unit := fun s =>
  (Ok tt, mkProcess (ps_world s) (ps_tasks s ++ [task])).

(** What the arguments become. *)
Record Prepared := mkPrepared {
  pr_store : Backend * ObjectStore;
  pr_etcd : EtcdClient;
  pr_cache : FileCache;
  pr_ingestion_options : IngestionServiceOptions * RefreshIntervals }.

Definition prepare (args : StartArgs) : prog Process ServerError Prepared :=
  object_store ← outside (into_object_store_client (sa_object_store args));
  _ ← outside (start_ensure_bucket object_store.1 object_store.2);
  etcd_client ← outside (into_etcd_client (sa_etcd args));
  _ ← outside etcd_status;
  file_cache ← outside (to_file_cache (sa_cache args));
  ingestion_options ← lift (change_context ServerErr (to_ingestion_service_options (sa_ingestion args)));
  mret (mkPrepared object_store etcd_client file_cache ingestion_options).

(** Everything before the wait; [fragment_info] is that of the network. *)
Definition start_tasks (fragment_info : list (Z * string)) (args : StartArgs) : prog Process ServerError unit :=
  prepared ← prepare args;
  let store := (pr_store prepared).2 in
  let etcd_client := pr_etcd prepared in
  let file_cache := pr_cache prepared in
  _ ← spawn (TaskRenewToken etcd_client);
  _ ← spawn (if ingestion_enabled (sa_ingestion args)
             then TaskIngestion etcd_client store file_cache (pr_ingestion_options prepared) else TaskIdle);
  _ ← spawn (TaskSync etcd_client store file_cache);
  _ ← spawn (if compaction_enabled (sa_compaction args)
             then TaskCompaction etcd_client store (to_compaction_options (sa_compaction args)) else TaskIdle);
  fragment_id_to_name ← lift (fragment_names fragment_info);
  if server_enabled (sa_server args) then
    options ← lift (change_context ServerErr (to_server_options (sa_server args)));
    spawn (TaskServer fragment_id_to_name store file_cache options)
  else spawn TaskIdle.

(** [tokio::select!]: [ended] is the first task that ends and how; a task that
    panicked is an error of its handle. *)
Definition select_result (ended : outcome ServerError unit) : outcome ServerError unit :=
  match ended with
  | Ok _ => Ok tt
  | Err _ | Panic => Err ServerErr
  end.

Definition run_server (fragment_info : list (Z * string)) (args : StartArgs) (ended : outcome ServerError unit) :
    prog Process ServerError unit :=
  _ ← start_tasks fragment_info args;
  lift (select_result ended).
End start.
Arguments Process : clear implicits.

(** ** The renewal of the token of etcd *)

(** What happens next in [start_renew_auth_token]: the process is cancelled while the
    task sleeps, or it renews the token, in a request that takes some time. *)
Inductive RenewEvent := RenewCancelled | RenewRequest (took : Z) (r : outcome EtcdError unit).

(** A token: when it was asked for, and when the answer came. *)
Record Token := mkToken { token_asked : Z; token_received : Z }.

(** The loop from the time [now]: the tokens that it gets, and how it ended, if it did. *)
Fixpoint renew_loop (renew_interval now : Z) (events : list RenewEvent) : list Token * option (outcome EtcdClientError unit) :=
  match events with
  | [] => ([], None)
  | RenewCancelled :: _ => ([], Some (Ok tt))
  | RenewRequest took r :: events =>
      let asked := now + renew_interval in
      match change_context EtcdClientErr r with
      | Ok _ =>
          let '(tokens, ended) := renew_loop renew_interval (asked + took) events in
          (mkToken asked (asked + took) :: tokens, ended)
      | Err e => ([], Some (Err e))
      | Panic => ([], Some Panic)
      end
  end.

(** Without a user there is nothing to renew, and the task ends when it is
    cancelled. *)
Definition start_renew_auth_token (self : EtcdClient) (now : Z) (events : list RenewEvent) :
    list Token * option (outcome EtcdClientError unit) :=
  match ec_auth self with
  | Some auth => renew_loop (token_ttl auth / 2) now events
  | None => ([], match events with RenewCancelled :: _ => Some (Ok tt) | _ => None end)
  end.
