(* ===== verification/StartSpec.v ===== *)
(** * The start of the server: properties

    No task runs before the clients, the cache and the intervals were accepted, and
    the two caches have different directories; the token of etcd is renewed before it
    expires. *)

From S2P Require Import Prelude External Text Core Cloud StateClient ObjectStore Chain ChainView Index Query.
From S2P Require Import Encoding FragmentAccess FilterBlock BlockStore Compaction CompactionService DataStream Ingestion ChainSync Lock Server StreamPool Start.

(** ** What is started *)

Section starting.
Context {W : Type} `{!StartOps W}.
Implicit Types (w : W) (args : StartArgs).

(** The store is that of the bucket and of the prefix that were asked for. *)
Lemma object_store_of_args self w b w' : into_object_store_client self w = (Ok b, w') -> b.2 = object_store_new (s3_bucket self) (s3_prefix self).
Proof.
  unfold into_object_store_client. repeat case_bool_decide; [| |by intros [= <- <-]].
  - unfold into_azure_blob_object_store_client. intros (a & w1 & _ & (c & w2 & _ & H2)%prog_bind_Ok)%prog_bind_Ok. by injection H2 as <- <-.
  - unfold into_gcs_object_store_client. intros (a & w1 & _ & H2)%prog_bind_Ok. by injection H2 as <- <-.
Qed.

(** The authentication of a client of etcd. *)
Definition args_auth (self : EtcdArgs) : option AuthOptions :=
  match etcd_user self, etcd_password self with
  | Some user, Some password => Some (mkAuthOptions user password (from_secs (etcd_auth_token_ttl self)))
  | _, _ => None
  end.

Lemma etcd_client_of_args self w c w' : into_etcd_client self w = (Ok c, w') -> c = mkEtcdClient (args_auth self) (normalize_prefix (etcd_prefix self)).
Proof. unfold into_etcd_client, etcd_client_connect. intros (a & w1 & _ & H2)%prog_bind_Ok. by injection H2 as <- <-. Qed.

(** The two caches do not share a directory. *)
Definition caches_apart (cache : FileCache) : Prop :=
  exists dir, cc_dir (fc_general cache) = path_join dir (str "general") /\ cc_dir (fc_index cache) = path_join dir (str "index") /\
    cc_dir (fc_general cache) <> cc_dir (fc_index cache).

Lemma open_cache_dir name memory disk block dir compression flushers pool w config w' :
  open_cache name memory disk block dir compression flushers pool w = (Ok config, w') -> cc_dir config = path_join dir name.
Proof.
  unfold open_cache.
  intros (a & w1 & _ & (b & w2 & _ & (c & w3 & _ & (d & w4 & _ & (e & w5 & _ & H5)%prog_bind_Ok)%prog_bind_Ok)%prog_bind_Ok)%prog_bind_Ok)%prog_bind_Ok.
  by injection H5 as <- <-.
Qed.

Lemma path_join_inj dir p q : path_join dir p = path_join dir q -> p = q.
Proof. unfold path_join. destruct (_ || _); intros Hp; by repeat apply app_inv_head in Hp. Qed.

Lemma file_cache_apart self w cache w' : to_file_cache self w = (Ok cache, w') -> caches_apart cache.
Proof.
  unfold to_file_cache.
  intros (dir & w1 & _ & (b & w2 & _ & (c & w3 & _ & (g & w4 & Hg & (i & w5 & Hi & H5)%prog_bind_Ok)%prog_bind_Ok)%prog_bind_Ok)%prog_bind_Ok)%prog_bind_Ok.
  injection H5 as <- <-. apply open_cache_dir in Hg, Hi. exists dir. cbn. rewrite Hg, Hi. repeat split; try done.
  intros He%path_join_inj. revert He. vm_compute. discriminate.
Qed.

Lemma outside_bind {E A B} (m : prog W E A) (f : A -> prog (Process W) ServerError B) w ts r p :
  (outside m ≫= f) (mkProcess w ts) = (r, p) ->
  (exists a w', m w = (Ok a, w') /\ f a (mkProcess w' ts) = (r, p)) \/ (ps_tasks p = ts /\ forall b, r <> Ok b).
Proof.
  unfold mbind, prog_bind, outside. cbn [ps_world ps_tasks]. destruct (m w) as [[a|e|] w']; cbn [change_context].
  - intros Hf. left. by exists a, w'.
  - intros [= <- <-]. by right.
  - intros [= <- <-]. by right.
Qed.

Lemma lift_bind {S E A B} (m : outcome E A) (f : A -> prog S E B) s r s' :
  (lift m ≫= f) s = (r, s') -> (exists a, m = Ok a /\ f a s = (r, s')) \/ (s' = s /\ (forall a, m <> Ok a) /\ forall b, r <> Ok b).
Proof.
  unfold mbind, prog_bind, lift. destruct m as [a|e|].
  - intros Hf. left. by exists a.
  - intros [= <- <-]. by right.
  - intros [= <- <-]. by right.
Qed.

(** What is prepared is what the arguments say, and nothing is spawned before it. *)
Definition as_asked args (prepared : Prepared) : Prop :=
  (pr_store prepared).2 = object_store_new (s3_bucket (sa_object_store args)) (s3_prefix (sa_object_store args)) /\
  pr_etcd prepared = mkEtcdClient (args_auth (sa_etcd args)) (normalize_prefix (etcd_prefix (sa_etcd args))) /\
  caches_apart (pr_cache prepared) /\
  to_ingestion_service_options (sa_ingestion args) = Ok (pr_ingestion_options prepared).

Lemma prepare_spec args w r p :
  prepare args (mkProcess w []) = (r, p) -> ps_tasks p = [] /\ forall prepared, r = Ok prepared -> as_asked args prepared.
Proof.
  unfold prepare.
  assert (Hno : forall p : Process W, ps_tasks p = [] /\ (forall b, r <> Ok b) -> ps_tasks p = [] /\ forall prepared, r = Ok prepared -> as_asked args prepared) by naive_solver.
  intros [(store & w1 & Hstore%object_store_of_args & Hr)|?]%outside_bind; [|auto].
  apply outside_bind in Hr as [(? & w2 & _ & Hr)|?]; [|auto].
  apply outside_bind in Hr as [(etcd & w3 & ->%etcd_client_of_args & Hr)|?]; [|auto].
  apply outside_bind in Hr as [(? & w4 & _ & Hr)|?]; [|auto].
  apply outside_bind in Hr as [(cache & w5 & Hcache%file_cache_apart & Hr)|?]; [|auto].
  apply lift_bind in Hr as [(options & Hoptions & Hr)|(-> & _ & ?)]; [|auto].
  injection Hr as <- <-. split; [done|]. intros ? [= <-]. unfold as_asked. cbn.
  destruct (to_ingestion_service_options (sa_ingestion args)); try done. by injection Hoptions as ->.
Qed.

End starting.

(** ** The token of etcd *)

(** A renewal that succeeded. *)
Definition renewed (e : RenewEvent) : Prop := match e with RenewRequest _ (Ok _) => True | _ => False end.

(** A request that takes less than a quarter of the life of a token. *)
Definition quick (ttl took : Z) : Prop := 0 <= took /\ 2 * took < ttl - ttl / 2.

Definition quick_event (ttl : Z) (e : RenewEvent) : Prop :=
  match e with RenewRequest took _ => quick ttl took | RenewCancelled => True end.

(** A token that can be used at some time. *)
Definition valid_at (ttl t : Z) (token : Token) : Prop := token_received token <= t < token_asked token + ttl.

(** How the loop ended, from what happened. *)
Lemma renew_loop_ends interval now events :
  let '(tokens, ended) := renew_loop interval now events in
  exists before after, events = before ++ after /\ Forall renewed before /\ length tokens = length before /\
    match ended with
    | None => after = []
    | Some (Ok _) => head after = Some RenewCancelled
    | Some (Err _) => exists took e, head after = Some (RenewRequest took (Err e))
    | Some Panic => exists took, head after = Some (RenewRequest took Panic)
    end.
Proof.
  revert now. induction events as [|[|took [u|e|]] events IH]; intros now; cbn.
  - exists [], []. eauto.
  - exists [], (RenewCancelled :: events). eauto.
  - specialize (IH (now + interval + took)). destruct (renew_loop _ _ _) as [tokens ended].
    destruct IH as (before & after & -> & Hb & Hl & He). exists (RenewRequest took (Ok u) :: before), after.
    split; [done|]. split; [by constructor|]. split; [by cbn; rewrite Hl|done].
  - exists [], (RenewRequest took (Err e) :: events). eauto 10.
  - exists [], (RenewRequest took Panic :: events). eauto 10.
Qed.

(** Until half a life after the last token there is always one that is valid. *)
Lemma renew_loop_valid ttl first now events :
  0 < ttl -> token_received first <= now -> quick ttl (now - token_asked first) -> Forall (quick_event ttl) events ->
  let tokens := first :: (renew_loop (ttl / 2) now events).1 in
  forall t, token_received first <= t -> (forall token, last tokens = Some token -> t <= token_received token + ttl / 2) ->
  exists token, token ∈ tokens /\ valid_at ttl t token.
Proof.
  intros Httl. assert (0 <= ttl / 2) by (apply Z.div_pos; lia). revert first now.
  induction events as [|[|took r] events IH]; intros first now Hnow Hq Hev tokens t Ht Hlast; subst tokens.
  1,2: exists first; split; [by left|]; specialize (Hlast first eq_refl); unfold valid_at, quick in *; lia.
  apply Forall_cons in Hev as [Hev1 Hev]. cbn [quick_event] in Hev1. cbn [renew_loop] in *.
  destruct r as [u|e|]; cbn [change_context fst] in *.
  2,3: exists first; split; [by left|]; specialize (Hlast first eq_refl); unfold valid_at, quick in *; lia.
  specialize (IH (mkToken (now + ttl / 2) (now + ttl / 2 + took)) (now + ttl / 2 + took)).
  cbn [token_received token_asked] in IH.
  destruct (renew_loop _ _ events) as [tokens ended]. cbn [fst] in *.
  destruct (decide (t < now + ttl / 2 + took)).
  - exists first. split; [by left|]. unfold valid_at, quick in *. lia.
  - destruct (IH ltac:(lia) ltac:(unfold quick in *; lia) Hev t ltac:(lia)) as (token & Hin & Hv).
    + intros token Hl. apply Hlast. by rewrite last_cons, Hl.
    + exists token. split; [by right|done].
Qed.

(** (C22) The token of etcd is kept.  As long as the requests take less than a quarter
    of the life of a token, and the renewal is started (after the caches were opened)
    less than a quarter of a life after the first token was asked for, when the process
    connected, it has a valid one from the first until half a life after the last,
    whatever happens; and it renews it until it is cancelled, or until a renewal fails,
    which is an error of the task and so of the program. *)
Theorem token_kept self auth first now events :
  ec_auth self = Some auth -> 0 < token_ttl auth ->
  token_received first <= now -> quick (token_ttl auth) (now - token_asked first) ->
  Forall (quick_event (token_ttl auth)) events ->
  let '(tokens, ended) := start_renew_auth_token self now events in
  (forall t, token_received first <= t ->
     (forall token, last (first :: tokens) = Some token -> t <= token_received token + token_ttl auth / 2) ->
     exists token, token ∈ first :: tokens /\ valid_at (token_ttl auth) t token) /\
  exists before after, events = before ++ after /\ Forall renewed before /\ length tokens = length before /\
    match ended with
    | None => after = []
    | Some (Ok _) => head after = Some RenewCancelled
    | Some (Err _) => exists took e, head after = Some (RenewRequest took (Err e))
    | Some Panic => exists took, head after = Some (RenewRequest took Panic)
    end.
Proof.
  intros Ha Httl Hnow Hq Hev. unfold start_renew_auth_token. rewrite Ha.
  pose proof (renew_loop_valid _ _ _ _ Httl Hnow Hq Hev) as Hvalid.
  pose proof (renew_loop_ends (token_ttl auth / 2) now events) as Hends.
  destruct (renew_loop _ _ _) as [tokens ended]. by split.
Qed.

(** ** A witness *)

Module StartWitness.

(** Services that answer, and parsers that accept what is not empty. *)
Definition not_empty (s : RString) : option RString := if bool_decide (s = []) then None else Some s.

#[local] Instance example_start : StartOps unit := {|
  env_var _ := None;
  create_credential w := (Ok tt, w);
  gcs_new _ _ w := (Ok tt, w);
  start_ensure_bucket _ _ w := (Ok tt, w);
  etcd_connect _ _ w := (Ok tt, w);
  etcd_status w := (Ok tt, w);
  parse_duration s := Z.of_nat <$> (length <$> not_empty s);
  parse_byte s := Z.of_nat <$> (length <$> not_empty s);
  parse_socket_addr := not_empty;
  data_local_dir := Some (str "/data");
  build_device _ _ w := (Ok tt, w);
  build_cache _ w := (Ok tt, w) |}.

Definition example_args (backend compression address : RString) : StartArgs :=
  mkStartArgs (mkObjectStoreArgs backend (str "bucket") None None None) (mkEtcdArgs [] None None None 300)
    (mkIngestionArgs true 100 10000 None (str "3s") (str "3s") (str "30s")) (mkCompactionArgs false 100 100)
    (mkServerArgs true address 1000 128 8)
    (mkFileCacheArgs None (str "10Gi") (str "128Mi") (str "2Gi") (str "10Gi") (str "128Mi") (str "2Gi") None compression false 2 (str "1Gi")).

(** A start; a start that is refused before and one that is refused after the services
    run; and a backend that is not known is S3. *)
Lemma start_examples :
  let run backend compression address := run_server [(9, "receipt"%string)] (example_args backend compression address) (Ok tt) (mkProcess tt []) in
  let started r := (r.1, length (ps_tasks r.2)) in
  started (run (str "gcs") (str "zstd") (str "0.0.0.0:7007")) = (Ok tt, 5%nat) /\
  started (run (str "gcs") (str "gzip") (str "0.0.0.0:7007")) = (Err ServerErr, 0%nat) /\
  started (run (str "azure-blob") (str "zstd") (str "0.0.0.0:7007")) = (Err ServerErr, 0%nat) /\
  started (run (str "gcs") (str "zstd") []) = (Err ServerErr, 4%nat) /\
  started (run (str "azure") (str "zstd") (str "0.0.0.0:7007")) = (Ok tt, 5%nat).
Proof. vm_compute. repeat split. Qed.

(** The default life of five minutes, two renewals of a second and the end. *)
Definition example_auth : AuthOptions := mkAuthOptions (str "dna") (str "secret") (from_secs 300).

Definition example_events : list RenewEvent :=
  [RenewRequest (from_secs 1) (Ok tt); RenewRequest (from_secs 1) (Ok tt); RenewCancelled].

(** The renewal starts ten seconds after the first token was received. *)
Lemma token_kept_witness :
  exists token, token ∈ mkToken 0 0 ::
      (start_renew_auth_token (mkEtcdClient (Some example_auth) []) (from_secs 10) example_events).1 /\
    valid_at (from_secs 300) (from_secs 400) token.
Proof.
  assert (quick (from_secs 300) (from_secs 10 - 0)) as Hq by (vm_compute; split; [discriminate|reflexivity]).
  assert (Forall (quick_event (from_secs 300)) example_events) as Hev
    by (repeat constructor; vm_compute; discriminate || reflexivity).
  pose proof (token_kept (mkEtcdClient (Some example_auth) []) example_auth (mkToken 0 0) (from_secs 10) example_events
    eq_refl eq_refl ltac:(vm_compute; discriminate) Hq Hev) as Hk.
  change (start_renew_auth_token _ (from_secs 10) example_events) with
    ([mkToken 160000000000 161000000000; mkToken 311000000000 312000000000], Some (Ok tt : outcome EtcdClientError unit)) in Hk.
  change (start_renew_auth_token _ (from_secs 10) example_events) with
    ([mkToken 160000000000 161000000000; mkToken 311000000000 312000000000], Some (Ok tt : outcome EtcdClientError unit)).
  destruct Hk as [Hk _]. apply Hk; [vm_compute; discriminate|]. intros token [= <-]. vm_compute. discriminate.
Defined.
End StartWitness.
