(* ===== verification/StarknetStart.v ===== *)
(** * The start of the Starknet server (starknet/src/cli)

    The provider that the arguments describe, and [run_server] on the fragments of
    Starknet. *)

From S2P Require Import Prelude External Text Core Cloud StateClient ObjectStore Chain ChainView Models Index Query.
From S2P Require Import Encoding FragmentAccess FilterBlock BlockStore Compaction CompactionService DataStream Ingestion ChainSync Lock.
From S2P Require Import Server StreamPool Starknet StarknetProto StarknetFilter StarknetIngestion StarknetFacts StarknetTables StarknetBlock StarknetQuery.
From S2P Require Import Canon Start StartSpec.

Record RpcArgs := mkRpcArgs { rpc_url : RString; rpc_timeout_sec : Z; rpc_headers : list RString }.

Record StarknetProviderOptions := mkProviderOptions {
  po_timeout : Z;
  po_headers : gmap RString RString;
  (** of [ExponentialBuilder::default()] with this maximum *)
  po_max_delay : Z }.

(** A provider: the url and the headers of its transport, and its options. *)
Record StarknetProvider := mkStarknetProvider {
  sp_url : RString; sp_headers : gmap RString RString; sp_options : StarknetProviderOptions }.

(** [Url], [HeaderName] and [HeaderValue] of the libraries, by the text they were
    parsed to; [HeaderValue::to_str] refuses a value that is not visible ASCII. *)
Class HttpLibrary := {
  parse_url : RString -> option RString;
  parse_header_name : RString -> option RString;
  parse_header_value : RString -> option RString;
  header_to_str : RString -> option RString }.

(** [str::split_once]. *)
Fixpoint split_once (sep : byte) (s : RString) : option (RString * RString) :=
  match s with
  | [] => None
  | b :: s => if bool_decide (b = sep) then Some ([], s) else (fun p => (b :: p.1, p.2)) <$> split_once sep s
  end.

Section rpc.
Context `{!HttpLibrary}.

(** One iteration of the loop over the headers: a later header replaces an earlier
    one of the same name. *)
Definition insert_header (headers : gmap RString RString) (kv : RString) : outcome StarknetError (gmap RString RString) :=
  parts ← ok_or StarknetErr (split_once x3a kv);
  key ← ok_or StarknetErr (parse_header_name parts.1);
  value ← ok_or StarknetErr (parse_header_value parts.2);
  Ok (<[key := value]> headers).

(** [StarknetProvider::new]. *)
Definition starknet_provider_new (url : RString) (options : StarknetProviderOptions) : outcome StarknetError StarknetProvider :=
  headers ← ofold (fun headers kv => value ← ok_or StarknetErr (header_to_str kv.2); Ok (<[kv.1 := value]> headers))
    ∅ (map_to_list (po_headers options));
  Ok (mkStarknetProvider url headers options).

Definition to_starknet_provider (self : RpcArgs) : outcome StarknetError StarknetProvider :=
  url ← ok_or StarknetErr (parse_url (rpc_url self));
  headers ← ofold insert_header ∅ (rpc_headers self);
  let timeout := from_secs (rpc_timeout_sec self) in
  let max_delay := from_secs (rpc_timeout_sec self / 2) in
  starknet_provider_new url (mkProviderOptions timeout headers max_delay).

Record StartCommand := mkStartCommand {
  sc_rpc : RpcArgs;
  sc_start : StartArgs;
  sc_ws_url : option RString;
  sc_ingest_traces : bool;
  sc_ingest_pre_confirmed : bool }.

(** [StarknetChainSupport]. *)
Record StarknetChainSupport := mkChainSupport {
  cs_provider : StarknetProvider; cs_ws_url : option RString; cs_options : StarknetBlockIngestionOptions }.

Definition start_command_run {W : Type} `{!StartOps W} (self : StartCommand) (ended : outcome ServerError unit) :
    prog (Process W) StarknetError StarknetChainSupport :=
  provider ← lift (to_starknet_provider (sc_rpc self));
  let options := mkStarknetOptions (sc_ingest_pre_confirmed self) (sc_ingest_traces self) in
  let starknet_chain := mkChainSupport provider (sc_ws_url self) options in
  _ ← pcontext StarknetErr (run_server fragment_info (sc_start self) ended);
  mret starknet_chain.
End rpc.

(** ** Headers *)

(** What is before the first separator, and what is after it. *)
Lemma split_once_spec sep s a b : split_once sep s = Some (a, b) <-> s = a ++ sep :: b /\ sep ∉ a.
Proof.
  revert a. induction s as [|c s IH]; intros a; cbn.
  { split; [done|]. intros [Hs _]. by destruct a. }
  case_bool_decide as Hc.
  - subst c. split; [intros [= <- <-]; split; [done|apply not_elem_of_nil]|].
    destruct a as [|x a]; [by intros [[= ->] _]|]. intros [[= -> ->] Hn]. destruct Hn. left.
  - rewrite fmap_Some. split.
    + intros ([a1 b1] & Hs & [= -> ->]). apply IH in Hs as [-> Hn]. split; [done|]. rewrite not_elem_of_cons. by split; [apply not_eq_sym|].
    + destruct a as [|x a]; [by intros [[= -> _] _]|]. intros [[= -> ->] [_ Hn]%not_elem_of_cons].
      exists (a, b). split; [|done]. by apply IH.
Qed.

(** A header may have the separator in its value, and the last of a name counts. *)
Module StarknetStartWitness.
#[local] Instance example_http : HttpLibrary := {|
  parse_url := Some; parse_header_name := Some; parse_header_value := Some; header_to_str := Some |}.

Lemma headers_example :
  ofold insert_header ∅ [str "key:a"; str "key:b:c"] = Ok {[str "key" := str "b:c"]}.
Proof. reflexivity. Qed.
End StarknetStartWitness.
